(* ===== verification/_CoqProject ===== *)
-Q . S2P
Prelude.v
Memory.v
Checkpoint.v
Chains.v
SeqLog.v
TxLog.v
OrderLog.v
Reconstruct.v
Rollback.v
LogCreation.v
ReExecute.v
Options.v
BinaryReversion.v
Restore.v
Strings.v
GuidMap.v
Tracker.v
AddrTrace.v
TraceType.v
Monitor.v
Tracing.v
Concurrency.v
React.v
Layout.v
Path.v
Detector.v
Scope.v
Matcher.v
Slice.v
SliceGraph.v
Dump.v
ComputeSlices.v
SliceOrder.v
DgWalk.v
Slicer.v
SliceFault.v
DefUse.v
Extractor.v
Instrument.v
Pipeline.v
Prepare.v
Service.v
SlicingPass.v
SlicerTool.v
Tools.v
InstrumentorTool.v
Causes.v
Entries.v
EndToEnd.v
