(* ===== verification/Prelude.v ===== *)
(** * Arthas: a verification library

    Arthas reacts to hard faults of programs with persistent memory: faults that come
    back after a restart because the bad state is persistent.  The program under test
    is analysed and instrumented; at run time a tracker records the addresses of its
    accesses to persistent memory and a checkpoint library keeps old versions of the
    data.  After a fault the reactor slices from the fault instruction, finds the
    checkpointed updates made by the instructions of the slices, reverts some of them
    in the pool file, and runs the program again, until it succeeds.

    Parts and their files:

    The checkpoint and its reversal (src/reactor/lib/{checkpoint,rollback}.c,
    src/reactor/lib/core.cpp):
    - [Memory]: the address space, heap bytes and the window of the mapped pool;
    - [Checkpoint], [Chains]: the records of checkpoint.h and the chains of the three
      hash tables, over the class [Keyed] of nodes with a key;
    - [SeqLog], [TxLog]: the tables by sequence number and by transaction;
    - [OrderLog], [Reconstruct], [LogCreation]: building the tables from the
      checkpoint, reading the checkpoint file back after it was mapped elsewhere, and
      the creation functions of core.cpp;
    - [Rollback]: reverting entries and undoing it; [ReExecute]: running the program
      again, over the class [Environment] of what [system] and [pmemobj_open] do;
    - [BinaryReversion]: the search for entries whose reversion helps; [Restore]: the
      composition from the checkpoint to an undoable log;
    - [React]: the driver [Reactor::react] from the opened pool on; [Layout]: tables with
      the same entries as an equivalence that every operation of the reaction respects.

    The address trace (src/analyzer/runtime, src/analyzer/{include,lib}/Instrument,
    core.cpp):
    - [GuidMap]: the file that says where the instruction of a guid is;
    - [Tracker]: the tracked process as a state machine over its file, the signal
      handlers and the background thread;
    - [AddrTrace]: the parser of the tracker's lines, pools and offsets, and the class
      [Matcher] of what it needs of the matcher; [TraceType]: the typing of traces;
    - [Monitor]: polling the trace file; [Tracing]: the monitor on the file of a running
      process; [Concurrency]: the requests of a server, which wait for the trace and
      for the dependence graph under two mutexes;
    - [Pipeline]: instrumenter, tracker, monitor and processing together.

    The analyzer (src/analyzer):
    - [Strings], [Path]: the utilities; [Scope], [Matcher]: from source lines and texts
      to instructions, the instance of the class of [AddrTrace], with what an answer
      is in general: a look-alike of the described instruction;
    - [Slice], [SliceGraph], [ComputeSlices], [SliceOrder]: slices, slice graphs, the
      computation of slices and the order of edges; [DgWalk]: building a slice graph
      from a dependence graph; [Slicer]: the slicer and [slice_fault_instr];
      [SliceFault]: their composition;
    - [Dump]: the printed form of slices and slice graphs;
    - [DefUse], [Extractor]: users of values, and persistent variables;
    - [Instrument]: the instrumenter, its pass and the parts of its tool; [SlicingPass]:
      the slicing pass, which composes slicer, locator and instrumenter;
    - the command line tools: [InstrumentorTool], [SlicerTool], and in [Tools] the
      reports of the persistent variable pass, the extractor, the locator and the
      analyzer.

    Across the parts: [Causes], from the traced run and the slices to the updates the
    reaction considers; [Entries], what the creation functions put into the tables,
    for tables of any size; [EndToEnd], from the instrumented program and the
    checkpoint to the reaction.

    The processes: [Options] (command line), [Prepare] ([Reactor::prepare], locating the
    fault instruction, slicing criteria), [Service] (server, client and stand-alone
    reactor end to end), [Detector] (src/detector).

    Each file has one Module of its name (two or three Modules inside where it has
    several parts); a Record has the fields of the class or struct, a Definition the
    name of the function it translates.

    Conventions:

    Machine integers are [Z] with the wrap-around written out ([u64], [s32], [u32]).
    [None] is undefined behaviour: an access out of bounds, a null or deleted pointer,
    an uninitialised value that is used.  Values that are not initialised but harmless
    are parameters named [garbage].  Objects shared by pointer live in an explicit
    store; a pointer is an index into it.  Threads are step relations in which a step
    is what one thread does without giving up the mutex.  Exceptions and early exits
    are constructors of result types.  Output to terminals is left out.

    Fuel bounds the loops that are not structural.  [ComputeSlices.computeSlices] and
    [DgWalk.build] need the number of nodes, [DefUse.UserGraph] the number of values,
    [BinaryReversion.binary_reversion] three nested calls, as the theorems prove;
    [ReExecute.re_execute] needs the attempts left, and its naive mode is proved to use
    up every fuel.  Running out is a value of its own, so that a theorem about a result
    never holds for lack of one.

    What the theorems show:

    - The system as a whole: the program is instrumented, run and monitored, the trace
      processed, the fault instruction sliced, the tables are built and the reaction
      runs; the updates it considers are those of the checkpoint at addresses that the
      program accessed with an instruction the fault depends on, no others, and all of
      them when no reversion helps ([EndToEnd], over [Pipeline], [SliceFault], [Entries],
      [Layout] and [Causes]).  The instruction of an access is the answer of the matcher
      of [Matcher] on the module the reactor reads, which [Instrument.identified]
      describes; it is the executed instruction when nothing else on the line looks like
      it.
    - Safety of the reaction: a batch of reversions is undone byte for byte
      ([Rollback], [BinaryReversion.attempt_undone] also across a run of the program
      and another mapping of the pool), from the checkpoint file on ([Restore]); the
      search ends after at most four runs and reports the result of the last; the driver
      is equivalent to a reference that tries batches of new candidates ([React]), and
      its outcome does not depend on how the tables are laid out ([Layout]).
    - Data structures: the sequence log is a finite map, the transaction log a map to
      stacks, the slice graph an adjacency map; reconstruction rebases every pointer.
    - Files: guid map, trace and instrumentation read back what was written, end to end
      from the inserted hook to the answer of the matcher for its instruction
      ([Instrument.instrumented_addresses_resolve]); monitoring in pieces parses the
      same items as reading at once; and with a process that runs, is polled with the
      file at rest and ends even by a signal, the processed trace is the executed hooks
      with these answers and their offsets ([Pipeline.live_trace_resolves]).
    - States: a trace is well-typed whatever built it ([TraceType]); when the tracker could
      be initialised its file is a prefix of the accesses and all of them at the end
      ([Tracker]), and the monitor follows it when the file is at rest in each poll and no
      access is to a null address ([Tracing]).
    - Analysis: slices hold exactly what the fault depends on, the locator finds exactly
      the persistent variables, the passes instrument exactly those that are asked for;
      the slicer tool refines the slicing pass down to the program it writes, the extractor and the instrumentor find
      what one pass over the points-to sets derives ([Tools], [InstrumentorTool]).
    - Processes: the trace is processed once, every request is answered when it can be
      processed and none when it cannot, the dependences are computed once, a handler
      finds the reactor ready; exit codes and replies, and where they are wrong.
    - Faults of the code are theorems as well: they state what it does, and the list of
      findings beside the library refers to them.

    Not modelled:

    LLVM, the dependence graph library (third-party/dg), PMDK, gRPC and [getopt_long]
    are parameters with what the code relies on as hypotheses.  The files under
    analyzer/future are copies of LLVM sources.  Reading and writing bitcode, usage
    texts, progress messages, the opening of output_log and the scripts around the tools are
    left out.  Data races on flags that are read without a lock are modelled as
    sequentially consistent, and the processing of a trace under its lock as one step,
    although the monitor adds items without the lock. *)
From stdpp Require Export base tactics option list gmap sets strings sorting.
From stdpp Require Export numbers list_numbers.
From Stdlib Require Export ZArith Lia.

#[global] Open Scope Z_scope.

(** ** Machine integers *)

(** Conversion of a mathematical integer to [uint64_t] / [size_t]. *)
Definition u64 (z : Z) : Z := z mod 2 ^ 64.

(** Conversion of a mathematical integer to a 32-bit [int] (two's complement). *)
Definition s32 (z : Z) : Z := (z + 2 ^ 31) mod 2 ^ 32 - 2 ^ 31.

(** Conversion to [uint32_t] / [unsigned]. *)
Definition u32 (z : Z) : Z := z mod 2 ^ 32.

Abbreviation in_s32 z := (- 2 ^ 31 <= z < 2 ^ 31).
Abbreviation in_u64 z := (0 <= z < 2 ^ 64).

Lemma u64_small z : in_u64 z -> u64 z = z.
Proof. intros. unfold u64. apply Z.mod_small. lia. Qed.

Lemma u64_range z : in_u64 (u64 z).
Proof. unfold u64. apply Z.mod_pos_bound. lia. Qed.

Lemma s32_small z : in_s32 z -> s32 z = z.
Proof. intros. unfold s32. rewrite Z.mod_small; lia. Qed.

Lemma s32_range z : in_s32 (s32 z).
Proof.
  unfold s32. pose proof (Z.mod_pos_bound (z + 2 ^ 31) (2 ^ 32)) as H. lia.
Qed.

Lemma u64_idemp z : u64 (u64 z) = u64 z.
Proof. apply u64_small, u64_range. Qed.

(** Integers known to be small: [small] removes the wrapping that does nothing. *)
Create HintDb machine.
Create Rewrite HintDb machine.
#[export] Hint Rewrite u64_small s32_small using lia : machine.
#[export] Hint Resolve u64_range s32_range : machine.
Ltac small := autorewrite with machine.

(** Lengths: [len] proves a goal about the length of a list by computing it. *)
Create Rewrite HintDb len.
#[export] Hint Rewrite @length_app @length_fmap @length_take @length_drop @length_insert @length_replicate @length_zip @length_seq : len.
Ltac len := autorewrite with len in *; simpl in *; lia.

(** The binds of [option] whose first part is known. *)
Ltac simpl_bind := cbn [mbind option_bind].

(** Rebasing a pointer: the two wrapping operations cancel. *)
Lemma u64_rebase p old new : u64 (new + u64 (p - old)) = u64 (p - old + new).
Proof. unfold u64. rewrite Z.add_mod_idemp_r by lia. f_equal. lia. Qed.

(** ** Arrays indexed by a machine integer

    [None] is the out-of-range access, undefined behaviour in C. *)
Definition zget {A} (l : list A) (i : Z) : option A :=
  if decide (0 <= i) then l !! Z.to_nat i else None.

Definition zset {A} (l : list A) (i : Z) (x : A) : option (list A) :=
  if decide (0 <= i < Z.of_nat (length l)) then Some (<[Z.to_nat i := x]> l) else None.

Lemma zget_Some_range {A} (l : list A) i x :
  zget l i = Some x -> 0 <= i < Z.of_nat (length l).
Proof.
  unfold zget. case_decide; [|done]. intros ?%lookup_lt_Some. lia.
Qed.

Lemma zget_nat {A} (l : list A) (n : nat) : zget l (Z.of_nat n) = l !! n.
Proof. unfold zget. rewrite decide_True by lia. by rewrite Nat2Z.id. Qed.

Lemma zget_in_range {A} (l : list A) i :
  0 <= i < Z.of_nat (length l) -> is_Some (zget l i).
Proof.
  intros. unfold zget. rewrite decide_True by lia. apply lookup_lt_is_Some. lia.
Qed.

Lemma zset_Some {A} (l l' : list A) i x :
  zset l i x = Some l' ->
  0 <= i < Z.of_nat (length l) /\ l' = <[Z.to_nat i := x]> l /\ length l' = length l.
Proof.
  unfold zset. case_decide; [|done]. intros [= <-]. rewrite length_insert. done.
Qed.

Lemma zset_total {A} (l : list A) i x :
  0 <= i < Z.of_nat (length l) -> zset l i x = Some (<[Z.to_nat i := x]> l).
Proof. intros H. unfold zset. by rewrite decide_True. Qed.

Lemma zget_insert {A} (l : list A) i x k :
  0 <= i < Z.of_nat (length l) -> 0 <= k ->
  zget (<[Z.to_nat i := x]> l) k = if decide (k = i) then Some x else zget l k.
Proof.
  intros Hi Hk. unfold zget. rewrite decide_True by lia. case_decide as Hd.
  - subst. by rewrite list_lookup_insert_eq by lia.
  - rewrite list_lookup_insert_ne by lia. by rewrite decide_True by lia.
Qed.

(** ** Lists of lists *)
Lemma elem_of_concat {A} (x : A) (ls : list (list A)) :
  x ∈ concat ls <-> exists c, (exists p, ls !! p = Some c) /\ x ∈ c.
Proof.
  rewrite list_elem_of_In, in_concat. split.
  - intros (c & Hc & Hx). exists c. split; [|by apply list_elem_of_In].
    apply list_elem_of_In, list_elem_of_lookup in Hc. done.
  - intros (c & Hc & Hx). exists c. split; [|by apply list_elem_of_In].
    apply list_elem_of_In, list_elem_of_lookup. done.
Qed.

Lemma NoDup_concat_elem {A} (ls : list (list A)) i c :
  NoDup (concat ls) -> ls !! i = Some c -> NoDup c.
Proof.
  revert i. induction ls as [|d ls IH]; intros i; [done|]. simpl.
  intros (Hd & _ & Hls)%NoDup_app. destruct i as [|i]; simpl; [by intros [= <-]|by apply IH].
Qed.

Lemma NoDup_concat_disjoint {A} (ls : list (list A)) i j c d x :
  NoDup (concat ls) -> ls !! i = Some c -> ls !! j = Some d -> i <> j -> x ∈ c -> x ∉ d.
Proof.
  revert i j. induction ls as [|e ls IH]; intros i j; [done|]. simpl.
  intros (He & Hdis & Hls)%NoDup_app Hi Hj Hne Hx Hd.
  destruct i as [|i], j as [|j]; simpl in *; [done| | |].
  - injection Hi as <-. apply (Hdis x Hx). apply elem_of_concat. eauto.
  - injection Hj as <-. apply (Hdis x Hd). apply elem_of_concat. eauto.
  - eapply (IH i j); eauto.
Qed.

(** ** Loops

    [mfold f b l] runs the loop body [f] on the elements of [l] in order; the
    body may fail.  A [for (i = lo; i < hi; i++)] loop is [mfold] over
    [seqZ lo (hi - lo)]. *)
Fixpoint mfold {A B} (f : B -> A -> option B) (b : B) (l : list A) : option B :=
  match l with
  | [] => Some b
  | x :: l' => b' ← f b x; mfold f b' l'
  end.

Lemma mfold_app {A B} (f : B -> A -> option B) b l1 l2 :
  mfold f b (l1 ++ l2) = b' ← mfold f b l1; mfold f b' l2.
Proof.
  revert b. induction l1 as [|x l1 IH]; intros b; simpl; [done|].
  destruct (f b x); simpl; [apply IH|done].
Qed.

(** The loop rule: an invariant of the processed prefix, preserved by a body
    that does not fail, holds at the end of a loop that does not fail. *)
Lemma mfold_total {A B} (f : B -> A -> option B) (I : list A -> B -> Prop) (l : list A) b :
  I [] b ->
  (forall l1 x l2 b1, l = l1 ++ x :: l2 -> I l1 b1 ->
     exists b2, f b1 x = Some b2 /\ I (l1 ++ [x]) b2) ->
  exists b', mfold f b l = Some b' /\ I l b'.
Proof.
  intros H0 Hstep.
  enough (forall l2 l1 b1, l = l1 ++ l2 -> I l1 b1 ->
            exists b', mfold f b1 l2 = Some b' /\ I (l1 ++ l2) b') as H.
  { apply (H l [] b eq_refl H0). }
  induction l2 as [|x l2 IH]; intros l1 b1 Hl HI; simpl.
  - rewrite app_nil_r. eauto.
  - destruct (Hstep _ _ _ _ Hl HI) as (b2 & -> & HI2). simpl.
    destruct (IH (l1 ++ [x]) b2) as (b' & Hb' & HI'); [by rewrite <- app_assoc|done|].
    rewrite <- app_assoc in HI'. eauto.
Qed.

(** The partial-correctness form. *)
Lemma mfold_inv {A B} (f : B -> A -> option B) (I : list A -> B -> Prop) (l : list A) b b' :
  I [] b ->
  (forall l1 x l2 b1 b2, l = l1 ++ x :: l2 -> I l1 b1 -> f b1 x = Some b2 -> I (l1 ++ [x]) b2) ->
  mfold f b l = Some b' -> I l b'.
Proof.
  intros H0 Hstep.
  enough (forall l2 l1 b1, l = l1 ++ l2 -> I l1 b1 ->
            mfold f b1 l2 = Some b' -> I (l1 ++ l2) b') as H.
  { apply (H l [] b eq_refl H0). }
  induction l2 as [|x l2 IH]; intros l1 b1 Hl HI; simpl.
  - intros [= <-]. by rewrite app_nil_r.
  - intros (b2 & Hf & Hm)%bind_Some.
    rewrite cons_middle, app_assoc. eapply IH; [by rewrite <- app_assoc| |exact Hm].
    by eapply Hstep.
Qed.

(** A loop nested in a loop is one loop over the pairs. *)
Lemma mfold_nested {A B C} (f : A -> C -> B -> option B) (g : A -> list C) b (l : list A) :
  mfold (fun b x => mfold (fun b y => f x y b) b (g x)) b l =
  mfold (fun b p => f p.1 p.2 b) b (l ≫= fun x => pair x <$> g x).
Proof.
  revert b. induction l as [|x l IH]; intros b; simpl; [done|].
  rewrite mfold_app.
  assert (forall c, mfold (fun b p => f p.1 p.2 b) b (pair x <$> c) =
                    mfold (fun b y => f x y b) b c) as ->.
  { intros c. revert b. induction c as [|y c IHc]; intros b; simpl; [done|].
    destruct (f x y b); simpl; [apply IHc|done]. }
  destruct (mfold _ b (g x)); simpl; [apply IH|done].
Qed.

(** A loop over the first [n] cells of an array runs its body on their values. *)
Lemma mfold_index {A B} (f : B -> A -> option B) b (l : list A) n :
  0 <= n <= Z.of_nat (length l) ->
  mfold (fun b i => x ← zget l i; f b x) b (seqZ 0 n) = mfold f b (take (Z.to_nat n) l).
Proof.
  intros Hn. rewrite <- (Z2Nat.id n) at 1 by lia.
  assert (Z.to_nat n <= length l)%nat as Hk by lia. clear Hn.
  generalize dependent (Z.to_nat n). clear n. intros k.
  induction k as [|k IH]; intros Hk; [done|].
  rewrite seqZ_S, mfold_app, IH by lia. rewrite Z.add_0_l.
  destruct (lookup_lt_is_Some_2 l k) as [x Hx]; [lia|].
  rewrite (take_S_r _ _ _ Hx), mfold_app. destruct (mfold f b (take k l)); simpl; [|done].
  by rewrite zget_nat, Hx.
Qed.

Lemma mfold_ext {A B} (f g : B -> A -> option B) b (l : list A) :
  (forall b x, x ∈ l -> f b x = g b x) -> mfold f b l = mfold g b l.
Proof.
  revert b. induction l as [|x l IH]; intros b H; simpl; [done|].
  rewrite H by left. destruct (g b x); simpl; [|done]. apply IH.
  intros b' y Hy. apply H. by right.
Qed.

Lemma omap_reverse {A B} (f : A -> option B) (l : list A) :
  omap f (reverse l) = reverse (omap f l).
Proof.
  induction l as [|x l IH]; [done|]. rewrite reverse_cons, omap_app, IH. simpl.
  destruct (f x); simpl; [by rewrite reverse_cons|by rewrite app_nil_r].
Qed.

(** The same over two arrays read in step. *)
Lemma mfold_index2 {A B C} (f : C -> A -> B -> option C) c (l1 : list A) (l2 : list B) n :
  n = Z.of_nat (length l1) -> length l1 = length l2 ->
  mfold (fun c i => x ← zget l1 i; y ← zget l2 i; f c x y) c (seqZ 0 n) =
  mfold (fun c xy => f c xy.1 xy.2) c (zip l1 l2).
Proof.
  intros -> Hl. rewrite <- (firstn_all (zip l1 l2)), length_zip, <- Hl, Nat.min_id.
  rewrite <- (Nat2Z.id (length l1)) at 2.
  rewrite <- mfold_index by (rewrite length_zip; lia).
  apply mfold_ext. intros c' i Hi%elem_of_seqZ.
  rewrite <- (Z2Nat.id i) by lia. rewrite !zget_nat.
  destruct (lookup_lt_is_Some_2 l1 (Z.to_nat i)) as [x Hx]; [lia|].
  destruct (lookup_lt_is_Some_2 l2 (Z.to_nat i)) as [y Hy]; [lia|].
  rewrite lookup_zip_with, Hx, Hy. done.
Qed.

(** A loop that overwrites the first [n] cells one by one. *)
Lemma mfold_update {A} (f : A -> option A) (g : A -> A) (l : list A) n :
  0 <= n <= Z.of_nat (length l) -> (forall x, x ∈ l -> f x = Some (g x)) ->
  mfold (fun l i => x ← zget l i; y ← f x; zset l i y) l (seqZ 0 n) =
  Some ((g <$> take (Z.to_nat n) l) ++ drop (Z.to_nat n) l).
Proof.
  intros Hn Hf. rewrite <- (Z2Nat.id n) at 1 by lia.
  assert (Z.to_nat n <= length l)%nat as Hk by lia. clear Hn.
  generalize dependent (Z.to_nat n). clear n. intros k.
  induction k as [|k IH]; intros Hk; [done|].
  rewrite seqZ_S, mfold_app, IH by lia. rewrite Z.add_0_l. cbn [mfold mbind option_bind].
  destruct (lookup_lt_is_Some_2 l k) as [x Hx]; [lia|].
  rewrite (take_S_r _ _ _ Hx), (drop_S _ _ _ Hx), fmap_app.
  assert (length (g <$> take k l) = k) as Hlen by (rewrite length_fmap, length_take; lia).
  rewrite zget_nat, list_lookup_middle by done. simpl_bind.
  rewrite Hf by (by eapply list_elem_of_lookup_2). simpl_bind.
  rewrite zset_total by (rewrite length_app, Hlen; simpl; lia).
  rewrite Nat2Z.id, insert_app_r_alt, Hlen, Nat.sub_diag by lia. simpl.
  by rewrite <- app_assoc.
Qed.

(** ** Lists *)

Lemma size_list_to_set_le `{Countable A} (l : list A) : (size (list_to_set l : gset A) <= length l)%nat.
Proof.
  induction l as [|x l IH]; cbn [list_to_set length]; [by rewrite size_empty|].
  rewrite size_union_alt, size_singleton. assert (size (list_to_set l ∖ {[ x ]} : gset A) <= size (list_to_set l : gset A))%nat; [|lia].
  apply subseteq_size. set_solver.
Qed.

Lemma length_omap_le {A B} (f : A -> option B) l : (length (omap f l) <= length l)%nat.
Proof. induction l as [|x l IH]; cbn; [lia|]. destruct (f x); cbn; lia. Qed.

Lemma omap_S {B} (f : nat -> option B) (k : list nat) : omap f (S <$> k) = omap (fun i => f (S i)) k.
Proof. induction k as [|i k IH]; [done|]. cbn. destruct (f (S i)); [f_equal|]; exact IH. Qed.

Lemma omap_seq {A} (l : list A) : omap (fun i => l !! i) (seq 0 (length l)) = l.
Proof.
  induction l as [|x l IH]; [done|]. cbn [length seq omap list_omap lookup list_lookup]. f_equal.
  rewrite <- fmap_S_seq, omap_S. exact IH.
Qed.

Lemma mapM_app_option {A B} (f : A -> option B) l1 l2 :
  mapM f (l1 ++ l2) = a ← mapM f l1; b ← mapM f l2; Some (a ++ b).
Proof.
  induction l1 as [|x l1 IH]; cbn [app mapM]; [cbn; by destruct (mapM f l2)|].
  destruct (f x) as [y|]; [|done]. simpl_bind. rewrite IH.
  destruct (mapM f l1) as [ys|]; [|done]. cbn. by destruct (mapM f l2).
Qed.

Lemma mfold_all {A B C} (f : A -> option B) (h : C -> B -> C) (l : list A) (ys : list B) c :
  Forall2 (fun x y => f x = Some y) l ys -> mfold (fun c x => y ← f x; Some (h c y)) c l = Some (foldl h c ys).
Proof. intros Hl. revert c. induction Hl as [|x y l ys Hx Hl IH]; intros c; cbn [mfold foldl]; [done|]. rewrite Hx. apply IH. Qed.

Lemma mfold_bind {A B C} (f : C -> B -> option C) (g : A -> list B) acc (l : list A) :
  mfold f acc (l ≫= g) = mfold (fun acc x => mfold f acc (g x)) acc l.
Proof.
  revert acc. induction l as [|x l IH]; intros acc; [done|]. cbn [mbind list_bind mfold]. rewrite mfold_app.
  destruct (mfold f acc (g x)); [apply IH|done].
Qed.
