(* ===== verification/Memory.v ===== *)
(** * The address space the reactor works on

    A byte-addressed memory with two regions: ordinary heap cells, and one
    window onto the persistent pool file.  The pool bytes are stored by offset,
    so closing the pool and mapping it again at another address (what
    [pmemobj_close] / [pmemobj_open] do between two re-executions) moves the
    window and keeps the bytes.  [None] is the undefined behaviour of C: an
    access to an unmapped byte, or a [memcpy] between overlapping areas. *)
From stdpp Require Import base list gmap.
From Stdlib Require Import Init.Byte.
From S2P Require Import Prelude.

Record memory := Mem {
  heap : gmap Z byte;          (* bytes of malloc'ed blocks and of other mappings *)
  brk : Z;                     (* first address malloc has not handed out *)
  pool : gmap Z byte;          (* contents of the pool file, by offset *)
  pool_len : Z;                (* length of the mapping *)
  pool_base : option Z         (* where the pool is mapped, when it is open *)
}.

(** The offset an address designates in the pool, when it lies in the window. *)
Definition pool_off (m : memory) (a : Z) : option Z :=
  match pool_base m with
  | Some b => if decide (b <= a < b + pool_len m) then Some (a - b) else None
  | None => None
  end.

Definition mem_get (m : memory) (a : Z) : option byte :=
  match pool_off m a with
  | Some o => pool m !! o
  | None => heap m !! a
  end.

Definition set_heap (m : memory) (h : gmap Z byte) : memory :=
  Mem h (brk m) (pool m) (pool_len m) (pool_base m).

Definition set_pool (m : memory) (p : gmap Z byte) : memory :=
  Mem (heap m) (brk m) p (pool_len m) (pool_base m).

Definition set_base (m : memory) (b : option Z) : memory :=
  Mem (heap m) (brk m) (pool m) (pool_len m) b.

(** A store of one byte; the target must be mapped. *)
Definition mem_set (m : memory) (a : Z) (v : byte) : option memory :=
  match mem_get m a with
  | None => None
  | Some _ =>
    match pool_off m a with
    | Some o => Some (set_pool m (<[o := v]> (pool m)))
    | None => Some (set_heap m (<[a := v]> (heap m)))
    end
  end.

Fixpoint load_bytes (m : memory) (a : Z) (n : nat) : option (list byte) :=
  match n with
  | O => Some []
  | S n' => v ← mem_get m a; vs ← load_bytes m (a + 1) n'; Some (v :: vs)
  end.

Fixpoint store_bytes (m : memory) (a : Z) (vs : list byte) : option memory :=
  match vs with
  | [] => Some m
  | v :: vs' => m' ← mem_set m a v; store_bytes m' (a + 1) vs'
  end.

(** [memcpy(dst, src, n)]; overlapping areas are undefined behaviour. *)
Definition memcpy (m : memory) (dst src n : Z) : option memory :=
  if decide (0 < n /\ Z.abs (dst - src) < n) then None
  else vs ← load_bytes m src (Z.to_nat n); store_bytes m dst vs.

(** Byte [i] of a zero-filled block. *)
Fixpoint zero_fill (h : gmap Z byte) (a : Z) (n : nat) : gmap Z byte :=
  match n with
  | O => h
  | S n' => zero_fill (<[a := x00]> h) (a + 1) n'
  end.

(** [malloc(n)]: a fresh block.  The allocator hands out addresses upwards;
    the (indeterminate) contents of a fresh block are zeros here, and every
    block the reactor allocates for data is filled by [memcpy] at once. *)
Definition malloc (m : memory) (n : Z) : Z * memory :=
  (brk m, Mem (zero_fill (heap m) (brk m) (Z.to_nat n)) (brk m + Z.max n 1)
              (pool m) (pool_len m) (pool_base m)).

(** ** Pointwise facts *)

(** [a] lies in the [n] bytes that start at [p]. *)
Definition in_area (p n a : Z) : Prop := p <= a < p + n.
#[export] Instance in_area_dec p n a : Decision (in_area p n a).
Proof. unfold in_area. apply _. Defined.

Definition disjoint_areas (p n q k : Z) : Prop := forall a, in_area p n a -> ~ in_area q k a.

Lemma disjoint_areas_iff p n q k :
  disjoint_areas p n q k <-> n <= 0 \/ k <= 0 \/ p + n <= q \/ q + k <= p.
Proof.
  unfold disjoint_areas, in_area. split.
  - intros H. destruct (decide (n <= 0)); [lia|]. destruct (decide (k <= 0)); [lia|].
    destruct (decide (p <= q)).
    + pose proof (H q). lia.
    + pose proof (H p). lia.
  - lia.
Qed.

Lemma pool_off_inj m a b o : pool_off m a = Some o -> pool_off m b = Some o -> a = b.
Proof.
  unfold pool_off. destruct (pool_base m) as [pb|]; [|done].
  do 2 (case_decide; [|done]). intros [= <-] [=]. lia.
Qed.

Lemma mem_set_get m a v m' x :
  mem_set m a v = Some m' ->
  mem_get m' x = if decide (x = a) then Some v else mem_get m x.
Proof.
  unfold mem_set, mem_get.
  destruct (pool_off m a) as [o|] eqn:Ho.
  - destruct (pool m !! o) eqn:Hp; [|done]. intros [= <-].
    unfold set_pool, pool_off in *; simpl in *.
    destruct (pool_base m) as [pb|]; [|done].
    case_decide; [|done]. simplify_eq.
    destruct (decide (x = a)) as [->|].
    + rewrite decide_True by lia. apply lookup_insert_eq.
    + case_decide; [|done]. rewrite lookup_insert_ne by lia. done.
  - destruct (heap m !! a) eqn:Hp; [|done]. intros [= <-].
    unfold set_heap, pool_off in *; simpl in *.
    destruct (decide (x = a)) as [->|].
    + rewrite Ho. apply lookup_insert_eq.
    + destruct (match pool_base m with Some _ => _ | None => _ end); [done|].
      by rewrite lookup_insert_ne by done.
Qed.

(** What a memory keeps under stores: the layout and the set of mapped bytes. *)
Record same_layout (m m' : memory) : Prop := SameLayout {
  ly_base : pool_base m' = pool_base m;
  ly_len : pool_len m' = pool_len m;
  ly_brk : brk m' = brk m;
  ly_mapped : forall a, is_Some (mem_get m' a) <-> is_Some (mem_get m a);
  ly_hdom : forall a, is_Some (heap m' !! a) <-> is_Some (heap m !! a);
  ly_pdom : forall a, is_Some (pool m' !! a) <-> is_Some (pool m !! a)
}.

#[export] Instance same_layout_refl : Reflexive same_layout.
Proof. done. Qed.
#[export] Instance same_layout_trans : Transitive same_layout.
Proof.
  intros m1 m2 m3 [] []; split; try congruence; intros; etrans; eauto.
Qed.

Lemma mem_set_layout m a v m' : mem_set m a v = Some m' -> same_layout m m'.
Proof.
  intros H. split.
  - unfold mem_set in H. repeat case_match; by simplify_eq.
  - unfold mem_set in H. repeat case_match; by simplify_eq.
  - unfold mem_set in H. repeat case_match; by simplify_eq.
  - intros x. rewrite (mem_set_get _ _ _ _ _ H).
    unfold mem_set in H. destruct (mem_get m a) eqn:E; [|done].
    case_decide; subst; [|done]. rewrite E. split; eauto.
  - intros x. unfold mem_set in H. destruct (mem_get m a) eqn:E; [|done].
    unfold mem_get in E. destruct (pool_off m a); simplify_eq; simpl; [done|].
    rewrite lookup_insert. case_decide; subst; [|done]. rewrite E. split; eauto.
  - intros x. unfold mem_set in H. destruct (mem_get m a) eqn:E; [|done].
    unfold mem_get in E. destruct (pool_off m a); simplify_eq; simpl; [|done].
    rewrite lookup_insert. case_decide; subst; [|done]. rewrite E. split; eauto.
Qed.

Lemma mem_set_total m a v : is_Some (mem_get m a) -> is_Some (mem_set m a v).
Proof. unfold mem_set. intros [? ->]. destruct (pool_off m a); eauto. Qed.

Lemma load_bytes_Some m a n vs :
  load_bytes m a n = Some vs <->
  length vs = n /\ forall i, (i < n)%nat -> mem_get m (a + Z.of_nat i) = vs !! i.
Proof.
  revert a vs. induction n as [|n IH]; intros a vs; simpl.
  - split; [intros [= <-]; simpl; split; [done|lia]|].
    intros [?%nil_length_inv _]. by subst.
  - split.
    + intros (v & Hv & (vs' & Hvs & [= <-])%bind_Some)%bind_Some.
      apply IH in Hvs as [Hl Hi]. simpl. split; [lia|].
      intros [|i] Hlt; simpl.
      * by rewrite Z.add_0_r.
      * rewrite <- Hi by lia. f_equal. lia.
    + intros [Hl Hi]. destruct vs as [|v vs]; [done|]. simpl in Hl.
      pose proof (Hi 0%nat ltac:(lia)) as H0. simpl in H0. rewrite Z.add_0_r in H0.
      rewrite H0. simpl.
      assert (load_bytes m (a + 1) n = Some vs) as ->; [|done].
      apply IH. split; [lia|]. intros i Hlt.
      specialize (Hi (S i) ltac:(lia)). simpl in Hi. rewrite <- Hi. f_equal. lia.
Qed.

Lemma load_bytes_length m a n vs : load_bytes m a n = Some vs -> length vs = n.
Proof. intros [? _]%load_bytes_Some. done. Qed.

Lemma load_bytes_total m a n :
  (forall x, in_area a (Z.of_nat n) x -> is_Some (mem_get m x)) ->
  is_Some (load_bytes m a n).
Proof.
  revert a. induction n as [|n IH]; intros a H; simpl; [eauto|].
  destruct (H a) as [v Hv]; [unfold in_area; lia|]. rewrite Hv. simpl.
  destruct (IH (a + 1)) as [vs Hvs]; [|rewrite Hvs; simpl; eauto].
  intros x Hx. apply H. unfold in_area in *. lia.
Qed.

Lemma load_bytes_ext m m' a n :
  (forall x, in_area a (Z.of_nat n) x -> mem_get m' x = mem_get m x) ->
  load_bytes m' a n = load_bytes m a n.
Proof.
  revert a. induction n as [|n IH]; intros a H; simpl; [done|].
  rewrite (H a) by (unfold in_area; lia). rewrite (IH (a + 1)); [done|].
  intros x Hx. apply H. unfold in_area in *. lia.
Qed.

Lemma store_bytes_get m a vs m' x :
  store_bytes m a vs = Some m' ->
  mem_get m' x = if decide (in_area a (Z.of_nat (length vs)) x)
                 then vs !! Z.to_nat (x - a) else mem_get m x.
Proof.
  revert m a. induction vs as [|v vs IH]; intros m a; simpl.
  - intros [= ->]. rewrite decide_False; [done|]. unfold in_area. lia.
  - intros (m1 & H1 & H2)%bind_Some. rewrite (IH _ _ H2).
    rewrite (mem_set_get _ _ _ _ x H1). unfold in_area.
    destruct (decide (x = a)) as [->|].
    + rewrite decide_False by lia. rewrite decide_True by lia.
      by rewrite Z.sub_diag.
    + destruct (decide (a + 1 <= x < a + 1 + Z.of_nat (length vs))).
      * rewrite decide_True by lia.
        replace (Z.to_nat (x - a)) with (S (Z.to_nat (x - (a + 1)))) by lia. done.
      * rewrite decide_False by lia. done.
Qed.

Lemma store_bytes_layout m a vs m' : store_bytes m a vs = Some m' -> same_layout m m'.
Proof.
  revert m a. induction vs as [|v vs IH]; intros m a; simpl.
  - by intros [= ->].
  - intros (m1 & H1%mem_set_layout & H2%IH)%bind_Some. by etrans.
Qed.

Lemma store_bytes_total m a vs :
  (forall x, in_area a (Z.of_nat (length vs)) x -> is_Some (mem_get m x)) ->
  is_Some (store_bytes m a vs).
Proof.
  revert m a. induction vs as [|v vs IH]; intros m a H; simpl; [eauto|].
  destruct (mem_set_total m a v) as [m1 H1].
  { apply H. unfold in_area. simpl. lia. }
  rewrite H1. simpl. apply IH. intros x Hx.
  apply (ly_mapped _ _ (mem_set_layout _ _ _ _ H1)), H.
  unfold in_area in *. simpl. lia.
Qed.

(** ** [memcpy] *)

(** The condition under which a [memcpy] is defined. *)
Definition mapped (m : memory) (a n : Z) : Prop :=
  forall x, in_area a n x -> is_Some (mem_get m x).

Lemma mapped_layout m m' a n : same_layout m m' -> mapped m a n -> mapped m' a n.
Proof. intros L H x Hx. by apply (ly_mapped _ _ L), H. Qed.

Lemma memcpy_total m d s n :
  mapped m d n -> mapped m s n -> disjoint_areas d n s n ->
  is_Some (memcpy m d s n).
Proof.
  intros Hd Hs Hdis. rewrite disjoint_areas_iff in Hdis.
  unfold memcpy. rewrite decide_False by lia.
  destruct Hdis as [Hn|[Hn|[Hn|Hn]]].
  1,2: replace (Z.to_nat n) with O by lia; simpl; eauto.
  all: destruct (load_bytes_total m s (Z.to_nat n)) as [vs Hvs];
    [intros x Hx; apply Hs; unfold in_area in *; lia|];
    rewrite Hvs; simpl; apply store_bytes_total; intros x Hx; apply Hd;
    apply load_bytes_length in Hvs; unfold in_area in *; lia.
Qed.

Lemma memcpy_get m d s n m' x :
  memcpy m d s n = Some m' ->
  mem_get m' x = if decide (in_area d n x) then mem_get m (s + (x - d)) else mem_get m x.
Proof.
  unfold memcpy. case_decide; [done|].
  intros (vs & Hl & Hst)%bind_Some. rewrite (store_bytes_get _ _ _ _ x Hst).
  apply load_bytes_Some in Hl as [Hlen Hi]. rewrite Hlen.
  destruct (decide (in_area d n x)) as [Hx|Hx].
  - rewrite decide_True by (unfold in_area in *; lia). unfold in_area in Hx.
    rewrite <- (Hi (Z.to_nat (x - d))) by lia. f_equal. lia.
  - rewrite decide_False; [done|]. unfold in_area in *. lia.
Qed.

Lemma memcpy_layout m d s n m' : memcpy m d s n = Some m' -> same_layout m m'.
Proof.
  unfold memcpy. case_decide; [done|]. intros (vs & _ & Hst)%bind_Some.
  by eapply store_bytes_layout.
Qed.

Lemma memcpy_disjoint m d s n m' :
  memcpy m d s n = Some m' -> disjoint_areas d n s n.
Proof.
  unfold memcpy. case_decide; [done|]. intros _.
  apply disjoint_areas_iff. lia.
Qed.

Lemma memcpy_mapped m d s n m' :
  memcpy m d s n = Some m' -> mapped m d n /\ mapped m s n.
Proof.
  intros H. split; intros x Hx.
  - apply (ly_mapped _ _ (memcpy_layout _ _ _ _ _ H)).
    rewrite (memcpy_get _ _ _ _ _ x H), decide_True by done.
    unfold memcpy in H. case_decide; [done|].
    apply bind_Some in H as (vs & [Hl Hi]%load_bytes_Some & _).
    unfold in_area in Hx.
    specialize (Hi (Z.to_nat (x - d)) ltac:(lia)). rewrite Z2Nat.id in Hi by lia.
    rewrite Hi. apply lookup_lt_is_Some. lia.
  - unfold memcpy in H. case_decide; [done|].
    apply bind_Some in H as (vs & [Hl Hi]%load_bytes_Some & _).
    unfold in_area in Hx.
    specialize (Hi (Z.to_nat (x - s)) ltac:(lia)). rewrite Z2Nat.id in Hi by lia.
    replace (s + (x - s)) with x in Hi by lia.
    rewrite Hi. apply lookup_lt_is_Some. lia.
Qed.

(** What the target holds after a copy. *)
Lemma memcpy_load m d s n m' :
  0 <= n -> memcpy m d s n = Some m' ->
  load_bytes m' d (Z.to_nat n) = load_bytes m s (Z.to_nat n).
Proof.
  intros Hn H. pose proof (memcpy_mapped _ _ _ _ _ H) as [_ Hs].
  destruct (load_bytes_total m s (Z.to_nat n)) as [vs Hvs].
  { intros x Hx. apply Hs. unfold in_area in *. lia. }
  rewrite Hvs. apply load_bytes_Some. apply load_bytes_Some in Hvs as [Hl Hi].
  split; [done|]. intros i Hlt. rewrite (memcpy_get _ _ _ _ _ _ H).
  rewrite decide_True by (unfold in_area; lia). rewrite <- Hi by done. f_equal. lia.
Qed.

(** ** Memories with the same visible bytes

    The equivalence the rollback theorems use: same layout, same bytes outside
    a set of scratch areas [X]. *)
Definition agree_off (X : Z -> Prop) (m m' : memory) : Prop :=
  same_layout m m' /\ forall a, ~ X a -> mem_get m' a = mem_get m a.

#[export] Instance agree_off_refl X : Reflexive (agree_off X).
Proof. done. Qed.
#[export] Instance agree_off_trans X : Transitive (agree_off X).
Proof.
  intros m1 m2 m3 [L1 H1] [L2 H2]. split; [by etrans|].
  intros a Ha. rewrite H2, H1; done.
Qed.

Lemma agree_off_weaken (X Y : Z -> Prop) m m' :
  (forall a, X a -> Y a) -> agree_off X m m' -> agree_off Y m m'.
Proof. intros H [L G]. split; [done|]. intros a Ha. apply G. intros Hx. by apply Ha, H. Qed.

Lemma memcpy_agree_off m d s n m' :
  memcpy m d s n = Some m' -> agree_off (in_area d n) m m'.
Proof.
  intros H. split; [by eapply memcpy_layout|].
  intros a Ha. rewrite (memcpy_get _ _ _ _ _ a H). by rewrite decide_False.
Qed.

(** ** [malloc] *)

(** The allocator is ahead of every mapped byte. *)
Record mem_ok (m : memory) : Prop := MemOk {
  mo_heap : forall a, is_Some (heap m !! a) -> a < brk m;
  mo_pool : forall b, pool_base m = Some b -> b + pool_len m <= brk m
}.

Lemma mem_ok_get m a : mem_ok m -> is_Some (mem_get m a) -> a < brk m.
Proof.
  intros [Hh Hp]. unfold mem_get, pool_off.
  destruct (pool_base m) as [pb|]; [|by apply Hh].
  case_decide; [|by apply Hh]. specialize (Hp pb eq_refl). lia.
Qed.

Lemma mem_ok_mapped m a n x : mem_ok m -> mapped m a n -> in_area a n x -> x < brk m.
Proof. intros Hm Ha Hx. by apply mem_ok_get, Ha. Qed.

Lemma mem_ok_layout m m' : same_layout m m' -> mem_ok m -> mem_ok m'.
Proof.
  intros [Hb Hl Hk _ Hd _] [Hh Hp]. split; intros a Ha.
  - rewrite Hk. by apply Hh, Hd.
  - rewrite Hk, Hl. apply Hp. congruence.
Qed.

Lemma zero_fill_lookup h a n x :
  zero_fill h a n !! x = if decide (in_area a (Z.of_nat n) x) then Some x00 else h !! x.
Proof.
  revert h a. induction n as [|n IH]; intros h a; simpl.
  - rewrite decide_False; [done|]. unfold in_area. lia.
  - rewrite IH. unfold in_area. destruct (decide (x = a)) as [->|].
    + rewrite decide_False by lia. rewrite decide_True by lia. apply lookup_insert_eq.
    + rewrite lookup_insert_ne by done.
      destruct (decide (a + 1 <= x < a + 1 + Z.of_nat n)).
      * by rewrite decide_True by lia.
      * by rewrite decide_False by lia.
Qed.

(** A block from [malloc] is mapped, new, and nothing else changes. *)
Record malloc_spec (m : memory) (n p : Z) (m' : memory) : Prop := MallocSpec {
  ms_ok : mem_ok m';
  ms_at : p = brk m;
  ms_brk : brk m' = p + Z.max n 1;
  ms_mapped : mapped m' p n;
  ms_keep : forall a, a < p -> mem_get m' a = mem_get m a;
  ms_pool : pool m' = pool m /\ pool_len m' = pool_len m /\ pool_base m' = pool_base m
}.

Lemma malloc_ok m n : mem_ok m -> malloc_spec m n (malloc m n).1 (malloc m n).2.
Proof.
  intros Hm. unfold malloc. simpl.
  assert (Hoff : forall a, brk m <= a -> pool_off m a = None).
  { intros a Ha. unfold pool_off. destruct (pool_base m) as [pb|] eqn:Hb; [|done].
    pose proof (mo_pool _ Hm pb Hb). case_decide; [lia|done]. }
  split; simpl; try done.
  - split; simpl.
    + intros a. rewrite zero_fill_lookup. case_decide as Ha; unfold in_area in *; [lia|].
      intros ?%(mo_heap _ Hm). lia.
    + intros b Hb. pose proof (mo_pool _ Hm b Hb). lia.
  - intros x Hx. unfold in_area in Hx. unfold mem_get.
    change (is_Some match pool_off m x with
                    | Some o => pool m !! o
                    | None => zero_fill (heap m) (brk m) (Z.to_nat n) !! x end).
    rewrite Hoff by lia. rewrite zero_fill_lookup.
    rewrite decide_True; [eauto|]. unfold in_area. lia.
  - intros a Ha. unfold mem_get.
    change (match pool_off m a with
                    | Some o => pool m !! o
                    | None => zero_fill (heap m) (brk m) (Z.to_nat n) !! a end
            = match pool_off m a with Some o => pool m !! o | None => heap m !! a end).
    destruct (pool_off m a); [done|]. rewrite zero_fill_lookup.
    rewrite decide_False; [done|]. unfold in_area. lia.
Qed.

(** A computable form of [mem_ok]. *)
Definition mem_okb (m : memory) : bool :=
  bool_decide (map_Forall (fun a _ => a < brk m) (heap m)) &&
  match pool_base m with Some b => bool_decide (b + pool_len m <= brk m) | None => true end.

Lemma mem_okb_ok m : mem_okb m = true -> mem_ok m.
Proof.
  unfold mem_okb. intros [H1 H2]%andb_true_iff. apply bool_decide_eq_true in H1. split.
  - intros a [v Ha]. by eapply (H1 a).
  - intros b Hb. rewrite Hb in H2. by apply bool_decide_eq_true in H2.
Qed.

(** Computable forms of [mapped] and [disjoint_areas]. *)
Definition mappedb (m : memory) (a n : Z) : bool :=
  match load_bytes m a (Z.to_nat n) with Some _ => true | None => false end.

Lemma mappedb_ok m a n : mappedb m a n = true -> mapped m a n.
Proof.
  unfold mappedb. destruct (load_bytes m a _) as [vs|] eqn:H; [|done]. intros _ x Hx.
  apply load_bytes_Some in H as [Hl Hi]. unfold in_area in Hx.
  specialize (Hi (Z.to_nat (x - a)) ltac:(lia)).
  replace (a + Z.of_nat (Z.to_nat (x - a))) with x in Hi by lia. rewrite Hi.
  apply lookup_lt_is_Some. lia.
Qed.

Definition disjointb (p n q k : Z) : bool :=
  bool_decide (n <= 0 \/ k <= 0 \/ p + n <= q \/ q + k <= p).

Lemma disjointb_ok p n q k : disjointb p n q k = true -> disjoint_areas p n q k.
Proof. unfold disjointb. intros H%bool_decide_eq_true. by apply disjoint_areas_iff. Qed.
