(* ===== verification/Checkpoint.v ===== *)
(** * The checkpoint data (reactor/include/checkpoint.h)

    The records of the checkpoint log and of the two hash tables the reactor
    derives from it.  Pointers are addresses of [Memory.memory]. *)
From stdpp Require Import base list.
From S2P Require Import Prelude Memory.

Definition MAX_VERSIONS : Z := 3.

(** Checkpoint log entry by logical sequence number. *)
Record single_data := SingleData {
  sd_address : Z;
  sd_offset : Z;
  sd_data : Z;
  sd_size : Z;
  sd_sequence_number : Z;
  sd_version : Z;
  sd_data_type : Z;
  sd_old_data : list Z;
  sd_old_size : list Z;
  sd_old_checkpoint_entry : Z;
  sd_new_checkpoint_entry : Z;
  sd_sorted_pmem_address : Z;
  sd_tx_id : Z
}.

(** Checkpoint log entry by address / offset. *)
Record checkpoint_data := CheckpointData {
  cd_address : Z;
  cd_offset : Z;
  cd_data : list Z;
  cd_size : list Z;
  cd_version : Z;
  cd_data_type : Z;
  cd_sequence_number : list Z;
  cd_old_checkpoint_entry : Z;
  cd_new_checkpoint_entry : Z;
  cd_free_flag : Z;
  cd_tx_id : list Z
}.

(** A node of the checkpoint log's chains; the [next] pointers are the order of
    the list that holds the nodes. *)
Record node := Node {
  nd_offset : Z;
  nd_c_data : checkpoint_data
}.

(** The checkpoint log: [cl_list] is the array of chains. *)
Record checkpoint_log := CheckpointLog {
  cl_size : Z;
  cl_variable_count : Z;
  cl_list : list (list node)
}.

Record tx_node := TxNode {
  tn_tx_id : Z;
  tn_ordered_data : single_data
}.

Record tx_log := TxLog {
  tl_size : Z;
  tl_list : list (list tx_node)
}.

Record seq_node := SeqNode {
  sn_sequence_number : Z;
  sn_ordered_data : single_data
}.

(** [sl_slots] is the number of pointers the allocation behind [list] can hold;
    the table [r_log] is allocated larger than its [size] (see [r_log_slots]). *)
Record seq_log := SeqLog {
  sl_size : Z;
  sl_slots : Z;
  sl_list : list (list seq_node)
}.

(** Field updates written as the C assignments to one member. *)
Definition set_sorted_pmem_address (d : single_data) (a : Z) : single_data :=
  SingleData (sd_address d) (sd_offset d) (sd_data d) (sd_size d)
    (sd_sequence_number d) (sd_version d) (sd_data_type d) (sd_old_data d)
    (sd_old_size d) (sd_old_checkpoint_entry d) (sd_new_checkpoint_entry d) a
    (sd_tx_id d).

Definition set_sequence_number (d : single_data) (k : Z) : single_data :=
  SingleData (sd_address d) (sd_offset d) (sd_data d) (sd_size d)
    k (sd_version d) (sd_data_type d) (sd_old_data d)
    (sd_old_size d) (sd_old_checkpoint_entry d) (sd_new_checkpoint_entry d)
    (sd_sorted_pmem_address d) (sd_tx_id d).

Definition set_tx_id (d : single_data) (t : Z) : single_data :=
  SingleData (sd_address d) (sd_offset d) (sd_data d) (sd_size d)
    (sd_sequence_number d) (sd_version d) (sd_data_type d) (sd_old_data d)
    (sd_old_size d) (sd_old_checkpoint_entry d) (sd_new_checkpoint_entry d)
    (sd_sorted_pmem_address d) t.

(** The traversal [for (int i = 0; i < (int)size; i++)] of an array of chains:
    the bound is the [size_t] converted to [int], and reading past the array is
    undefined. *)
Definition int_bound (size : Z) : nat := Z.to_nat (s32 size).

Definition scan {A} (size : Z) (chains : list (list A)) : option (list (list A)) :=
  if decide (int_bound size <= length chains)%nat
  then Some (take (int_bound size) chains) else None.

Lemma scan_full {A} size (chains : list (list A)) :
  0 <= size < 2 ^ 31 -> Z.of_nat (length chains) = size -> scan size chains = Some chains.
Proof.
  intros H Hl. unfold scan, int_bound. small.
  rewrite decide_True by lia. rewrite take_ge by lia. done.
Qed.

Lemma scan_Some {A} size (chains t : list (list A)) :
  scan size chains = Some t -> t = take (int_bound size) chains.
Proof. unfold scan. case_decide; [|done]. congruence. Qed.
