(* ===== verification/Chains.v ===== *)
(** * Arrays of chains

    The checkpoint log, the sequence log and the transaction log are all arrays
    of singly linked chains indexed by a hash of an integer key.  This file has
    the chain walks the three share (the [while (temp)] loops of
    reactor/lib/checkpoint.c and rollback.c) and their algebra; the interface a
    node type provides is its key. *)
From stdpp Require Import base list gmap.
From S2P Require Import Prelude Memory Checkpoint.

(** The key a node is filed under. *)
Class Keyed (A : Type) := key_of : A -> Z.

#[export] Instance seq_node_keyed : Keyed seq_node := sn_sequence_number.
#[export] Instance tx_node_keyed : Keyed tx_node := tn_tx_id.
#[export] Instance node_keyed : Keyed node := nd_offset.

Section chains.
Context {A : Type} `{!Keyed A}.
Implicit Types (c : list A) (ls : list (list A)) (k size : Z).

(** [while (temp) { if (temp->key == key) return temp; temp = temp->next; }] *)
Fixpoint find (k : Z) (c : list A) : option A :=
  match c with
  | [] => None
  | x :: c' => if decide (key_of x = k) then Some x else find k c'
  end.

(** The walk that updates the first match in place; [None] when it falls off
    the end of the chain without a match. *)
Fixpoint modify (k : Z) (f : A -> A) (c : list A) : option (list A) :=
  match c with
  | [] => None
  | x :: c' => if decide (key_of x = k) then Some (f x :: c')
               else r ← modify k f c'; Some (x :: r)
  end.

Lemma find_Some k c x : find k c = Some x -> x ∈ c /\ key_of x = k.
Proof.
  induction c as [|y c IH]; simpl; [done|].
  case_decide.
  - intros [= <-]. split; [left|done].
  - intros [? ?]%IH. split; [by right|done].
Qed.

Lemma find_None k c : find k c = None <-> forall x, x ∈ c -> key_of x <> k.
Proof.
  induction c as [|y c IH]; simpl.
  - split; [|done]. intros _ x Hx. by apply not_elem_of_nil in Hx.
  - case_decide as Hk.
    + split; [done|]. intros H. by destruct (H y); [left|].
    + rewrite IH. split; intros H x Hx; [|by apply H; right].
      apply elem_of_cons in Hx as [->|Hx]; [done|by apply H].
Qed.

Lemma find_unique c x :
  NoDup (key_of <$> c) -> x ∈ c -> find (key_of x) c = Some x.
Proof.
  induction c as [|y c IH]; simpl; [by intros _ ?%not_elem_of_nil|].
  intros [Hy Hc]%NoDup_cons [->|Hx]%elem_of_cons.
  - by rewrite decide_True.
  - rewrite decide_False; [by apply IH|].
    intros Heq. apply Hy. rewrite Heq. by apply list_elem_of_fmap_2.
Qed.

Lemma modify_None k f c : modify k f c = None <-> find k c = None.
Proof.
  induction c as [|y c IH]; simpl; [done|]. case_decide; [done|].
  destruct (modify k f c); simpl; rewrite <- IH; done.
Qed.

Lemma modify_Some k f c c' :
  modify k f c = Some c' ->
  exists x l1 l2, find k c = Some x /\ c = l1 ++ x :: l2 /\ c' = l1 ++ f x :: l2.
Proof.
  revert c'. induction c as [|y c IH]; intros c'; simpl; [done|].
  case_decide.
  - intros [= <-]. by exists y, [], c.
  - intros (r & Hr & [= <-])%bind_Some.
    destruct (IH _ Hr) as (x & l1 & l2 & Hx & -> & ->).
    by exists x, (y :: l1), l2.
Qed.

Lemma modify_is_Some k f c : is_Some (modify k f c) <-> is_Some (find k c).
Proof. rewrite <- !not_eq_None_Some. by rewrite modify_None. Qed.

(** An update that keeps the key keeps the keys of the chain. *)
Lemma modify_keys k f c c' :
  (forall x, key_of (f x) = key_of x) -> modify k f c = Some c' ->
  key_of <$> c' = key_of <$> c.
Proof.
  intros Hf (x & l1 & l2 & _ & -> & ->)%modify_Some.
  rewrite !fmap_app, !fmap_cons. by rewrite Hf.
Qed.

Lemma modify_find k f c c' k' :
  (forall x, key_of x = k -> key_of (f x) = k) -> modify k f c = Some c' ->
  find k' c' = if decide (k' = k) then f <$> find k c else find k' c.
Proof.
  intros Hf. revert c'. induction c as [|y c IH]; intros c'; simpl; [done|].
  destruct (decide (key_of y = k)) as [Hy|Hy].
  - intros [= <-]. simpl. rewrite Hf by done. repeat case_decide; by subst.
  - intros (r & Hr & [= <-])%bind_Some. simpl. rewrite (IH _ Hr).
    repeat case_decide; subst; done.
Qed.

(** The nested traversal [for (i ...) { temp = list[i]; while (temp) ... }]. *)
Definition walk {B} (f : B -> A -> B) (b : B) ls : B :=
  fold_left (fun b c => fold_left f c b) ls b.

Lemma walk_concat {B} (f : B -> A -> B) b ls : walk f b ls = fold_left f (concat ls) b.
Proof.
  unfold walk. revert b. induction ls as [|c ls IH]; intros b; simpl; [done|].
  by rewrite fold_left_app, IH.
Qed.

(** The same traversal with a body that may fail. *)
Fixpoint iter_walk {B} (f : B -> A -> option B) (b : B) (ls : list (list A)) : option B :=
  match ls with
  | [] => Some b
  | c :: ls' => b' ← mfold f b c; iter_walk f b' ls'
  end.

Lemma iter_walk_concat {B} (f : B -> A -> option B) b ls :
  iter_walk f b ls = mfold f b (concat ls).
Proof.
  revert b. induction ls as [|c ls IH]; intros b; simpl; [done|].
  rewrite mfold_app. destruct (mfold f b c); simpl; [apply IH|done].
Qed.

(** ** The table: chains filed by [key mod size] *)

Definition chain_of (size : Z) ls k : option (list A) := zget ls (k mod size).

Record placed (size : Z) (ls : list (list A)) : Prop := Placed {
  pl_size : 0 < size < 2 ^ 31;
  pl_len : Z.of_nat (length ls) = size;
  pl_pos : forall p c x, ls !! p = Some c -> x ∈ c -> key_of x mod size = Z.of_nat p
}.

Lemma mod_in_table size ls k :
  placed size ls -> 0 <= k mod size < Z.of_nat (length ls).
Proof. intros [Hs Hl _]. pose proof (Z.mod_pos_bound k size). lia. Qed.

Lemma chain_of_total size ls k : placed size ls -> is_Some (chain_of size ls k).
Proof. intros H. by apply zget_in_range, mod_in_table. Qed.

Lemma chain_of_Some size ls k c :
  chain_of size ls k = Some c -> 0 <= k mod size ->
  ls !! Z.to_nat (k mod size) = Some c.
Proof. unfold chain_of, zget. case_decide; done. Qed.

Lemma in_chain_of size ls k c x :
  placed size ls -> chain_of size ls k = Some c -> key_of x = k ->
  x ∈ concat ls <-> x ∈ c.
Proof.
  intros Hp Hc Hk. pose proof (mod_in_table size ls k Hp) as Hr.
  apply chain_of_Some in Hc; [|lia].
  split.
  - intros (c' & [p Hc'] & Hx)%elem_of_concat.
    pose proof (pl_pos _ _ Hp _ _ _ Hc' Hx) as Hpos. rewrite Hk in Hpos.
    rewrite Hpos, Nat2Z.id in Hc. congruence.
  - intros Hx. apply elem_of_concat. eauto.
Qed.

(** The two updates of a table: a chain whose keys are unchanged, and a chain
    with a new node in front. *)
Lemma concat_update ls p c :
  ls !! p = Some c ->
  exists a b, concat ls = a ++ c ++ b /\
              forall c', concat (<[p := c']> ls) = a ++ c' ++ b.
Proof.
  intros H. exists (concat (take p ls)), (concat (drop (S p) ls)). split.
  - rewrite <- (take_drop_middle ls p c H) at 1. by rewrite concat_app.
  - intros c'. rewrite insert_take_drop by (by eapply lookup_lt_Some).
    by rewrite concat_app.
Qed.

Lemma placed_update size ls p c c' :
  placed size ls -> ls !! p = Some c ->
  (forall x, x ∈ c' -> x ∈ c \/ key_of x mod size = Z.of_nat p) ->
  placed size (<[p := c']> ls).
Proof.
  intros [Hs Hl Hp] Hc Hc'. split; [done|by rewrite length_insert|].
  intros q d x. rewrite list_lookup_insert. case_decide as Hq; [|by apply Hp].
  destruct Hq as [-> _]. intros [= <-] [Hx|Hx]%Hc'; [|done]. by eapply Hp.
Qed.

Lemma placed_same_keys size ls p c c' :
  placed size ls -> ls !! p = Some c -> key_of <$> c' = key_of <$> c ->
  placed size (<[p := c']> ls).
Proof.
  intros Hpl Hc Hk. pose proof Hpl as [_ _ Hp].
  eapply placed_update; [done..|]. intros x Hx. right.
  assert (key_of x ∈ (key_of <$> c)) as (y & Hy & Hyc)%list_elem_of_fmap.
  { rewrite <- Hk. by apply list_elem_of_fmap_2. }
  rewrite Hy. by eapply Hp.
Qed.

Definition keys ls : list Z := key_of <$> concat ls.

Lemma elem_of_keys ls k : k ∈ keys ls <-> exists x, x ∈ concat ls /\ key_of x = k.
Proof. unfold keys. rewrite list_elem_of_fmap. split; intros (x & ? & ?); eauto. Qed.

Lemma keys_same ls p c c' :
  ls !! p = Some c -> key_of <$> c' = key_of <$> c ->
  keys (<[p := c']> ls) = keys ls.
Proof.
  intros (a & b & H1 & H2)%concat_update Hk. unfold keys.
  rewrite H1, H2, !fmap_app. by rewrite Hk.
Qed.

Lemma concat_cons_perm ls p c x :
  ls !! p = Some c -> concat (<[p := x :: c]> ls) ≡ₚ x :: concat ls.
Proof.
  intros (a & b & H1 & H2)%concat_update. rewrite H1, H2. simpl.
  symmetry. apply Permutation_middle.
Qed.

(** ** The finite map a table with distinct keys stands for *)
Section abstraction.
Context {V : Type} (val : A -> V).

Definition to_map ls : gmap Z V := list_to_map ((fun x => (key_of x, val x)) <$> concat ls).

Lemma to_map_keys ls : ((fun x => (key_of x, val x)) <$> concat ls).*1 = keys ls.
Proof. unfold keys. rewrite <- list_fmap_compose. done. Qed.

Lemma to_map_Some ls k v :
  NoDup (keys ls) ->
  to_map ls !! k = Some v <-> exists x, x ∈ concat ls /\ key_of x = k /\ val x = v.
Proof.
  intros Hn. unfold to_map. rewrite <- elem_of_list_to_map by by rewrite to_map_keys.
  rewrite list_elem_of_fmap. split.
  - intros (x & [= -> ->] & Hx). eauto.
  - intros (x & Hx & <- & <-). eauto.
Qed.

Lemma to_map_lookup size ls k c :
  placed size ls -> NoDup (keys ls) -> chain_of size ls k = Some c ->
  to_map ls !! k = val <$> find k c.
Proof.
  intros Hp Hn Hc. destruct (find k c) as [x|] eqn:Hf; simpl.
  - apply find_Some in Hf as [Hx Hk]. apply to_map_Some; [done|].
    exists x. split; [|done]. by eapply in_chain_of.
  - apply eq_None_not_Some. intros [v Hv].
    apply to_map_Some in Hv as (x & Hx & Hk & _); [|done].
    eapply (proj1 (find_None k c) Hf x); [|done]. by eapply in_chain_of.
Qed.

Lemma to_map_cons ls p c x :
  NoDup (keys ls) -> ls !! p = Some c -> key_of x ∉ keys ls ->
  to_map (<[p := x :: c]> ls) = <[key_of x := val x]> (to_map ls).
Proof.
  intros Hn Hc Hx. unfold to_map. symmetry.
  change (<[key_of x := val x]> (list_to_map ?l)) with
    (list_to_map (M := gmap Z V) ((key_of x, val x) :: l)).
  apply list_to_map_proper.
  - rewrite fmap_cons, to_map_keys. by apply NoDup_cons.
  - change ((key_of x, val x) :: ?l) with ((fun x => (key_of x, val x)) x :: l).
    rewrite <- fmap_cons. apply fmap_Permutation. symmetry. by apply concat_cons_perm.
Qed.
End abstraction.
End chains.
