(* ===== verification/SeqLog.v ===== *)
(** * The sequence log (reactor/lib/checkpoint.c)

    The hash table from logical sequence numbers to checkpoint entries, and the
    theorem that it implements a finite map on non-negative keys. *)
From stdpp Require Import base list gmap.
From S2P Require Import Prelude Memory Checkpoint Chains.

Module SeqLog.

(** [key % s_log->size]: the [int] key is converted to [size_t]; for a negative
    key the unsigned remainder is negated and converted back to [int].  [None]
    is the division by a zero size. *)
Definition hashCode (s_log : seq_log) (key : Z) : option Z :=
  if decide (sl_size s_log = 0) then None
  else Some (if decide (key < 0)
             then s32 (u64 (- (u64 key mod sl_size s_log)))
             else s32 (u64 key mod sl_size s_log)).

(** [s_log->list[pos]] *)
Definition chain_at (s_log : seq_log) (key : Z) : option (Z * list seq_node) :=
  pos ← hashCode s_log key; chain ← zget (sl_list s_log) pos; Some (pos, chain).

Definition set_chain (s_log : seq_log) (pos : Z) (chain : list seq_node) : option seq_log :=
  l ← zset (sl_list s_log) pos chain; Some (SeqLog (sl_size s_log) (sl_slots s_log) l).

(** The dead read [s_log->list[92]] at the top of [insert]. *)
Definition probe (s_log : seq_log) : option unit :=
  if decide (92 < sl_slots s_log) then Some tt else None.

Definition with_data (f : single_data -> single_data) (n : seq_node) : seq_node :=
  SeqNode (sn_sequence_number n) (f (sn_ordered_data n)).

Definition insert (s_log : seq_log) (key : Z) (ordered_data : single_data) : option seq_log :=
  _ ← probe s_log;
  '(pos, chain) ← chain_at s_log key;
  match modify key (with_data (fun _ => ordered_data)) chain with
  | Some chain' => set_chain s_log pos chain'
  | None => set_chain s_log pos (SeqNode key ordered_data :: chain)
  end.

Definition rev_lookup (s_log : seq_log) (key : Z) : option Z :=
  '(_, chain) ← chain_at s_log key;
  Some (match find key chain with Some _ => 1 | None => -1 end).

Definition lookup_modify (s_log : seq_log) (key addr : Z) : option seq_log :=
  '(pos, chain) ← chain_at s_log key;
  match modify key (with_data (fun d => set_sorted_pmem_address d addr)) chain with
  | Some chain' => set_chain s_log pos chain'
  | None => Some s_log
  end.

(** [addr] is unused by the code, which copies from the entry's own
    [sorted_pmem_address]. *)
Definition lookup_undo_save (m : memory) (s_log : seq_log) (key addr size : Z) : option memory :=
  '(_, chain) ← chain_at s_log key;
  match find key chain with
  | Some n => memcpy m (sd_data (sn_ordered_data n))
                       (sd_sorted_pmem_address (sn_ordered_data n)) size
  | None => Some m
  end.

(** [error_data] is an uninitialised local with one member set: [garbage] is
    what its other members happen to hold. *)
Definition lookup (garbage : single_data) (s_log : seq_log) (key : Z) : option single_data :=
  '(_, chain) ← chain_at s_log key;
  Some (match find key chain with
        | Some n => sn_ordered_data n
        | None => set_sequence_number garbage (-1)
        end).

(** [sequences] is the caller's array: writing past it is undefined. *)
Definition address_lookup (s_log : seq_log) (address : Z) (sequences : list Z)
  : option (list Z * Z) :=
  chains ← scan (sl_size s_log) (sl_list s_log);
  iter_walk (fun '(sequences, seq_count) temp =>
      if decide (address = sd_address (sn_ordered_data temp)) then
        sequences' ← zset sequences seq_count (sn_sequence_number temp);
        Some (sequences', seq_count + 1)
      else Some (sequences, seq_count))
    (sequences, 0) chains.

Definition count_higher (s_log : seq_log) (seq_num : Z) : option Z :=
  chains ← scan (sl_size s_log) (sl_list s_log);
  Some (walk (fun n temp => if decide (sn_sequence_number temp > seq_num) then n + 1 else n)
             0 chains).

Definition find_highest_seq_num (s_log : seq_log) : option Z :=
  chains ← scan (sl_size s_log) (sl_list s_log);
  Some (walk (fun h temp => if decide (sn_sequence_number temp > h)
                            then sn_sequence_number temp else h) (-1) chains).

(** ** Well-formed tables *)

Record wf (s_log : seq_log) : Prop := Wf {
  wf_placed : placed (sl_size s_log) (sl_list s_log);
  wf_nodup : NoDup (keys (sl_list s_log));
  wf_keys : forall n, n ∈ concat (sl_list s_log) -> 0 <= sn_sequence_number n < 2 ^ 31
}.

(** The finite map the table stands for. *)
Definition model (s_log : seq_log) : gmap Z single_data :=
  to_map sn_ordered_data (sl_list s_log).

Lemma hashCode_nonneg s k :
  0 < sl_size s < 2 ^ 31 -> 0 <= k < 2 ^ 31 -> hashCode s k = Some (k mod sl_size s).
Proof.
  intros Hs Hk. unfold hashCode. rewrite decide_False by lia. rewrite decide_False by lia.
  small. rewrite s32_small; [done|].
  pose proof (Z.mod_pos_bound k (sl_size s)). lia.
Qed.

Lemma chain_at_ok s k :
  wf s -> 0 <= k < 2 ^ 31 ->
  exists c, chain_at s k = Some (k mod sl_size s, c) /\
            chain_of (sl_size s) (sl_list s) k = Some c /\
            sl_list s !! Z.to_nat (k mod sl_size s) = Some c.
Proof.
  intros [Hp _ _] Hk. pose proof (pl_size _ _ Hp) as Hs.
  destruct (chain_of_total _ _ k Hp) as [c Hc].
  exists c. unfold chain_at. rewrite hashCode_nonneg by lia. simpl.
  unfold chain_of in Hc. rewrite Hc. simpl.
  split; [done|]. split; [done|].
  apply chain_of_Some; [done|]. pose proof (Z.mod_pos_bound k (sl_size s)). lia.
Qed.

Lemma set_chain_ok s k c c' :
  wf s -> sl_list s !! Z.to_nat (k mod sl_size s) = Some c ->
  set_chain s (k mod sl_size s) c' =
  Some (SeqLog (sl_size s) (sl_slots s) (<[Z.to_nat (k mod sl_size s) := c']> (sl_list s))).
Proof.
  intros [Hp _ _] Hc. unfold set_chain, zset.
  rewrite decide_True by (by apply mod_in_table). done.
Qed.

Lemma model_lookup s k c :
  wf s -> chain_of (sl_size s) (sl_list s) k = Some c ->
  model s !! k = sn_ordered_data <$> find k c.
Proof. intros [Hp Hn _] Hc. by eapply to_map_lookup. Qed.

Lemma model_Some s k d :
  wf s -> model s !! k = Some d ->
  exists n, n ∈ concat (sl_list s) /\ sn_sequence_number n = k /\ sn_ordered_data n = d.
Proof. intros [_ Hn _]. by intros ?%to_map_Some. Qed.

(** An in-place update of the first match is an [alter] of the map. *)
Lemma model_out_of_range s j : wf s -> ~ 0 <= j < 2 ^ 31 -> model s !! j = None.
Proof.
  intros Hs Hj. apply eq_None_not_Some. intros [v Hv].
  apply model_Some in Hv as (n & Hn' & <- & _); [|done]. by apply Hj, (wf_keys _ Hs).
Qed.

Lemma modify_wf s k f c c' :
  wf s -> 0 <= k < 2 ^ 31 -> chain_of (sl_size s) (sl_list s) k = Some c ->
  sl_list s !! Z.to_nat (k mod sl_size s) = Some c ->
  modify k (with_data f) c = Some c' ->
  let s' := SeqLog (sl_size s) (sl_slots s) (<[Z.to_nat (k mod sl_size s) := c']> (sl_list s)) in
  wf s' /\ model s' = alter f k (model s).
Proof.
  intros Hwf Hk Hc Hl Hm s'. pose proof Hwf as [Hp Hn Hr].
  assert (Hkeys : key_of <$> c' = key_of <$> c)
    by exact (modify_keys _ (with_data f) _ _ (fun x => eq_refl) Hm).
  assert (Hwf' : wf s').
  { split; simpl.
    - by eapply placed_same_keys.
    - by rewrite (keys_same _ _ _ _ Hl Hkeys).
    - intros n Hn'. assert (sn_sequence_number n ∈ keys (sl_list s)) as Hin.
      { rewrite <- (keys_same _ _ _ _ Hl Hkeys). apply elem_of_keys.
        exists n. split; [exact Hn'|reflexivity]. }
      apply elem_of_keys in Hin as (y & Hy & <-). by apply Hr. }
  split; [done|]. apply map_eq. intros j.
  destruct (decide (0 <= j < 2 ^ 31)) as [Hj|Hj].
  - destruct (chain_at_ok s j Hwf Hj) as (d & _ & Hd & Hdl).
    rewrite lookup_alter. rewrite (model_lookup _ _ _ Hwf Hd).
    destruct (decide (j mod sl_size s = k mod sl_size s)) as [He|He].
    + assert (d = c) as -> by (rewrite He in Hdl; congruence).
      assert (Hd' : chain_of (sl_size s') (sl_list s') j = Some c').
      { unfold chain_of, zget. simpl. pose proof (mod_in_table _ _ j Hp).
        rewrite decide_True by lia. rewrite He.
        apply list_lookup_insert_eq. by eapply lookup_lt_Some. }
      rewrite (model_lookup _ _ _ Hwf' Hd').
      assert (Hf : forall x, key_of x = k -> key_of (with_data f x) = k)
        by (intros x <-; reflexivity).
      rewrite (modify_find k (with_data f) c c' j Hf Hm).
      destruct (decide (j = k)) as [->|].
      * rewrite decide_True by done. rewrite (model_lookup _ _ _ Hwf Hc).
        by destruct (find k c).
      * by rewrite decide_False by lia.
    + assert (Hd' : chain_of (sl_size s') (sl_list s') j = Some d).
      { unfold chain_of, zget. simpl. pose proof (mod_in_table _ _ j Hp).
        pose proof (mod_in_table _ _ k Hp).
        rewrite decide_True by lia. rewrite list_lookup_insert_ne by lia. done. }
      rewrite (model_lookup _ _ _ Hwf' Hd'). rewrite decide_False by congruence. done.
  - by rewrite lookup_alter_ne, !model_out_of_range by (done || lia).
Qed.

(** ** Functional behaviour of the operations *)

Lemma insert_ok s k d :
  wf s -> 0 <= k < 2 ^ 31 -> 92 < sl_slots s ->
  exists s', insert s k d = Some s' /\ wf s' /\
             model s' = <[k := d]> (model s) /\
             sl_size s' = sl_size s /\ sl_slots s' = sl_slots s.
Proof.
  intros Hwf Hk Hslots. destruct (chain_at_ok s k Hwf Hk) as (c & Hc & Hch & Hl).
  unfold insert, probe. rewrite decide_True by done. simpl. rewrite Hc. simpl.
  destruct (modify k (with_data (fun _ => d)) c) as [c'|] eqn:Hm.
  - rewrite (set_chain_ok _ _ _ _ Hwf Hl). eexists. split; [done|].
    destruct (modify_wf _ _ _ _ _ Hwf Hk Hch Hl Hm) as [Hwf' ->].
    split; [done|]. split; [|done].
    apply modify_Some in Hm as (x & _ & _ & Hx & _).
    apply map_eq. intros j. rewrite lookup_alter, lookup_insert.
    case_decide; [subst|done]. rewrite (model_lookup _ _ _ Hwf Hch), Hx. done.
  - rewrite (set_chain_ok _ _ _ _ Hwf Hl). eexists. split; [done|].
    apply modify_None in Hm. pose proof Hwf as [Hp Hn Hr].
    assert (Hfresh : k ∉ keys (sl_list s)).
    { intros (x & Hx & Hkx)%elem_of_keys.
      rewrite (in_chain_of _ _ _ _ _ Hp Hch Hkx) in Hx.
      by apply (proj1 (find_None _ _) Hm x). }
    split; [split; simpl|split; [|done]].
    + eapply placed_update; [done..|]. intros x [->|Hx]%elem_of_cons; [|by left].
      right. simpl. pose proof (mod_in_table _ _ k Hp). unfold key_of, seq_node_keyed.
      simpl. lia.
    + unfold keys. rewrite (concat_cons_perm _ _ _ _ Hl). simpl. by apply NoDup_cons.
    + intros n. rewrite (concat_cons_perm _ _ _ _ Hl).
      intros [->|Hn']%elem_of_cons; [done|by apply Hr].
    + apply (to_map_cons sn_ordered_data _ _ _ (SeqNode k d) Hn Hl Hfresh).
Qed.

Lemma lookup_ok g s k :
  wf s -> 0 <= k < 2 ^ 31 ->
  lookup g s k = Some (default (set_sequence_number g (-1)) (model s !! k)).
Proof.
  intros Hwf Hk. destruct (chain_at_ok s k Hwf Hk) as (c & Hc & Hch & _).
  unfold lookup. rewrite Hc. simpl. rewrite (model_lookup _ _ _ Hwf Hch).
  by destruct (find k c).
Qed.

Lemma rev_lookup_ok s k :
  wf s -> 0 <= k < 2 ^ 31 ->
  rev_lookup s k = Some (if decide (k ∈ dom (model s)) then 1 else -1).
Proof.
  intros Hwf Hk. destruct (chain_at_ok s k Hwf Hk) as (c & Hc & Hch & _).
  unfold rev_lookup. rewrite Hc. simpl. f_equal.
  case_decide as Hd; rewrite elem_of_dom, (model_lookup _ _ _ Hwf Hch) in Hd.
  - destruct (find k c); [done|by apply is_Some_None in Hd].
  - destruct (find k c); [|done]. exfalso. apply Hd. simpl. eauto.
Qed.

Lemma lookup_modify_ok s k a :
  wf s -> 0 <= k < 2 ^ 31 ->
  exists s', lookup_modify s k a = Some s' /\ wf s' /\
             model s' = alter (fun d => set_sorted_pmem_address d a) k (model s) /\
             sl_size s' = sl_size s /\ sl_slots s' = sl_slots s.
Proof.
  intros Hwf Hk. destruct (chain_at_ok s k Hwf Hk) as (c & Hc & Hch & Hl).
  unfold lookup_modify. rewrite Hc. simpl.
  destruct (modify k _ c) as [c'|] eqn:Hm.
  - rewrite (set_chain_ok _ _ _ _ Hwf Hl). eexists. split; [done|].
    destruct (modify_wf _ _ _ _ _ Hwf Hk Hch Hl Hm). done.
  - exists s. split; [done|]. split; [done|]. split; [|done].
    apply modify_None in Hm. apply map_eq. intros j. rewrite lookup_alter.
    case_decide; [subst|done]. by rewrite (model_lookup _ _ _ Hwf Hch), Hm.
Qed.

Lemma lookup_undo_save_ok m s k a n d :
  wf s -> 0 <= k < 2 ^ 31 -> model s !! k = Some d ->
  lookup_undo_save m s k a n = memcpy m (sd_data d) (sd_sorted_pmem_address d) n.
Proof.
  intros Hwf Hk Hd. destruct (chain_at_ok s k Hwf Hk) as (c & Hc & Hch & _).
  unfold lookup_undo_save. rewrite Hc. simpl.
  rewrite (model_lookup _ _ _ Hwf Hch) in Hd.
  destruct (find k c); by simplify_eq/=.
Qed.

(** The scans cover the whole table. *)
Lemma scan_ok s : wf s -> scan (sl_size s) (sl_list s) = Some (sl_list s).
Proof. intros [Hp _ _]. pose proof Hp as [? ? _]. apply scan_full; lia. Qed.

(** ** Refinement to finite maps

    A client drives the table by insertions and in-place updates. *)
Inductive seq_op :=
  | OpInsert (key : Z) (d : single_data)
  | OpModify (key addr : Z).

Definition op_key (o : seq_op) : Z :=
  match o with OpInsert k _ => k | OpModify k _ => k end.

Definition run_op (s : seq_log) (o : seq_op) : option seq_log :=
  match o with
  | OpInsert k d => insert s k d
  | OpModify k a => lookup_modify s k a
  end.

Fixpoint run_ops (s : seq_log) (os : list seq_op) : option seq_log :=
  match os with
  | [] => Some s
  | o :: os' => s' ← run_op s o; run_ops s' os'
  end.

Definition spec_op (M : gmap Z single_data) (o : seq_op) : gmap Z single_data :=
  match o with
  | OpInsert k d => <[k := d]> M
  | OpModify k a => alter (fun d => set_sorted_pmem_address d a) k M
  end.

(** The freshly initialised table: every chain is [NULL]. *)
Definition empty_log (size slots : Z) : seq_log :=
  SeqLog size slots (replicate (Z.to_nat size) []).

Lemma concat_replicate_nil {A} n : concat (replicate n ([] : list A)) = [].
Proof. induction n; simpl; done. Qed.

Lemma empty_log_wf size slots : 0 < size < 2 ^ 31 -> wf (empty_log size slots).
Proof.
  intros Hs. split; simpl.
  - split; [done| rewrite length_replicate; lia|].
    intros p c x [-> _]%lookup_replicate ?%not_elem_of_nil. done.
  - unfold keys. rewrite concat_replicate_nil. apply NoDup_nil_2.
  - rewrite concat_replicate_nil. by intros n ?%not_elem_of_nil.
Qed.

Lemma empty_log_model size slots : model (empty_log size slots) = ∅.
Proof. unfold model, to_map. simpl. by rewrite concat_replicate_nil. Qed.

Lemma run_op_ok s o :
  wf s -> 92 < sl_slots s -> 0 <= op_key o < 2 ^ 31 ->
  exists s', run_op s o = Some s' /\ wf s' /\ model s' = spec_op (model s) o /\
             sl_slots s' = sl_slots s.
Proof.
  intros Hwf Hsl Hk. destruct o as [k d|k a]; simpl in *.
  - destruct (insert_ok s k d Hwf Hk Hsl) as (s' & ? & ? & ? & ? & ?). eauto.
  - destruct (lookup_modify_ok s k a Hwf Hk) as (s' & ? & ? & ? & ? & ?). eauto.
Qed.

Lemma run_ops_ok s os :
  wf s -> 92 < sl_slots s -> Forall (fun o => 0 <= op_key o < 2 ^ 31) os ->
  exists s', run_ops s os = Some s' /\ wf s' /\ model s' = fold_left spec_op os (model s) /\
             sl_slots s' = sl_slots s.
Proof.
  revert s. induction os as [|o os IH]; intros s Hwf Hsl Hos; simpl; [by eauto|].
  apply Forall_cons in Hos as [Ho Hos].
  destruct (run_op_ok s o Hwf Hsl Ho) as (s1 & -> & Hwf1 & Hm1 & Hs1). simpl.
  destruct (IH s1 Hwf1 ltac:(congruence) Hos) as (s2 & -> & Hwf2 & Hm2 & Hs2).
  exists s2. rewrite <- Hm1. split; [done|]. split; [done|]. split; [done|congruence].
Qed.

(** C13. The sequence log implements a finite map: any sequence of insertions and
    in-place updates with non-negative [int] keys, run on a freshly initialised
    table, succeeds, and afterwards [lookup] and [rev_lookup] answer for every
    key what the map built by the same operations answers ([lookup]'s error
    entry, with sequence number -1, for an absent key). *)
Theorem seq_log_refines_map g size slots os :
  0 < size < 2 ^ 31 -> 92 < slots ->
  Forall (fun o => 0 <= op_key o < 2 ^ 31) os ->
  exists s, run_ops (empty_log size slots) os = Some s /\
    forall k, 0 <= k < 2 ^ 31 ->
      let M := fold_left spec_op os ∅ in
      lookup g s k = Some (default (set_sequence_number g (-1)) (M !! k)) /\
      rev_lookup s k = Some (if decide (k ∈ dom M) then 1 else -1).
Proof.
  intros Hs Hsl Hos.
  destruct (run_ops_ok _ os (empty_log_wf size slots Hs) Hsl Hos) as (s & Hr & Hwf & Hm & _).
  rewrite empty_log_model in Hm. exists s. split; [done|]. intros k Hk M.
  rewrite (lookup_ok _ _ _ Hwf Hk), (rev_lookup_ok _ _ Hwf Hk), Hm. done.
Qed.

(** A negative key is hashed to minus an unsigned remainder: the index is
    never positive, and unless the remainder is zero every operation of the
    table that uses the key reads outside the array. *)
Theorem negative_key_out_of_bounds g s k :
  0 < sl_size s < 2 ^ 31 -> - 2 ^ 31 <= k < 0 ->
  hashCode s k = Some (- ((2 ^ 64 + k) mod sl_size s)) /\
  ((2 ^ 64 + k) mod sl_size s <> 0 ->
     lookup g s k = None /\ rev_lookup s k = None /\ (forall d, insert s k d = None) /\
     forall a, lookup_modify s k a = None).
Proof.
  intros Hs Hk.
  assert (Hu : u64 k = 2 ^ 64 + k).
  { unfold u64. rewrite <- (Z.mod_add k 1) by lia. rewrite Z.mod_small; lia. }
  pose proof (Z.mod_pos_bound (2 ^ 64 + k) (sl_size s) ltac:(lia)) as Hr.
  set (r := (2 ^ 64 + k) mod sl_size s) in *.
  assert (Hh : hashCode s k = Some (- r)).
  { unfold hashCode. rewrite decide_False by lia. rewrite decide_True by lia.
    rewrite Hu. fold r. f_equal. unfold s32, u64.
    destruct (decide (r = 0)) as [->|]; [done|].
    rewrite <- (Z.mod_add (- r) 1) by lia. rewrite (Z.mod_small (- r + 1 * 2 ^ 64)) by lia.
    replace (- r + 1 * 2 ^ 64 + 2 ^ 31) with (- r + 2 ^ 31 + 2 ^ 32 * 2 ^ 32) by lia.
    rewrite Z.mod_add by lia. rewrite Z.mod_small by lia. lia. }
  split; [done|]. intros Hne.
  assert (Hc : chain_at s k = None).
  { unfold chain_at. rewrite Hh. simpl. unfold zget. by rewrite decide_False by lia. }
  unfold lookup, rev_lookup, insert, lookup_modify. rewrite Hc. simpl.
  split; [done|]. split; [done|]. split; [|done]. intros d. by destruct (probe s).
Qed.

(** *** The traversals *)

Lemma fold_max_spec (l : list seq_node) (h : Z) :
  let r := fold_left (fun h temp => if decide (sn_sequence_number temp > h)
                                    then sn_sequence_number temp else h) l h in
  h <= r /\ (forall n, n ∈ l -> sn_sequence_number n <= r) /\
  (r = h \/ exists n, n ∈ l /\ sn_sequence_number n = r).
Proof.
  revert h. induction l as [|n l IH]; intros h; simpl.
  - split; [lia|]. split; [by intros n ?%not_elem_of_nil|by left].
  - set (h' := if decide _ then _ else _).
    assert (Hh : h <= h' /\ sn_sequence_number n <= h' /\ (h' = h \/ h' = sn_sequence_number n))
      by (unfold h'; case_decide; lia).
    destruct (IH h') as (H1 & H2 & H3). split; [lia|]. split.
    + intros x [->|Hx]%elem_of_cons; [lia|by apply H2].
    + destruct H3 as [->|(x & Hx & <-)].
      * destruct Hh as (_ & _ & [->| ->]); [by left|]. right. exists n. by split; [left|].
      * right. exists x. split; [by right|done].
Qed.

Lemma fold_count_spec (l : list seq_node) (q h : Z) :
  fold_left (fun n temp => if decide (sn_sequence_number temp > q) then n + 1 else n) l h =
  h + Z.of_nat (length (filter (fun n => sn_sequence_number n > q) l)).
Proof.
  revert h. induction l as [|n l IH]; intros h; simpl; [lia|].
  rewrite IH, filter_cons. case_decide; simpl; lia.
Qed.

Lemma dom_model s k :
  wf s -> k ∈ dom (model s) <-> exists n, n ∈ concat (sl_list s) /\ sn_sequence_number n = k.
Proof.
  intros Hwf. rewrite elem_of_dom. split.
  - intros [d Hd]. apply model_Some in Hd as (n & ? & ? & _); eauto.
  - intros (n & Hn & Hk). exists (sn_ordered_data n).
    unfold model. rewrite to_map_Some by apply Hwf. by exists n.
Qed.

(** [find_highest_seq_num] returns the largest key of the table, or -1 for
    the empty table, and no key is counted by [count_higher] above it. *)
Theorem find_highest_is_maximum s :
  wf s ->
  exists h, find_highest_seq_num s = Some h /\ count_higher s h = Some 0 /\
    (forall k, k ∈ dom (model s) -> k <= h) /\
    (if decide (model s = ∅) then h = -1 else h ∈ dom (model s)).
Proof.
  intros Hwf. unfold find_highest_seq_num, count_higher. rewrite (scan_ok _ Hwf). simpl.
  rewrite walk_concat.
  pose proof (fold_max_spec (concat (sl_list s)) (-1)) as Hmax. simpl in Hmax.
  set (r := fold_left _ _ _) in *. exists r.
  destruct Hmax as (H1 & H2 & H3).
  assert (Hub : forall k, k ∈ dom (model s) -> k <= r).
  { intros k (n & Hn & <-)%dom_model; [by apply H2|done]. }
  split; [done|]. split; [|split; [done|]].
  - rewrite walk_concat, fold_count_spec. f_equal.
    assert (filter (fun n => sn_sequence_number n > r) (concat (sl_list s)) = []) as ->; [|done].
    destruct (filter _ _) as [|n l] eqn:Hf; [done|].
    assert (n ∈ filter (fun n => sn_sequence_number n > r) (concat (sl_list s))) as Hn
      by (rewrite Hf; left).
    apply list_elem_of_filter in Hn as [Hgt Hn]. apply H2 in Hn. lia.
  - case_decide as He.
    + destruct H3 as [->|(n & Hn & Hr)]; [done|].
      assert (r ∈ dom (model s)) as Hin by (apply dom_model; eauto).
      rewrite He in Hin. set_solver.
    + destruct H3 as [Hr|(n & Hn & Hr)]; [|apply dom_model; eauto].
      exfalso. apply He, map_eq. intros k. rewrite lookup_empty.
      apply eq_None_not_Some. intros [d (n & Hn & Hk & _)%model_Some]; [|done].
      apply (wf_keys _ Hwf) in Hn as Hpos. apply H2 in Hn. lia.
Qed.

(** ** Updating every entry

    The traversals that assign persistent addresses rewrite the data of every
    node and leave the chains as they are. *)
Definition map_log (f : single_data -> single_data) (s : seq_log) : seq_log :=
  SeqLog (sl_size s) (sl_slots s) (fmap (M:=list) (with_data f) <$> sl_list s).

Lemma concat_fmap {A B} (f : A -> B) (ls : list (list A)) :
  concat (fmap (M:=list) f <$> ls) = f <$> concat ls.
Proof. induction ls as [|c ls IH]; [done|]. rewrite fmap_cons. simpl. by rewrite IH, fmap_app. Qed.

Lemma map_log_keys f s : keys (sl_list (map_log f s)) = keys (sl_list s).
Proof.
  unfold keys, map_log. simpl. rewrite concat_fmap, <- list_fmap_compose.
  by apply list_fmap_ext.
Qed.

Lemma map_log_wf f s : wf s -> wf (map_log f s).
Proof.
  intros [Hp Hn Hr]. split.
  - destruct Hp as [Hs Hl Hpos]. split; simpl; [done|by rewrite length_fmap|].
    intros p c x (c0 & -> & Hc)%list_lookup_fmap_Some_1 (y & -> & Hy)%list_elem_of_fmap.
    by apply (Hpos p c0 y).
  - by rewrite map_log_keys.
  - simpl. rewrite concat_fmap. intros n (y & -> & Hy)%list_elem_of_fmap. exact (Hr y Hy).
Qed.

Lemma map_log_model f s : wf s -> model (map_log f s) = f <$> model s.
Proof.
  intros Hwf. apply map_eq. intros k. rewrite lookup_fmap. apply option_eq. intros v.
  unfold model at 1. rewrite (to_map_Some sn_ordered_data _ k v) by apply map_log_wf, Hwf.
  rewrite fmap_Some. simpl. rewrite concat_fmap. split.
  - intros (x & (y & -> & Hy)%list_elem_of_fmap & <- & <-).
    exists (sn_ordered_data y). split; [|done].
    apply to_map_Some; [apply Hwf|]. by exists y.
  - intros (d & Hd & ->). apply model_Some in Hd as (y & Hy & <- & <-); [|done].
    exists (with_data f y). split; [|done]. by apply list_elem_of_fmap_2.
Qed.

(** ** Concrete instances *)

(** An entry with the given key and buffers. *)
Definition mk_entry (address offset data size seq version : Z) : single_data :=
  SingleData address offset data size seq version 0 [0; 0; 0] [0; 0; 0] 0 0 0 0.

Lemma seq_log_refines_map_witness :
  let e := mk_entry 4096 0 100 4 3 0 in
  exists s, run_ops (empty_log 7 100) [OpInsert 10 e; OpInsert 3 e; OpModify 3 64] = Some s /\
    lookup e s 3 = Some (set_sorted_pmem_address e 64) /\ rev_lookup s 5 = Some (-1).
Proof.
  intros e.
  destruct (seq_log_refines_map e 7 100 [OpInsert 10 e; OpInsert 3 e; OpModify 3 64])
    as (s & Hs & H); [lia|lia|repeat constructor; simpl; lia|].
  exists s. split; [exact Hs|]. split.
  - destruct (H 3 ltac:(lia)) as [-> _]. vm_compute. reflexivity.
  - destruct (H 5 ltac:(lia)) as [_ ->]. vm_compute. reflexivity.
Defined.

Lemma negative_key_out_of_bounds_witness :
  hashCode (empty_log 7 100) (-1) = Some (-1) /\ rev_lookup (empty_log 7 100) (-1) = None.
Proof.
  destruct (negative_key_out_of_bounds (mk_entry 0 0 0 0 0 0) (empty_log 7 100) (-1)) as [H1 H2];
    [simpl; lia|lia|].
  split; [rewrite H1; vm_compute; reflexivity|].
  apply H2. vm_compute. discriminate.
Defined.

Lemma find_highest_is_maximum_witness :
  let s := SeqLog 2 100 [[SeqNode 4 (mk_entry 0 0 0 0 4 0)]; [SeqNode 9 (mk_entry 0 0 0 0 9 0)]] in
  wf s /\ exists h, find_highest_seq_num s = Some h /\ count_higher s h = Some 0 /\
    (forall k, k ∈ dom (model s) -> k <= h).
Proof.
  intros s. assert (wf s) as Hwf.
  { split.
    - split; [simpl; lia|simpl; lia|].
      intros [|[|p]] c x Hc Hx; [..|done]; injection Hc as <-;
        apply list_elem_of_singleton in Hx as ->; vm_compute; reflexivity.
    - vm_compute. apply (bool_decide_unpack _). vm_compute. exact I.
    - intros n Hn. simpl in Hn. rewrite !elem_of_cons in Hn.
      destruct Hn as [->|[->|Hn]]; [simpl; lia..|by apply not_elem_of_nil in Hn]. }
  split; [exact Hwf|].
  destruct (find_highest_is_maximum s Hwf) as (h & H1 & H2 & H3 & _).
  exists h. split; [exact H1|]. split; [exact H2|exact H3].
Defined.

End SeqLog.
