(* ===== verification/TxLog.v ===== *)
(** * The transaction log (reactor/lib/checkpoint.c)

    The hash table from transaction ids to checkpoint entries.  Unlike the
    sequence log it keeps every entry: a chain is a stack, and the table stands
    for a finite map from ids to lists of entries, latest first. *)
From stdpp Require Import base list gmap.
From S2P Require Import Prelude Memory Checkpoint Chains.

Module TxLog.

Definition txhashCode (t_log : tx_log) (key : Z) : option Z :=
  if decide (tl_size t_log = 0) then None
  else Some (if decide (key < 0)
             then s32 (u64 (- (u64 key mod tl_size t_log)))
             else s32 (u64 key mod tl_size t_log)).

(** The walk over the chain before the insertion changes nothing. *)
Definition tx_insert (t_log : tx_log) (key : Z) (ordered_data : single_data) : option tx_log :=
  pos ← txhashCode t_log key;
  chain ← zget (tl_list t_log) pos;
  l ← zset (tl_list t_log) pos (TxNode key ordered_data :: chain);
  Some (TxLog (tl_size t_log) l).

Definition tx_lookup (garbage : single_data) (t_log : tx_log) (key : Z) : option single_data :=
  pos ← txhashCode t_log key;
  chain ← zget (tl_list t_log) pos;
  Some (match find key chain with
        | Some n => tn_ordered_data n
        | None => set_tx_id garbage (-1)
        end).

Record wf (t : tx_log) : Prop := Wf {
  wf_placed : placed (tl_size t) (tl_list t)
}.

(** The entries filed under an id, latest first. *)
Definition model (t : tx_log) (k : Z) : list single_data :=
  tn_ordered_data <$> filter (fun n => tn_tx_id n = k) (concat (tl_list t)).

Definition empty_tx (size : Z) : tx_log := TxLog size (replicate (Z.to_nat size) []).

Lemma txhashCode_nonneg t k :
  0 < tl_size t < 2 ^ 31 -> 0 <= k < 2 ^ 31 -> txhashCode t k = Some (k mod tl_size t).
Proof.
  intros Hs Hk. unfold txhashCode. rewrite decide_False by lia. rewrite decide_False by lia.
  small. rewrite s32_small; [done|].
  pose proof (Z.mod_pos_bound k (tl_size t)). lia.
Qed.

(** The nodes of an id all sit in its chain. *)
Lemma filter_chain t k c :
  wf t -> tl_list t !! Z.to_nat (k mod tl_size t) = Some c ->
  filter (fun n => tn_tx_id n = k) (concat (tl_list t)) =
  filter (fun n => tn_tx_id n = k) c.
Proof.
  intros [Hp] Hc. pose proof (pl_size _ _ Hp) as Hs.
  rewrite <- (take_drop_middle _ _ _ Hc) at 1. rewrite concat_app. simpl.
  rewrite !filter_app.
  assert (Hnone : forall ls', (forall n, n ∈ ls' ->
             exists p, tl_list t !! p = Some n /\ p <> Z.to_nat (k mod tl_size t)) ->
             filter (fun n => tn_tx_id n = k) (concat ls') = []).
  { intros ls' H. destruct (filter _ _) as [|x l] eqn:Hf; [done|].
    assert (x ∈ filter (fun n => tn_tx_id n = k) (concat ls')) as Hx by (rewrite Hf; left).
    apply list_elem_of_filter in Hx as [Hk (n & [i Hi] & Hx)%elem_of_concat].
    destruct (H n) as (p & Hp' & Hne); [by eapply list_elem_of_lookup_2|].
    pose proof (pl_pos _ _ Hp p n x Hp' Hx) as Hpos.
    change (key_of x) with (tn_tx_id x) in Hpos. rewrite Hk in Hpos. lia. }
  rewrite (Hnone (take _ _)); [|intros n Hn].
  - rewrite (Hnone (drop _ _)); [by rewrite app_nil_r|intros n Hn].
    apply list_elem_of_lookup in Hn as [i Hi]. rewrite lookup_drop in Hi.
    eexists. split; [exact Hi|lia].
  - apply list_elem_of_lookup in Hn as [i Hi].
    apply lookup_take_Some in Hi as [Hi Hlt].
    exists i. split; [done|lia].
Qed.

Lemma find_head k (c : list tx_node) :
  find k c = head (filter (fun n => tn_tx_id n = k) c).
Proof.
  induction c as [|x c IH]; [done|]. rewrite filter_cons. simpl.
  change (key_of x) with (tn_tx_id x). by case_decide.
Qed.

Lemma chain_lookup t k :
  wf t -> 0 <= k < 2 ^ 31 ->
  exists c, zget (tl_list t) (k mod tl_size t) = Some c /\
            tl_list t !! Z.to_nat (k mod tl_size t) = Some c /\
            0 <= k mod tl_size t < Z.of_nat (length (tl_list t)).
Proof.
  intros [Hp] Hk. destruct (chain_of_total _ _ k Hp) as [c Hc]. exists c.
  pose proof (mod_in_table _ _ k Hp). unfold chain_of in Hc. split; [done|].
  split; [|done]. apply chain_of_Some; [done|lia].
Qed.

Lemma tx_insert_ok t k d :
  wf t -> 0 <= k < 2 ^ 31 ->
  exists t', tx_insert t k d = Some t' /\ wf t' /\ tl_size t' = tl_size t /\
    forall k', model t' k' = if decide (k' = k) then d :: model t k else model t k'.
Proof.
  intros Hwf Hk. pose proof Hwf as [Hp]. pose proof (pl_size _ _ Hp) as Hs.
  destruct (chain_lookup t k Hwf Hk) as (c & Hc & Hl & Hr).
  unfold tx_insert. rewrite txhashCode_nonneg by lia. simpl. rewrite Hc. simpl.
  unfold zset. rewrite decide_True by lia. simpl. eexists. split; [done|].
  assert (Hwf' : wf (TxLog (tl_size t)
            (<[Z.to_nat (k mod tl_size t) := TxNode k d :: c]> (tl_list t)))).
  { split. simpl. eapply placed_update; [done..|].
    intros x [->|Hx]%elem_of_cons; [right|by left].
    change (key_of (TxNode k d)) with k. lia. }
  split; [done|]. split; [done|].
  intros k'. unfold model.
  destruct (concat_update _ _ _ Hl) as (a & b & H1 & H2). simpl.
  destruct (decide (k' = k)) as [->|Hne].
  - pose proof (filter_chain t k c Hwf Hl) as Ho.
    pose proof (filter_chain _ k (TxNode k d :: c) Hwf') as Hn. simpl in Hn.
    rewrite Hn, Ho by (apply list_lookup_insert_eq; by eapply lookup_lt_Some).
    rewrite filter_cons. simpl. by rewrite decide_True by done.
  - rewrite H1, H2. rewrite !filter_app, filter_cons. simpl.
    by rewrite decide_False by done.
Qed.

Lemma tx_lookup_ok g t k :
  wf t -> 0 <= k < 2 ^ 31 ->
  tx_lookup g t k = Some (default (set_tx_id g (-1)) (head (model t k))).
Proof.
  intros Hwf Hk. pose proof Hwf as [Hp]. pose proof (pl_size _ _ Hp) as Hs.
  destruct (chain_lookup t k Hwf Hk) as (c & Hc & Hl & _).
  unfold tx_lookup. rewrite txhashCode_nonneg by lia. simpl. rewrite Hc. simpl.
  unfold model. rewrite (filter_chain t k c Hwf Hl), find_head.
  by destruct (filter _ c).
Qed.

Lemma empty_tx_wf size : 0 < size < 2 ^ 31 -> wf (empty_tx size).
Proof.
  intros Hs. split. split; simpl; [done|rewrite length_replicate; lia|].
  intros p c x [-> _]%lookup_replicate ?%not_elem_of_nil. done.
Qed.

Lemma empty_tx_model size k : model (empty_tx size) k = [].
Proof.
  unfold model, empty_tx. simpl. induction (Z.to_nat size); simpl; done.
Qed.

(** The transaction log is a multimap with stack order: after inserting any
    sequence of entries with non-negative ids into a fresh table, the entries
    filed under an id are the inserted ones for that id, latest first, and
    [tx_lookup] returns the latest (or the error entry with id -1). *)
Theorem tx_log_refines_multimap g size (es : list (Z * single_data)) :
  0 < size < 2 ^ 31 -> Forall (fun e => 0 <= e.1 < 2 ^ 31) es ->
  exists t, mfold (fun t e => tx_insert t e.1 e.2) (empty_tx size) es = Some t /\
    forall k, 0 <= k < 2 ^ 31 ->
      let S := reverse (snd <$> filter (fun e => e.1 = k) es) in
      model t k = S /\ tx_lookup g t k = Some (default (set_tx_id g (-1)) (head S)).
Proof.
  intros Hs Hes.
  destruct (mfold_total (fun t e => tx_insert t e.1 e.2)
    (fun l t => wf t /\ forall k, 0 <= k < 2 ^ 31 ->
       model t k = reverse (snd <$> filter (fun e => e.1 = k) l)) es (empty_tx size))
    as (t & Ht & Hwf & Hm).
  - split; [by apply empty_tx_wf|]. intros k _. by rewrite empty_tx_model.
  - intros l1 [k d] l2 t -> [Hwf Hm]. simpl.
    apply Forall_app in Hes as [_ [Hk _]%Forall_cons]. simpl in Hk.
    destruct (tx_insert_ok t k d Hwf Hk) as (t' & Ht & Hwf' & _ & Hm').
    exists t'. split; [done|]. split; [done|]. intros k' Hk'.
    rewrite Hm', filter_app, filter_cons. simpl.
    case_decide as Hd; [subst k'; rewrite decide_True by done|rewrite decide_False by congruence].
    + rewrite Hm by done. rewrite fmap_app, reverse_app. done.
    + rewrite filter_nil, app_nil_r. by apply Hm.
  - exists t. split; [done|]. intros k Hk S.
    rewrite (tx_lookup_ok _ _ _ Hwf Hk), (Hm k Hk). done.
Qed.

Lemma tx_log_refines_multimap_witness :
  let e t := SingleData 0 0 0 0 0 0 0 [] [] 0 0 0 t in
  exists t, mfold (fun t e => tx_insert t e.1 e.2) (empty_tx 3) [(5, e 1); (2, e 2); (5, e 3)] = Some t /\
    model t 5 = [e 3; e 1] /\ tx_lookup (e 0) t 5 = Some (e 3).
Proof.
  intros e.
  destruct (tx_log_refines_multimap (e 0) 3 [(5, e 1); (2, e 2); (5, e 3)]) as (t & Ht & H);
    [lia|repeat constructor; simpl; lia|].
  exists t. split; [exact Ht|]. destruct (H 5 ltac:(lia)) as [-> ->].
  split; vm_compute; reflexivity.
Defined.

End TxLog.
