(* ===== verification/OrderLog.v ===== *)
(** * Building the sequence log and the transaction log from the checkpoint log
      (order_by_sequence_num and order_by_tx_id of reactor/lib/checkpoint.c)

    Both walk every version of every node of the checkpoint log, copy the bytes
    of the version and of its predecessors into fresh blocks, and file the
    resulting entry. *)
From stdpp Require Import base list gmap.
From Stdlib Require Import Init.Byte.
From S2P Require Import Prelude Memory Checkpoint Chains SeqLog TxLog.

Module OrderLog.

(** [p = malloc(size); memcpy(p, src, size)] *)
Definition copy_block (m : memory) (src size : Z) : option (Z * memory) :=
  let p := malloc m size in
  m' ← memcpy p.2 p.1 src size;
  Some (p.1, m').

(** One iteration of the inner loop over [k]: the older version [k] of the node
    goes to [old_data[k]] / [old_size[k]]. *)
Definition copy_old (cd : checkpoint_data) (st : memory * single_data) (k : Z)
  : option (memory * single_data) :=
  let '(m, od) := st in
  size ← zget (cd_size cd) k;
  src ← zget (cd_data cd) k;
  '(p, m') ← copy_block m src size;
  old_data' ← zset (sd_old_data od) k p;
  old_size' ← zset (sd_old_size od) k size;
  Some (m', SingleData (sd_address od) (sd_offset od) (sd_data od) (sd_size od)
              (sd_sequence_number od) (sd_version od) (sd_data_type od)
              old_data' old_size' (sd_old_checkpoint_entry od)
              (sd_new_checkpoint_entry od) (sd_sorted_pmem_address od) (sd_tx_id od)).

(** The body of the loop over [j], up to the insertion: [ordered_data] is one
    local variable reused by all iterations, so the members that are not
    assigned keep what an earlier iteration left there. *)
Definition fill_entry (temp : node) (j : Z) (m : memory) (od : single_data)
  : option (memory * single_data) :=
  let cd := nd_c_data temp in
  seq_num ← zget (cd_sequence_number cd) j;
  size ← zget (cd_size cd) j;
  src ← zget (cd_data cd) j;
  '(p, m') ← copy_block m src size;
  tx_id ← zget (cd_tx_id cd) j;
  mfold (copy_old cd)
    (m', SingleData (cd_address cd) (nd_offset temp) p size seq_num j
           (sd_data_type od) (sd_old_data od) (sd_old_size od)
           (cd_old_checkpoint_entry cd) (sd_new_checkpoint_entry od)
           (sd_sorted_pmem_address od) tx_id)
    (seqZ 0 j).

(** The state the two nested loops of [order_by_sequence_num] thread. *)
Record seq_state := SeqState {
  os_mem : memory;
  os_log : seq_log;
  os_total : Z;
  os_ordered : single_data
}.

Definition seq_body (temp : node) (j : Z) (st : seq_state) : option seq_state :=
  '(m', od) ← fill_entry temp j (os_mem st) (os_ordered st);
  s' ← SeqLog.insert (os_log st) (sd_sequence_number od) od;
  Some (SeqState m' s' (u64 (os_total st + 1)) od).

Definition seq_node_loop (st : seq_state) (temp : node) : option seq_state :=
  mfold (fun st j => seq_body temp j st) st (seqZ 0 (cd_version (nd_c_data temp) + 1)).

Definition order_by_sequence_num (garbage : single_data) (m : memory) (s_log : seq_log)
    (total_size : Z) (c_log : checkpoint_log) : option seq_state :=
  chains ← scan (cl_size c_log) (cl_list c_log);
  iter_walk seq_node_loop (SeqState m s_log total_size garbage) chains.

Record tx_state := TxState {
  ot_mem : memory;
  ot_log : tx_log;
  ot_ordered : single_data
}.

Definition tx_body (temp : node) (j : Z) (st : tx_state) : option tx_state :=
  '(m', od) ← fill_entry temp j (ot_mem st) (ot_ordered st);
  t' ← TxLog.tx_insert (ot_log st) (sd_tx_id od) od;
  Some (TxState m' t' od).

Definition tx_node_loop (st : tx_state) (temp : node) : option tx_state :=
  mfold (fun st j => tx_body temp j st) st (seqZ 0 (cd_version (nd_c_data temp) + 1)).

Definition order_by_tx_id (garbage : single_data) (m : memory) (t_log : tx_log)
    (c_log : checkpoint_log) : option tx_state :=
  chains ← scan (cl_size c_log) (cl_list c_log);
  iter_walk tx_node_loop (TxState m t_log garbage) chains.

(** ** Contracts *)

(** [m'] extends [m]: allocation and writes to new blocks only. *)
Record extends (m m' : memory) : Prop := Extends {
  ex_ok : mem_ok m';
  ex_brk : brk m <= brk m';
  ex_get : forall a, a < brk m -> mem_get m' a = mem_get m a;
  ex_len : pool_len m' = pool_len m;
  ex_base : pool_base m' = pool_base m
}.

Lemma extends_refl m : mem_ok m -> extends m m.
Proof. intros. by split. Qed.

Lemma extends_trans m1 m2 m3 : extends m1 m2 -> extends m2 m3 -> extends m1 m3.
Proof.
  intros [? ? G1 L1 B1] [? ? G2 L2 B2]. split; [done|lia| |congruence|congruence].
  intros a Ha. rewrite G2, G1; [done|lia|lia].
Qed.

Lemma extends_mapped m m' a n : mem_ok m -> extends m m' -> mapped m a n -> mapped m' a n.
Proof.
  intros Hm [_ _ G _ _] Ha x Hx. rewrite G; [by apply Ha|].
  by apply mem_ok_get, Ha.
Qed.

(** The area at [p] holds the bytes [bs]. *)
Definition holds (m : memory) (p : Z) (bs : list byte) : Prop :=
  load_bytes m p (length bs) = Some bs.

Lemma holds_mapped m p bs : holds m p bs -> mapped m p (Z.of_nat (length bs)).
Proof.
  intros [_ H]%load_bytes_Some x Hx. unfold in_area in Hx.
  specialize (H (Z.to_nat (x - p)) ltac:(lia)).
  replace (p + Z.of_nat (Z.to_nat (x - p))) with x in H by lia.
  rewrite H. apply lookup_lt_is_Some. lia.
Qed.

Lemma extends_holds m m' p bs :
  mem_ok m -> extends m m' -> holds m p bs -> holds m' p bs.
Proof.
  intros Hm He Hh. unfold holds. rewrite <- Hh. apply load_bytes_ext.
  intros x Hx. apply He. by apply mem_ok_get, (holds_mapped _ _ _ Hh).
Qed.

Lemma copy_block_ok m src bs :
  mem_ok m -> holds m src bs ->
  exists m', copy_block m src (Z.of_nat (length bs)) = Some (brk m, m') /\
    extends m m' /\ brk m + Z.of_nat (length bs) <= brk m' /\ holds m' (brk m) bs.
Proof.
  intros Hm Hh. remember (Z.of_nat (length bs)) as n eqn:Hn.
  pose proof (malloc_ok m n Hm) as Hmal. unfold copy_block.
  destruct (malloc m n) as [p m1]. simpl in *.
  destruct Hmal as [Hok Hp Hbrk Hmap Hkeep Hpool]. subst p.
  assert (Hsrc : mapped m1 src n).
  { intros x Hx. rewrite Hn in Hx. pose proof (holds_mapped _ _ _ Hh x Hx) as Hxm.
    rewrite Hkeep by (by apply mem_ok_get). done. }
  destruct (memcpy_total m1 (brk m) src n) as [m2 H2]; [done..| |].
  { apply disjoint_areas_iff. destruct (decide (n <= 0)); [by left|].
    right; right; right.
    assert (in_area src (Z.of_nat (length bs)) (src + n - 1)) as Hin
      by (unfold in_area; lia).
    pose proof (mem_ok_get m _ Hm (holds_mapped _ _ _ Hh _ Hin)). lia. }
  rewrite H2. simpl. exists m2. split; [done|].
  pose proof (memcpy_layout _ _ _ _ _ H2) as Hlay.
  split; [split|split].
  - by eapply mem_ok_layout.
  - rewrite (ly_brk _ _ Hlay). lia.
  - intros a Ha. rewrite (memcpy_get _ _ _ _ _ a H2).
    rewrite decide_False by (unfold in_area; lia). by apply Hkeep.
  - rewrite (ly_len _ _ Hlay). apply Hpool.
  - rewrite (ly_base _ _ Hlay). apply Hpool.
  - rewrite (ly_brk _ _ Hlay). lia.
  - unfold holds. rewrite Hn in H2.
    rewrite <- (Nat2Z.id (length bs)) at 1. rewrite (memcpy_load _ _ _ _ _ (Nat2Z.is_nonneg _) H2).
    rewrite Nat2Z.id. transitivity (load_bytes m src (length bs)); [|exact Hh].
    apply load_bytes_ext.
    intros x Hx. apply Hkeep. by apply mem_ok_get, (holds_mapped _ _ _ Hh).
Qed.

(** ** The entries the loops build *)

(** The bytes version [k] of a node has in memory [m]. *)
Definition version_bytes (m : memory) (cd : checkpoint_data) (k : Z) (bs : list byte) : Prop :=
  exists p, zget (cd_data cd) k = Some p /\
            zget (cd_size cd) k = Some (Z.of_nat (length bs)) /\ holds m p bs.

(** A node of the checkpoint log whose versions can all be read. *)
Record node_ok (m : memory) (n : node) : Prop := NodeOk {
  no_version : 0 <= cd_version (nd_c_data n) < MAX_VERSIONS;
  no_bytes : forall k, 0 <= k <= cd_version (nd_c_data n) ->
               exists bs, version_bytes m (nd_c_data n) k bs;
  no_seq : forall k, 0 <= k <= cd_version (nd_c_data n) ->
             exists q, zget (cd_sequence_number (nd_c_data n)) k = Some q /\ 0 <= q < 2 ^ 31;
  no_tx : forall k, 0 <= k <= cd_version (nd_c_data n) ->
             exists t, zget (cd_tx_id (nd_c_data n)) k = Some t /\ 0 <= t < 2 ^ 31
}.

(** Entry [d], in memory [m'], is the copy of version [j] of [temp] in [m]. *)
Record entry_of (m : memory) (temp : node) (j : Z) (m' : memory) (d : single_data) : Prop := EntryOf {
  eo_address : sd_address d = cd_address (nd_c_data temp);
  eo_offset : sd_offset d = nd_offset temp;
  eo_version : sd_version d = j;
  eo_seq : zget (cd_sequence_number (nd_c_data temp)) j = Some (sd_sequence_number d);
  eo_tx : zget (cd_tx_id (nd_c_data temp)) j = Some (sd_tx_id d);
  eo_old_entry : sd_old_checkpoint_entry d = cd_old_checkpoint_entry (nd_c_data temp);
  eo_data : exists bs, version_bytes m (nd_c_data temp) j bs /\
              sd_size d = Z.of_nat (length bs) /\ holds m' (sd_data d) bs;
  eo_old : forall k, 0 <= k < j -> exists bs p, version_bytes m (nd_c_data temp) k bs /\
              zget (sd_old_data d) k = Some p /\
              zget (sd_old_size d) k = Some (Z.of_nat (length bs)) /\ holds m' p bs
}.

(** The block of the entry's own bytes lies in [lo, mid), those of the older
    versions in [mid, hi). *)
Record blocks_in (lo hi : Z) (d : single_data) : Prop := BlocksIn {
  bi_data : lo <= sd_data d;
  bi_old : forall k p n, 0 <= k < sd_version d -> zget (sd_old_data d) k = Some p ->
             zget (sd_old_size d) k = Some n -> sd_data d + sd_size d <= p /\ p + n <= hi;
  bi_end : sd_data d + sd_size d <= hi
}.

Lemma blocks_in_weaken lo hi lo' hi' d :
  lo' <= lo -> hi <= hi' -> blocks_in lo hi d -> blocks_in lo' hi' d.
Proof.
  intros ? ? [H1 H2 H3]. split; [lia| |lia].
  intros k p n Hk Hp Hn. destruct (H2 k p n Hk Hp Hn). lia.
Qed.

Definition arrays_ok (d : single_data) : Prop :=
  Z.of_nat (length (sd_old_data d)) = MAX_VERSIONS /\
  Z.of_nat (length (sd_old_size d)) = MAX_VERSIONS.

(** The loop over the older versions. *)
Lemma copy_olds_ok m0 temp j m d :
  node_ok m0 temp -> mem_ok m0 -> extends m0 m -> 0 <= j <= cd_version (nd_c_data temp) ->
  arrays_ok d ->
  exists m' d', mfold (copy_old (nd_c_data temp)) (m, d) (seqZ 0 j) = Some (m', d') /\
    extends m m' /\ arrays_ok d' /\
    (sd_address d', sd_offset d', sd_data d', sd_size d', sd_sequence_number d',
     sd_version d', sd_old_checkpoint_entry d', sd_tx_id d') =
    (sd_address d, sd_offset d, sd_data d, sd_size d, sd_sequence_number d,
     sd_version d, sd_old_checkpoint_entry d, sd_tx_id d) /\
    forall k, 0 <= k < j -> exists bs p, version_bytes m0 (nd_c_data temp) k bs /\
      zget (sd_old_data d') k = Some p /\
      zget (sd_old_size d') k = Some (Z.of_nat (length bs)) /\ holds m' p bs /\
      brk m <= p /\ p + Z.of_nat (length bs) <= brk m'.
Proof.
  intros Hn Hm0 Hex Hj Harr.
  destruct (mfold_total (copy_old (nd_c_data temp))
    (fun l st => extends m st.1 /\ arrays_ok st.2 /\
      (sd_address st.2, sd_offset st.2, sd_data st.2, sd_size st.2, sd_sequence_number st.2,
       sd_version st.2, sd_old_checkpoint_entry st.2, sd_tx_id st.2) =
      (sd_address d, sd_offset d, sd_data d, sd_size d, sd_sequence_number d,
       sd_version d, sd_old_checkpoint_entry d, sd_tx_id d) /\
      forall k, 0 <= k < Z.of_nat (length l) ->
        exists bs p, version_bytes m0 (nd_c_data temp) k bs /\
        zget (sd_old_data st.2) k = Some p /\
        zget (sd_old_size st.2) k = Some (Z.of_nat (length bs)) /\ holds st.1 p bs /\
        brk m <= p /\ p + Z.of_nat (length bs) <= brk st.1)
    (seqZ 0 j) (m, d)) as ([m' d'] & Hf & H1 & H2 & H3 & H4).
  - simpl. split; [apply extends_refl, Hex|]. split; [done|]. split; [done|]. lia.
  - intros l1 x l2 [m1 d1] Hl (He & Ha & Hfix & Hold). simpl in *.
    assert (x = Z.of_nat (length l1) /\ 0 <= x < j) as [Hxl Hxj].
    { assert (seqZ 0 j !! length l1 = Some x) as Hlk
        by (rewrite Hl; by apply list_lookup_middle).
      apply lookup_seqZ in Hlk. lia. }
    destruct (no_bytes _ _ Hn x ltac:(lia)) as (bs & p & Hp & Hsz & Hh).
    rewrite Hsz, Hp. simpl.
    assert (Hex1 : extends m0 m1) by (by eapply extends_trans).
    destruct (copy_block_ok m1 p bs) as (m2 & -> & He2 & Hb2 & Hh2);
      [apply Hex1|by eapply extends_holds|]. simpl.
    destruct Ha as [Ha1 Ha2]. pose proof (no_version _ _ Hn) as Hv. unfold MAX_VERSIONS in *.
    rewrite !zset_total by lia. simpl.
    eexists. split; [done|]. simpl.
    split; [by eapply extends_trans|].
    split; [split; simpl; rewrite length_insert; done|].
    split; [done|].
    intros k Hk. rewrite length_app in Hk. simpl in Hk.
    rewrite !zget_insert by lia. case_decide as Hkx.
    + subst k. exists bs, (brk m1). split; [by exists p|]. split; [done|]. split; [done|].
      split; [done|]. pose proof (ex_brk _ _ He). lia.
    + destruct (Hold k ltac:(lia)) as (bs' & p' & ? & ? & ? & ? & ? & ?).
      exists bs', p'. split; [done|]. split; [done|]. split; [done|].
      split; [eapply extends_holds; [apply He|exact He2|done]|].
      pose proof (ex_brk _ _ He2). lia.
  - exists m', d'. rewrite Hf. split; [done|]. simpl in *. split; [done|]. split; [done|].
    split; [done|]. intros k Hk. apply H4. rewrite length_seqZ. lia.
Qed.

Lemma fill_entry_ok m0 temp j m od :
  node_ok m0 temp -> mem_ok m0 -> extends m0 m -> 0 <= j <= cd_version (nd_c_data temp) ->
  arrays_ok od ->
  exists m' d, fill_entry temp j m od = Some (m', d) /\
    extends m m' /\ arrays_ok d /\ entry_of m0 temp j m' d /\ blocks_in (brk m) (brk m') d.
Proof.
  intros Hn Hm0 Hex Hj Harr. unfold fill_entry.
  destruct (no_seq _ _ Hn j Hj) as (q & Hq & _). destruct (no_tx _ _ Hn j Hj) as (t & Ht & _).
  destruct (no_bytes _ _ Hn j Hj) as (bs & p & Hp & Hsz & Hh).
  rewrite Hq, Hsz, Hp. simpl.
  destruct (copy_block_ok m p bs) as (m1 & -> & He1 & Hb1 & Hh1);
    [apply Hex|by eapply extends_holds|]. simpl. rewrite Ht. simpl.
  edestruct (copy_olds_ok m0 temp j m1) as (m2 & d & -> & He2 & Ha2 & Hfix & Hold);
    [done|done|by eapply extends_trans|done| |].
  2: { exists m2, d. split; [done|]. simpl in Hfix. injection Hfix as H1 H2 H3 H4 H5 H6 H7 H8.
    pose proof (ex_brk _ _ He2) as Hbrk2.
    split; [by eapply extends_trans|]. split; [done|]. split; [split|split].
    - done.
    - done.
    - done.
    - by rewrite H5.
    - by rewrite H8.
    - done.
    - exists bs. split; [by exists p|]. split; [done|]. rewrite H3.
      eapply extends_holds; [apply He1|exact He2|done].
    - intros k Hk. destruct (Hold k Hk) as (bs' & p' & ? & ? & ? & ? & _). eauto 6.
    - lia.
    - rewrite H3, H4, H6. intros k p' n Hk Hp' Hn'.
      destruct (Hold k Hk) as (bs' & p'' & _ & E1 & E2 & _ & ? & ?).
      rewrite Hp' in E1. rewrite Hn' in E2. simplify_eq. lia.
    - lia. }
  done.
Qed.

Lemma entry_of_extends m0 temp j m m' d :
  mem_ok m -> extends m m' -> entry_of m0 temp j m d -> entry_of m0 temp j m' d.
Proof.
  intros Hm He [? ? ? ? ? ? (bs & ? & ? & ?) Hold]. split; try done.
  - exists bs. split; [done|]. split; [done|]. by eapply extends_holds.
  - intros k Hk. destruct (Hold k Hk) as (bs' & p & ? & ? & ? & ?).
    exists bs', p. split; [done|]. split; [done|]. split; [done|]. by eapply extends_holds.
Qed.

(** ** The whole walk *)

(** The versions of a checkpoint log in the order the loops visit them. *)
Definition versions (c_log : checkpoint_log) : list (node * Z) :=
  concat (cl_list c_log) ≫= fun n => pair n <$> seqZ 0 (cd_version (nd_c_data n) + 1).

Definition seq_of (v : node * Z) : option Z := zget (cd_sequence_number (nd_c_data v.1)) v.2.
Definition tx_of (v : node * Z) : option Z := zget (cd_tx_id (nd_c_data v.1)) v.2.

(** A checkpoint log whose nodes can all be read in memory [m]. *)
Record clog_ok (m : memory) (c_log : checkpoint_log) : Prop := ClogOk {
  co_size : 0 <= cl_size c_log < 2 ^ 31;
  co_len : Z.of_nat (length (cl_list c_log)) = cl_size c_log;
  co_nodes : forall n, n ∈ concat (cl_list c_log) -> node_ok m n
}.

Lemma in_versions c_log n j :
  (n, j) ∈ versions c_log <-> n ∈ concat (cl_list c_log) /\ 0 <= j <= cd_version (nd_c_data n).
Proof.
  unfold versions. rewrite list_elem_of_bind. split.
  - intros (x & Hp & Hx). apply list_elem_of_fmap in Hp as (y & [= -> ->] & Hy).
    apply elem_of_seqZ in Hy. split; [done|lia].
  - intros [Hn Hj]. exists n. split; [|done]. apply list_elem_of_fmap.
    exists j. split; [done|]. apply elem_of_seqZ. lia.
Qed.

(** Two entries whose blocks lie in disjoint intervals. *)
Definition separate (d1 d2 : single_data) : Prop :=
  exists lo1 hi1 lo2 hi2, blocks_in lo1 hi1 d1 /\ blocks_in lo2 hi2 d2 /\
                          (hi1 <= lo2 \/ hi2 <= lo1).

Lemma separate_sym d1 d2 : separate d1 d2 -> separate d2 d1.
Proof. intros (l1 & h1 & l2 & h2 & ? & ? & ?). exists l2, h2, l1, h1. tauto. Qed.

(** What a sequence log built from the versions [vs] in memory [m0] is. *)
Record log_of (m0 : memory) (vs : list (node * Z)) (m : memory) (s : seq_log) : Prop := LogOf {
  lo_wf : SeqLog.wf s;
  lo_entry : forall k d, SeqLog.model s !! k = Some d ->
    exists v, v ∈ vs /\ seq_of v = Some k /\ sd_sequence_number d = k /\
      entry_of m0 v.1 v.2 m d /\ blocks_in (brk m0) (brk m) d;
  lo_dom : forall v k, v ∈ vs -> seq_of v = Some k -> k ∈ dom (SeqLog.model s);
  lo_sep : forall k1 k2 d1 d2, k1 <> k2 -> SeqLog.model s !! k1 = Some d1 ->
    SeqLog.model s !! k2 = Some d2 -> separate d1 d2
}.

Lemma log_of_step m0 vs m s v d m' s' :
  mem_ok m0 -> extends m0 m -> extends m m' -> log_of m0 vs m s ->
  SeqLog.wf s' -> SeqLog.model s' = <[sd_sequence_number d := d]> (SeqLog.model s) ->
  entry_of m0 v.1 v.2 m' d -> blocks_in (brk m) (brk m') d ->
  log_of m0 (vs ++ [v]) m' s'.
Proof.
  intros Hm0 Hex Hex' [Hwf He Hd Hs] Hwf' Hmod Hent Hbl.
  pose proof (ex_brk _ _ Hex). pose proof (ex_brk _ _ Hex').
  assert (Hold : forall k e, SeqLog.model s !! k = Some e ->
            separate e d).
  { intros k e Hk. destruct (He k e Hk) as (w & _ & _ & _ & _ & Hb).
    exists (brk m0), (brk m), (brk m), (brk m').
    split; [done|]. split; [done|]. left; lia. }
  split; [done| | |].
  - intros k e. rewrite Hmod, lookup_insert. case_decide as Hk.
    + intros [= <-]. exists v. split; [apply elem_of_app; right; by left|].
      split; [by rewrite <- Hk; apply Hent|]. split; [done|]. split; [done|].
      eapply blocks_in_weaken; [| |done]; lia.
    + intros Hke. destruct (He k e Hke) as (w & Hw & Hq & Hsn & Hent' & Hb).
      exists w. split; [apply elem_of_app; by left|]. split; [done|]. split; [done|].
      split; [eapply entry_of_extends; [apply Hex|done|done]|].
      eapply blocks_in_weaken; [| |done]; lia.
  - intros w k Hw Hq. rewrite Hmod, dom_insert_L.
    apply elem_of_app in Hw as [Hw|Hw]; [apply elem_of_union; right; by eapply Hd|].
    apply list_elem_of_singleton in Hw as ->. apply elem_of_union_l, elem_of_singleton.
    pose proof (eo_seq _ _ _ _ _ Hent) as E. unfold seq_of in Hq. congruence.
  - intros k1 k2 d1 d2 Hne. rewrite Hmod, !lookup_insert.
    destruct (decide (sd_sequence_number d = k1)), (decide (sd_sequence_number d = k2)).
    + congruence.
    + intros [= <-] H2. apply separate_sym. by eapply Hold.
    + intros H1 [= <-]. by eapply Hold.
    + by apply Hs.
Qed.

Lemma walk_versions {B} (f : node -> Z -> B -> option B) (b : B) c_log :
  0 <= cl_size c_log < 2 ^ 31 -> Z.of_nat (length (cl_list c_log)) = cl_size c_log ->
  (chains ← scan (cl_size c_log) (cl_list c_log);
   iter_walk (fun st temp =>
     mfold (fun st j => f temp j st) st (seqZ 0 (cd_version (nd_c_data temp) + 1))) b chains)
  = mfold (fun st v => f v.1 v.2 st) b (versions c_log).
Proof.
  intros Hs Hl. rewrite scan_full by lia. simpl.
  rewrite iter_walk_concat. unfold versions.
  apply (mfold_nested f (fun temp => seqZ 0 (cd_version (nd_c_data temp) + 1))).
Qed.

Lemma order_by_sequence_num_ok g m size slots total c_log :
  0 < size < 2 ^ 31 -> 92 < slots -> in_u64 total ->
  mem_ok m -> arrays_ok g -> clog_ok m c_log ->
  exists st, order_by_sequence_num g m (SeqLog.empty_log size slots) total c_log = Some st /\
    extends m (os_mem st) /\ log_of m (versions c_log) (os_mem st) (os_log st) /\
    os_total st = u64 (total + Z.of_nat (length (versions c_log))) /\
    sl_size (os_log st) = size /\ sl_slots (os_log st) = slots.
Proof.
  intros Hsz Hsl Htot Hm Hg [Hcs Hcl Hcn]. unfold order_by_sequence_num, seq_node_loop.
  rewrite (walk_versions seq_body _ c_log Hcs Hcl).
  destruct (mfold_total (fun st v => seq_body v.1 v.2 st)
    (fun vs st => extends m (os_mem st) /\ log_of m vs (os_mem st) (os_log st) /\
      os_total st = u64 (total + Z.of_nat (length vs)) /\
      sl_size (os_log st) = size /\ sl_slots (os_log st) = slots /\ arrays_ok (os_ordered st))
    (versions c_log) (SeqState m (SeqLog.empty_log size slots) total g))
    as (st & Hst & H1 & H2 & H3 & H4 & H5 & _); [| |by eauto 10].
  - simpl. split; [by apply extends_refl|]. split; [|by rewrite Z.add_0_r, u64_small].
    split; [by apply SeqLog.empty_log_wf| | |];
      rewrite ?SeqLog.empty_log_model; [done| |done].
    by intros v k ?%not_elem_of_nil.
  - intros l1 [n j] l2 [m1 s1 t1 od1] Hl (Hex & Hlog & Ht & Hs1 & Hs2 & Ha). simpl in *.
    assert ((n, j) ∈ versions c_log) as [Hn Hj]%in_versions
      by (rewrite Hl; apply elem_of_app; right; left).
    destruct (fill_entry_ok m n j m1 od1) as (m2 & d & Hf & He2 & Ha2 & Hent & Hbl);
      [by apply Hcn|done..|].
    unfold seq_body. simpl. rewrite Hf. simpl.
    destruct (no_seq _ _ (Hcn n Hn) j Hj) as (q & Hq & Hqr).
    assert (sd_sequence_number d = q) as Hdq.
    { pose proof (eo_seq _ _ _ _ _ Hent). congruence. }
    destruct (SeqLog.insert_ok s1 (sd_sequence_number d) d) as (s2 & -> & Hwf2 & Hm2 & Hz2 & Hsl2);
      [apply Hlog|lia|lia|]. simpl.
    eexists. split; [done|]. simpl.
    split; [by eapply extends_trans|].
    split; [by eapply (log_of_step m l1 m1 s1 (n, j) d)|].
    split; [|split; [congruence|split; [congruence|done]]].
    rewrite Ht, length_app. simpl. unfold u64. rewrite Z.add_mod_idemp_l by lia. f_equal. lia.
Qed.

(** C12. [order_by_sequence_num] turns a readable checkpoint log with distinct
    sequence numbers into the sequence log of its versions: it succeeds, counts
    every version, changes no byte that was mapped before, files exactly one
    entry per version under the version's sequence number, and each entry holds
    private copies of the version's bytes and of every older version's bytes,
    in blocks that no other entry shares. *)
Theorem order_by_sequence_num_correct g m size slots c_log :
  0 < size < 2 ^ 31 -> 92 < slots -> mem_ok m -> arrays_ok g -> clog_ok m c_log ->
  NoDup (seq_of <$> versions c_log) -> Z.of_nat (length (versions c_log)) < 2 ^ 64 ->
  exists st, order_by_sequence_num g m (SeqLog.empty_log size slots) 0 c_log = Some st /\
    os_total st = Z.of_nat (length (versions c_log)) /\
    (forall a, is_Some (mem_get m a) -> mem_get (os_mem st) a = mem_get m a) /\
    (forall v k, v ∈ versions c_log -> seq_of v = Some k ->
       exists d, SeqLog.model (os_log st) !! k = Some d /\ entry_of m v.1 v.2 (os_mem st) d) /\
    (forall k, k ∈ dom (SeqLog.model (os_log st)) ->
       exists v, v ∈ versions c_log /\ seq_of v = Some k) /\
    (forall k1 k2 d1 d2, k1 <> k2 -> SeqLog.model (os_log st) !! k1 = Some d1 ->
       SeqLog.model (os_log st) !! k2 = Some d2 -> separate d1 d2).
Proof.
  intros Hsz Hsl Hm Hg Hc Hnd Hlen.
  destruct (order_by_sequence_num_ok g m size slots 0 c_log)
    as (st & Hst & Hex & Hlog & Ht & _); [done..|].
  exists st. split; [done|].
  split; [rewrite Ht; simpl; apply u64_small; lia|].
  split; [intros a Ha; by apply Hex, mem_ok_get|].
  split; [|split; [|apply Hlog]].
  - intros v k Hv Hk. pose proof (lo_dom _ _ _ _ Hlog v k Hv Hk) as Hd.
    apply elem_of_dom in Hd as [d Hd]. exists d. split; [done|].
    destruct (lo_entry _ _ _ _ Hlog k d Hd) as (w & Hw & Hwk & _ & Hent & _).
    enough (v = w) as -> by done.
    apply list_elem_of_lookup in Hv as [i Hi]. apply list_elem_of_lookup in Hw as [i' Hi'].
    assert (i = i') as ->; [|congruence].
    eapply (NoDup_lookup _ _ _ (seq_of v) Hnd); rewrite list_lookup_fmap, ?Hi, ?Hi'; simpl;
      [done|by rewrite Hwk, Hk].
  - intros k [d Hd]%elem_of_dom.
    destruct (lo_entry _ _ _ _ Hlog k d Hd) as (w & ? & ? & _). eauto.
Qed.

(** [order_by_tx_id] files every version of a readable checkpoint log under
    its transaction id: for each id the chain holds one entry per version with
    that id, in reverse order of the walk, and each entry is a private copy of
    its version; the bytes that were mapped before are unchanged. *)
Theorem order_by_tx_id_correct g m size c_log :
  0 < size < 2 ^ 31 -> mem_ok m -> arrays_ok g -> clog_ok m c_log ->
  exists st, order_by_tx_id g m (TxLog.empty_tx size) c_log = Some st /\
    (forall a, is_Some (mem_get m a) -> mem_get (ot_mem st) a = mem_get m a) /\
    forall k, Forall2 (fun v d => entry_of m v.1 v.2 (ot_mem st) d)
                (reverse (filter (fun v => tx_of v = Some k) (versions c_log)))
                (TxLog.model (ot_log st) k).
Proof.
  intros Hsz Hm Hg [Hcs Hcl Hcn]. unfold order_by_tx_id, tx_node_loop.
  rewrite (walk_versions tx_body _ c_log Hcs Hcl).
  destruct (mfold_total (fun st v => tx_body v.1 v.2 st)
    (fun vs st => extends m (ot_mem st) /\ TxLog.wf (ot_log st) /\ arrays_ok (ot_ordered st) /\
      forall k, Forall2 (fun v d => entry_of m v.1 v.2 (ot_mem st) d)
                (reverse (filter (fun v => tx_of v = Some k) vs)) (TxLog.model (ot_log st) k))
    (versions c_log) (TxState m (TxLog.empty_tx size) g)) as (st & Hst & H1 & _ & _ & H2).
  - simpl. split; [by apply extends_refl|]. split; [by apply TxLog.empty_tx_wf|].
    split; [done|]. intros k. rewrite TxLog.empty_tx_model. constructor.
  - intros l1 [n j] l2 [m1 t1 od1] Hl (Hex & Hwf & Ha & Hall). simpl in *.
    assert ((n, j) ∈ versions c_log) as [Hn Hj]%in_versions
      by (rewrite Hl; apply elem_of_app; right; left).
    destruct (fill_entry_ok m n j m1 od1) as (m2 & d & Hf & He2 & Ha2 & Hent & Hbl);
      [by apply Hcn|done..|].
    unfold tx_body. simpl. rewrite Hf. simpl.
    destruct (no_tx _ _ (Hcn n Hn) j Hj) as (q & Hq & Hqr).
    assert (sd_tx_id d = q) as Hdq.
    { pose proof (eo_tx _ _ _ _ _ Hent). congruence. }
    destruct (TxLog.tx_insert_ok t1 (sd_tx_id d) d) as (t2 & -> & Hwf2 & _ & Hm2); [done|lia|].
    simpl. eexists. split; [done|]. simpl.
    split; [by eapply extends_trans|]. split; [done|]. split; [done|].
    assert (Hkeep : forall k, Forall2 (fun v e => entry_of m v.1 v.2 m2 e)
              (reverse (filter (fun v => tx_of v = Some k) l1)) (TxLog.model t1 k)).
    { intros k. eapply Forall2_impl; [apply Hall|].
      intros v e. apply entry_of_extends; [apply Hex|done]. }
    intros k. rewrite Hm2, filter_app, filter_cons, filter_nil.
    assert (tx_of (n, j) = Some q) as Htx by done. rewrite Htx, Hdq.
    destruct (decide (k = q)) as [->|Hne].
    + rewrite decide_True by done. rewrite reverse_app. simpl.
      constructor; [done|apply Hkeep].
    + rewrite decide_False by congruence. rewrite app_nil_r. apply Hkeep.
  - exists st. split; [done|]. split; [|done]. intros a Ha. by apply H1, mem_ok_get.
Qed.

(** ** A concrete checkpoint log: one node with two versions, at 100 and 102 *)
Definition ex_mem : memory :=
  Mem (list_to_map [(100, x01); (101, x02); (102, x03); (103, x04)]) 200
      (list_to_map [(0, x05); (1, x06); (2, x07)]) 3 (Some 40).

Definition ex_node : node :=
  Node 0 (CheckpointData 40 0 [100; 102; 0] [2; 2; 0] 1 0 [4; 6; 0] 0 0 0 [1; 1; 0]).

Definition ex_clog : checkpoint_log := CheckpointLog 2 1 [[]; [ex_node]].

Definition ex_garbage : single_data :=
  SingleData 0 0 0 0 0 0 0 [0; 0; 0] [0; 0; 0] 0 0 0 0.

Lemma ex_mem_ok : mem_ok ex_mem.
Proof. apply mem_okb_ok. vm_compute. reflexivity. Qed.

Lemma ex_garbage_ok : arrays_ok ex_garbage.
Proof. split; reflexivity. Qed.

Lemma ex_clog_ok : clog_ok ex_mem ex_clog.
Proof.
  split; [simpl; lia|reflexivity|]. intros n Hn. simpl in Hn.
  apply list_elem_of_singleton in Hn as ->.
  assert (forall k, 0 <= k <= 1 -> k = 0 \/ k = 1) as Hk by lia.
  split; [simpl; unfold MAX_VERSIONS; lia|..]; intros k Hk'; simpl in Hk';
    destruct (Hk k Hk') as [->| ->].
  - exists [x01; x02], 100. repeat split.
  - exists [x03; x04], 102. repeat split.
  - exists 4. split; [done|lia].
  - exists 6. split; [done|lia].
  - exists 1. split; [done|lia].
  - exists 1. split; [done|lia].
Qed.

Lemma order_by_sequence_num_correct_witness :
  exists st, order_by_sequence_num ex_garbage ex_mem (SeqLog.empty_log 5 100) 0 ex_clog = Some st /\
    os_total st = 2 /\
    exists d, SeqLog.model (os_log st) !! 6 = Some d /\ entry_of ex_mem ex_node 1 (os_mem st) d.
Proof.
  destruct (order_by_sequence_num_correct ex_garbage ex_mem 5 100 ex_clog)
    as (st & H1 & H2 & _ & H3 & _); [lia|lia|exact ex_mem_ok|exact ex_garbage_ok|exact ex_clog_ok| | |].
  - apply (bool_decide_unpack _). vm_compute. exact I.
  - vm_compute. reflexivity.
  - exists st. split; [exact H1|]. split; [rewrite H2; reflexivity|].
    apply (H3 (ex_node, 1) 6); [|reflexivity].
    apply in_versions. split; [simpl; left|simpl; lia].
Defined.

Lemma order_by_tx_id_correct_witness :
  exists st, order_by_tx_id ex_garbage ex_mem (TxLog.empty_tx 5) ex_clog = Some st /\
    Forall2 (fun v d => entry_of ex_mem v.1 v.2 (ot_mem st) d)
            [(ex_node, 1); (ex_node, 0)] (TxLog.model (ot_log st) 1).
Proof.
  destruct (order_by_tx_id_correct ex_garbage ex_mem 5 ex_clog)
    as (st & H1 & _ & H2); [lia|exact ex_mem_ok|exact ex_garbage_ok|exact ex_clog_ok|].
  exists st. split; [exact H1|exact (H2 1)].
Defined.

End OrderLog.
