(* ===== verification/Reconstruct.v ===== *)
(** * Reading the checkpoint log back (reconstruct_checkpoint of
      reactor/lib/checkpoint.c, checkpoint_hashcode and search_for_offset of
      reactor/lib/rollback.c)

    The checkpoint log lives in a persistent file full of absolute pointers,
    which were valid for the mapping of the process that wrote them.  After the
    file is mapped again at another address, [reconstruct_checkpoint] rebases
    every pointer in place.  The raw image is modelled with its pointers; the
    chains of [Checkpoint.checkpoint_log] are what a traversal of the rebased
    image yields. *)
From stdpp Require Import base list gmap strings.
From S2P Require Import Prelude Memory Checkpoint Chains.

Module Reconstruct.

(** [struct node] with its raw [next] pointer. *)
Record raw_node := RawNode {
  rn_offset : Z;
  rn_c_data : checkpoint_data;
  rn_next : Z
}.

(** The mapped file: the header [struct checkpoint_log] (with the raw pointer to
    the array), the array's slots and the nodes by the address at which they are
    mapped now, and the word that records the base the pointers refer to. *)
Record image := Image {
  im_size : Z;
  im_variable_count : Z;
  im_list : Z;
  im_slots : gmap Z Z;
  im_nodes : gmap Z raw_node;
  im_old_pool : Z
}.

Definition NULL : Z := 0.

(** [(uint64_t)pop + ((uint64_t)p - old_pool)] *)
Definition rebase (old_pool pop p : Z) : Z := u64 (pop + u64 (p - old_pool)).

Definition set_cd_data (cd : checkpoint_data) (data : list Z) : checkpoint_data :=
  CheckpointData (cd_address cd) (cd_offset cd) data (cd_size cd) (cd_version cd)
    (cd_data_type cd) (cd_sequence_number cd) (cd_old_checkpoint_entry cd)
    (cd_new_checkpoint_entry cd) (cd_free_flag cd) (cd_tx_id cd).

(** [for (int j = 0; j <= data_index; j++)] over the data pointers. *)
Definition rebase_data (old_pool pop : Z) (cd : checkpoint_data) : option checkpoint_data :=
  data ← mfold (fun data j => p ← zget data j; zset data j (rebase old_pool pop p))
           (cd_data cd) (seqZ 0 (cd_version cd + 1));
  Some (set_cd_data cd data).

(** [while (temp)]: rebase the data pointers and the [next] pointer of the node,
    then follow the rebased [next].  [fuel] bounds the length of the chain. *)
Fixpoint rebase_chain (old_pool pop : Z) (fuel : nat) (nodes : gmap Z raw_node) (temp : Z)
  : option (gmap Z raw_node) :=
  if decide (temp = NULL) then Some nodes
  else match fuel with
       | O => None
       | S fuel' =>
         n ← nodes !! temp;
         cd ← rebase_data old_pool pop (rn_c_data n);
         let next := if decide (rn_next n = NULL) then NULL
                     else rebase old_pool pop (rn_next n) in
         rebase_chain old_pool pop fuel'
           (<[temp := RawNode (rn_offset n) cd next]> nodes) next
       end.

(** The body of [for (int i = 0; i < (int)c_log->size; i++)]. *)
Definition rebase_slot (old_pool pop list : Z) (st : gmap Z Z * gmap Z raw_node) (i : Z)
  : option (gmap Z Z * gmap Z raw_node) :=
  let '(slots, nodes) := st in
  p ← slots !! (list + 8 * i);
  if decide (p = NULL) then Some (slots, nodes)
  else let temp := rebase old_pool pop p in
       nodes' ← rebase_chain old_pool pop (S (size nodes)) nodes temp;
       Some (<[list + 8 * i := temp]> slots, nodes').

Definition rebase_image (pop : Z) (im : image) : option image :=
  let old_pool := im_old_pool im in
  let list := rebase old_pool pop (im_list im) in
  '(slots, nodes) ← mfold (rebase_slot old_pool pop list) (im_slots im, im_nodes im)
                      (seqZ 0 (s32 (im_size im)));
  Some (Image (im_size im) (im_variable_count im) list slots nodes pop).

Inductive result :=
  | RNull                    (* return NULL *)
  | RExit                    (* exit(1) *)
  | RLog (im : image).

(** [pop] is what [pmemobj_open] or [pmem_map_file] returns.  For any other
    library name the local [c_log] is used uninitialised. *)
Definition reconstruct_checkpoint (pmem_library : string) (pop : Z) (im : image) : option result :=
  if decide (pmem_library = "libpmemobj2"%string) then
    if decide (pop = NULL) then Some RNull
    else im' ← rebase_image pop im; Some (RLog im')
  else if decide (pmem_library = "libpmem"%string \/ pmem_library = "libpmemobj"%string) then
    if decide (pop = NULL) then Some RExit
    else im' ← rebase_image pop im; Some (RLog im')
  else None.

(** ** Traversing an image

    What the other components see: following [list[i]] and [next]. *)
Fixpoint read_chain (fuel : nat) (nodes : gmap Z raw_node) (temp : Z) : option (list node) :=
  if decide (temp = NULL) then Some []
  else match fuel with
       | O => None
       | S fuel' => n ← nodes !! temp;
                    r ← read_chain fuel' nodes (rn_next n);
                    Some (Node (rn_offset n) (rn_c_data n) :: r)
       end.

Definition read_log (im : image) : option checkpoint_log :=
  chains ← mfold (fun acc i => p ← im_slots im !! (im_list im + 8 * i);
                               c ← read_chain (S (size (im_nodes im))) (im_nodes im) p;
                               Some (acc ++ [c]))
             [] (seqZ 0 (s32 (im_size im)));
  Some (CheckpointLog (im_size im) (im_variable_count im) chains).

(** ** Looking a node up by offset *)

(** [offset] is a [uint64_t], so the test [offset < 0] is never true. *)
Definition checkpoint_hashcode (c_log : checkpoint_log) (offset : Z) : option Z :=
  if decide (cl_size c_log = 0) then None
  else Some (s32 (u64 offset mod cl_size c_log)).

Definition search_for_offset (old_off : Z) (c_log : checkpoint_log) : option (option node) :=
  pos ← checkpoint_hashcode c_log old_off;
  chain ← zget (cl_list c_log) pos;
  Some (find old_off chain).

Lemma search_for_offset_ok off c_log :
  placed (cl_size c_log) (cl_list c_log) -> in_u64 off ->
  exists c, chain_of (cl_size c_log) (cl_list c_log) off = Some c /\
            search_for_offset off c_log = Some (find off c).
Proof.
  intros Hp Ho. destruct (chain_of_total _ _ off Hp) as [c Hc].
  exists c. split; [done|]. pose proof (pl_size _ _ Hp) as Hs.
  unfold search_for_offset, checkpoint_hashcode. rewrite decide_False by lia. simpl.
  small. pose proof (Z.mod_pos_bound off (cl_size c_log)).
  small. unfold chain_of in Hc. rewrite Hc. done.
Qed.

(** In a checkpoint log whose nodes are filed by offset, [search_for_offset]
    finds a node exactly when one with that offset is in the log, whatever the
    64-bit offset. *)
Theorem search_for_offset_correct off c_log :
  placed (cl_size c_log) (cl_list c_log) -> in_u64 off ->
  exists r, search_for_offset off c_log = Some r /\
    match r with
    | Some n => n ∈ concat (cl_list c_log) /\ nd_offset n = off
    | None => forall n, n ∈ concat (cl_list c_log) -> nd_offset n <> off
    end.
Proof.
  intros Hp Ho. destruct (search_for_offset_ok off c_log Hp Ho) as (c & Hc & ->).
  eexists. split; [done|]. destruct (find off c) as [n|] eqn:Hf.
  - apply find_Some in Hf as [Hn Hk]. split; [|done]. by eapply in_chain_of.
  - intros n Hn Hk. eapply (proj1 (find_None off c) Hf n); [|done].
    by eapply in_chain_of.
Qed.

(** ** Rebasing yields the log at the new base *)

(** [ans] lists the addresses and contents of the nodes of the chain whose head
    pointer is [p], when pointers are read through [f]. *)
Fixpoint chain_enc (f : Z -> Z) (nodes : gmap Z raw_node) (p : Z) (ans : list (Z * node)) : Prop :=
  match ans with
  | [] => p = NULL
  | (a, n) :: r => p <> NULL /\ f p = a /\ a <> NULL /\
      exists next, nodes !! a = Some (RawNode (nd_offset n) (nd_c_data n) next) /\
                   chain_enc f nodes next r
  end.

Record log_enc (f : Z -> Z) (arr : Z) (slots : gmap Z Z) (nodes : gmap Z raw_node)
    (L : list (list (Z * node))) : Prop := LogEnc {
  le_slots : forall i c, L !! i = Some c -> exists p,
     slots !! (arr + 8 * Z.of_nat i) = Some p /\ chain_enc f nodes p c;
  le_nodup : NoDup (concat L).*1
}.

Definition map_prefix (k : nat) (f : Z -> Z) (l : list Z) : list Z :=
  (f <$> take k l) ++ drop k l.

(** The node after its data pointers went through [f]. *)
Definition rebase_node (f : Z -> Z) (n : node) : node :=
  Node (nd_offset n)
    (set_cd_data (nd_c_data n)
       (map_prefix (Z.to_nat (cd_version (nd_c_data n) + 1)) f (cd_data (nd_c_data n)))).

Definition node_fits (n : node) : Prop :=
  0 <= cd_version (nd_c_data n) < Z.of_nat (length (cd_data (nd_c_data n))).

Lemma rebase_data_ok old pop n :
  node_fits n ->
  rebase_data old pop (nd_c_data n) = Some (nd_c_data (rebase_node (rebase old pop) n)).
Proof.
  unfold node_fits. set (cd := nd_c_data n). intros Hv. unfold rebase_data.
  destruct (mfold_total (fun data j => p ← zget data j; zset data j (rebase old pop p))
    (fun l data => data = map_prefix (length l) (rebase old pop) (cd_data cd))
    (seqZ 0 (cd_version cd + 1)) (cd_data cd)) as (data & -> & ->).
  - unfold map_prefix. simpl. by rewrite drop_0.
  - intros l1 x l2 data Hl ->.
    assert (x = Z.of_nat (length l1) /\ 0 <= x <= cd_version cd) as [-> Hx].
    { assert (seqZ 0 (cd_version cd + 1) !! length l1 = Some x) as Hlk
        by (rewrite Hl; by apply list_lookup_middle).
      apply lookup_seqZ in Hlk. lia. }
    set (k := length l1) in *.
    destruct (lookup_lt_is_Some_2 (cd_data cd) k) as [p Hp]; [lia|].
    assert (length (rebase old pop <$> take k (cd_data cd)) = k) as Hk
      by (rewrite length_fmap, length_take; lia).
    assert (drop k (cd_data cd) = p :: drop (S k) (cd_data cd)) as Hd
      by (by apply drop_S).
    assert (map_prefix k (rebase old pop) (cd_data cd) !! k = Some p) as Hpk.
    { unfold map_prefix. rewrite Hd. by apply list_lookup_middle. }
    rewrite zget_nat, Hpk. simpl.
    rewrite zset_total by (unfold map_prefix; rewrite length_app, Hk, length_drop; lia).
    eexists. split; [done|]. rewrite Nat2Z.id, length_app. simpl. fold k.
    unfold map_prefix. rewrite Hd, insert_app_r_alt by lia.
    rewrite Hk, Nat.sub_diag. simpl.
    rewrite Nat.add_1_r, (take_S_r _ _ _ Hp), fmap_app, <- app_assoc. done.
  - simpl. rewrite length_seqZ. done.
Qed.

Lemma chain_enc_ext f nodes nodes' p ans :
  (forall a, a ∈ ans.*1 -> nodes' !! a = nodes !! a) ->
  chain_enc f nodes p ans -> chain_enc f nodes' p ans.
Proof.
  revert p. induction ans as [|[a n] ans IH]; intros p H; simpl; [done|].
  intros (? & ? & ? & next & Hn & Hr). split; [done|]. split; [done|]. split; [done|].
  exists next. split; [rewrite H; [done|by left]|].
  apply IH; [|done]. intros b Hb. apply H. by right.
Qed.

Lemma chain_enc_dom f nodes p ans :
  chain_enc f nodes p ans -> forall a, a ∈ ans.*1 -> a ∈ dom nodes.
Proof.
  revert p. induction ans as [|[a n] ans IH]; intros p; simpl; [by intros _ a ?%not_elem_of_nil|].
  intros (_ & _ & _ & next & Hn & Hr) b [->|Hb]%elem_of_cons.
  - by apply elem_of_dom_2 in Hn.
  - by eapply IH.
Qed.

(** A chain is no longer than the number of nodes: the fuel suffices. *)
Lemma chain_fuel f nodes p ans :
  chain_enc f nodes p ans -> NoDup ans.*1 -> (length ans <= size nodes)%nat.
Proof.
  intros Hc Hn. rewrite <- (length_fmap fst ans), <- size_dom.
  rewrite <- (size_list_to_set (C := gset Z)) by done.
  apply subseteq_size. intros a Ha. apply elem_of_list_to_set in Ha.
  by eapply chain_enc_dom.
Qed.

Definition rebase_ans (f : Z -> Z) (ans : list (Z * node)) : list (Z * node) :=
  (fun an => (an.1, rebase_node f an.2)) <$> ans.

Lemma rebase_ans_addrs f ans : (rebase_ans f ans).*1 = ans.*1.
Proof. unfold rebase_ans. rewrite <- list_fmap_compose. done. Qed.

Lemma rebase_chain_ok old pop fuel nodes p ans :
  (length ans <= fuel)%nat -> NoDup ans.*1 -> Forall (fun an => node_fits an.2) ans ->
  chain_enc (rebase old pop) nodes p ans ->
  let temp := if decide (p = NULL) then NULL else rebase old pop p in
  exists nodes', rebase_chain old pop fuel nodes temp = Some nodes' /\
    chain_enc id nodes' temp (rebase_ans (rebase old pop) ans) /\
    dom nodes' = dom nodes /\
    forall a, a ∉ ans.*1 -> nodes' !! a = nodes !! a.
Proof.
  revert fuel nodes p. induction ans as [|[a n] ans IH]; intros fuel nodes p Hf Hn Hfit Hc temp.
  - simpl in *. subst. unfold temp. rewrite decide_True by done.
    exists nodes. destruct fuel; simpl; done.
  - simpl in Hc. destruct Hc as (Hp & Ha & Hanz & next & Hlk & Hr).
    unfold temp. rewrite decide_False by done. rewrite Ha.
    destruct fuel as [|fuel]; simpl in Hf; [lia|]. simpl.
    rewrite decide_False by done. rewrite Hlk. simpl.
    apply Forall_cons in Hfit as [Hfit0 Hfit]. simpl in Hn, Hfit0.
    apply NoDup_cons in Hn as [Hna Hn].
    rewrite rebase_data_ok by done. simpl.
    set (nodes1 := <[a := _]> nodes).
    destruct (IH fuel nodes1 next) as (nodes' & Hrc & Henc & Hdom & Hkeep); [lia|done|done| |].
    { eapply chain_enc_ext; [|exact Hr]. intros b Hb. unfold nodes1.
      apply lookup_insert_ne. by intros ->. }
    exists nodes'. split; [exact Hrc|].
    assert (nodes' !! a = nodes1 !! a) as Hla by (by apply Hkeep).
    split; [|split].
    + split; [done|]. split; [done|]. split; [done|].
      eexists. split; [|exact Henc]. rewrite Hla. unfold nodes1.
      rewrite lookup_insert_eq. done.
    + rewrite Hdom. unfold nodes1. rewrite dom_insert_L.
      apply elem_of_dom_2 in Hlk. by apply subseteq_union_1_L, singleton_subseteq_l.
    + intros b [Hb1 Hb2]%not_elem_of_cons. rewrite Hkeep by done. unfold nodes1.
      by apply lookup_insert_ne.
Qed.

Lemma read_chain_ok fuel nodes p ans :
  (length ans <= fuel)%nat -> chain_enc id nodes p ans ->
  read_chain fuel nodes p = Some (snd <$> ans).
Proof.
  revert fuel p. induction ans as [|[a n] ans IH]; intros fuel p Hf; simpl in *.
  - intros ->. by destruct fuel.
  - intros (Hp & <- & _ & next & Hlk & Hr). destruct fuel as [|fuel]; [lia|]. simpl.
    rewrite decide_False by done. unfold id in Hlk. rewrite Hlk. simpl.
    rewrite (IH fuel next) by (done || lia). simpl. by destruct n.
Qed.

#[local] Arguments rebase_chain : simpl never.
#[local] Arguments read_chain : simpl never.

Section rebase_log.
Context (old pop arr : Z) (L : list (list (Z * node))).
Context (HL : NoDup (concat L).*1).
Context (Hfit : forall c an, c ∈ L -> an ∈ c -> node_fits an.2).

Let f := rebase old pop.

(** After [k] iterations the first [k] chains are rebased and the others are
    as they were. *)
Record done_upto (k : nat) (st : gmap Z Z * gmap Z raw_node) : Prop := DoneUpto {
  du_done : forall i c, L !! i = Some c -> (i < k)%nat -> exists p,
     st.1 !! (arr + 8 * Z.of_nat i) = Some p /\ chain_enc id st.2 p (rebase_ans f c);
  du_todo : forall i c, L !! i = Some c -> (k <= i)%nat -> exists p,
     st.1 !! (arr + 8 * Z.of_nat i) = Some p /\ chain_enc f st.2 p c
}.

Lemma chains_disjoint i j c d a :
  L !! i = Some c -> L !! j = Some d -> i <> j -> a ∈ c.*1 -> a ∉ d.*1.
Proof using HL.
  intros Hi Hj Hne. rewrite concat_map in HL.
  eapply (NoDup_concat_disjoint (map (map fst) L) i j); [done| | |done].
  - by rewrite list_lookup_fmap, Hi.
  - by rewrite list_lookup_fmap, Hj.
Qed.

Lemma rebase_slot_ok k c st :
  L !! k = Some c -> done_upto k st ->
  exists st', rebase_slot old pop arr st (Z.of_nat k) = Some st' /\ done_upto (S k) st'.
Proof using HL Hfit.
  intros Hk [Hd Ht]. destruct st as [slots nodes]. simpl in *.
  destruct (Ht k c Hk ltac:(lia)) as (p & Hp & Henc). unfold rebase_slot. rewrite Hp. simpl.
  assert (NoDup c.*1) as Hnd.
  { rewrite concat_map in HL.
    eapply (NoDup_concat_elem (map (map fst) L) k); [done|]. by rewrite list_lookup_fmap, Hk. }
  case_decide as Hnull.
  - eexists. split; [done|]. assert (c = []) as ->.
    { destruct c as [|[a n] c]; [done|]. by destruct Henc. }
    split; simpl; intros i d Hi Hlt.
    + destruct (decide (i = k)) as [->|]; [|apply Hd; [done|lia]].
      exists p. split; [done|]. by simplify_eq.
    + apply Ht; [done|lia].
  - destruct (rebase_chain_ok old pop (S (size nodes)) nodes p c)
      as (nodes' & Hrc & Henc' & Hdom & Hkeep).
    { pose proof (chain_fuel _ _ _ _ Henc Hnd). lia. }
    { done. }
    { apply Forall_forall. intros an Han. eapply Hfit; [|done].
      by eapply list_elem_of_lookup_2. }
    { done. }
    rewrite decide_False in Hrc, Henc' by done. rewrite Hrc. simpl.
    eexists. split; [done|].
    assert (forall i d, L !! i = Some d -> i <> k -> forall a, a ∈ d.*1 -> nodes' !! a = nodes !! a)
      as Hother.
    { intros i d Hi Hne a Ha. apply Hkeep. by eapply chains_disjoint. }
    split; simpl; intros i d Hi Hlt.
    + destruct (decide (i = k)) as [->|Hne].
      * rewrite lookup_insert_eq. eexists. split; [done|]. by simplify_eq.
      * rewrite lookup_insert_ne by lia.
        destruct (Hd i d Hi ltac:(lia)) as (p' & Hp' & Henc''). exists p'. split; [done|].
        eapply chain_enc_ext; [|exact Henc'']. rewrite rebase_ans_addrs. by apply Hother with i.
    + rewrite lookup_insert_ne by lia.
      destruct (Ht i d Hi ltac:(lia)) as (p' & Hp' & Henc''). exists p'. split; [done|].
      eapply chain_enc_ext; [|exact Henc'']. apply Hother with i; [done|lia].
Qed.

Lemma rebase_slots_ok slots nodes :
  log_enc f arr slots nodes L ->
  exists st, mfold (rebase_slot old pop arr) (slots, nodes) (seqZ 0 (Z.of_nat (length L))) = Some st /\
    log_enc id arr st.1 st.2 (rebase_ans f <$> L).
Proof using HL Hfit.
  intros [Hs _].
  destruct (mfold_total (rebase_slot old pop arr) (fun l st => done_upto (length l) st)
    (seqZ 0 (Z.of_nat (length L))) (slots, nodes)) as (st & Hst & Hdone).
  - split; simpl; [lia|]. intros i c Hi _. by apply Hs.
  - intros l1 x l2 st Hl Hdone.
    assert (seqZ 0 (Z.of_nat (length L)) !! length l1 = Some x) as Hlk
      by (rewrite Hl; by apply list_lookup_middle).
    apply lookup_seqZ in Hlk as [-> Hlt]. rewrite Z.add_0_l.
    destruct (lookup_lt_is_Some_2 L (length l1)) as [c Hc]; [lia|].
    destruct (rebase_slot_ok (length l1) c st Hc Hdone) as (st' & Hst' & Hd').
    exists st'. split; [done|]. rewrite length_app. simpl. by rewrite Nat.add_1_r.
  - exists st. split; [done|]. rewrite length_seqZ, Nat2Z.id in Hdone. split.
    + intros i c Hi. apply list_lookup_fmap_Some_1 in Hi as (c0 & -> & Hi).
      apply Hdone; [done|]. by apply lookup_lt_Some in Hi.
    + replace ((concat (rebase_ans f <$> L)).*1) with ((concat L).*1); [done|].
      clear. induction L as [|c M IH]; [done|]. rewrite fmap_cons. simpl.
      by rewrite !fmap_app, rebase_ans_addrs, IH.
Qed.
End rebase_log.

(** The nodes of an addressed chain. *)
Definition contents (c : list (Z * node)) : list node := snd <$> c.

Lemma read_log_ok im L :
  0 <= im_size im < 2 ^ 31 -> Z.of_nat (length L) = im_size im ->
  log_enc id (im_list im) (im_slots im) (im_nodes im) L ->
  read_log im = Some (CheckpointLog (im_size im) (im_variable_count im) (contents <$> L)).
Proof.
  intros Hs Hl [Henc Hnd]. unfold read_log. small. rewrite <- Hl.
  set (body := fun acc i => _).
  destruct (mfold_total body (fun l acc => acc = contents <$> take (length l) L)
    (seqZ 0 (Z.of_nat (length L))) []) as (r & -> & ->).
  - done.
  - intros l1 x l2 acc Hsq ->.
    assert (seqZ 0 (Z.of_nat (length L)) !! length l1 = Some x) as Hlk
      by (rewrite Hsq; by apply list_lookup_middle).
    apply lookup_seqZ in Hlk as [-> Hlt]. rewrite Z.add_0_l.
    destruct (lookup_lt_is_Some_2 L (length l1)) as [c Hc]; [lia|].
    destruct (Henc _ _ Hc) as (p & Hp & Hce). unfold body. rewrite Hp. simpl.
    rewrite (read_chain_ok _ _ _ c); [|cut (length c <= size (im_nodes im))%nat; [lia|]|done].
    + simpl. eexists. split; [done|]. rewrite length_app. simpl.
      by rewrite Nat.add_1_r, (take_S_r _ _ _ Hc), fmap_app.
    + eapply chain_fuel; [exact Hce|]. rewrite concat_map in Hnd.
      eapply (NoDup_concat_elem (map (map fst) L) (length l1)); [done|].
      by rewrite list_lookup_fmap, Hc.
  - simpl. rewrite length_seqZ, Nat2Z.id, firstn_all. by rewrite Hl.
Qed.

Lemma contents_rebase f (L : list (list (Z * node))) :
  contents <$> (rebase_ans f <$> L) = fmap (rebase_node f) <$> (contents <$> L).
Proof.
  rewrite <- !list_fmap_compose. apply list_fmap_ext. intros i c _.
  unfold rebase_ans, contents, compose. by rewrite <- !list_fmap_compose.
Qed.

(** C30. When the file was written with its pointers relative to [im_old_pool]
    and is now mapped at [pop], [reconstruct_checkpoint] terminates and leaves
    a log that a traversal at the new base reads back: the same chains in the
    same order, every data pointer of a stored version moved by the distance
    between the two bases, and the recorded base updated. *)
Theorem reconstruct_checkpoint_rebases lib pop im L :
  lib ∈ ["libpmemobj2"; "libpmem"; "libpmemobj"]%string -> pop <> NULL ->
  let f := rebase (im_old_pool im) pop in
  0 <= im_size im < 2 ^ 31 -> Z.of_nat (length L) = im_size im ->
  log_enc f (f (im_list im)) (im_slots im) (im_nodes im) L ->
  (forall c an, c ∈ L -> an ∈ c -> node_fits an.2) ->
  exists im', reconstruct_checkpoint lib pop im = Some (RLog im') /\ im_old_pool im' = pop /\
    read_log im' = Some (CheckpointLog (im_size im) (im_variable_count im)
                           (fmap (rebase_node f) <$> (contents <$> L))).
Proof.
  intros Hlib Hpop f Hs Hl Henc Hfit.
  destruct (rebase_slots_ok (im_old_pool im) pop (f (im_list im)) L (le_nodup _ _ _ _ _ Henc)
    Hfit _ _ Henc) as ([slots nodes] & Hst & Henc').
  assert (rebase_image pop im = Some (Image (im_size im) (im_variable_count im)
            (f (im_list im)) slots nodes pop)) as Hr.
  { unfold rebase_image. small. fold f. rewrite <- Hl, Hst. done. }
  eexists. split; [|split].
  - unfold reconstruct_checkpoint. rewrite !elem_of_cons in Hlib.
    rewrite Hr. rewrite !(decide_False (P := pop = NULL)) by done. simpl.
    repeat case_decide; [done|done|]. exfalso.
    destruct Hlib as [?|[?|[?|?%not_elem_of_nil]]]; naive_solver.
  - done.
  - rewrite (read_log_ok _ (rebase_ans f <$> L)); simpl; [|done|by rewrite length_fmap|done].
    by rewrite contents_rebase.
Qed.

(** ** A concrete image: two slots, one chain of two nodes, mapped at 10000 and
    written by a process that had it at 4000. *)
Definition ex_cd (data : list Z) : checkpoint_data :=
  CheckpointData 0 0 data [4; 4; 0] 0 0 [1; 2; 0] 0 0 0 [0; 0; 0].

Definition ex_image : image :=
  Image 2 2 4100 {[ 10100 := 0; 10108 := 4200 ]}
    {[ 10200 := RawNode 1 (ex_cd [4500; 0; 0]) 4300; 10300 := RawNode 3 (ex_cd [4600; 0; 0]) 0 ]}
    4000.

Definition ex_chains : list (list (Z * node)) :=
  [[]; [(10200, Node 1 (ex_cd [4500; 0; 0])); (10300, Node 3 (ex_cd [4600; 0; 0]))]].

Lemma ex_image_enc :
  let f := rebase 4000 10000 in
  log_enc f (f (im_list ex_image)) (im_slots ex_image) (im_nodes ex_image) ex_chains.
Proof.
  intros f. split.
  - intros [|[|i]] c Hc; simpl in Hc; [| |discriminate Hc]; injection Hc as <-.
    + exists 0. split; reflexivity.
    + exists 4200. split; [reflexivity|].
      split; [discriminate|]. split; [reflexivity|]. split; [discriminate|].
      exists 4300. split; [reflexivity|].
      split; [discriminate|]. split; [reflexivity|]. split; [discriminate|].
      exists 0. split; reflexivity.
  - simpl. apply (bool_decide_unpack _). vm_compute. exact I.
Qed.

Lemma reconstruct_checkpoint_rebases_witness :
  exists im', reconstruct_checkpoint "libpmem" 10000 ex_image = Some (RLog im') /\
    read_log im' = Some (CheckpointLog 2 2
      [[]; [Node 1 (ex_cd [10500; 0; 0]); Node 3 (ex_cd [10600; 0; 0])]]).
Proof.
  destruct (reconstruct_checkpoint_rebases "libpmem" 10000 ex_image ex_chains)
    as (im' & H1 & _ & H2).
  - right. left.
  - done.
  - simpl. lia.
  - done.
  - exact ex_image_enc.
  - intros c an Hc Han. unfold ex_chains in Hc. rewrite !elem_of_cons in Hc.
    destruct Hc as [->|[->|?%not_elem_of_nil]]; [by apply not_elem_of_nil in Han| |done].
    rewrite !elem_of_cons in Han.
    destruct Han as [->|[->|?%not_elem_of_nil]]; [..|done]; unfold node_fits; simpl; lia.
  - exists im'. split; [exact H1|]. rewrite H2. vm_compute. reflexivity.
Defined.

Lemma search_for_offset_correct_witness :
  let c_log := CheckpointLog 2 2 [[]; [Node 1 (ex_cd []); Node 3 (ex_cd [])]] in
  exists r, search_for_offset 3 c_log = Some r /\
    match r with
    | Some n => n ∈ concat (cl_list c_log) /\ nd_offset n = 3
    | None => forall n, n ∈ concat (cl_list c_log) -> nd_offset n <> 3
    end.
Proof.
  intros c_log. apply (search_for_offset_correct 3 c_log); [|lia].
  split; [simpl; lia|simpl; lia|].
  intros [|[|p]] c x Hc Hx; [..|done]; injection Hc as <-;
    [by apply not_elem_of_nil in Hx|]. rewrite !elem_of_cons in Hx.
  destruct Hx as [->|[->|?%not_elem_of_nil]]; [..|done]; vm_compute; reflexivity.
Defined.

End Reconstruct.
