(* ===== verification/Rollback.v ===== *)
(** * Reverting and undoing checkpointed updates (reactor/lib/rollback.c and
      undo_by_sequence_number_array of reactor/lib/core.cpp)

    Reverting an entry saves the bytes of its persistent address in the entry's
    buffer and writes the bytes of the previous version; undoing it writes the
    saved bytes back.  The theorems state when a batch of reversions can be
    undone. *)
From stdpp Require Import base list gmap sorting.
From Stdlib Require Import Init.Byte.
From S2P Require Import Prelude Memory Checkpoint Chains SeqLog TxLog Reconstruct.

Module Rollback.

(** ** qsort and the decision function *)

(** [*(int * )b - *(int * )a]; signed overflow is undefined. *)
Definition reverse_cmpfunc (a b : Z) : option Z :=
  if decide (in_s32 (b - a)) then Some (b - a) else None.

(** The library's [qsort]: an insertion sort by the comparison function.  When
    the comparison is a total order every correct sort gives the same array. *)
Fixpoint sort_insert (cmp : Z -> Z -> option Z) (x : Z) (l : list Z) : option (list Z) :=
  match l with
  | [] => Some [x]
  | y :: l' => c ← cmp x y;
               if decide (c <= 0) then Some (x :: y :: l')
               else r ← sort_insert cmp x l'; Some (y :: r)
  end.

Fixpoint qsort (cmp : Z -> Z -> option Z) (l : list Z) : option (list Z) :=
  match l with
  | [] => Some []
  | x :: l' => r ← qsort cmp l'; sort_insert cmp x r
  end.

Definition copy_seq_number (old_seq_numbers : list Z) (st : list Z * Z) (i : Z)
  : option (list Z * Z) :=
  x ← zget old_seq_numbers i;
  new_seq_numbers ← zset st.1 i x;
  Some (new_seq_numbers, st.2 + 1).

(** The arrays are the caller's; the result is the new array and [*new_total]. *)
Definition decision_func_sequence_array (old_seq_numbers : list Z) (old_total : Z)
    (new_seq_numbers : list Z) (new_total : Z) : option (list Z * Z) :=
  '(arr, total) ← mfold (copy_seq_number old_seq_numbers) (new_seq_numbers, new_total)
                    (seqZ 0 old_total);
  if decide (0 <= total <= Z.of_nat (length arr)) then
    s ← qsort reverse_cmpfunc (take (Z.to_nat total) arr);
    Some (s ++ drop (Z.to_nat total) arr, total)
  else None.

(** ** Reversion *)

Definition revert_by_sequence_number_checkpoint (m : memory) (old_check_data : checkpoint_data)
    (rollback_version : Z) (search_data : single_data) : option memory :=
  src ← zget (cd_data old_check_data) rollback_version;
  size ← zget (cd_size old_check_data) rollback_version;
  memcpy m (sd_sorted_pmem_address search_data) src size.

Definition revert_by_sequence_number (m : memory) (search_data : single_data)
    (seq_num rollback_version : Z) (s_log : seq_log) : option memory :=
  m' ← SeqLog.lookup_undo_save m s_log seq_num (sd_sorted_pmem_address search_data)
         (sd_size search_data);
  src ← zget (sd_old_data search_data) rollback_version;
  size ← zget (sd_old_size search_data) rollback_version;
  memcpy m' (sd_sorted_pmem_address search_data) src size.

(** The body of the loop of [revert_by_sequence_number_array]. *)
Definition revert_step (garbage : single_data) (s_log : seq_log) (c_log : checkpoint_log)
    (m : memory) (seq_num : Z) : option memory :=
  search_data ← SeqLog.lookup garbage s_log seq_num;
  if decide (sd_sequence_number search_data = -1) then Some m
  else
    let rollback_version := sd_version search_data - 1 in
    if decide (rollback_version < 0) then
      if decide (sd_old_checkpoint_entry search_data = 0) then Some m
      else
        c_node ← Reconstruct.search_for_offset (sd_old_checkpoint_entry search_data) c_log;
        match c_node with
        | None => Some m
        | Some n => revert_by_sequence_number_checkpoint m (nd_c_data n)
                      (cd_version (nd_c_data n)) search_data
        end
    else revert_by_sequence_number m search_data seq_num rollback_version s_log.

(** [for (int i = 0; i < total; i++)] over an array of [total] numbers. *)
Definition revert_by_sequence_number_array (garbage : single_data) (m : memory) (s_log : seq_log)
    (seq_numbers : list Z) (total_seq_num : Z) (c_log : checkpoint_log) : option memory :=
  mfold (fun m i => q ← zget seq_numbers i; revert_step garbage s_log c_log m q)
    m (seqZ 0 total_seq_num).

Definition undo_by_sequence_number (m : memory) (search_data : single_data) (seq_num : Z)
  : option memory :=
  if decide (sd_version search_data - 1 < 0) then Some m
  else memcpy m (sd_sorted_pmem_address search_data) (sd_data search_data) (sd_size search_data).

Definition undo_by_sequence_number_array (garbage : single_data) (m : memory) (s_log : seq_log)
    (seq_list : list Z) : option memory :=
  mfold (fun m q => d ← SeqLog.lookup garbage s_log q; undo_by_sequence_number m d q) m seq_list.

Definition revert_by_sequence_number_nonslice (m : memory) (old_pop : Z) (ordered_data : single_data)
    (seq_num rollback_version pop : Z) : option memory :=
  if decide (rollback_version < 0) then Some m
  else
    let pmem_address := u64 (u64 (sd_address ordered_data - old_pop) + pop) in
    src ← zget (sd_old_data ordered_data) rollback_version;
    size ← zget (sd_old_size ordered_data) rollback_version;
    memcpy m pmem_address src size.

Definition seq_coarse_grain_reversion (garbage : single_data) (m : memory) (seq_num pop old_pop : Z)
    (s_log : seq_log) : option memory :=
  revert_data ← SeqLog.lookup garbage s_log seq_num;
  let curr_version := sd_version revert_data in
  if decide (curr_version - 1 < 0) then Some m
  else revert_by_sequence_number_nonslice m old_pop revert_data seq_num (curr_version - 1) pop.

(** The body of the [while (t_temp)] loop of [revert_by_transaction]. *)
Definition revert_tx_node (garbage : single_data) (s_log : seq_log) (seq_numbers : list Z)
    (total_seq_num : Z) (m : memory) (t_temp : tx_node) : option memory :=
  let q := sd_sequence_number (tn_ordered_data t_temp) in
  already_reverted ← mfold (fun (b : bool) j => x ← zget seq_numbers j;
                              Some (if decide (q = x) then true else b))
                       false (seqZ 0 total_seq_num);
  if decide (sd_version (tn_ordered_data t_temp) <> 0 /\ already_reverted = false) then
    search_data ← SeqLog.lookup garbage s_log q;
    revert_by_sequence_number m search_data q (sd_version (tn_ordered_data t_temp) - 1) s_log
  else Some m.

Definition revert_by_transaction (garbage : single_data) (m : memory) (t_log : tx_log)
    (seq_numbers : list Z) (total_seq_num : Z) (s_log : seq_log) : option memory :=
  mfold (fun m i =>
      q ← zget seq_numbers i;
      search_data ← SeqLog.lookup garbage s_log q;
      pos ← TxLog.txhashCode t_log (sd_tx_id search_data);
      chain ← zget (tl_list t_log) pos;
      mfold (revert_tx_node garbage s_log seq_numbers total_seq_num) m chain)
    m (seqZ 0 total_seq_num).

(** ** Address assignment *)

Definition assign_address (offset addr : Z) (temp : seq_node) : seq_node :=
  if decide (sd_offset (sn_ordered_data temp) = offset)
  then SeqLog.with_data (fun d => set_sorted_pmem_address d addr) temp else temp.

(** The two inner loops for one slot of the table. *)
Definition sort_slot (offsets pmem_addresses : list Z) (num_data : Z) (chain : list seq_node)
  : option (list seq_node) :=
  mfold (fun chain j => o ← zget offsets j; a ← zget pmem_addresses j;
                        Some (assign_address o a <$> chain))
    chain (seqZ 0 num_data).

Definition sort_by_sequence_number (num_data : Z) (pmem_addresses offsets : list Z)
    (s_log : seq_log) : option seq_log :=
  l ← mfold (fun l i => chain ← zget l i;
                        chain' ← sort_slot offsets pmem_addresses num_data chain;
                        zset l i chain')
        (sl_list s_log) (seqZ 0 (s32 (sl_size s_log)));
  Some (SeqLog (sl_size s_log) (sl_slots s_log) l).

(** ** Sorting *)

Lemma sort_insert_ok (R : relation Z) cmp x l :
  Transitive R -> (forall y, y ∈ l -> exists c, cmp x y = Some c /\ (c <= 0 <-> R x y)) ->
  (forall y, y ∈ l -> R x y \/ R y x) -> StronglySorted R l ->
  exists l', sort_insert cmp x l = Some l' /\ l' ≡ₚ x :: l /\ StronglySorted R l'.
Proof.
  intros HT Hc Htot Hs. induction l as [|y l IH]; simpl.
  - eexists. split; [done|]. split; [done|]. repeat constructor.
  - destruct (Hc y) as (c & -> & Hcy); [by left|]. simpl.
    apply StronglySorted_inv in Hs as [Hs Hall]. case_decide as Hd.
    + eexists. split; [done|]. split; [done|]. apply Hcy in Hd.
      constructor; [by constructor|]. constructor; [done|].
      eapply Forall_impl; [exact Hall|]. intros z Hz. by etrans.
    + destruct IH as (r & -> & Hp & Hr); [intros z Hz; apply Hc; by right| |done|].
      { intros z Hz. apply Htot. by right. }
      simpl. eexists. split; [done|]. split; [rewrite Hp; constructor|].
      constructor; [done|]. rewrite Hp. constructor; [|done].
      destruct (Htot y) as [H|H]; [by left| |done]. by apply Hcy in H.
Qed.

Lemma qsort_ok (R : relation Z) cmp l :
  Transitive R ->
  (forall x y, x ∈ l -> y ∈ l -> exists c, cmp x y = Some c /\ (c <= 0 <-> R x y)) ->
  (forall x y, x ∈ l -> y ∈ l -> R x y \/ R y x) ->
  exists l', qsort cmp l = Some l' /\ l' ≡ₚ l /\ StronglySorted R l'.
Proof.
  intros HT. induction l as [|x l IH]; intros Hc Htot; simpl.
  - eexists. split; [done|]. split; [done|]. constructor.
  - destruct IH as (r & -> & Hp & Hs); [intros; apply Hc; by right|intros; apply Htot; by right|].
    simpl. destruct (sort_insert_ok R cmp x r) as (l' & -> & Hp' & Hs'); [done| | |done|].
    + intros y Hy. apply Hc; [by left|]. right. by rewrite <- Hp.
    + intros y Hy. apply Htot; [by left|]. right. by rewrite <- Hp.
    + exists l'. split; [done|]. split; [by rewrite Hp', Hp|done].
Qed.

Lemma sorted_ge_unique (l1 l2 : list Z) :
  StronglySorted Z.ge l1 -> StronglySorted Z.ge l2 -> l1 ≡ₚ l2 -> l1 = l2.
Proof.
  intros H1 H2 Hp. assert (AntiSymm (=) Z.ge) by (intros x y ? ?; lia).
  by apply (StronglySorted_unique Z.ge).
Qed.

(** The descending rearrangement the comparison function gives. *)
Lemma qsort_reverse l :
  (forall x, x ∈ l -> 0 <= x < 2 ^ 31) ->
  exists l', qsort reverse_cmpfunc l = Some l' /\ l' ≡ₚ l /\ StronglySorted Z.ge l'.
Proof.
  intros Hr. apply qsort_ok.
  - intros x y z ? ?. lia.
  - intros x y Hx%Hr Hy%Hr. unfold reverse_cmpfunc. rewrite decide_True by lia.
    eexists. split; [done|]. lia.
  - lia.
Qed.

Lemma copy_seq_numbers_ok old new :
  (length old <= length new)%nat ->
  mfold (copy_seq_number old) (new, 0) (seqZ 0 (Z.of_nat (length old))) =
  Some (old ++ drop (length old) new, Z.of_nat (length old)).
Proof.
  intros Hl.
  destruct (mfold_total (copy_seq_number old)
    (fun l st => st = (take (length l) old ++ drop (length l) new, Z.of_nat (length l)))
    (seqZ 0 (Z.of_nat (length old))) (new, 0)) as (st & -> & ->).
  - done.
  - intros l1 x l2 st Hsq ->.
    assert (seqZ 0 (Z.of_nat (length old)) !! length l1 = Some x) as Hlk
      by (rewrite Hsq; by apply list_lookup_middle).
    apply lookup_seqZ in Hlk as [-> Hlt]. rewrite Z.add_0_l.
    set (k := length l1) in *.
    destruct (lookup_lt_is_Some_2 old k) as [p Hp]; [lia|].
    destruct (lookup_lt_is_Some_2 new k) as [w Hw]; [lia|].
    unfold copy_seq_number. rewrite zget_nat, Hp. simpl.
    rewrite zset_total by (rewrite length_app, length_take, length_drop; lia). simpl.
    eexists. split; [done|]. rewrite Nat2Z.id, length_app. simpl. fold k. f_equal; [|lia].
    rewrite insert_app_r_alt by (rewrite length_take; lia).
    rewrite length_take, Nat.min_l, Nat.sub_diag by lia.
    rewrite (drop_S new w k Hw). simpl.
    by rewrite Nat.add_1_r, (take_S_r _ _ _ Hp), <- app_assoc.
  - rewrite length_seqZ, Nat2Z.id, firstn_all. done.
Qed.

Lemma decision_func_ok old new :
  (length old <= length new)%nat -> (forall x, x ∈ old -> 0 <= x < 2 ^ 31) ->
  exists l', decision_func_sequence_array old (Z.of_nat (length old)) new 0 =
               Some (l' ++ drop (length old) new, Z.of_nat (length old)) /\
    l' ≡ₚ old /\ StronglySorted Z.ge l' /\
    forall l2, l2 ≡ₚ old -> StronglySorted Z.ge l2 -> l2 = l'.
Proof.
  intros Hl Hr. unfold decision_func_sequence_array. rewrite copy_seq_numbers_ok by done. simpl.
  rewrite decide_True by (rewrite length_app, length_drop; lia).
  rewrite Nat2Z.id, take_app_length, drop_app_length.
  destruct (qsort_reverse old Hr) as (l' & -> & Hp & Hs). simpl.
  exists l'. split; [done|]. split; [done|]. split; [done|].
  intros l2 Hp2 Hs2. apply sorted_ge_unique; [done..|]. by rewrite Hp, Hp2.
Qed.

(** [decision_func_sequence_array] with a zero count writes the given
    sequence numbers in descending order to the front of the new array, leaves
    the rest of the array alone and sets the count; the order is the only
    descending rearrangement, so it does not depend on the sorting algorithm. *)
Theorem decision_func_sorts old new :
  (length old <= length new)%nat -> (forall x, x ∈ old -> 0 <= x < 2 ^ 31) ->
  exists l', decision_func_sequence_array old (Z.of_nat (length old)) new 0 =
               Some (l' ++ drop (length old) new, Z.of_nat (length old)) /\
    l' ≡ₚ old /\ StronglySorted Z.ge l' /\
    forall l2, l2 ≡ₚ old -> StronglySorted Z.ge l2 -> l2 = l'.
Proof. apply decision_func_ok. Qed.

Lemma decision_func_sorts_witness :
  exists l', decision_func_sequence_array [3; 9; 5] 3 [0; 0; 0; 7] 0 = Some (l' ++ [7], 3) /\
    l' ≡ₚ [3; 9; 5] /\ StronglySorted Z.ge l'.
Proof.
  destruct (decision_func_sorts [3; 9; 5] [0; 0; 0; 7]) as (l' & H1 & H2 & H3 & _).
  - simpl. lia.
  - intros x Hx. rewrite !elem_of_cons in Hx.
    destruct Hx as [->|[->|[->|?%not_elem_of_nil]]]; [lia..|done].
  - exists l'. split; [exact H1|]. split; [exact H2|exact H3].
Defined.

(** ** Saving, reverting and restoring one entry *)

(** The previous version an entry is reverted to. *)
Definition previous (d : single_data) : option (Z * Z) :=
  src ← zget (sd_old_data d) (sd_version d - 1);
  size ← zget (sd_old_size d) (sd_version d - 1);
  Some (src, size).

Definition save_and_write (m : memory) (d : single_data) : option memory :=
  m' ← memcpy m (sd_data d) (sd_sorted_pmem_address d) (sd_size d);
  '(src, size) ← previous d;
  memcpy m' (sd_sorted_pmem_address d) src size.

(** The restoring copy, for a pool that has moved by [delta] since. *)
Definition write_back (delta : Z) (m : memory) (d : single_data) : option memory :=
  memcpy m (sd_sorted_pmem_address d + delta) (sd_data d) (sd_size d).

Definition pm_area (d : single_data) : Z -> Prop :=
  in_area (sd_sorted_pmem_address d) (sd_size d).
Definition buf_area (d : single_data) : Z -> Prop := in_area (sd_data d) (sd_size d).

(** An entry that has a previous version, no larger than itself. *)
Definition revertible (d : single_data) : Prop :=
  1 <= sd_version d /\ exists src size, previous d = Some (src, size) /\ 0 <= size <= sd_size d.

Definition old_area (d : single_data) (a : Z) : Prop :=
  exists src size, previous d = Some (src, size) /\ in_area src size a.

(** A batch of entries whose buffers are private. *)
Record batch (ds : list single_data) : Prop := Batch {
  ba_rev : forall d, d ∈ ds -> revertible d;
  ba_pm_buf : forall d e a, d ∈ ds -> e ∈ ds -> pm_area d a -> ~ buf_area e a;
  ba_buf : forall i j d e a, ds !! i = Some d -> ds !! j = Some e -> i <> j ->
             buf_area d a -> ~ buf_area e a;
  ba_pm_old : forall d e a, d ∈ ds -> e ∈ ds -> pm_area d a -> ~ old_area e a;
  ba_buf_old : forall d e a, d ∈ ds -> e ∈ ds -> buf_area d a -> ~ old_area e a
}.

Record batch_mapped (m : memory) (ds : list single_data) : Prop := BatchMapped {
  bm_pm : forall d a, d ∈ ds -> pm_area d a -> is_Some (mem_get m a);
  bm_buf : forall d a, d ∈ ds -> buf_area d a -> is_Some (mem_get m a);
  bm_old : forall d a, d ∈ ds -> old_area d a -> is_Some (mem_get m a)
}.

Lemma batch_mapped_layout m m' ds :
  same_layout m m' -> batch_mapped m ds -> batch_mapped m' ds.
Proof. intros L [H1 H2 H3]. split; intros d a Hd Ha; apply (ly_mapped _ _ L); eauto. Qed.

Lemma batch_cons d ds : batch (d :: ds) -> batch ds.
Proof.
  intros [H1 H2 H3 H4 H5]. split.
  - intros e He. apply H1. by right.
  - intros e f a He Hf. apply H2; by right.
  - intros i j e f a Hi Hj Hne. apply (H3 (S i) (S j)); [done|done|lia].
  - intros e f a He Hf. apply H4; by right.
  - intros e f a He Hf. apply H5; by right.
Qed.

Lemma batch_mapped_cons m d ds : batch_mapped m (d :: ds) -> batch_mapped m ds.
Proof.
  intros [H1 H2 H3]. split; intros e a He; [apply H1|apply H2|apply H3]; by right.
Qed.

Lemma batch_head_buf d ds e a :
  batch (d :: ds) -> e ∈ ds -> buf_area d a -> ~ buf_area e a.
Proof.
  intros Hb [i Hi]%list_elem_of_lookup. exact (fun H => ba_buf _ Hb 0 (S i) d e a eq_refl Hi (O_S i) H).
Qed.

(** What one reversion does. *)
Record reverted (m : memory) (d : single_data) (m' : memory) : Prop := Reverted {
  rv_layout : same_layout m m';
  rv_saved : forall a, buf_area d a ->
               mem_get m' a = mem_get m (sd_sorted_pmem_address d + (a - sd_data d));
  rv_keep : forall a, ~ pm_area d a -> ~ buf_area d a -> mem_get m' a = mem_get m a;
  rv_written : forall src size i, previous d = Some (src, size) -> 0 <= i < size ->
               mem_get m' (sd_sorted_pmem_address d + i) = mem_get m (src + i)
}.

Lemma save_and_write_ok m d ds :
  batch (d :: ds) -> batch_mapped m (d :: ds) ->
  exists m', save_and_write m d = Some m' /\ reverted m d m'.
Proof.
  intros Hb Hm. assert (d ∈ d :: ds) as Hd by left.
  destruct (ba_rev _ Hb d Hd) as (Hv & src & n & Hprev & Hn).
  destruct (memcpy_total m (sd_data d) (sd_sorted_pmem_address d) (sd_size d)) as [m1 H1].
  { intros a Ha. by eapply bm_buf. }
  { intros a Ha. by eapply bm_pm. }
  { intros a Ha Ha'. by eapply (ba_pm_buf _ Hb d d). }
  pose proof (memcpy_layout _ _ _ _ _ H1) as L1.
  destruct (memcpy_total m1 (sd_sorted_pmem_address d) src n) as [m2 H2].
  { intros a Ha. apply (ly_mapped _ _ L1). eapply bm_pm; [done|exact Hd|].
    unfold pm_area, in_area in *. lia. }
  { intros a Ha. apply (ly_mapped _ _ L1). eapply bm_old; [done|exact Hd|]. by exists src, n. }
  { intros a Ha Ha'. eapply (ba_pm_old _ Hb d d a); [done..| |by exists src, n].
    unfold pm_area, in_area in *. lia. }
  pose proof (memcpy_layout _ _ _ _ _ H2) as L2.
  exists m2. split; [unfold save_and_write; by rewrite H1, Hprev|].
  split.
  - by etrans.
  - intros a Ha. rewrite (memcpy_get _ _ _ _ _ a H2). rewrite decide_False.
    + rewrite (memcpy_get _ _ _ _ _ a H1). by rewrite decide_True.
    + intros Ha'. eapply (ba_pm_buf _ Hb d d a); [done..| |done].
      unfold pm_area, in_area in *. lia.
  - intros a Ha Ha'. rewrite (memcpy_get _ _ _ _ _ a H2). rewrite decide_False.
    + rewrite (memcpy_get _ _ _ _ _ a H1). by rewrite decide_False.
    + unfold pm_area, in_area in *. lia.
  - intros src' n' i Hp' Hi. assert (src' = src /\ n' = n) as [-> ->] by (split; congruence).
    rewrite (memcpy_get _ _ _ _ _ _ H2). rewrite decide_True by (unfold in_area; lia).
    rewrite (memcpy_get _ _ _ _ _ _ H1). rewrite decide_False; [f_equal; lia|].
    intros Ha. eapply (ba_buf_old _ Hb d d); [done..|exact Ha|]. exists src, n.
    split; [done|]. unfold in_area. lia.
Qed.

(** ** Batches *)

(** What reverting a whole batch keeps: everything but the persistent areas and
    the buffers. *)
Definition batch_area (ds : list single_data) (a : Z) : Prop :=
  exists d, d ∈ ds /\ (pm_area d a \/ buf_area d a).

Lemma revert_batch_ok m ds :
  batch ds -> batch_mapped m ds ->
  exists m', mfold save_and_write m ds = Some m' /\ agree_off (batch_area ds) m m'.
Proof.
  revert m. induction ds as [|d ds IH]; intros m Hb Hm; simpl; [by exists m|].
  destruct (save_and_write_ok m d ds Hb Hm) as (m1 & -> & [L _ K _]). simpl.
  destruct (IH m1) as (m2 & -> & L2 & K2).
  { by eapply batch_cons. }
  { eapply batch_mapped_layout; [done|]. by eapply batch_mapped_cons. }
  exists m2. split; [done|]. split; [by etrans|]. intros a Ha.
  rewrite K2, K; [done|..]; intros Hx; apply Ha.
  - exists d. split; [by left|by left].
  - exists d. split; [by left|by right].
  - destruct Hx as (e & He & Hx). exists e. split; [by right|done].
Qed.

(** The area a batch is restored to, when the pool has moved by [delta]. *)
Definition moved_area (delta : Z) (ds : list single_data) (a : Z) : Prop :=
  exists d, d ∈ ds /\ pm_area d (a - delta).

(** After the reversion of a batch the buffer of its first entry holds what the
    persistent area of the entry held before. *)
Lemma head_saved d ds m m0 m1 a :
  batch (d :: ds) -> batch_mapped m (d :: ds) -> save_and_write m d = Some m0 -> mfold save_and_write m0 ds = Some m1 -> buf_area d a ->
  mem_get m1 a = mem_get m (sd_sorted_pmem_address d + (a - sd_data d)) /\ is_Some (mem_get m1 a).
Proof.
  intros Hb Hm H0 H1 Ha. destruct (save_and_write_ok m d ds Hb Hm) as (m0' & H0' & [L S _ _]).
  assert (m0' = m0) as -> by congruence. pose proof (batch_cons _ _ Hb) as Hb'.
  pose proof (batch_mapped_layout _ _ _ L (batch_mapped_cons _ _ _ Hm)) as Hm0.
  destruct (revert_batch_ok m0 ds Hb' Hm0) as (m1' & H1' & L1 & Hoff). assert (m1' = m1) as -> by congruence. split.
  - rewrite <- S by done. apply Hoff. intros (e & He & [Hx|Hx]).
    + by apply (ba_pm_buf _ Hb e d a); [right|left|..].
    + by apply (batch_head_buf d ds e a Hb He Ha).
  - apply (ly_mapped _ _ L1), (ly_mapped _ _ L). eapply bm_buf; [exact Hm|by left|done].
Qed.

(** The heart of the matter: whatever happened to the memory after a batch was
    reverted, as long as the buffers of the batch still hold what the reversion
    saved there and the persistent areas are mapped (possibly elsewhere) away
    from the buffers, writing the buffers back in the opposite order restores
    every byte of the persistent areas to what it was before the reversion. *)
Lemma write_back_restores delta m ds m1 m' :
  batch ds -> batch_mapped m ds -> mfold save_and_write m ds = Some m1 ->
  (forall d a, d ∈ ds -> buf_area d a -> mem_get m' a = mem_get m1 a) ->
  (forall a, moved_area delta ds a -> is_Some (mem_get m' a)) ->
  (forall d a, d ∈ ds -> moved_area delta ds a -> ~ buf_area d a) ->
  exists m2, mfold (write_back delta) m' (reverse ds) = Some m2 /\ same_layout m' m2 /\
    (forall d a, d ∈ ds -> pm_area d a -> mem_get m2 (a + delta) = mem_get m a) /\
    (forall a, ~ moved_area delta ds a -> mem_get m2 a = mem_get m' a).
Proof.
  revert m. induction ds as [|d ds IH]; intros m Hb Hm Hrev Hbuf Hmap Hsep; simpl.
  { exists m'. split; [done|]. split; [done|]. split; [|done].
    by intros d a ?%not_elem_of_nil. }
  assert (forall a, moved_area delta ds a -> moved_area delta (d :: ds) a) as Hmv.
  { intros a (e & He & Ha). exists e. split; [by right|done]. }
  simpl in Hrev. apply bind_Some in Hrev as (m0 & H0 & Hrev).
  destruct (save_and_write_ok m d ds Hb Hm) as (m0' & H0' & [L S K _]).
  assert (m0' = m0) as -> by congruence.
  pose proof (batch_cons _ _ Hb) as Hb'. pose proof (batch_mapped_cons _ _ _ Hm) as Hm'.
  pose proof (batch_mapped_layout _ _ _ L Hm') as Hm0.
  destruct (IH m0) as (m2 & H2 & L2 & R2 & K2); [done|done|done| | | |].
  { intros e a He. apply Hbuf. by right. }
  { intros a Ha. by apply Hmap, Hmv. }
  { intros e a He Ha. apply Hsep; [by right|by apply Hmv]. }
  assert (forall a, buf_area d a -> mem_get m2 a = mem_get m (sd_sorted_pmem_address d + (a - sd_data d)) /\ is_Some (mem_get m2 a))
    as Hsaved.
  { intros a Ha. rewrite K2 by (intros Hx; by apply (Hsep d a); [left|by apply Hmv|]).
    rewrite (Hbuf d a) by (done || left). by apply (head_saved d ds m m0 m1). }
  destruct (memcpy_total m2 (sd_sorted_pmem_address d + delta) (sd_data d) (sd_size d))
    as [m3 H3].
  { intros a Ha. apply (ly_mapped _ _ L2), Hmap. exists d. split; [by left|].
    unfold pm_area, in_area in *. lia. }
  { intros a Ha. by apply Hsaved. }
  { intros a Ha. apply Hsep; [by left|]. exists d. split; [by left|].
    unfold pm_area, in_area in *. lia. }
  pose proof (fun x => memcpy_get _ _ _ _ _ x H3) as G3.
  exists m3. split; [|split; [|split]].
  - rewrite reverse_cons, mfold_app, H2. simpl. unfold write_back. by rewrite H3.
  - etrans; [done|]. by eapply memcpy_layout.
  - intros e a He Ha. rewrite G3. case_decide as Hd.
    + unfold in_area in Hd. rewrite (fun x Hx => proj1 (Hsaved x Hx)) by (unfold buf_area, in_area; lia). f_equal. lia.
    + apply elem_of_cons in He as [->|He]; [exfalso; unfold pm_area, in_area in *; lia|].
      rewrite (R2 e a He Ha). apply K.
      * unfold pm_area, in_area in *. lia.
      * apply (ba_pm_buf _ Hb e d); [by right|by left|done].
  - intros a Ha. rewrite G3. rewrite decide_False.
    + apply K2. intros Hx. by apply Ha, Hmv.
    + intros Hx. apply Ha. exists d. split; [by left|]. unfold pm_area, in_area in *. lia.
Qed.

(** ** The code's loops are batches *)

(** The entry filed under [q] can be reverted and undone: it exists, and unless
    it has an older version there is nothing to revert. *)
Definition selectable (s : seq_log) (q : Z) : Prop :=
  0 <= q < 2 ^ 31 /\ exists d, SeqLog.model s !! q = Some d /\ sd_sequence_number d <> -1 /\
    (sd_version d < 1 -> sd_old_checkpoint_entry d = 0).

(** The version of an entry that has an older one. *)
Definition live_entry (s : seq_log) (q : Z) : option single_data :=
  d ← SeqLog.model s !! q; if decide (1 <= sd_version d) then Some d else None.

Definition batch_entries (s : seq_log) (qs : list Z) : list single_data :=
  omap (live_entry s) qs.
#[local] Arguments batch_entries : simpl never.

Lemma batch_entries_in s qs d :
  d ∈ batch_entries s qs -> exists q, q ∈ qs /\ SeqLog.model s !! q = Some d /\ 1 <= sd_version d.
Proof.
  unfold batch_entries. rewrite list_elem_of_omap. intros (q & Hq & Hd). exists q.
  split; [done|]. unfold live_entry in Hd. destruct (SeqLog.model s !! q); simplify_eq/=.
  case_decide; by simplify_eq.
Qed.

Lemma batch_entries_cons s q qs :
  batch_entries s (q :: qs) =
  match live_entry s q with
  | Some d => d :: batch_entries s qs
  | None => batch_entries s qs
  end.
Proof. done. Qed.

Lemma live_entry_lookup s q d :
  SeqLog.model s !! q = Some d ->
  live_entry s q = if decide (1 <= sd_version d) then Some d else None.
Proof. unfold live_entry. by intros ->. Qed.

Lemma revert_step_ok g s c m q :
  SeqLog.wf s -> selectable s q ->
  revert_step g s c m q = match live_entry s q with
                          | Some d => save_and_write m d
                          | None => Some m
                          end.
Proof.
  intros Hwf (Hq & d & Hd & Hsn & Hv). unfold revert_step.
  rewrite (SeqLog.lookup_ok _ _ _ Hwf Hq), Hd. simpl. rewrite decide_False by done.
  unfold live_entry. rewrite Hd. simpl. destruct (decide (1 <= sd_version d)) as [Hl|Hl].
  - rewrite decide_False by lia. unfold revert_by_sequence_number, save_and_write, previous.
    rewrite (SeqLog.lookup_undo_save_ok _ _ _ _ _ d Hwf Hq Hd).
    destruct (memcpy m _ _ _); simpl; [|done].
    destruct (zget (sd_old_data d) _); simpl; [|done].
    by destruct (zget (sd_old_size d) _).
  - rewrite decide_True by lia. by rewrite decide_True by (apply Hv; lia).
Qed.

Lemma revert_array_batch g s c m qs rest n :
  SeqLog.wf s -> Forall (selectable s) qs -> n = Z.of_nat (length qs) ->
  revert_by_sequence_number_array g m s (qs ++ rest) n c =
  mfold save_and_write m (batch_entries s qs).
Proof.
  intros Hwf Hqs ->. unfold revert_by_sequence_number_array.
  rewrite mfold_index by (rewrite length_app; lia).
  rewrite Nat2Z.id, take_app_length. revert m.
  induction Hqs as [|q qs Hq Hqs IH]; intros m; simpl; [done|].
  rewrite revert_step_ok by done. rewrite batch_entries_cons.
  destruct (live_entry s q) as [d|]; simpl; [|apply IH].
  destruct (save_and_write m d); simpl; [apply IH|done].
Qed.

(** [s'] is [s] after the pool moved by [delta], as far as [qs] are concerned. *)
Definition moved (delta : Z) (qs : list Z) (s s' : seq_log) : Prop :=
  SeqLog.wf s' /\ forall k, k ∈ qs -> SeqLog.model s' !! k =
    (fun d => set_sorted_pmem_address d (sd_sorted_pmem_address d + delta)) <$> SeqLog.model s !! k.

Lemma undo_step_ok delta g s s' m q qs :
  moved delta qs s s' -> q ∈ qs -> selectable s q ->
  (d ← SeqLog.lookup g s' q; undo_by_sequence_number m d q) =
  match live_entry s q with
  | Some d => write_back delta m d
  | None => Some m
  end.
Proof.
  intros [Hwf Hmv] Hin (Hq & d & Hd & _).
  rewrite (SeqLog.lookup_ok _ _ _ Hwf Hq), Hmv, Hd by done. simpl.
  rewrite (live_entry_lookup _ _ _ Hd). unfold undo_by_sequence_number. simpl.
  destruct (decide (1 <= sd_version d)).
  - by rewrite decide_False by lia.
  - by rewrite decide_True by lia.
Qed.

Lemma undo_array_batch delta g s s' m qs l :
  moved delta l s s' -> (forall q, q ∈ qs -> q ∈ l) -> Forall (selectable s) qs ->
  undo_by_sequence_number_array g m s' qs = mfold (write_back delta) m (batch_entries s qs).
Proof.
  intros Hmv Hin Hqs. unfold undo_by_sequence_number_array. revert m.
  induction Hqs as [|q qs Hq Hqs IH]; intros m; simpl; [done|].
  rewrite (undo_step_ok delta g s s' m q l) by (done || (apply Hin; left)).
  rewrite batch_entries_cons.
  assert (forall x, x ∈ qs -> x ∈ l) as Hin' by (intros x Hx; apply Hin; by right).
  destruct (live_entry s q) as [d|]; simpl; [|by apply IH].
  destruct (write_back delta m d); simpl; [by apply IH|done].
Qed.

Lemma moved_refl qs s : SeqLog.wf s -> moved 0 qs s s.
Proof.
  intros Hwf. split; [done|]. intros k _. destruct (SeqLog.model s !! k) as [d|]; simpl; [|done].
  rewrite Z.add_0_r. by destruct d.
Qed.

Lemma revert_undo_ok g s c m qs rest :
  SeqLog.wf s -> Forall (selectable s) qs ->
  batch (batch_entries s qs) -> batch_mapped m (batch_entries s qs) ->
  exists m1 m2,
    revert_by_sequence_number_array g m s (qs ++ rest) (Z.of_nat (length qs)) c = Some m1 /\
    undo_by_sequence_number_array g m1 s (reverse qs) = Some m2 /\
    agree_off (fun a => exists d, d ∈ batch_entries s qs /\ buf_area d a) m m2.
Proof.
  intros Hwf Hsel Hb Hm. destruct (revert_batch_ok m _ Hb Hm) as (m1 & H1 & L1 & K1).
  destruct (write_back_restores 0 m _ m1 m1 Hb Hm H1) as (m2 & H2 & L2 & R2 & K2); [done| | |].
  - intros a (d & Hd & Ha). rewrite Z.sub_0_r in Ha.
    apply (ly_mapped _ _ L1). by eapply bm_pm.
  - intros d a Hd (e & He & Ha). rewrite Z.sub_0_r in Ha. by apply (ba_pm_buf _ Hb e d).
  - exists m1, m2. split; [by rewrite revert_array_batch|]. split.
    + rewrite (undo_array_batch 0 g s s _ _ (reverse qs))
        by (by apply moved_refl || done || by apply Forall_reverse).
      unfold batch_entries in *. by rewrite omap_reverse.
    + split; [by etrans|]. intros a Ha.
      destruct (decide (Exists (fun d => in_area (sd_sorted_pmem_address d) (sd_size d) a)
                  (batch_entries s qs))) as [Hx|Hx].
      * apply Exists_exists in Hx as (d & Hd & Hx).
        rewrite <- (R2 d a Hd Hx). by rewrite Z.add_0_r.
      * rewrite Exists_exists in Hx. rewrite K2, K1; [done|..].
        -- intros (d & Hd & [Hp|Hp]); [apply Hx|apply Ha]; by exists d.
        -- intros (d & Hd & Hp). rewrite Z.sub_0_r in Hp. apply Hx. by exists d.
Qed.

(** C10. Undoing a reversion.  Revert any set of sequence numbers whose entries
    have private buffers, in any order, and undo them in the opposite order
    ([binary_reversion] reverts descending and undoes ascending): both loops
    succeed and, outside the entries' own buffers, memory is what it was. *)
Theorem revert_undo_roundtrip g s c m qs rest :
  SeqLog.wf s -> Forall (selectable s) qs ->
  batch (batch_entries s qs) -> batch_mapped m (batch_entries s qs) ->
  exists m1 m2,
    revert_by_sequence_number_array g m s (qs ++ rest) (Z.of_nat (length qs)) c = Some m1 /\
    undo_by_sequence_number_array g m1 s (reverse qs) = Some m2 /\
    agree_off (fun a => exists d, d ∈ batch_entries s qs /\ buf_area d a) m m2.
Proof. apply revert_undo_ok. Qed.

(** What a reversion writes: after reverting an array of sequence numbers,
    a persistent byte that an entry's previous version covers holds that
    version's byte, provided no later entry of the array covers it too; so a
    descending array leaves the bytes of the lowest sequence numbers. *)
Theorem revert_array_effect g s c m qs rest :
  SeqLog.wf s -> Forall (selectable s) qs ->
  batch (batch_entries s qs) -> batch_mapped m (batch_entries s qs) ->
  exists m1,
    revert_by_sequence_number_array g m s (qs ++ rest) (Z.of_nat (length qs)) c = Some m1 /\
    (forall l1 d l2 src size i, batch_entries s qs = l1 ++ d :: l2 ->
       previous d = Some (src, size) -> 0 <= i < size ->
       (forall e, e ∈ l2 -> ~ pm_area e (sd_sorted_pmem_address d + i)) ->
       mem_get m1 (sd_sorted_pmem_address d + i) = mem_get m (src + i)) /\
    (forall a, ~ batch_area (batch_entries s qs) a -> mem_get m1 a = mem_get m a).
Proof.
  intros Hwf Hsel Hb Hm. destruct (revert_batch_ok m _ Hb Hm) as (m1 & H1 & L1 & K1).
  exists m1. split; [by rewrite revert_array_batch|]. split; [|exact K1].
  clear Hsel K1 L1. generalize dependent (batch_entries s qs). clear qs. intros ds.
  revert m. induction ds as [|x ds IH]; intros m Hb Hm H1 l1 d l2 src n i Hds Hp Hi Hl2.
  { by destruct l1. }
  simpl in H1. apply bind_Some in H1 as (m0 & H0 & H1).
  destruct (save_and_write_ok m x ds Hb Hm) as (m0' & H0' & [L S K W]).
  assert (m0' = m0) as -> by congruence.
  pose proof (batch_cons _ _ Hb) as Hb'.
  assert (batch_mapped m0 ds) as Hm0
    by (eapply batch_mapped_layout; [done|by eapply batch_mapped_cons]).
  destruct l1 as [|y l1]; simplify_eq/=.
  - destruct (revert_batch_ok m0 l2 Hb' Hm0) as (m1' & H1' & _ & Hoff).
    assert (m1' = m1) as -> by congruence.
    rewrite Hoff; [by apply (W src n)|].
    intros (e & He & [Hx|Hx]); [by apply (Hl2 e He)|].
    apply (ba_pm_buf _ Hb d e (sd_sorted_pmem_address d + i)); [by left|by right| |done].
    destruct (ba_rev _ Hb d ltac:(left)) as (_ & src' & n' & Hp' & Hn').
    assert (n' = n) as -> by congruence. unfold pm_area, in_area. lia.
  - rewrite (IH m0 Hb' Hm0 H1 l1 d l2 src n i) by done.
    assert (old_area d (src + i)) as Ho.
    { exists src, n. split; [done|]. unfold in_area. lia. }
    assert (d ∈ y :: l1 ++ d :: l2) as Hd.
    { right. apply elem_of_app. right. left. }
    apply K; intros Hx; [eapply (ba_pm_old _ Hb y d)|eapply (ba_buf_old _ Hb y d)];
      (done || by left).
Qed.

(** ** Deciding the batch conditions *)

Definition revertibleb (d : single_data) : bool :=
  bool_decide (1 <= sd_version d) &&
  match previous d with
  | Some (_, size) => bool_decide (0 <= size <= sd_size d)
  | None => false
  end.

Definition apartb (d e : single_data) : bool :=
  disjointb (sd_sorted_pmem_address d) (sd_size d) (sd_data e) (sd_size e) &&
  match previous e with
  | Some (src, size) => disjointb (sd_sorted_pmem_address d) (sd_size d) src size &&
                        disjointb (sd_data d) (sd_size d) src size
  | None => true
  end.

Fixpoint separateb (ds : list single_data) : bool :=
  match ds with
  | [] => true
  | d :: ds' => forallb (fun e => disjointb (sd_data d) (sd_size d) (sd_data e) (sd_size e)) ds' &&
                separateb ds'
  end.

Definition batchb (ds : list single_data) : bool :=
  forallb revertibleb ds && forallb (fun d => forallb (apartb d) ds) ds && separateb ds.

Definition batch_mappedb (m : memory) (ds : list single_data) : bool :=
  forallb (fun d => mappedb m (sd_sorted_pmem_address d) (sd_size d) &&
                    mappedb m (sd_data d) (sd_size d) &&
                    match previous d with
                    | Some (src, size) => mappedb m src size
                    | None => true
                    end) ds.

Lemma revertibleb_ok d : revertibleb d = true -> revertible d.
Proof.
  unfold revertibleb, revertible. intros [Hv H]%andb_true_iff.
  apply bool_decide_eq_true in Hv. split; [done|]. destruct (previous d) as [[src n]|]; [|done].
  apply bool_decide_eq_true in H. eauto.
Qed.

Lemma separateb_ok ds i j d e :
  separateb ds = true -> ds !! i = Some d -> ds !! j = Some e -> i <> j ->
  disjoint_areas (sd_data d) (sd_size d) (sd_data e) (sd_size e).
Proof.
  revert i j. induction ds as [|x ds IH]; intros i j; simpl; [done|].
  intros [Hx Hs]%andb_true_iff Hi Hj Hne.
  assert (forall y, y ∈ ds -> disjoint_areas (sd_data x) (sd_size x) (sd_data y) (sd_size y)) as Hall.
  { intros y Hy. apply disjointb_ok. rewrite forallb_forall in Hx.
    apply Hx. by apply list_elem_of_In. }
  destruct i as [|i], j as [|j]; simplify_eq/=.
  - apply Hall. by eapply list_elem_of_lookup_2.
  - assert (disjoint_areas (sd_data e) (sd_size e) (sd_data d) (sd_size d)) as H.
    { apply Hall. by eapply list_elem_of_lookup_2. }
    intros a Ha Ha'. by apply (H a).
  - by apply (IH i j); [..|lia].
Qed.

Lemma batchb_ok ds : batchb ds = true -> batch ds.
Proof.
  unfold batchb. intros [[H1 H2]%andb_true_iff H3]%andb_true_iff.
  rewrite forallb_forall in H1, H2.
  assert (forall d e, d ∈ ds -> e ∈ ds -> apartb d e = true) as Hap.
  { intros d e Hd%list_elem_of_In He%list_elem_of_In. specialize (H2 d Hd).
    rewrite forallb_forall in H2. by apply H2. }
  split.
  - intros d Hd. apply revertibleb_ok, H1. by apply list_elem_of_In.
  - intros d e a Hd He. specialize (Hap d e Hd He). unfold apartb in Hap.
    apply andb_true_iff in Hap as [Hap%disjointb_ok _]. apply Hap.
  - intros i j d e a Hi Hj Hne. by apply (separateb_ok ds i j).
  - intros d e a Hd He Ha (src & n & Hp & Hx). specialize (Hap d e Hd He). unfold apartb in Hap.
    rewrite Hp, !andb_true_iff in Hap. destruct Hap as (_ & Hd1%disjointb_ok & _).
    by apply (Hd1 a).
  - intros d e a Hd He Ha (src & n & Hp & Hx). specialize (Hap d e Hd He). unfold apartb in Hap.
    rewrite Hp, !andb_true_iff in Hap. destruct Hap as (_ & _ & Hd1%disjointb_ok).
    by apply (Hd1 a).
Qed.

Lemma batch_mappedb_ok m ds : batch_mappedb m ds = true -> batch_mapped m ds.
Proof.
  unfold batch_mappedb. intros H. rewrite forallb_forall in H.
  split; intros d a Hd%list_elem_of_In; specialize (H d Hd);
    apply andb_true_iff in H as [[H1%mappedb_ok H2%mappedb_ok]%andb_true_iff H3].
  - apply H1.
  - apply H2.
  - intros (src & n & Hp & Ha). rewrite Hp in H3. by apply (mappedb_ok _ _ _ H3).
Qed.

(** ** A concrete batch: versions 1 and 2 of the two bytes at address 40 *)

Definition ex_pm : memory :=
  Mem (list_to_map [(100, x01); (101, x02); (102, x03); (103, x04);
                    (110, x0a); (111, x0b); (112, x0c); (113, x0d)]) 200
      (list_to_map [(0, x05); (1, x06); (2, x07)]) 3 (Some 40).

Definition ex_entry (data seq version old : Z) : single_data :=
  SingleData 40 0 data 2 seq version 0 [old; old; 0] [2; 2; 0] 0 0 40 0.

Definition ex_garbage : single_data := ex_entry 0 0 0 0.

Definition ex_log : seq_log :=
  SeqLog 2 100 [[SeqNode 4 (ex_entry 100 4 1 110); SeqNode 6 (ex_entry 102 6 2 112)]; []].

Lemma ex_log_wf : SeqLog.wf ex_log.
Proof.
  split.
  - split; [simpl; lia|simpl; lia|].
    intros [|[|p]] c x Hc Hx; simpl in Hc; [..|discriminate Hc]; injection Hc as <-;
      [|by apply not_elem_of_nil in Hx].
    rewrite !elem_of_cons in Hx.
    destruct Hx as [->|[->|?%not_elem_of_nil]]; [reflexivity|reflexivity|done].
  - apply (bool_decide_unpack _). vm_compute. exact I.
  - intros n Hn. simpl in Hn. rewrite !elem_of_cons in Hn.
    destruct Hn as [->|[->|?%not_elem_of_nil]]; simpl; [lia|lia|done].
Qed.

Lemma ex_selectable : Forall (selectable ex_log) [6; 4].
Proof.
  repeat constructor; try (simpl; lia); eexists; (split; [vm_compute; reflexivity|]);
    simpl; split; lia.
Qed.

Lemma ex_batch : batch (batch_entries ex_log [6; 4]) /\
                 batch_mapped ex_pm (batch_entries ex_log [6; 4]).
Proof.
  split; [apply batchb_ok|apply batch_mappedb_ok]; vm_compute; reflexivity.
Qed.

Lemma ex_entries : batch_entries ex_log [6; 4] = [ex_entry 102 6 2 112; ex_entry 100 4 1 110].
Proof. vm_compute. reflexivity. Qed.

Lemma revert_undo_roundtrip_witness :
  exists m1 m2,
    revert_by_sequence_number_array ex_garbage ex_pm ex_log [6; 4] 2 (CheckpointLog 1 0 [[]]) = Some m1 /\
    undo_by_sequence_number_array ex_garbage m1 ex_log [4; 6] = Some m2 /\
    mem_get m1 40 = Some x0a /\ mem_get m2 40 = Some x05.
Proof.
  destruct (revert_undo_roundtrip ex_garbage ex_log (CheckpointLog 1 0 [[]]) ex_pm [6; 4] [])
    as (m1 & m2 & H1 & H2 & _ & H3);
    [exact ex_log_wf|exact ex_selectable|apply ex_batch|apply ex_batch|].
  exists m1, m2. split; [exact H1|]. split; [exact H2|]. split.
  - assert (Some m1 = Some m1) as Hm by reflexivity. rewrite <- H1 in Hm at 1.
    vm_compute in Hm. injection Hm as <-. reflexivity.
  - rewrite H3; [reflexivity|]. intros (d & Hd & Ha). rewrite ex_entries in Hd.
    rewrite !elem_of_cons in Hd. unfold buf_area, in_area in Ha.
    destruct Hd as [->|[->|?%not_elem_of_nil]]; simpl in Ha; [lia|lia|done].
Defined.

Lemma revert_array_effect_witness :
  exists m1,
    revert_by_sequence_number_array ex_garbage ex_pm ex_log [6; 4] 2 (CheckpointLog 1 0 [[]]) = Some m1 /\
    mem_get m1 40 = Some x0a /\ mem_get m1 42 = Some x07.
Proof.
  destruct (revert_array_effect ex_garbage ex_log (CheckpointLog 1 0 [[]]) ex_pm [6; 4] [])
    as (m1 & H1 & H2 & H3);
    [exact ex_log_wf|exact ex_selectable|apply ex_batch|apply ex_batch|].
  exists m1. split; [exact H1|]. split.
  - transitivity (mem_get ex_pm (110 + 0)); [|reflexivity].
    apply (H2 [ex_entry 102 6 2 112] (ex_entry 100 4 1 110) [] 110 2 0);
      [vm_compute; reflexivity|reflexivity|lia|].
    intros e He%not_elem_of_nil. done.
  - rewrite H3; [reflexivity|]. intros (d & Hd & Ha). rewrite ex_entries in Hd.
    rewrite !elem_of_cons in Hd. unfold pm_area, buf_area, in_area in Ha.
    destruct Hd as [->|[->|?%not_elem_of_nil]]; simpl in Ha; [lia|lia|done].
Defined.

(** ** Entries that are reverted but never undone *)

Lemma undo_version0 g s m q d :
  SeqLog.wf s -> 0 <= q < 2 ^ 31 -> SeqLog.model s !! q = Some d -> sd_version d < 1 ->
  undo_by_sequence_number_array g m s [q] = Some m.
Proof.
  intros Hwf Hq Hd Hv. unfold undo_by_sequence_number_array. simpl.
  rewrite (SeqLog.lookup_ok _ _ _ Hwf Hq), Hd. simpl. unfold undo_by_sequence_number.
  by rewrite decide_True by lia.
Qed.

(** The first version of an object that replaced an older object is reverted
    to the current version of the older checkpoint entry, without saving the
    overwritten bytes; the undo loop skips it, so after reverting and undoing it
    the persistent bytes are still those of the older entry. *)
Theorem replaced_entry_not_undone g s c m q d n src size :
  SeqLog.wf s -> 0 <= q < 2 ^ 31 -> SeqLog.model s !! q = Some d ->
  sd_sequence_number d <> -1 -> sd_version d = 0 -> sd_old_checkpoint_entry d <> 0 ->
  Reconstruct.search_for_offset (sd_old_checkpoint_entry d) c = Some (Some n) ->
  zget (cd_data (nd_c_data n)) (cd_version (nd_c_data n)) = Some src ->
  zget (cd_size (nd_c_data n)) (cd_version (nd_c_data n)) = Some size ->
  mapped m (sd_sorted_pmem_address d) size -> mapped m src size ->
  disjoint_areas (sd_sorted_pmem_address d) size src size ->
  exists m1,
    revert_by_sequence_number_array g m s [q] 1 c = Some m1 /\
    undo_by_sequence_number_array g m1 s [q] = Some m1 /\
    (forall i, 0 <= i < size -> mem_get m1 (sd_sorted_pmem_address d + i) = mem_get m (src + i)) /\
    (forall a, ~ in_area (sd_sorted_pmem_address d) size a -> mem_get m1 a = mem_get m a).
Proof.
  intros Hwf Hq Hd Hsn Hv Hold Hs Hsrc Hsz Hm1 Hm2 Hdis.
  destruct (memcpy_total m (sd_sorted_pmem_address d) src size) as [m1 H1]; [done..|].
  exists m1. split; [|split; [|split]].
  - unfold revert_by_sequence_number_array. simpl. unfold revert_step.
    rewrite (SeqLog.lookup_ok _ _ _ Hwf Hq), Hd. simpl.
    rewrite decide_False by done. rewrite decide_True by lia. rewrite decide_False by done.
    rewrite Hs. simpl. unfold revert_by_sequence_number_checkpoint. rewrite Hsrc, Hsz. simpl.
    by rewrite H1.
  - apply (undo_version0 g s m1 q d); [done..|lia].
  - intros i Hi. rewrite (memcpy_get _ _ _ _ _ _ H1).
    rewrite decide_True by (unfold in_area; lia). f_equal. lia.
  - intros a Ha. rewrite (memcpy_get _ _ _ _ _ _ H1). by rewrite decide_False.
Qed.

(** An object at 40 that replaced the object checkpointed at offset 7. *)
Definition ex_new_log : seq_log :=
  SeqLog 1 100 [[SeqNode 5 (SingleData 40 0 100 2 5 0 0 [0; 0; 0] [0; 0; 0] 7 0 40 0)]].

Definition ex_old_clog : checkpoint_log :=
  CheckpointLog 2 1 [[]; [Node 7 (CheckpointData 90 7 [110; 112; 0] [2; 2; 0] 1 0 [1; 2; 0] 0 0 0 [0; 0; 0])]].

Lemma ex_new_log_wf : SeqLog.wf ex_new_log.
Proof.
  split.
  - split; [simpl; lia|simpl; lia|].
    intros [|p] c x Hc Hx; simpl in Hc; [|discriminate Hc]; injection Hc as <-.
    apply list_elem_of_singleton in Hx as ->. reflexivity.
  - apply (bool_decide_unpack _). vm_compute. exact I.
  - intros n Hn. simpl in Hn. apply list_elem_of_singleton in Hn as ->. simpl. lia.
Qed.

Lemma replaced_entry_not_undone_witness :
  exists m1,
    revert_by_sequence_number_array ex_garbage ex_pm ex_new_log [5] 1 ex_old_clog = Some m1 /\
    undo_by_sequence_number_array ex_garbage m1 ex_new_log [5] = Some m1 /\
    mem_get ex_pm 40 = Some x05 /\ mem_get m1 40 = Some x0c.
Proof.
  edestruct (replaced_entry_not_undone ex_garbage ex_new_log ex_old_clog ex_pm 5)
    as (m1 & H1 & H2 & H3 & _).
  - exact ex_new_log_wf.
  - lia.
  - vm_compute. reflexivity.
  - discriminate.
  - reflexivity.
  - discriminate.
  - vm_compute. reflexivity.
  - reflexivity.
  - reflexivity.
  - apply mappedb_ok. vm_compute. reflexivity.
  - apply mappedb_ok. vm_compute. reflexivity.
  - apply disjointb_ok. vm_compute. reflexivity.
  - exists m1. split; [exact H1|]. split; [exact H2|]. split; [reflexivity|].
    exact (H3 0 ltac:(lia)).
Defined.

(** ** Reverting whole transactions *)

(** The sequence numbers a bucket of the transaction log contributes: every
    entry with an older version that is not already listed. *)
Definition bucket_targets (qs : list Z) (chain : list tx_node) : list Z :=
  (fun n => sd_sequence_number (tn_ordered_data n)) <$>
  filter (fun n => sd_version (tn_ordered_data n) <> 0 /\
                   sd_sequence_number (tn_ordered_data n) ∉ qs) chain.

Lemma already_reverted_ok (q : Z) (qs rest : list Z) :
  mfold (fun (b : bool) j => x ← zget (qs ++ rest) j; Some (if decide (q = x) then true else b))
    false (seqZ 0 (Z.of_nat (length qs))) = Some (bool_decide (q ∈ qs)).
Proof.
  rewrite (mfold_index (fun (b : bool) x => Some (if decide (q = x) then true else b)))
    by (rewrite length_app; lia).
  rewrite Nat2Z.id, take_app_length.
  assert (forall b, mfold (fun (b : bool) x => Some (if decide (q = x) then true else b)) b qs =
                    Some (b || bool_decide (q ∈ qs))) as H.
  { induction qs as [|x qs IH]; intros b; cbn [mfold mbind option_bind].
    - rewrite (bool_decide_eq_false_2 (q ∈ [])) by apply not_elem_of_nil. by rewrite orb_false_r.
    - rewrite IH. f_equal. destruct (decide (q = x)) as [Hx|Hx].
      + rewrite (bool_decide_eq_true_2 (q ∈ x :: qs)) by (subst; left). by rewrite orb_true_r.
      + f_equal. apply bool_decide_ext. rewrite elem_of_cons. tauto. }
  by rewrite H.
Qed.

(** A node of the transaction log names the entry with its own number. *)
Definition consistent (s : seq_log) (n : tx_node) : Prop :=
  let q := sd_sequence_number (tn_ordered_data n) in
  0 <= q < 2 ^ 31 /\ exists d, SeqLog.model s !! q = Some d /\
    sd_version d = sd_version (tn_ordered_data n) /\ 0 <= sd_version d.

Lemma revert_tx_node_ok g s m qs rest n :
  SeqLog.wf s -> consistent s n ->
  revert_tx_node g s (qs ++ rest) (Z.of_nat (length qs)) m n =
  mfold save_and_write m (batch_entries s (bucket_targets qs [n])).
Proof.
  intros Hwf (Hq & d & Hd & Hv & Hv0).
  unfold revert_tx_node. cbv beta zeta. rewrite already_reverted_ok. simpl.
  unfold bucket_targets. rewrite filter_cons, filter_nil.
  destruct (decide (sd_version (tn_ordered_data n) <> 0 /\
                    sd_sequence_number (tn_ordered_data n) ∉ qs)) as [[H1 H2]|Hn].
  - rewrite decide_True by (by rewrite bool_decide_eq_false).
    rewrite fmap_cons, batch_entries_cons, (live_entry_lookup _ _ _ Hd), decide_True by lia.
    rewrite (SeqLog.lookup_ok _ _ _ Hwf Hq), Hd. simpl.
    unfold revert_by_sequence_number, save_and_write, previous. rewrite Hv.
    rewrite (SeqLog.lookup_undo_save_ok _ _ _ _ _ d Hwf Hq Hd).
    destruct (memcpy m _ _ _) as [m1|]; simpl; [|done].
    destruct (zget (sd_old_data d) _) as [src|]; simpl; [|done].
    destruct (zget (sd_old_size d) _) as [n'|]; simpl; [|done].
    by destruct (memcpy m1 _ _ _).
  - by rewrite decide_False by (by rewrite bool_decide_eq_false).
Qed.

Lemma bucket_targets_cons qs n chain :
  bucket_targets qs (n :: chain) = bucket_targets qs [n] ++ bucket_targets qs chain.
Proof. unfold bucket_targets. rewrite !filter_cons, filter_nil. by case_decide. Qed.

Lemma revert_bucket_ok g s m qs rest chain :
  SeqLog.wf s -> (forall n, n ∈ chain -> consistent s n) ->
  mfold (revert_tx_node g s (qs ++ rest) (Z.of_nat (length qs))) m chain =
  mfold save_and_write m (batch_entries s (bucket_targets qs chain)).
Proof.
  intros Hwf. revert m. induction chain as [|n chain IH]; intros m Hc; [done|].
  rewrite bucket_targets_cons. unfold batch_entries. rewrite omap_app, mfold_app.
  simpl. rewrite revert_tx_node_ok by (done || (apply Hc; left)).
  unfold batch_entries. destruct (mfold save_and_write m _); simpl; [|done].
  apply IH. intros x Hx. apply Hc. by right.
Qed.

(** What the code reverts on behalf of the listed entry [q]. *)
Definition tx_targets (s : seq_log) (t : tx_log) (qs : list Z) (q : Z) : list Z :=
  default [] (d ← SeqLog.model s !! q;
              chain ← chain_of (tl_size t) (tl_list t) (sd_tx_id d);
              Some (bucket_targets qs chain)).

Lemma revert_tx_loop_ok g s t m qs rest l :
  SeqLog.wf s -> TxLog.wf t ->
  (forall n, n ∈ concat (tl_list t) -> consistent s n) ->
  (forall q, q ∈ l -> 0 <= q < 2 ^ 31 /\
     exists d, SeqLog.model s !! q = Some d /\ 0 <= sd_tx_id d < 2 ^ 31) ->
  mfold (fun m q => search_data ← SeqLog.lookup g s q;
      pos ← TxLog.txhashCode t (sd_tx_id search_data);
      chain ← zget (tl_list t) pos;
      mfold (revert_tx_node g s (qs ++ rest) (Z.of_nat (length qs))) m chain) m l =
  mfold save_and_write m (batch_entries s (l ≫= tx_targets s t qs)).
Proof.
  intros Hwf Ht Hc. revert m. induction l as [|q l IH]; intros m Hl; simpl; [done|].
  destruct (Hl q ltac:(left)) as (Hq & d & Hd & Htx).
  rewrite (SeqLog.lookup_ok _ _ _ Hwf Hq), Hd. simpl.
  rewrite TxLog.txhashCode_nonneg by (apply Ht || done). simpl.
  destruct (TxLog.chain_lookup t (sd_tx_id d) Ht Htx) as (c & Hz & Hlk & _).
  rewrite Hz. simpl. unfold tx_targets at 1. rewrite Hd. simpl. unfold chain_of. rewrite Hz. simpl.
  unfold batch_entries. rewrite omap_app, mfold_app. fold (batch_entries s (bucket_targets qs c)).
  rewrite (revert_bucket_ok g s m qs rest c Hwf).
  - destruct (mfold save_and_write m _); simpl; [|done]. apply IH. intros x Hx. apply Hl. by right.
  - intros n Hn. apply Hc. apply elem_of_concat. eauto.
Qed.

(** [revert_by_transaction] does not compare transaction ids: for every
    listed entry it reverts, in chain order, all entries with an older version
    that sit in the {bucket} of that entry's transaction id and are not listed,
    whatever transaction they belong to, and it does so once per listed entry. *)
Theorem revert_by_transaction_reverts_buckets g s t m qs rest :
  SeqLog.wf s -> TxLog.wf t ->
  (forall n, n ∈ concat (tl_list t) -> consistent s n) ->
  (forall q, q ∈ qs -> 0 <= q < 2 ^ 31 /\
     exists d, SeqLog.model s !! q = Some d /\ 0 <= sd_tx_id d < 2 ^ 31) ->
  revert_by_transaction g m t (qs ++ rest) (Z.of_nat (length qs)) s =
  mfold save_and_write m (batch_entries s (qs ≫= tx_targets s t qs)).
Proof.
  intros Hwf Ht Hc Hqs. unfold revert_by_transaction.
  rewrite (mfold_index (fun m q => search_data ← SeqLog.lookup g s q;
      pos ← TxLog.txhashCode t (sd_tx_id search_data);
      chain ← zget (tl_list t) pos;
      mfold (revert_tx_node g s (qs ++ rest) (Z.of_nat (length qs))) m chain))
    by (rewrite length_app; lia).
  rewrite Nat2Z.id, take_app_length.
  apply (revert_tx_loop_ok g s t m qs rest qs); done.
Qed.

(** Transactions 0 and 2 share a bucket of a table of size 2: selecting entry 6 of
    transaction 0 reverts entry 4, which the table files under transaction 2. *)
Definition ex_tx_log : tx_log :=
  TxLog 2 [[TxNode 2 (ex_entry 100 4 1 110); TxNode 0 (ex_entry 102 6 2 112)]; []].

Lemma ex_tx_log_wf : TxLog.wf ex_tx_log.
Proof.
  split. split; [simpl; lia|simpl; lia|].
  intros [|[|p]] c x Hc Hx; simpl in Hc; [..|discriminate Hc]; injection Hc as <-;
    [|by apply not_elem_of_nil in Hx].
  rewrite !elem_of_cons in Hx. destruct Hx as [->|[->|?%not_elem_of_nil]]; done.
Qed.

Lemma revert_by_transaction_reverts_buckets_witness :
  revert_by_transaction ex_garbage ex_pm ex_tx_log [6] 1 ex_log =
  mfold save_and_write ex_pm [ex_entry 100 4 1 110].
Proof.
  transitivity (mfold save_and_write ex_pm (batch_entries ex_log ([6] ≫= tx_targets ex_log ex_tx_log [6]))).
  - apply (revert_by_transaction_reverts_buckets ex_garbage ex_log ex_tx_log ex_pm [6] []).
    + exact ex_log_wf.
    + exact ex_tx_log_wf.
    + intros n Hn. simpl in Hn. rewrite !elem_of_cons in Hn.
      destruct Hn as [->|[->|?%not_elem_of_nil]]; [..|done]; (split; [simpl; lia|]);
        eexists; (split; [vm_compute; reflexivity|]); simpl; lia.
    + intros q Hq. apply list_elem_of_singleton in Hq as ->. split; [lia|].
      eexists. split; [vm_compute; reflexivity|]. simpl. lia.
  - vm_compute. reflexivity.
Defined.
End Rollback.
