(* ===== verification/LogCreation.v ===== *)
(** * Preparing a reaction (the creation functions of reactor/lib/core.cpp and
      sort_by_sequence_number of reactor/lib/rollback.c)

    The tables the reactor works on, the maps from offsets to sequence numbers,
    and the assignment of persistent addresses to entries. *)
From stdpp Require Import base list gmap strings.
From S2P Require Import Prelude Memory Checkpoint Chains SeqLog TxLog OrderLog Rollback.

Module LogCreation.

Definition LOG_SIZE : Z := 16000010.

(** [sizeof(struct seq_node)] is 144 bytes, room for 18 pointers. *)
Definition r_log_slots (total_size : Z) : Z := total_size * 18.

Record created := Created {
  cr_mem : memory;
  cr_s_log : seq_log;
  cr_total_size : Z;
  cr_r_log : seq_log
}.

Definition seq_log_creation (garbage : single_data) (m : memory) (c_log : checkpoint_log)
  : option created :=
  st ← OrderLog.order_by_sequence_num garbage m (SeqLog.empty_log LOG_SIZE LOG_SIZE) 0 c_log;
  let total_size := OrderLog.os_total st in
  Some (Created (OrderLog.os_mem st) (OrderLog.os_log st) total_size
          (SeqLog total_size (r_log_slots total_size)
             (replicate (Z.to_nat (s32 total_size)) []))).

(** The trailing loop prints the first eight bytes of every entry in the bucket
    of transaction 1 as a [double]. *)
Definition tx_log_creation (garbage : single_data) (m : memory) (c_log : checkpoint_log)
  : option (memory * tx_log) :=
  st ← OrderLog.order_by_tx_id garbage m (TxLog.empty_tx LOG_SIZE) c_log;
  let t_log := OrderLog.ot_log st in
  pos ← TxLog.txhashCode t_log 1;
  chain ← zget (tl_list t_log) pos;
  _ ← mfold (fun _ t_temp => _ ← load_bytes (OrderLog.ot_mem st) (sd_data (tn_ordered_data t_temp)) 8;
                             Some tt) tt chain;
  Some (OrderLog.ot_mem st, t_log).

(** ** Multimaps

    [std::multimap] keeps the elements of a key in insertion order. *)
Definition multimap := list (Z * Z).
Definition mm_insert (mm : multimap) (k v : Z) : multimap := mm ++ [(k, v)].
Definition equal_range (mm : multimap) (k : Z) : list Z :=
  snd <$> filter (fun e => e.1 = k) mm.

Definition offset_seq_creation (offset_seq_map : multimap) (s_log : seq_log) : option multimap :=
  chains ← scan (sl_size s_log) (sl_list s_log);
  Some (walk (fun mm temp => mm_insert mm (sd_offset (sn_ordered_data temp)) (sn_sequence_number temp))
             offset_seq_map chains).

(** The arrays of [PmemAddrOffsetList] the function reads. *)
Definition sort_creation (offsets pmem_addresses : list Z) (num_data : Z)
    (offset_seq_map : multimap) (s_log : seq_log) : option seq_log :=
  mfold (fun s_log j =>
      o ← zget offsets j;
      mfold (fun s_log q => a ← zget pmem_addresses j; SeqLog.lookup_modify s_log q a)
            s_log (equal_range offset_seq_map o))
    s_log (seqZ 0 (s32 num_data)).

Definition findSmallestElement (arr : list Z) (n : Z) : option Z :=
  temp ← zget arr 0;
  mfold (fun temp i => x ← zget arr i; Some (if decide (temp > x) then x else temp))
        temp (seqZ 0 n).

Definition get_checkpoint_file (pmem_library : string) : option string :=
  if decide (pmem_library = "libpmem"%string \/ pmem_library = "libpmemobj"%string)
  then Some "/mnt/pmem/pmem_checkpoint.pm"%string
  else if decide (pmem_library = "libpmemobj2"%string)
  then Some "/mnt/pmem/checkpoint.pm"%string
  else None.

(** ** The r_log allocation *)

(** [insert]'s dead read of slot 92 is outside the allocation of the table
    of already seen sequence numbers exactly when the checkpoint holds at most
    five versions: then the first insertion is undefined, and otherwise inserting
    any non-negative sequence number succeeds. *)
Theorem r_log_insert_defined g m c_log cr :
  seq_log_creation g m c_log = Some cr -> 0 < cr_total_size cr < 2 ^ 31 ->
  forall k d, 0 <= k < 2 ^ 31 ->
  (is_Some (SeqLog.insert (cr_r_log cr) k d) <-> 5 < cr_total_size cr).
Proof.
  intros (st & _ & [= <-])%bind_Some Ht k d Hk. simpl in *. split.
  - intros [s Hs]. unfold SeqLog.insert, SeqLog.probe, r_log_slots in Hs. simpl in Hs.
    case_decide; [lia|done].
  - intros H5. small.
    destruct (SeqLog.insert_ok (SeqLog.empty_log (OrderLog.os_total st) (r_log_slots (OrderLog.os_total st))) k d)
      as (s & Hs & _); [by apply SeqLog.empty_log_wf|done|simpl; unfold r_log_slots; lia|].
    unfold SeqLog.empty_log in Hs. rewrite Hs. eauto.
Qed.

(** ** Assigning persistent addresses *)

(** The address the last matching offset gives an entry. *)
Definition assign1 (d : single_data) (oa : Z * Z) : single_data :=
  if decide (sd_offset d = oa.1) then set_sorted_pmem_address d oa.2 else d.

Definition assign (oas : list (Z * Z)) (d : single_data) : single_data := fold_left assign1 oas d.

Lemma assign_offset oas d : sd_offset (assign oas d) = sd_offset d.
Proof.
  unfold assign. revert d. induction oas as [|oa oas IH]; intros d; simpl; [done|].
  rewrite IH. unfold assign1. by case_decide.
Qed.

Lemma sort_slot_ok offsets addrs num_data chain :
  num_data = Z.of_nat (length offsets) -> length offsets = length addrs ->
  Rollback.sort_slot offsets addrs num_data chain =
  Some (SeqLog.with_data (assign (zip offsets addrs)) <$> chain).
Proof.
  intros Hn Hl. unfold Rollback.sort_slot.
  rewrite (mfold_index2 (fun chain o a => Some (Rollback.assign_address o a <$> chain)))
    by done.
  generalize (zip offsets addrs). intros oas. revert chain.
  induction oas as [|[o a] oas IH]; intros chain; cbn [mfold mbind option_bind].
  - f_equal. rewrite <- (list_fmap_id chain) at 1. apply list_fmap_ext. by intros _ [] _.
  - rewrite IH. f_equal. rewrite <- list_fmap_compose. apply list_fmap_ext.
    intros i [k d] _. unfold compose, Rollback.assign_address, assign. simpl.
    transitivity (SeqNode k (fold_left assign1 oas (assign1 d (o, a)))); [|done].
    change (assign1 d (o, a)) with (if decide (sd_offset d = o) then set_sorted_pmem_address d a else d). by case_decide.

Qed.

Lemma sort_by_sequence_number_ok s offsets addrs num_data :
  SeqLog.wf s -> num_data = Z.of_nat (length offsets) -> length offsets = length addrs ->
  Rollback.sort_by_sequence_number num_data addrs offsets s =
  Some (SeqLog.map_log (assign (zip offsets addrs)) s).
Proof.
  intros [[Hs Hl _] _ _] Hn Hlen. unfold Rollback.sort_by_sequence_number.
  small. rewrite <- Hl.
  rewrite (mfold_update _ (fmap (M:=list) (SeqLog.with_data (assign (zip offsets addrs)))));
    [|lia|intros c _; by apply sort_slot_ok].
  rewrite Nat2Z.id, firstn_all, drop_all, app_nil_r. simpl_bind.
  unfold SeqLog.map_log. by rewrite Hl.
Qed.

(** Modifying a list of keys. *)
Lemma modify_keys_ok s a qs :
  SeqLog.wf s -> (forall q, q ∈ qs -> 0 <= q < 2 ^ 31) ->
  exists s', mfold (fun s q => SeqLog.lookup_modify s q a) s qs = Some s' /\ SeqLog.wf s' /\ sl_size s' = sl_size s /\
    forall k, SeqLog.model s' !! k =
      (fun d => if decide (k ∈ qs) then set_sorted_pmem_address d a else d) <$> SeqLog.model s !! k.
Proof.
  revert s. induction qs as [|q qs IH]; intros s Hwf Hr; simpl.
  - exists s. split; [done|]. split; [done|]. split; [done|]. intros k.
    by destruct (SeqLog.model s !! k) as [d|].
  - destruct (SeqLog.lookup_modify_ok s q a Hwf) as (s1 & -> & Hwf1 & Hm1 & Hz1 & _); [apply Hr; left|].
    simpl. destruct (IH s1 Hwf1) as (s2 & -> & Hwf2 & Hz2 & Hm2); [intros x Hx; apply Hr; by right|].
    exists s2. split; [done|]. split; [done|]. split; [congruence|]. intros k.
    rewrite Hm2, Hm1, lookup_alter.
    destruct (decide (q = k)) as [->|Hne].
    + destruct (SeqLog.model s !! k) as [d|]; simpl; [|done].
      rewrite (decide_True (P := k ∈ k :: qs)) by left. by case_decide.
    + destruct (SeqLog.model s !! k) as [d|]; simpl; [|done]. f_equal.
      destruct (decide (k ∈ qs)).
      * by rewrite decide_True by (by right).
      * rewrite decide_False; [done|]. by intros [?|?]%elem_of_cons.
Qed.

Lemma offset_seq_creation_ok s :
  SeqLog.wf s ->
  offset_seq_creation [] s =
  Some ((fun n => (sd_offset (sn_ordered_data n), sn_sequence_number n)) <$> concat (sl_list s)).
Proof.
  intros Hwf. unfold offset_seq_creation. rewrite (SeqLog.scan_ok _ Hwf). simpl. f_equal.
  rewrite walk_concat. generalize (concat (sl_list s)). intros l.
  enough (forall mm, fold_left (fun mm temp => mm_insert mm (sd_offset (sn_ordered_data temp))
            (sn_sequence_number temp)) l mm =
          mm ++ ((fun n => (sd_offset (sn_ordered_data n), sn_sequence_number n)) <$> l)) as H
    by apply (H []).
  induction l as [|n l IH]; intros mm; simpl; [by rewrite app_nil_r|].
  rewrite IH. unfold mm_insert. by rewrite <- app_assoc.
Qed.

Lemma in_equal_range s o q :
  SeqLog.wf s ->
  q ∈ equal_range ((fun n => (sd_offset (sn_ordered_data n), sn_sequence_number n)) <$> concat (sl_list s)) o
  <-> exists d, SeqLog.model s !! q = Some d /\ sd_offset d = o.
Proof.
  intros Hwf. unfold equal_range. rewrite list_elem_of_fmap. split.
  - intros ([o' q'] & -> & [He (n & [= -> ->] & Hn)%list_elem_of_fmap]%list_elem_of_filter).
    simpl in *. exists (sn_ordered_data n). split; [|done].
    apply to_map_Some; [apply Hwf|]. by exists n.
  - intros (d & Hd & Ho). apply SeqLog.model_Some in Hd as (n & Hn & <- & <-); [|done].
    exists (o, sn_sequence_number n). split; [done|]. apply list_elem_of_filter.
    split; [done|]. rewrite <- Ho. apply list_elem_of_fmap. by exists n.
Qed.

Lemma sort_creation_ok s offsets addrs num_data :
  SeqLog.wf s -> num_data = Z.of_nat (length offsets) -> length offsets = length addrs ->
  num_data < 2 ^ 31 ->
  exists mm s', offset_seq_creation [] s = Some mm /\
    sort_creation offsets addrs num_data mm s = Some s' /\ SeqLog.wf s' /\
    SeqLog.model s' = assign (zip offsets addrs) <$> SeqLog.model s /\ sl_size s' = sl_size s.
Proof.
  intros Hwf Hn Hl Hlt. rewrite (offset_seq_creation_ok s Hwf).
  eexists. unfold sort_creation. small.
  rewrite (mfold_ext _ (fun s1 j => o ← zget offsets j; a ← zget addrs j;
      mfold (fun s_log q => SeqLog.lookup_modify s_log q a) s1
        (equal_range ((fun n => (sd_offset (sn_ordered_data n), sn_sequence_number n)) <$>
                      concat (sl_list s)) o))).
  2: { intros s1 j Hj%elem_of_seqZ. destruct (zget offsets j); simpl; [|done].
       destruct (zget_in_range addrs j) as [a Ha]; [lia|]. by rewrite Ha. }
  rewrite (mfold_index2 (fun s1 o a => mfold (fun s_log q => SeqLog.lookup_modify s_log q a) s1
        (equal_range ((fun n => (sd_offset (sn_ordered_data n), sn_sequence_number n)) <$>
                      concat (sl_list s)) o))) by done.
  destruct (mfold_total (fun s1 oa => mfold (fun s_log q => SeqLog.lookup_modify s_log q oa.2) s1
        (equal_range ((fun n => (sd_offset (sn_ordered_data n), sn_sequence_number n)) <$>
                      concat (sl_list s)) oa.1))
    (fun oas s1 => SeqLog.wf s1 /\ SeqLog.model s1 = assign oas <$> SeqLog.model s /\ sl_size s1 = sl_size s)
    (zip offsets addrs) s) as (s' & Hs' & Hwf' & Hm').
  - split; [done|]. split; [|done]. apply map_eq. intros k. rewrite lookup_fmap. by destruct (SeqLog.model s !! k).
  - intros l1 [o a] l2 s1 _ (Hwf1 & Hm1 & Hz1). simpl.
    destruct (modify_keys_ok s1 a (equal_range ((fun n => (sd_offset (sn_ordered_data n),
       sn_sequence_number n)) <$> concat (sl_list s)) o) Hwf1) as (s2 & -> & Hwf2 & Hz2 & Hm2).
    { intros q (d & Hd & _)%in_equal_range; [|done].
      apply SeqLog.model_Some in Hd as (n & Hn' & <- & _); [|done]. by apply (SeqLog.wf_keys s). }
    exists s2. split; [done|]. split; [done|]. split; [|congruence]. apply map_eq. intros k.
    rewrite Hm2, Hm1, !lookup_fmap.
    destruct (SeqLog.model s !! k) as [d|] eqn:Hd; simpl; [|done]. f_equal.
    unfold assign. rewrite fold_left_app. simpl. fold (assign l1 d). unfold assign1. simpl.
    rewrite assign_offset. destruct (decide (sd_offset d = o)) as [Ho|Ho].
    + rewrite decide_True; [done|]. apply in_equal_range; [done|]. by exists d.
    + rewrite decide_False; [done|]. intros (d' & Hd' & Ho')%in_equal_range; [|done].
      by simplify_eq.
  - exists s'. done.
Qed.

(** The two ways of assigning persistent addresses agree: the nested scan
    of [sort_by_sequence_number] and the multimap built by [offset_seq_creation]
    and consulted by [sort_creation] both give every entry the address of the
    last listed offset equal to its own, and change nothing else. *)
Theorem sort_creation_equiv s offsets addrs num_data :
  SeqLog.wf s -> num_data = Z.of_nat (length offsets) -> length offsets = length addrs ->
  num_data < 2 ^ 31 ->
  exists mm s1 s2, offset_seq_creation [] s = Some mm /\
    sort_creation offsets addrs num_data mm s = Some s1 /\
    Rollback.sort_by_sequence_number num_data addrs offsets s = Some s2 /\
    SeqLog.model s1 = SeqLog.model s2 /\
    SeqLog.model s1 = assign (zip offsets addrs) <$> SeqLog.model s.
Proof.
  intros Hwf Hn Hl Hlt.
  destruct (sort_creation_ok s offsets addrs num_data) as (mm & s1 & H1 & H2 & _ & H3 & _); [done..|].
  exists mm, s1, (SeqLog.map_log (assign (zip offsets addrs)) s).
  rewrite sort_by_sequence_number_ok by done. rewrite SeqLog.map_log_model, H3 by done. done.
Qed.

Lemma sort_creation_equiv_witness :
  exists mm s1 s2, offset_seq_creation [] Rollback.ex_log = Some mm /\
    sort_creation [5; 0; 0] [11; 12; 13] 3 mm Rollback.ex_log = Some s1 /\
    Rollback.sort_by_sequence_number 3 [11; 12; 13] [5; 0; 0] Rollback.ex_log = Some s2 /\
    sd_sorted_pmem_address <$> SeqLog.model s2 !! 6 = Some 13.
Proof.
  destruct (sort_creation_equiv Rollback.ex_log [5; 0; 0] [11; 12; 13] 3)
    as (mm & s1 & s2 & H1 & H2 & H3 & H4 & H5); [exact Rollback.ex_log_wf|done|done|lia|].
  exists mm, s1, s2. split; [exact H1|]. split; [exact H2|]. split; [exact H3|].
  rewrite <- H4, H5. vm_compute. reflexivity.
Defined.

(** ** The smallest element *)

(** [findSmallestElement] on a non-empty prefix returns its minimum; on a
    zero count it still reads and returns the first cell. *)
Theorem findSmallestElement_min arr n :
  0 <= n <= Z.of_nat (length arr) -> arr <> [] ->
  exists x, findSmallestElement arr n = Some x /\ x ∈ take (Z.to_nat (Z.max n 1)) arr /\
    forall y, y ∈ take (Z.to_nat n) arr -> x <= y.
Proof.
  intros Hn Hne. unfold findSmallestElement.
  destruct arr as [|a arr]; [done|]. set (l := a :: arr) in *.
  change (zget l 0) with (Some a). simpl_bind.
  rewrite (mfold_index (fun temp x => Some (if decide (temp > x) then x else temp))) by done.
  destruct (mfold_total (fun temp x => Some (if decide (temp > x) then x else temp))
    (fun done t => t ∈ a :: done /\ forall y, y ∈ done -> t <= y) (take (Z.to_nat n) l) a)
    as (x & -> & Hx & Hmin).
  - split; [left|]. by intros y ?%not_elem_of_nil.
  - intros l1 y l2 t _ [Ht Hmin]. eexists. split; [done|]. case_decide.
    + split; [right; apply elem_of_app; right; left|].
      intros z [Hz|Hz%list_elem_of_singleton]%elem_of_app; [apply Hmin in Hz|]; lia.
    + split.
      * apply elem_of_cons in Ht as [->|Ht]; [left|right; apply elem_of_app; by left].
      * intros z [Hz|Hz%list_elem_of_singleton]%elem_of_app; [by apply Hmin|lia].
  - exists x. split; [done|]. split; [|done]. apply elem_of_cons in Hx as [->|Hx].
    + replace (Z.to_nat (Z.max n 1)) with (S (Nat.pred (Z.to_nat (Z.max n 1)))) by lia. left.
    + destruct (decide (n = 0)) as [->|]; [by apply not_elem_of_nil in Hx|].
      by replace (Z.max n 1) with n by lia.
Qed.

Lemma findSmallestElement_min_witness :
  exists x, findSmallestElement [5; 2; 9; 1] 3 = Some x /\ x <= 2.
Proof.
  destruct (findSmallestElement_min [5; 2; 9; 1] 3) as (x & H1 & _ & H2); [simpl; lia|done|].
  exists x. split; [exact H1|]. apply H2. right. left.
Defined.

Lemma r_log_insert_defined_witness :
  exists cr, seq_log_creation OrderLog.ex_garbage OrderLog.ex_mem OrderLog.ex_clog = Some cr /\
    SeqLog.insert (cr_r_log cr) 6 OrderLog.ex_garbage = None.
Proof.
  destruct (OrderLog.order_by_sequence_num_ok OrderLog.ex_garbage OrderLog.ex_mem LOG_SIZE LOG_SIZE 0
    OrderLog.ex_clog) as (st & Hst & _ & _ & Ht & _);
    [unfold LOG_SIZE; lia|unfold LOG_SIZE; lia|lia|exact OrderLog.ex_mem_ok
    |exact OrderLog.ex_garbage_ok|exact OrderLog.ex_clog_ok|].
  assert (exists cr, seq_log_creation OrderLog.ex_garbage OrderLog.ex_mem OrderLog.ex_clog = Some cr /\
                     cr_total_size cr = 2) as (cr & Hcr & Hc).
  { eexists. unfold seq_log_creation. rewrite Hst. split; [reflexivity|exact Ht]. }
  exists cr. split; [exact Hcr|].
  pose proof (r_log_insert_defined _ _ _ cr Hcr ltac:(rewrite Hc; lia) 6 OrderLog.ex_garbage ltac:(lia)) as [H _].
  destruct (SeqLog.insert _ _ _); [|reflexivity]. exfalso. rewrite Hc in H.
  assert (5 < 2) by (apply H; eexists; reflexivity). lia.
Defined.

End LogCreation.
