(* ===== verification/ReExecute.v ===== *)
(** * Re-executing the target program (redo_pmem_addresses and re_execute of
      reactor/lib/rollback.c)

    The shell command and the pool library are not code of the repository: the
    class [Environment] has what [system] and [pmemobj_open] do, as functions of
    an environment state.  A run of the command may change the contents of the
    pool file; opening the pool maps it at an address the environment chooses. *)
From stdpp Require Import base list gmap strings.
From Stdlib Require Import Init.Byte.
From S2P Require Import Prelude Memory Checkpoint Chains SeqLog Rollback.

Module ReExecute.

Class Environment (E : Type) := {
  (** [system(cmd)]: the wait status, and what the command left in the pool file. *)
  env_system : string -> E -> gmap Z byte -> Z * E * gmap Z byte;
  (** [pmemobj_open(path, layout)]: the address of the mapping, [0] for [NULL]. *)
  env_open : string -> string -> E -> Z * E
}.

(** A computation that may be undefined or run out of fuel. *)
Inductive outcome (A : Type) :=
  | Ret (a : A)
  | Undefined
  | NoFuel.
Arguments Ret {A} a.
Arguments Undefined {A}.
Arguments NoFuel {A}.

#[export] Instance outcome_bind : MBind outcome := fun A B f o =>
  match o with Ret a => f a | Undefined => Undefined | NoFuel => NoFuel end.

(** An undefined operation stops the computation. *)
Definition run {A} (o : option A) : outcome A :=
  match o with Some a => Ret a | None => Undefined end.

Definition MAX_COARSE_ATTEMPTS : Z := 5.
Definition COARSE_GRAIN_NAIVE : Z := 1.
Definition COARSE_GRAIN_SEQUENCE : Z := 2.
Definition FINE_GRAIN : Z := 3.

(** The global counter; no code of the repository assigns it. *)
Definition coarse_grained_tries : Z := 0.

(** [WIFEXITED] and [WEXITSTATUS] of a wait status. *)
Definition WIFEXITED (status : Z) : bool := bool_decide (Z.land status 127 = 0).
Definition WEXITSTATUS (status : Z) : Z := Z.shiftr (Z.land status 65280) 8.

(** The address [pop + offset] the loop of [redo_pmem_addresses] stores. *)
Definition place (pop : Z) (d : single_data) : single_data :=
  set_sorted_pmem_address d (u64 (pop + sd_offset d)).

Definition redo_all (pop : Z) (s_log : seq_log) : option seq_log :=
  _ ← scan (sl_size s_log) (sl_list s_log);
  let n := int_bound (sl_size s_log) in
  Some (SeqLog (sl_size s_log) (sl_slots s_log)
         ((fmap (M:=list) (SeqLog.with_data (place pop)) <$> take n (sl_list s_log)) ++
          drop n (sl_list s_log))).

Lemma redo_all_ok pop s :
  SeqLog.wf s -> redo_all pop s = Some (SeqLog.map_log (place pop) s).
Proof.
  intros Hwf. unfold redo_all. rewrite (SeqLog.scan_ok _ Hwf). simpl.
  destruct Hwf as [[Hs Hl _] _ _]. unfold SeqLog.map_log, int_bound. small.
  rewrite take_ge, drop_ge by lia. by rewrite app_nil_r.
Qed.

Section environment.
Context {E : Type} `{!Environment E}.

Record world := World {
  w_mem : memory;
  w_log : seq_log;
  w_env : E
}.

Definition with_log (w : world) (s : seq_log) : world := World (w_mem w) s (w_env w).
Definition with_mem (w : world) (m : memory) : world := World m (w_log w) (w_env w).

(** [system(cmd)] *)
Definition system (cmd : string) (w : world) : Z * world :=
  let '(status, e, p) := env_system cmd (w_env w) (pool (w_mem w)) in
  (status, World (set_pool (w_mem w) p) (w_log w) e).

(** [pmemobj_open]; the memory has one window onto the pool, so opening a pool
    that is still mapped is outside the model. *)
Definition pmemobj_open (path layout : string) (w : world) : option (Z * world) :=
  match pool_base (w_mem w) with
  | Some _ => None
  | None =>
    let '(pop, e) := env_open path layout (w_env w) in
    Some (pop, World (if decide (pop = 0) then w_mem w else set_base (w_mem w) (Some pop))
                     (w_log w) e)
  end.

(** [pmemobj_close]; closing [NULL] is undefined. *)
Definition pmemobj_close (pop : Z) (w : world) : option world :=
  if decide (pop = 0) then None else Some (with_mem w (set_base (w_mem w) None)).

Definition redo_pmem_addresses (path layout : string) (num_data : Z) (w : world)
  : option (Z * world) :=
  '(pop, w') ← pmemobj_open path layout w;
  if decide (pop = 0) then Some (0, w')
  else s ← redo_all pop (w_log w'); Some (pop, with_log w' s).

Fixpoint re_execute (fuel : nat) (garbage : single_data) (reexecution_cmd : string) (version_num : Z)
    (c_log : checkpoint_log) (num_data : Z) (path layout : string) (reversion_type seq_num old_pop : Z)
    (w : world) : outcome (Z * world) :=
  match fuel with
  | O => NoFuel
  | S fuel' =>
    let '(ret_val, w1) := system reexecution_cmd w in
    let reexecute_flag := WIFEXITED ret_val && bool_decide (WEXITSTATUS ret_val <> 0) in
    if decide (coarse_grained_tries = MAX_COARSE_ATTEMPTS) then Ret (-1, w1)
    else if reexecute_flag then
      '(pop1, w2) ← run (redo_pmem_addresses path layout num_data w1);
      '(pop, w3) ← run (if decide (pop1 = 0)
                        then redo_pmem_addresses path layout num_data (system "./killScript" w2).2
                        else Some (pop1, w2));
      if decide (reversion_type = COARSE_GRAIN_NAIVE) then
        w4 ← run (pmemobj_close pop w3);
        '(_, w5) ← re_execute fuel' garbage reexecution_cmd (version_num - 1) c_log num_data path layout
                     reversion_type (seq_num - 1) old_pop w4;
        Ret (1, w5)
      else if decide (reversion_type = COARSE_GRAIN_SEQUENCE) then
        if decide (seq_num < 0) then Ret (-1, w3)
        else
          m ← run (Rollback.seq_coarse_grain_reversion garbage (w_mem w3) seq_num pop old_pop (w_log w3));
          w4 ← run (pmemobj_close pop (with_mem w3 m));
          '(_, w5) ← re_execute fuel' garbage reexecution_cmd (version_num - 1) c_log num_data path layout
                       reversion_type (seq_num - 1) old_pop w4;
          Ret (1, w5)
      else
        w4 ← run (pmemobj_close pop w3);
        Ret (-1, w4)
    else Ret (1, w1)
  end.

(** ** Behaviour *)

Definition failed (status : Z) : bool := WIFEXITED status && bool_decide (WEXITSTATUS status <> 0).

(** The log after the pool was opened at [pop]. *)
Definition placed_at (pop : Z) (s : seq_log) : seq_log := SeqLog.map_log (place pop) s.

Lemma redo_ok path layout n w :
  SeqLog.wf (w_log w) -> pool_base (w_mem w) = None ->
  redo_pmem_addresses path layout n w =
  Some ((env_open path layout (w_env w)).1,
        let pop := (env_open path layout (w_env w)).1 in
        World (if decide (pop = 0) then w_mem w else set_base (w_mem w) (Some pop))
              (if decide (pop = 0) then w_log w else placed_at pop (w_log w))
              (env_open path layout (w_env w)).2).
Proof.
  intros Hwf Hb. unfold redo_pmem_addresses, pmemobj_open. rewrite Hb.
  destruct (env_open path layout (w_env w)) as [pop e]. simpl.
  destruct (decide (pop = 0)) as [->|Hp].
  - done.
  - rewrite redo_all_ok by done. simpl. done.
Qed.

(** The world after [system]. *)
Lemma system_world cmd w :
  w_log (system cmd w).2 = w_log w /\
  pool_base (w_mem (system cmd w).2) = pool_base (w_mem w) /\
  heap (w_mem (system cmd w).2) = heap (w_mem w) /\
  brk (w_mem (system cmd w).2) = brk (w_mem w) /\
  pool_len (w_mem (system cmd w).2) = pool_len (w_mem w).
Proof. unfold system. by destruct (env_system _ _ _) as [[? ?] ?]. Qed.

Lemma re_execute_fine_ok fuel g cmd v c n path layout q old w :
  SeqLog.wf (w_log w) -> pool_base (w_mem w) = None ->
  let status := (system cmd w).1 in
  let w1 := (system cmd w).2 in
  let pop1 := (env_open path layout (w_env w1)).1 in
  let e1 := (env_open path layout (w_env w1)).2 in
  let w2 := (system "./killScript" (World (w_mem w1) (w_log w1) e1)).2 in
  let pop2 := (env_open path layout (w_env w2)).1 in
  let e2 := (env_open path layout (w_env w2)).2 in
  re_execute (S fuel) g cmd v c n path layout FINE_GRAIN q old w =
  if failed status then
    if decide (pop1 <> 0) then Ret (-1, World (w_mem w1) (placed_at pop1 (w_log w)) e1)
    else if decide (pop2 <> 0) then Ret (-1, World (w_mem w2) (placed_at pop2 (w_log w)) e2)
    else Undefined
  else Ret (1, w1).
Proof.
  intros Hwf Hb status w1 pop1 e1 w2 pop2 e2.
  destruct (system_world cmd w) as (Hl1 & Hb1 & _).
  destruct (system_world "./killScript" (World (w_mem w1) (w_log w1) e1)) as (Hl2 & Hb2 & _).
  fold w1 in Hl1, Hb1. fold w2 in Hl2, Hb2. simpl in Hl2, Hb2.
  assert (forall m b, pool_base m = None -> set_base (set_base m b) None = m) as Hset
    by (intros [] b; simpl; by intros ->).
  cbn [re_execute]. destruct (system cmd w) as [status' w1'] eqn:Hs.
  subst status. cbn [fst snd] in w1. subst w1.
  rewrite decide_False by done. fold (failed status'). cbn [fst].
  destruct (failed status'); [|done].
  rewrite redo_ok by congruence. fold pop1 e1. cbn [run mbind outcome_bind].
  destruct (decide (pop1 = 0)) as [Hp1|Hp1].
  - rewrite (decide_False (P := pop1 <> 0)) by naive_solver.
    fold w2. rewrite redo_ok by congruence. fold pop2 e2. cbn [run mbind outcome_bind].
    rewrite !(decide_False (P := FINE_GRAIN = _)) by done.
    unfold pmemobj_close. destruct (decide (pop2 = 0)) as [Hp2|Hp2].
    + by rewrite (decide_False (P := pop2 <> 0)) by naive_solver.
    + rewrite (decide_True (P := pop2 <> 0)) by done. cbn [run mbind outcome_bind].
      unfold with_mem. simpl. rewrite Hset by congruence. by rewrite Hl2, Hl1.
  - rewrite (decide_True (P := pop1 <> 0)) by done. cbn [run mbind outcome_bind].
    rewrite !(decide_False (P := FINE_GRAIN = _)) by done.
    unfold pmemobj_close. rewrite (decide_False (P := pop1 = 0)) by done.
    cbn [run mbind outcome_bind]. unfold with_mem. simpl. rewrite Hset by congruence. by rewrite Hl1.
Qed.

(** Fine-grained re-execution, on a closed pool: the program runs once; it
    counts as a success, with the log unchanged, unless it exited with a
    non-zero status (so a program killed by a signal is a success).  After a
    failure the pool was opened once more (a second time if the first attempt
    gave [NULL]), every entry of the log has the address of its offset in that
    mapping, the pool is closed again and the result is -1; when both attempts
    give [NULL], [NULL] is passed to [pmemobj_close]. *)
Theorem re_execute_fine_grain fuel g cmd v c n path layout q old w :
  SeqLog.wf (w_log w) -> pool_base (w_mem w) = None ->
  let status := (system cmd w).1 in
  let w1 := (system cmd w).2 in
  let pop1 := (env_open path layout (w_env w1)).1 in
  let e1 := (env_open path layout (w_env w1)).2 in
  let w2 := (system "./killScript" (World (w_mem w1) (w_log w1) e1)).2 in
  let pop2 := (env_open path layout (w_env w2)).1 in
  let e2 := (env_open path layout (w_env w2)).2 in
  re_execute (S fuel) g cmd v c n path layout FINE_GRAIN q old w =
  if failed status then
    if decide (pop1 <> 0) then Ret (-1, World (w_mem w1) (placed_at pop1 (w_log w)) e1)
    else if decide (pop2 <> 0) then Ret (-1, World (w_mem w2) (placed_at pop2 (w_log w)) e2)
    else Undefined
  else Ret (1, w1).
Proof. intros Hwf Hb. by apply re_execute_fine_ok. Qed.

(** Coarse-grained re-execution by sequence number terminates: the sequence
    number decreases with every attempt, so [seq_num + 2] attempts are enough. *)
Theorem re_execute_sequence_terminates fuel g cmd v c n path layout q old w :
  (Z.to_nat (q + 2) <= fuel)%nat -> (0 < fuel)%nat ->
  re_execute fuel g cmd v c n path layout COARSE_GRAIN_SEQUENCE q old w <> NoFuel.
Proof.
  revert v q w. induction fuel as [|fuel IH]; intros v q w Hf H0; [lia|].
  cbn [re_execute]. destruct (system cmd w) as [status w1].
  rewrite decide_False by done. destruct (_ && _); [|done].
  destruct (redo_pmem_addresses path layout n w1) as [[pop1 w2]|]; cbn [run mbind outcome_bind]; [|done].
  destruct (if decide (pop1 = 0) then _ else _) as [[pop w3]|]; cbn [run mbind outcome_bind]; [|done].
  rewrite decide_False by done. rewrite decide_True by done.
  destruct (decide (q < 0)); [done|].
  destruct (Rollback.seq_coarse_grain_reversion _ _ _ _ _ _); cbn [run mbind outcome_bind]; [|done].
  destruct (pmemobj_close _ _) as [w4|]; cbn [run mbind outcome_bind]; [|done].
  pose proof (IH (v - 1) (q - 1) w4 ltac:(lia) ltac:(lia)) as H.
  destruct (re_execute _ _ _ _ _ _ _ _ _ _ _ _) as [[? ?]| |]; done.
Qed.

(** The outcome of the later attempts is dropped: whenever coarse-grained
    re-execution with a non-negative sequence number returns, it returns 1, also
    when the program fails in every attempt. *)
Theorem re_execute_sequence_returns_one fuel g cmd v c n path layout q old w r w' :
  0 <= q -> re_execute fuel g cmd v c n path layout COARSE_GRAIN_SEQUENCE q old w = Ret (r, w') ->
  r = 1.
Proof.
  intros Hq. destruct fuel as [|fuel]; [done|].
  cbn [re_execute]. destruct (system cmd w) as [status w1].
  rewrite decide_False by done. destruct (_ && _); [|congruence].
  destruct (redo_pmem_addresses path layout n w1) as [[pop1 w2]|]; cbn [run mbind outcome_bind]; [|done].
  destruct (if decide (pop1 = 0) then _ else _) as [[pop w3]|]; cbn [run mbind outcome_bind]; [|done].
  rewrite decide_False by done. rewrite decide_True by done. rewrite decide_False by lia.
  destruct (Rollback.seq_coarse_grain_reversion _ _ _ _ _ _); cbn [run mbind outcome_bind]; [|done].
  destruct (pmemobj_close _ _) as [w4|]; cbn [run mbind outcome_bind]; [|done].
  destruct (re_execute _ _ _ _ _ _ _ _ _ _ _ _) as [[? ?]| |]; cbn [mbind outcome_bind]; congruence.
Qed.

(** An environment in which the command fails and the pool can be opened. *)
Definition hopeless (cmd path layout : string) : Prop :=
  (forall e p, failed (env_system cmd e p).1.1 = true) /\
  (forall e, (env_open path layout e).1 <> 0).

(** The bound on attempts is never reached, because the counter it is
    compared with is never incremented: in the naive coarse-grained mode a
    command that keeps failing is re-executed for ever. *)
Theorem re_execute_naive_diverges fuel g cmd v c n path layout q old w :
  hopeless cmd path layout -> SeqLog.wf (w_log w) -> pool_base (w_mem w) = None ->
  re_execute fuel g cmd v c n path layout COARSE_GRAIN_NAIVE q old w = NoFuel.
Proof.
  intros [Hs Ho]. revert v q w. induction fuel as [|fuel IH]; intros v q w Hwf Hb; [done|].
  cbn [re_execute]. pose proof (Hs (w_env w) (pool (w_mem w))) as Hf.
  destruct (system_world cmd w) as (Hl1 & Hb1 & _).
  unfold system in *. destruct (env_system cmd (w_env w) (pool (w_mem w))) as [[status e1] p1].
  cbn [fst snd w_log w_mem] in *. fold (failed status). rewrite Hf.
  rewrite decide_False by done.
  rewrite redo_ok by (cbn [w_log w_mem]; congruence). cbn [run mbind outcome_bind w_env].
  rewrite !(decide_False (P := (env_open path layout e1).1 = 0)) by apply Ho.
  cbn [run mbind outcome_bind]. rewrite decide_True by done.
  unfold pmemobj_close. rewrite decide_False by apply Ho. cbn [run mbind outcome_bind].
  rewrite IH; [done| |done]. cbn [w_log with_mem]. by apply SeqLog.map_log_wf.
Qed.

End environment.
Arguments world E : clear implicits.


(** ** A scripted environment

    The state is the list of wait statuses the successive runs give; a run writes
    the first byte of the pool; the pool is always mapped at 5000. *)
#[export] Instance scripted : Environment (list Z) := {
  env_system cmd e p := (hd 0 e, tl e, <[0 := xff]> p);
  env_open path layout e := (5000, e)
}.

(** The batch of [Rollback] with the pool closed. *)
Definition ex_world (script : list Z) : world (list Z) :=
  World (set_base Rollback.ex_pm None) Rollback.ex_log script.

Definition ex_clog : checkpoint_log := CheckpointLog 1 0 [[]].

Lemma re_execute_fine_grain_witness :
  re_execute 1 Rollback.ex_garbage "run" 0 ex_clog 1 "pool" "layout" FINE_GRAIN 0 0 (ex_world [256]) =
  Ret (-1, World (set_pool (set_base Rollback.ex_pm None) (<[0 := xff]> (pool Rollback.ex_pm)))
             (placed_at 5000 Rollback.ex_log) []).
Proof.
  etransitivity.
  - apply (re_execute_fine_grain 0 Rollback.ex_garbage "run" 0 ex_clog 1 "pool" "layout" 0 0 (ex_world [256])).
    + exact Rollback.ex_log_wf.
    + reflexivity.
  - vm_compute. reflexivity.
Defined.

Lemma re_execute_sequence_terminates_witness :
  re_execute 8 Rollback.ex_garbage "run" 0 ex_clog 1 "pool" "layout" COARSE_GRAIN_SEQUENCE 6 40
    (ex_world [256; 256]) <> NoFuel.
Proof. apply re_execute_sequence_terminates; simpl; lia. Defined.

(** Two failing attempts at sequence numbers 1 and 0, and a third that gives up. *)
Lemma re_execute_sequence_returns_one_witness :
  exists w', re_execute 8 Rollback.ex_garbage "run" 0 ex_clog 1 "pool" "layout" COARSE_GRAIN_SEQUENCE 1 0
    (ex_world [256; 256; 256]) = Ret (1, w').
Proof.
  destruct (re_execute 8 Rollback.ex_garbage "run" 0 ex_clog 1 "pool" "layout" COARSE_GRAIN_SEQUENCE 1 0
    (ex_world [256; 256; 256])) as [[r w']| |] eqn:Hr.
  - exists w'. rewrite <- (re_execute_sequence_returns_one 8 Rollback.ex_garbage "run" 0 ex_clog 1 "pool"
      "layout" 1 0 (ex_world [256; 256; 256]) r w' ltac:(lia) Hr). reflexivity.
  - exfalso. revert Hr. vm_compute. discriminate.
  - exfalso. revert Hr. vm_compute. discriminate.
Defined.

Lemma re_execute_naive_diverges_witness :
  let forever : Environment unit :=
    {| env_system := fun cmd e p => (256, e, p); env_open := fun path layout e => (5000, e) |} in
  @re_execute unit forever 20 Rollback.ex_garbage "run" 0 ex_clog 1 "pool" "layout"
    COARSE_GRAIN_NAIVE 6 0 (World (set_base Rollback.ex_pm None) Rollback.ex_log tt) = NoFuel.
Proof.
  intros forever.
  apply (@re_execute_naive_diverges unit forever).
  - split; [intros e p; vm_compute; reflexivity|intros e; discriminate].
  - exact Rollback.ex_log_wf.
  - reflexivity.
Defined.

End ReExecute.
