(* ===== verification/Options.v ===== *)
(** * The reactor's options (reactor/include/reactor-opts.h and
      reactor/lib/reactor-opts.cpp)

    [getopt_long] is a library function: the model takes the sequence of its
    results.  Whether a file exists is a parameter too. *)
From stdpp Require Import base list strings.
From Stdlib Require Import Ascii.
From Stdlib Require String.
From S2P Require Import Prelude.

Module Options.

Record dg_options := DgOptions {
  entry_only : bool;
  enable_pta : bool;
  enable_ctrl : bool;
  slice_ctrl : bool;
  support_thread : bool;
  intra_procedural : bool;
  inter_procedural : bool
}.

(** A [const char *] is an [option string]: [None] is [NULL]. *)
Record reactor_options := ReactorOptions {
  address_file : option string;
  checkpoint_file : option string;
  pmem_file : option string;
  pmem_layout : option string;
  pmem_library : option string;
  hook_guid_file : option string;
  reexecute_cmd : option string;
  arckpt : bool;
  batch_threshold : Z;
  version_num : Z;
  fault_instr : string;
  fault_loc : string;
  bc_file : string;
  dg_opts : dg_options
}.

Definition no_dg_options : dg_options := DgOptions false false false false false false false.

(** [memset(&options, 0, sizeof(options))] *)
Definition zero_options : reactor_options :=
  ReactorOptions None None None None None None None false 0 0 "" "" "" no_dg_options.

(** ** [strtol(s, &end, 10)]

    The value (clamped to [long]) and the rest of the string; when there is no
    digit the rest is the whole string. *)
Definition digit (c : ascii) : option Z :=
  let n := Z.of_nat (nat_of_ascii c) in
  if decide (48 <= n <= 57) then Some (n - 48) else None.

Definition is_space (c : ascii) : bool :=
  let n := Z.of_nat (nat_of_ascii c) in bool_decide (n = 32 \/ 9 <= n <= 13).

Fixpoint skip_spaces (s : string) : string :=
  match s with
  | String c s' => if is_space c then skip_spaces s' else s
  | EmptyString => EmptyString
  end.

Fixpoint digits (acc : Z) (s : string) : Z * string :=
  match s with
  | String c s' => match digit c with
                   | Some d => digits (acc * 10 + d) s'
                   | None => (acc, s)
                   end
  | EmptyString => (acc, EmptyString)
  end.

Definition clamp_long (z : Z) : Z := Z.max (- 2 ^ 63) (Z.min (2 ^ 63 - 1) z).

Definition starts_with_digit (s : string) : bool :=
  match s with
  | String c _ => match digit c with Some _ => true | None => false end
  | EmptyString => false
  end.

Definition strtol (s : string) : Z * string :=
  let t := skip_spaces s in
  let '(neg, u) := match t with
                   | String c t' => if decide (c = "-"%char) then (true, t')
                                    else if decide (c = "+"%char) then (false, t')
                                    else (false, t)
                   | EmptyString => (false, t)
                   end in
  if starts_with_digit u then
    let '(v, r) := digits 0 u in (clamp_long (if (neg : bool) then - v else v), r)
  else (0, s).

(** ** Parsing *)

(** The static variables the long options set. *)
Record flags := Flags {
  f_show_help : bool;
  f_skip_check : bool;
  f_enable_pta : bool;
  f_enable_control : bool;
  f_slice_control : bool;
  f_support_thread : bool;
  f_intra_procedural : bool;
  f_inter_procedural : bool;
  f_entry_only : bool
}.

Definition initial_flags : flags := Flags false false true false false false false true false.

(** One result of [getopt_long]: a short option (or the value of a long option)
    with its argument, a flag set by a long option, or ['?']. *)
Inductive opt_result :=
  | Opt (c : ascii) (optarg : string)
  | SetFlag (f : flags -> flags)
  | Unknown.

Definition set_pmem_file o v := ReactorOptions (address_file o) (checkpoint_file o) (Some v)
  (pmem_layout o) (pmem_library o) (hook_guid_file o) (reexecute_cmd o) (arckpt o)
  (batch_threshold o) (version_num o) (fault_instr o) (fault_loc o) (bc_file o) (dg_opts o).
Definition set_pmem_layout o v := ReactorOptions (address_file o) (checkpoint_file o) (pmem_file o)
  (Some v) (pmem_library o) (hook_guid_file o) (reexecute_cmd o) (arckpt o)
  (batch_threshold o) (version_num o) (fault_instr o) (fault_loc o) (bc_file o) (dg_opts o).
Definition set_pmem_library o v := ReactorOptions (address_file o) (checkpoint_file o) (pmem_file o)
  (pmem_layout o) (Some v) (hook_guid_file o) (reexecute_cmd o) (arckpt o)
  (batch_threshold o) (version_num o) (fault_instr o) (fault_loc o) (bc_file o) (dg_opts o).
Definition set_version_num o v := ReactorOptions (address_file o) (checkpoint_file o) (pmem_file o)
  (pmem_layout o) (pmem_library o) (hook_guid_file o) (reexecute_cmd o) (arckpt o)
  (batch_threshold o) v (fault_instr o) (fault_loc o) (bc_file o) (dg_opts o).
Definition set_hook_guid_file o v := ReactorOptions (address_file o) (checkpoint_file o) (pmem_file o)
  (pmem_layout o) (pmem_library o) (Some v) (reexecute_cmd o) (arckpt o)
  (batch_threshold o) (version_num o) (fault_instr o) (fault_loc o) (bc_file o) (dg_opts o).
Definition set_arckpt o v := ReactorOptions (address_file o) (checkpoint_file o) (pmem_file o)
  (pmem_layout o) (pmem_library o) (hook_guid_file o) (reexecute_cmd o) v
  (batch_threshold o) (version_num o) (fault_instr o) (fault_loc o) (bc_file o) (dg_opts o).
Definition set_batch_threshold o v := ReactorOptions (address_file o) (checkpoint_file o) (pmem_file o)
  (pmem_layout o) (pmem_library o) (hook_guid_file o) (reexecute_cmd o) (arckpt o)
  v (version_num o) (fault_instr o) (fault_loc o) (bc_file o) (dg_opts o).
Definition set_address_file o v := ReactorOptions (Some v) (checkpoint_file o) (pmem_file o)
  (pmem_layout o) (pmem_library o) (hook_guid_file o) (reexecute_cmd o) (arckpt o)
  (batch_threshold o) (version_num o) (fault_instr o) (fault_loc o) (bc_file o) (dg_opts o).
Definition set_reexecute_cmd o v := ReactorOptions (address_file o) (checkpoint_file o) (pmem_file o)
  (pmem_layout o) (pmem_library o) (hook_guid_file o) (Some v) (arckpt o)
  (batch_threshold o) (version_num o) (fault_instr o) (fault_loc o) (bc_file o) (dg_opts o).
Definition set_fault_loc o v := ReactorOptions (address_file o) (checkpoint_file o) (pmem_file o)
  (pmem_layout o) (pmem_library o) (hook_guid_file o) (reexecute_cmd o) (arckpt o)
  (batch_threshold o) (version_num o) (fault_instr o) v (bc_file o) (dg_opts o).
Definition set_fault_instr o v := ReactorOptions (address_file o) (checkpoint_file o) (pmem_file o)
  (pmem_layout o) (pmem_library o) (hook_guid_file o) (reexecute_cmd o) (arckpt o)
  (batch_threshold o) (version_num o) v (fault_loc o) (bc_file o) (dg_opts o).
Definition set_bc_file o v := ReactorOptions (address_file o) (checkpoint_file o) (pmem_file o)
  (pmem_layout o) (pmem_library o) (hook_guid_file o) (reexecute_cmd o) (arckpt o)
  (batch_threshold o) (version_num o) (fault_instr o) (fault_loc o) v (dg_opts o).
Definition set_dg_opts o v := ReactorOptions (address_file o) (checkpoint_file o) (pmem_file o)
  (pmem_layout o) (pmem_library o) (hook_guid_file o) (reexecute_cmd o) (arckpt o)
  (batch_threshold o) (version_num o) (fault_instr o) (fault_loc o) (bc_file o) v.

(** [parse_options] prints the usage and exits, or returns [false] or [true]. *)
Inductive parse_result :=
  | PExit
  | PFalse
  | PTrue (o : reactor_options).

Definition set_show_help (f : flags) : flags :=
  Flags true (f_skip_check f) (f_enable_pta f) (f_enable_control f) (f_slice_control f)
    (f_support_thread f) (f_intra_procedural f) (f_inter_procedural f) (f_entry_only f).

(** The body of the switch; [None] is [return false]. *)
Definition parse_one (st : flags * reactor_options) (r : opt_result)
  : option (flags * reactor_options) :=
  let '(f, o) := st in
  match r with
  | SetFlag g => Some (g f, o)
  | Unknown => None
  | Opt c a =>
    if decide (c = "h"%char) then Some (set_show_help f, o)
    else if decide (c = "p"%char) then Some (f, set_pmem_file o a)
    else if decide (c = "t"%char) then Some (f, set_pmem_layout o a)
    else if decide (c = "l"%char) then Some (f, set_pmem_library o a)
    else if decide (c = "n"%char) then
      let '(v, pend) := strtol a in
      if decide (pend = a \/ pend <> "") then None
      else Some (f, set_version_num o (s32 v))
    else if decide (c = "g"%char) then Some (f, set_hook_guid_file o a)
    else if decide (c = "z"%char) then Some (f, set_arckpt o true)
    else if decide (c = "e"%char) then Some (f, set_batch_threshold o (s32 (strtol a).1))
    else if decide (c = "a"%char) then Some (f, set_address_file o a)
    else if decide (c = "r"%char) then Some (f, set_reexecute_cmd o a)
    else if decide (c = "c"%char) then Some (f, set_fault_loc o a)
    else if decide (c = "i"%char) then Some (f, set_fault_instr o a)
    else if decide (c = "b"%char) then Some (f, set_bc_file o a)
    else None
  end.

Definition count_char (c : ascii) (s : string) : nat :=
  length (filter (fun x => x = c) (String.list_ascii_of_string s)).

Definition dg_of_flags (f : flags) : dg_options :=
  DgOptions (f_entry_only f) (f_enable_pta f) (f_enable_control f) (f_slice_control f)
    (f_support_thread f) (f_intra_procedural f) (f_inter_procedural f).

(** [exists_file] is [access(path, 0) == 0]. *)
Definition check_options (exists_file : string -> bool) (o : reactor_options) : bool :=
  match pmem_file o with
  | None => false
  | Some p =>
    exists_file p &&
    match pmem_layout o with
    | None => false
    | Some _ =>
      match pmem_library o with
      | None => false
      | Some l =>
        bool_decide (l = "libpmem"%string \/ l = "libpmemobj"%string) &&
        match hook_guid_file o with
        | None => false
        | Some _ =>
          negb (bool_decide (version_num o <= 0)) &&
          match reexecute_cmd o with
          | None => false
          | Some _ =>
            (if decide (fault_loc o = ""%string) then true
             else bool_decide (1 <= count_char ":" (fault_loc o) <= 2)%nat) &&
            negb (bool_decide (bc_file o = ""%string))
          end
        end
      end
    end
  end.

Definition parse_options (exists_file : string -> bool) (results : list opt_result) : parse_result :=
  match mfold parse_one (initial_flags, zero_options) results with
  | None => PFalse
  | Some (f, o) =>
    if f_show_help f then PExit
    else
      let o := set_dg_opts o (dg_of_flags f) in
      let o := match pmem_library o with
               | None => set_pmem_library o "libpmem"
               | Some _ => o
               end in
      if f_skip_check f then PTrue o
      else if check_options exists_file o then PTrue o else PFalse
  end.

(** ** Accepted options *)

(** What the rest of the reactor relies on. *)
Record valid (exists_file : string -> bool) (o : reactor_options) : Prop := Valid {
  va_pmem_file : exists p, pmem_file o = Some p /\ exists_file p = true;
  va_layout : is_Some (pmem_layout o);
  va_library : pmem_library o = Some "libpmem"%string \/ pmem_library o = Some "libpmemobj"%string;
  va_guid : is_Some (hook_guid_file o);
  va_version : 0 < version_num o;
  va_cmd : is_Some (reexecute_cmd o);
  va_loc : fault_loc o = ""%string \/ (1 <= count_char ":" (fault_loc o) <= 2)%nat;
  va_bc : bc_file o <> ""%string
}.

Lemma check_options_valid ex o : check_options ex o = true <-> valid ex o.
Proof.
  unfold check_options. split.
  - destruct (pmem_file o) as [p|] eqn:Hp; [|done]. intros [H1 H]%andb_true_iff.
    destruct (pmem_layout o) as [t|] eqn:Ht; [|done].
    destruct (pmem_library o) as [l|] eqn:Hl; [|done]. apply andb_true_iff in H as [H2 H].
    destruct (hook_guid_file o) as [g|] eqn:Hg; [|done]. apply andb_true_iff in H as [H3 H].
    destruct (reexecute_cmd o) as [r|] eqn:Hr; [|done]. apply andb_true_iff in H as [H4 H5].
    apply bool_decide_eq_true in H2. apply negb_true_iff, bool_decide_eq_false in H3, H5.
    split; rewrite ?Hp, ?Ht, ?Hl, ?Hg, ?Hr; eauto; [naive_solver|lia|].
    case_decide; [by left|]. right. by apply bool_decide_eq_true in H4.
  - intros [(p & -> & Hp) [t ->] Hl [g ->] Hv [r ->] Hc Hb].
    rewrite Hp. simpl. destruct (pmem_library o) as [l|]; [|naive_solver].
    rewrite bool_decide_eq_true_2 by naive_solver. rewrite bool_decide_eq_false_2 by lia. simpl.
    rewrite (bool_decide_eq_false_2 (bc_file o = "")) by done. rewrite andb_true_r.
    case_decide; [done|]. apply bool_decide_eq_true_2. by destruct Hc.
Qed.

Lemma parse_one_version st r st' :
  parse_one st r = Some st' -> in_s32 (version_num st.2) -> in_s32 (version_num st'.2).
Proof.
  destruct st as [f o], r as [c a|g|]; simpl; [|by intros [= <-]|done].
  repeat case_decide; simplify_eq/=; try (by intros [= <-]).
  destruct (strtol a) as [v e]. case_decide; [done|]. intros [= <-] _. simpl. auto with machine.
Qed.

(** Options that are accepted without [--skip-check] meet every condition
    the error messages name, with a version number between 1 and INT_MAX; and
    every command line whose options meet them is accepted. *)
Theorem parse_options_accepts ex rs f o :
  mfold parse_one (initial_flags, zero_options) rs = Some (f, o) ->
  f_show_help f = false -> f_skip_check f = false ->
  let o' := set_dg_opts (match pmem_library o with
                         | None => set_pmem_library o "libpmem"
                         | Some _ => o
                         end) (dg_of_flags f) in
  (valid ex o' <-> parse_options ex rs = PTrue o') /\
  (forall o1, parse_options ex rs = PTrue o1 -> o1 = o' /\ 1 <= version_num o1 < 2 ^ 31).
Proof.
  intros Hm Hh Hs o'. unfold parse_options. rewrite Hm, Hh, Hs.
  assert (match pmem_library (set_dg_opts o (dg_of_flags f)) with
          | Some _ => set_dg_opts o (dg_of_flags f)
          | None => set_pmem_library (set_dg_opts o (dg_of_flags f)) "libpmem" end = o') as ->
    by (unfold o'; simpl; by destruct (pmem_library o)).
  assert (version_num o' < 2 ^ 31) as Hv.
  { assert (in_s32 (version_num (f, o).2)) as Hr.
    { apply (mfold_inv parse_one (fun _ st => in_s32 (version_num st.2)) rs (initial_flags, zero_options)).
      - change (version_num (initial_flags, zero_options).2) with 0. lia.
      - intros _ x _ st st' _ H1 H2. by eapply parse_one_version.
      - done. }
    simpl in Hr. unfold o'. destruct (pmem_library o); simpl; lia. }
  clearbody o'. pose proof (check_options_valid ex o') as Hc.
  destruct (check_options ex o'); split.
  - by rewrite <- Hc.
  - intros o1 [= <-]. split; [done|]. pose proof (va_version _ _ (proj1 Hc eq_refl)). lia.
  - rewrite <- Hc. done.
  - done.
Qed.

Definition ex_results : list opt_result :=
  [Opt "p" "pool"; Opt "t" "layout"; Opt "n" "4294967298"; Opt "r" "run"; Opt "g" "guids";
   Opt "b" "prog.bc"].

(** The version number is truncated to an [int]: 4294967298 is accepted as 2. *)
Lemma parse_options_accepts_witness :
  exists o1, parse_options (fun _ => true) ex_results = PTrue o1 /\ version_num o1 = 2 /\
             pmem_library o1 = Some "libpmem"%string.
Proof.
  edestruct (parse_options_accepts (fun _ => true) ex_results) as [[H _] _];
    [vm_compute; reflexivity|reflexivity|reflexivity|].
  eexists. split; [apply H; split; simpl|split; reflexivity].
  - eexists. split; reflexivity.
  - eexists. reflexivity.
  - left. reflexivity.
  - eexists. reflexivity.
  - lia.
  - eexists. reflexivity.
  - left. reflexivity.
  - discriminate.
Defined.

End Options.
