(* ===== verification/BinaryReversion.v ===== *)
(** * Searching for the entries to revert (binary_reversion of
      reactor/lib/core.cpp)

    The reactor looks for a small set of updates whose reversion makes the target
    program succeed, by bisection: revert the later half, re-execute, undo, and
    continue with one of the halves.  The search is bounded, and every attempt
    but the last is undone. *)
From stdpp Require Import base list gmap strings sorting.
From Stdlib Require Import Init.Byte.
From S2P Require Import Prelude Memory Checkpoint Chains SeqLog Rollback ReExecute Options.

Module BinaryReversion.
Import ReExecute.

Definition BINARY_REVERSION_ATTEMPTS : Z := 2.

(** The global variables of core.cpp the search assigns. *)
Record globals := Globals {
  binary_success : Z;
  binary_reversion_count : Z;
  binary_reverted_items : Z;
  total_reexecutions : Z
}.

Definition set_success (x : globals) (v : Z) : globals :=
  Globals v (binary_reversion_count x) (binary_reverted_items x) (total_reexecutions x).
Definition set_count (x : globals) (v : Z) : globals :=
  Globals (binary_success x) v (binary_reverted_items x) (total_reexecutions x).
Definition set_items (x : globals) (v : Z) : globals :=
  Globals (binary_success x) (binary_reversion_count x) v (total_reexecutions x).
Definition add_reexecution (x : globals) : globals :=
  Globals (binary_success x) (binary_reversion_count x) (binary_reverted_items x)
    (total_reexecutions x + 1).

Section search.
Context {E : Type} `{!Environment E}.
Context (garbage : single_data) (c_log : checkpoint_log) (num_data pool_address : Z)
        (options : Options.reactor_options).

(** The world, the globals and the pool pointer [*pop]. *)
Record state := State {
  st_world : world E;
  st_globals : globals;
  st_pop : Z
}.

Definition with_globals (st : state) (x : globals) : state := State (st_world st) x (st_pop st).

(** [strcmp(options.pmem_library, "libpmemobj") == 0] *)
Definition is_pmemobj : option bool :=
  l ← Options.pmem_library options; Some (bool_decide (l = "libpmemobj"%string)).

(** The guarded call of [re_execute]: [None] when nothing was decided. *)
Definition execute (cmd path layout : string) (decided_total : Z) (w : world E) (x : globals)
  : outcome (option Z * world E * globals) :=
  if decide (decided_total > 0) then
    '(ret, w2) ← re_execute 1 garbage cmd (Options.version_num options) c_log num_data path layout
                   FINE_GRAIN 0 pool_address w;
    Ret (Some ret, w2, add_reexecution x)
  else Ret (None, w, x).

(** Reverting one half and re-executing the program: the lines the two branches
    of the code share.  [decided] has room for [capacity] numbers; the result is
    [req_flag2], which is not assigned when nothing was decided. *)
Definition try_entries (capacity : nat) (half : list Z) (st : state) : outcome (option Z * state) :=
  '(decided, decided_total) ← run (Rollback.decision_func_sequence_array half
                                 (Z.of_nat (length half)) (replicate capacity 0) 0);
  let x1 := set_items (st_globals st) decided_total in
  let w := st_world st in
  m ← run (Rollback.revert_by_sequence_number_array garbage (w_mem w) (w_log w) decided
             decided_total c_log);
  obj ← run is_pmemobj;
  w1 ← run (if (obj : bool) then pmemobj_close (st_pop st) (with_mem w m) else Some (with_mem w m));
  cmd ← run (Options.reexecute_cmd options);
  path ← run (Options.pmem_file options);
  layout ← run (Options.pmem_layout options);
  '(flag, w2, x2) ← execute cmd path layout decided_total w1 x1;
  if (obj : bool) then
    '(pop, w3) ← run (redo_pmem_addresses path layout num_data w2);
    Ret (flag, State w3 x2 pop)
  else Ret (flag, State w2 x2 (st_pop st)).

Definition undo_entries (half : list Z) (st : state) : outcome state :=
  let w := st_world st in
  m ← run (Rollback.undo_by_sequence_number_array garbage (w_mem w) (w_log w) half);
  Ret (State (with_mem w m) (st_globals st) (st_pop st)).

Definition split_left (seq_list : list Z) (mid : Z) : option (list Z) :=
  if decide (0 <= mid + 1 <= Z.of_nat (length seq_list))
  then Some (take (Z.to_nat (mid + 1)) seq_list) else None.

Definition split_right (seq_list : list Z) (mid : Z) : list Z :=
  if decide (mid = 0 /\ length seq_list = 1%nat) then drop (Z.to_nat mid) seq_list
  else drop (Z.to_nat (mid + 1)) seq_list.

Fixpoint binary_reversion (fuel : nat) (seq_list : list Z) (l r : Z) (st : state)
  : outcome (Z * state) :=
  match fuel with
  | O => NoFuel
  | S fuel' =>
    if decide (r >= l) then
      let mid := l + Z.quot (r - l) 2 in
      left ← run (split_left seq_list mid);
      let right := split_right seq_list mid in
      '(flag, st1) ← try_entries (length seq_list) right st;
      let count := binary_reversion_count (st_globals st1) + 1 in
      let st2 := with_globals st1 (set_count (st_globals st1) count) in
      req_flag2 ← run flag;
      if decide (req_flag2 = 1) then
        if decide (count > BINARY_REVERSION_ATTEMPTS \/ length right = 1%nat) then
          Ret (0, with_globals st2 (set_success (set_count (st_globals st2) 0) 1))
        else
          st3 ← undo_entries right st2;
          '(_, st4) ← binary_reversion fuel' right 0 (Z.of_nat (length right) - 1) st3;
          Ret (-1, st4)
      else
        st3 ← undo_entries right st2;
        if decide (count > BINARY_REVERSION_ATTEMPTS \/ length left = 1%nat) then
          '(flag', st4) ← try_entries (length seq_list) left
                            (with_globals st3 (set_count (st_globals st3) 0));
          Ret (1, if decide (default req_flag2 flag' = 1)
                  then with_globals st4 (set_success (st_globals st4) 1) else st4)
        else
          '(_, st4) ← binary_reversion fuel' left 0 (Z.of_nat (length left) - 1) st3;
          Ret (-1, st4)
    else Ret (-1, st)
  end.

(** ** Termination and the number of re-executions *)

Lemma run_not_nofuel {A} (o : option A) : run o <> NoFuel.
Proof. by destruct o. Qed.

Lemma bind_not_nofuel {A B} (o : outcome A) (f : A -> outcome B) :
  o <> NoFuel -> (forall a, o = Ret a -> f a <> NoFuel) -> (o ≫= f) <> NoFuel.
Proof. destruct o; simpl; [|done..]. intros _ H. by apply H. Qed.

Lemma bind_Ret {A B} (o : outcome A) (f : A -> outcome B) b :
  (o ≫= f) = Ret b -> exists a, o = Ret a /\ f a = Ret b.
Proof. destruct o; simpl; [|done..]. eauto. Qed.

Lemma run_Ret {A} (o : option A) a : run o = Ret a -> o = Some a.
Proof. destruct o; simpl; congruence. Qed.

Lemma re_execute_fine_fuel fuel g cmd v c n path layout q old w :
  re_execute (S fuel) g cmd v c n path layout FINE_GRAIN q old w <> NoFuel.
Proof.
  cbn [re_execute]. destruct (system cmd w) as [status w1].
  rewrite decide_False by done. destruct (_ && _); [|done].
  apply bind_not_nofuel; [apply run_not_nofuel|]. intros [pop1 w2] _.
  apply bind_not_nofuel; [apply run_not_nofuel|]. intros [pop w3] _.
  rewrite !decide_False by done.
  apply bind_not_nofuel; [apply run_not_nofuel|done].
Qed.

Lemma decision_total (old new d : list Z) n t :
  0 <= n -> Rollback.decision_func_sequence_array old n new 0 = Some (d, t) -> t = n.
Proof.
  intros Hn. unfold Rollback.decision_func_sequence_array.
  intros ([arr total] & Hm & H)%bind_Some. case_decide; [|done].
  apply bind_Some in H as (s & _ & [= _ <-]).
  assert (total = Z.of_nat (length (seqZ 0 n))) as ->; [|rewrite length_seqZ; lia].
  apply (mfold_inv (Rollback.copy_seq_number old) (fun l st => st.2 = Z.of_nat (length l)) _ (new, 0) _
    eq_refl) in Hm; [done|].
  intros l1 x l2 [b1 t1] [b2 t2] _ H1 H2. unfold Rollback.copy_seq_number in H2.
  apply bind_Some in H2 as (y & _ & (z & _ & [= <- <-])%bind_Some).
  simpl in *. rewrite H1, length_app. simpl. lia.
Qed.

Lemma try_not_nofuel cap half st : try_entries cap half st <> NoFuel.
Proof.
  unfold try_entries. apply bind_not_nofuel; [apply run_not_nofuel|]. intros [d t] _.
  apply bind_not_nofuel; [apply run_not_nofuel|]; intros m _.
  apply bind_not_nofuel; [apply run_not_nofuel|]; intros obj _.
  apply bind_not_nofuel; [apply run_not_nofuel|]; intros w1 _.
  apply bind_not_nofuel; [apply run_not_nofuel|]; intros cmd _.
  apply bind_not_nofuel; [apply run_not_nofuel|]; intros path _.
  apply bind_not_nofuel; [apply run_not_nofuel|]; intros layout _.
  apply bind_not_nofuel.
  - unfold execute. case_decide; [|done].
    apply bind_not_nofuel; [apply re_execute_fine_fuel|by intros [? ?] _].
  - intros [[flag w2] x2] _. destruct obj; [|done].
    apply bind_not_nofuel; [apply run_not_nofuel|by intros [? ?] _].
Qed.

(** What an attempt does to the globals. *)
Lemma try_globals cap half st flag st' :
  half <> [] -> try_entries cap half st = Ret (flag, st') ->
  is_Some flag /\ st_globals st' = add_reexecution (set_items (st_globals st) (Z.of_nat (length half))).
Proof.
  intros Hne H. unfold try_entries in H.
  apply bind_Ret in H as ([d t] & Hd%run_Ret & H).
  apply decision_total in Hd as ->; [|lia].
  apply bind_Ret in H as (m & _ & H). apply bind_Ret in H as (obj & _ & H).
  apply bind_Ret in H as (w1 & _ & H). apply bind_Ret in H as (cmd & _ & H).
  apply bind_Ret in H as (path & _ & H). apply bind_Ret in H as (layout & _ & H).
  apply bind_Ret in H as ([[flag2 w2] x2] & He & H).
  unfold execute in He. rewrite decide_True in He by (destruct half; simpl; [done|lia]).
  apply bind_Ret in He as ([ret w3] & _ & [= <- <- <-]).
  destruct obj.
  - apply bind_Ret in H as ([pop w4] & _ & [= <- <-]). by split.
  - injection H as <- <-. by split.
Qed.

Lemma undo_not_nofuel half st : undo_entries half st <> NoFuel.
Proof. apply bind_not_nofuel; [apply run_not_nofuel|done]. Qed.

Lemma undo_globals half st st' :
  undo_entries half st = Ret st' -> st_globals st' = st_globals st.
Proof. unfold undo_entries. by intros (m & _ & [= <-])%bind_Ret. Qed.

(** The halves of a search that is not over yet. *)
Lemma halves (seq_list : list Z) :
  seq_list <> [] ->
  let mid := 0 + Z.quot (Z.of_nat (length seq_list) - 1 - 0) 2 in
  exists left, split_left seq_list mid = Some left /\ left <> [] /\ split_right seq_list mid <> [] /\
    left `prefix_of` seq_list /\ split_right seq_list mid `suffix_of` seq_list /\
    (length seq_list <> 1%nat -> left ++ split_right seq_list mid = seq_list).
Proof.
  intros Hne mid. assert (0 < length seq_list)%nat as Hl by (destruct seq_list; simpl; [done|lia]).
  assert (0 <= mid) as Hm0 by (unfold mid; Z.to_euclidean_division_equations; lia).
  assert (mid + 1 <= Z.of_nat (length seq_list)) as Hm1
    by (unfold mid; Z.to_euclidean_division_equations; lia).
  assert (length seq_list <> 1%nat -> mid + 1 < Z.of_nat (length seq_list)) as Hm2
    by (unfold mid; Z.to_euclidean_division_equations; lia).
  unfold split_left, split_right. rewrite decide_True by lia. eexists. split; [done|].
  split; [|split; [|split; [|split]]].
  - intros H%(f_equal length). rewrite length_take in H. simpl in H. lia.
  - case_decide; intros Hx%(f_equal length); rewrite length_drop in Hx; simpl in Hx; lia.
  - apply prefix_take.
  - case_decide; apply suffix_drop.
  - intros Hn. rewrite decide_False by (by intros [_ ?]). apply take_drop.
Qed.

Lemma binary_reversion_unfold fuel seq_list st :
  seq_list <> [] ->
  exists left right,
    left <> [] /\ right <> [] /\ left `prefix_of` seq_list /\ right `suffix_of` seq_list /\
    (length seq_list <> 1%nat -> left ++ right = seq_list) /\
    binary_reversion (S fuel) seq_list 0 (Z.of_nat (length seq_list) - 1) st =
    ('(flag, st1) ← try_entries (length seq_list) right st;
      let count := binary_reversion_count (st_globals st1) + 1 in
      let st2 := with_globals st1 (set_count (st_globals st1) count) in
      req_flag2 ← run flag;
      if decide (req_flag2 = 1) then
        if decide (count > BINARY_REVERSION_ATTEMPTS \/ length right = 1%nat) then
          Ret (0, with_globals st2 (set_success (set_count (st_globals st2) 0) 1))
        else
          st3 ← undo_entries right st2;
          '(_, st4) ← binary_reversion fuel right 0 (Z.of_nat (length right) - 1) st3;
          Ret (-1, st4)
      else
        st3 ← undo_entries right st2;
        if decide (count > BINARY_REVERSION_ATTEMPTS \/ length left = 1%nat) then
          '(flag', st4) ← try_entries (length seq_list) left
                            (with_globals st3 (set_count (st_globals st3) 0));
          Ret (1, if decide (default req_flag2 flag' = 1)
                  then with_globals st4 (set_success (st_globals st4) 1) else st4)
        else
          '(_, st4) ← binary_reversion fuel left 0 (Z.of_nat (length left) - 1) st3;
          Ret (-1, st4)).
Proof.
  intros Hne. destruct (halves seq_list Hne) as (left & Hleft & H1 & H2 & H3 & H4 & H5).
  exists left, (split_right seq_list (0 + Z.quot (Z.of_nat (length seq_list) - 1 - 0) 2)).
  split; [done|]. split; [done|]. split; [done|]. split; [done|]. split; [done|].
  cbn [binary_reversion]. rewrite decide_True by (destruct seq_list; simpl; [done|lia]).
  cbv zeta. rewrite Hleft. done.
Qed.

(** The search goes on in one half, with the globals the undo has left. *)
#[local] Ltac search_again IH half st3 Hu :=
  let H1 := fresh in let H2 := fresh in let r4 := fresh in let st4 := fresh in
  destruct (IH half st3) as [H1 H2]; [done|rewrite Hu; lia|rewrite Hu; lia|];
  destruct (binary_reversion _ half 0 _ st3) as [[r4 st4]| |]; cbn [mbind outcome_bind]; [|by split|done];
  split; [done|]; intros ? ? [= <- <-]; specialize (H2 r4 st4 eq_refl); rewrite Hu in H2; lia.

Lemma search_bounded fuel seq_list st :
  seq_list <> [] -> 0 <= binary_reversion_count (st_globals st) <= 2 ->
  3 - binary_reversion_count (st_globals st) <= Z.of_nat fuel ->
  let out := binary_reversion fuel seq_list 0 (Z.of_nat (length seq_list) - 1) st in
  out <> NoFuel /\
  forall r st', out = Ret (r, st') ->
    binary_reversion_count (st_globals st') = 0 /\
    1 <= total_reexecutions (st_globals st') - total_reexecutions (st_globals st) <=
      4 - binary_reversion_count (st_globals st).
Proof.
  revert seq_list st. induction fuel as [|fuel IH]; intros seq_list st Hne Hc Hf out; [lia|].
  destruct (binary_reversion_unfold fuel seq_list st Hne)
    as (left & right & Hl & Hr & _ & _ & _ & Hout).
  unfold out. rewrite Hout. clear out Hout.
  pose proof (try_not_nofuel (length seq_list) right st) as Hnf.
  destruct (try_entries (length seq_list) right st) as [[flag st1]| |] eqn:Ht;
    cbn [mbind outcome_bind]; [|by split|done].
  destruct (try_globals _ _ _ _ _ Hr Ht) as [[q ->] Hg1]. cbn [run mbind outcome_bind]. cbv zeta.
  rewrite Hg1. cbn [binary_reversion_count add_reexecution set_items].
  unfold BINARY_REVERSION_ATTEMPTS.
  set (st2 := with_globals st1 _).
  assert (binary_reversion_count (st_globals st2) = binary_reversion_count (st_globals st) + 1 /\
          total_reexecutions (st_globals st2) = total_reexecutions (st_globals st) + 1) as [Hc2 Ht2]
    by done.
  clearbody st2. destruct (decide (q = 1)) as [Hq|Hq].
  - case_decide as Hd.
    + split; [done|]. intros r st' [= <- <-]. cbn. lia.
    + destruct (undo_entries right st2) as [st3| |] eqn:Hu; cbn [mbind outcome_bind];
        [|by split|by apply undo_not_nofuel in Hu].
      apply undo_globals in Hu.
      search_again IH right st3 Hu.
  - destruct (undo_entries right st2) as [st3| |] eqn:Hu; cbn [mbind outcome_bind];
      [|by split|by apply undo_not_nofuel in Hu].
    apply undo_globals in Hu. case_decide as Hd.
    + pose proof (try_not_nofuel (length seq_list) left
        (with_globals st3 (set_count (st_globals st3) 0))) as Hnf2.
      destruct (try_entries (length seq_list) left _) as [[flag' st4]| |] eqn:Ht4;
        cbn [mbind outcome_bind]; [|by split|done].
      destruct (try_globals _ _ _ _ _ Hl Ht4) as [_ Hg4].
      split; [done|]. intros r st' [= <- <-].
      assert (binary_reversion_count (st_globals st4) = 0 /\
              total_reexecutions (st_globals st4) = total_reexecutions (st_globals st) + 2) as [Hc4 Ht4'].
      { rewrite Hg4. cbn. rewrite Hu. lia. }
      destruct (decide (default q flag' = 1)); cbn; lia.
    + search_again IH left st3 Hu.
Qed.

(** C11. The search is bounded: started on a non-empty list with at most two
    earlier attempts on the counter, it needs at most three nested calls, returns
    with the counter reset, and re-executes the target program between one and
    four times. *)
Theorem binary_reversion_bounded fuel seq_list st :
  seq_list <> [] -> 0 <= binary_reversion_count (st_globals st) <= 2 ->
  3 - binary_reversion_count (st_globals st) <= Z.of_nat fuel ->
  let out := binary_reversion fuel seq_list 0 (Z.of_nat (length seq_list) - 1) st in
  out <> NoFuel /\
  forall r st', out = Ret (r, st') ->
    binary_reversion_count (st_globals st') = 0 /\
    1 <= total_reexecutions (st_globals st') - total_reexecutions (st_globals st) <=
      4 - binary_reversion_count (st_globals st).
Proof. apply search_bounded. Qed.

(** ** What the search reports *)

(** The entries whose reversion was tried last, and the outcome. *)
Definition last_attempt (seq_list : list Z) (st st' : state) : Prop :=
  exists half cap before flag after,
    half <> [] /\ half `sublist_of` seq_list /\
    try_entries cap half before = Ret (Some flag, after) /\
    st_world st' = st_world after /\ st_pop st' = st_pop after /\
    binary_reverted_items (st_globals st') = Z.of_nat (length half) /\
    binary_success (st_globals st') = (if decide (flag = 1) then 1 else binary_success (st_globals st)).

Lemma last_attempt_sublist l1 l2 st1 st2 st' :
  l1 `sublist_of` l2 -> binary_success (st_globals st1) = binary_success (st_globals st2) ->
  last_attempt l1 st1 st' -> last_attempt l2 st2 st'.
Proof.
  intros Hl Hs (half & cap & b & fl & a & H1 & H2 & H3 & H4 & H5 & H6 & H7).
  exists half, cap, b, fl, a. split; [done|]. split; [by etrans|]. rewrite <- Hs. done.
Qed.

(** C32. The search reports honestly: when it returns, the last thing that
    happened to the pool is an attempt to revert some non-empty part of the list,
    [binary_reverted_items] is the size of that part, and [binary_success] is set
    to 1 exactly when the re-execution of that attempt was counted a success. *)
Theorem binary_reversion_reports fuel seq_list st r st' :
  seq_list <> [] ->
  binary_reversion fuel seq_list 0 (Z.of_nat (length seq_list) - 1) st = Ret (r, st') ->
  last_attempt seq_list st st'.
Proof.
  revert seq_list st r. induction fuel as [|fuel IH]; intros seq_list st r Hne H; [done|].
  destruct (binary_reversion_unfold fuel seq_list st Hne)
    as (left & right & Hl & Hr & Hpre & Hsuf & _ & Hout).
  assert (right `sublist_of` seq_list) as Hsr
    by (destruct Hsuf as [k ->]; by apply sublist_inserts_l).
  assert (left `sublist_of` seq_list) as Hsl
    by (destruct Hpre as [k ->]; by apply sublist_inserts_r).
  rewrite Hout in H. clear Hout.
  apply bind_Ret in H as ([flag st1] & Ht & H).
  destruct (try_globals _ _ _ _ _ Hr Ht) as [[q ->] Hg1]. cbn [run mbind outcome_bind] in H. cbv zeta in H.
  set (st2 := with_globals st1 _) in H.
  assert (binary_success (st_globals st2) = binary_success (st_globals st)) as Hs2
    by (unfold st2; cbn; by rewrite Hg1).
  destruct (decide (q = 1)) as [Hq|Hq].
  - case_decide as Hd.
    + injection H as <- <-. exists right, (length seq_list), st, q, st1.
      split; [done|]. split; [done|]. split; [done|]. split; [done|]. split; [done|].
      cbn. rewrite Hg1. cbn. split; [done|]. by rewrite decide_True.
    + apply bind_Ret in H as (st3 & Hu%undo_globals & H).
      apply bind_Ret in H as ([r4 st4] & H4 & [= _ <-]).
      apply (last_attempt_sublist right _ st3); [done|by rewrite Hu|by eapply IH].
  - apply bind_Ret in H as (st3 & Hu%undo_globals & H). case_decide as Hd.
    + apply bind_Ret in H as ([flag' st4] & Ht4 & [= _ <-]).
      destruct (try_globals _ _ _ _ _ Hl Ht4) as [[q' ->] Hg4].
      change (default q (Some q')) with q'.
      exists left, (length seq_list), (with_globals st3 (set_count (st_globals st3) 0)), q', st4.
      split; [done|]. split; [done|]. split; [done|].
      cbn in Hg4. destruct (decide (q' = 1)); cbn; rewrite Hg4; cbn; rewrite ?Hu, ?Hs2; tauto.
    + apply bind_Ret in H as ([r4 st4] & H4 & [= _ <-]).
      apply (last_attempt_sublist left _ st3); [done|by rewrite Hu|by eapply IH].
Qed.

(** ** An attempt and its undoing *)

(** What the search needs of the environment: running a command does not shrink
    the pool file, and opening the pool succeeds, at a mapping inside the address
    space and away from the heap of the reactor. *)
Record stable (m : memory) : Prop := Stable {
  sb_keep : forall cmd e p o, is_Some (p !! o) -> is_Some ((env_system cmd e p).2 !! o);
  sb_open : forall path layout e, 0 < (env_open path layout e).1 /\
              (env_open path layout e).1 + pool_len m < 2 ^ 64;
  sb_apart : forall path layout e a,
               in_area (env_open path layout e).1 (pool_len m) a -> heap m !! a = None
}.

Lemma pool_get m b o :
  pool_base m = Some b -> 0 <= o < pool_len m -> mem_get m (b + o) = pool m !! o.
Proof.
  intros Hb Ho. unfold mem_get, pool_off. rewrite Hb. rewrite decide_True by lia. f_equal. lia.
Qed.

Lemma heap_get m a :
  is_Some (heap m !! a) ->
  (forall b, pool_base m = Some b -> in_area b (pool_len m) a -> heap m !! a = None) ->
  mem_get m a = heap m !! a.
Proof.
  intros Ha Hb. unfold mem_get, pool_off. destruct (pool_base m) as [b|]; [|done].
  case_decide as Hd; [|done]. rewrite (Hb b eq_refl Hd) in Ha. by destruct Ha.
Qed.

(** The numbers of a sorted list are decided in reverse. *)
Lemma decided_reverse half cap :
  StronglySorted Z.le half -> (length half <= cap)%nat -> (forall x, x ∈ half -> 0 <= x < 2 ^ 31) ->
  exists rest, Rollback.decision_func_sequence_array half (Z.of_nat (length half)) (replicate cap 0) 0 =
    Some (reverse half ++ rest, Z.of_nat (length half)).
Proof.
  intros Hs Hl Hr.
  destruct (Rollback.decision_func_ok half (replicate cap 0)) as (l' & -> & _ & _ & Hu);
    [by rewrite length_replicate|done|].
  eexists. enough (reverse half = l') as -> by reflexivity.
  apply Hu; [apply reverse_Permutation|].
  clear -Hs. induction Hs as [|x l Hl IH Hx]; [constructor|]. rewrite reverse_cons.
  apply StronglySorted_app_2; [|done|repeat constructor].
  intros y z Hy Hz. apply list_elem_of_singleton in Hz as ->. rewrite elem_of_reverse in Hy.
  rewrite Forall_forall in Hx. specialize (Hx y Hy). lia.
Qed.

(** The world after a fine-grained re-execution on a closed pool. *)
Record executed (w w' : world E) : Prop := Executed {
  xe_base : pool_base (w_mem w') = None;
  xe_len : pool_len (w_mem w') = pool_len (w_mem w);
  xe_heap : heap (w_mem w') = heap (w_mem w);
  xe_pool : forall o, is_Some (pool (w_mem w) !! o) -> is_Some (pool (w_mem w') !! o);
  xe_log : exists pops, w_log w' = fold_left (fun s pop => placed_at pop s) pops (w_log w)
}.

Lemma re_execute_executed cmd path layout v q old w :
  stable (w_mem w) -> SeqLog.wf (w_log w) -> pool_base (w_mem w) = None ->
  exists ret w', re_execute 1 garbage cmd v c_log num_data path layout FINE_GRAIN q old w = Ret (ret, w') /\
    (ret = 1 \/ ret = -1) /\ executed w w'.
Proof.
  intros Hst Hwf Hb. rewrite re_execute_fine_ok by done. cbv zeta.
  destruct (system_world cmd w) as (Hl1 & Hb1 & Hh1 & _ & Hn1).
  assert (forall o, is_Some (pool (w_mem w) !! o) -> is_Some (pool (w_mem (system cmd w).2) !! o)) as Hp1.
  { intros o Ho. unfold system. pose proof (sb_keep _ Hst cmd (w_env w) _ o Ho) as Hk.
    by destruct (env_system cmd (w_env w) (pool (w_mem w))) as [[? ?] ?]. }
  destruct (system cmd w) as [status w1]. cbn [fst snd] in *.
  destruct (failed status).
  - rewrite decide_True by (pose proof (sb_open _ Hst path layout (w_env w1)); lia).
    eexists _, _. split; [done|]. split; [by right|]. split; cbn; [congruence|done..|].
    by exists [(env_open path layout (w_env w1)).1].
  - eexists _, _. split; [done|]. split; [by left|]. split; [congruence|done..|]. by exists [].
Qed.

Lemma placed_at_wf pops s :
  SeqLog.wf s -> SeqLog.wf (fold_left (fun s pop => placed_at pop s) pops s).
Proof.
  revert s. induction pops as [|p pops IH]; intros s Hwf; simpl; [done|].
  by apply IH, SeqLog.map_log_wf.
Qed.

(** Only the last placement counts. *)
Lemma placed_at_last pops pop s k :
  SeqLog.wf s ->
  SeqLog.model (placed_at pop (fold_left (fun s pop => placed_at pop s) pops s)) !! k =
  place pop <$> SeqLog.model s !! k.
Proof.
  revert s. induction pops as [|p pops IH]; intros s Hwf; simpl.
  - unfold placed_at. by rewrite SeqLog.map_log_model, lookup_fmap.
  - rewrite IH by by apply SeqLog.map_log_wf. unfold placed_at at 1.
    rewrite SeqLog.map_log_model, lookup_fmap by done.
    destruct (SeqLog.model s !! k) as [d|]; done.
Qed.

(** Reverting a sorted half, as far as the first half of an attempt goes. *)
Lemma revert_half m s half cap :
  SeqLog.wf s -> StronglySorted Z.le half -> (length half <= cap)%nat ->
  Forall (Rollback.selectable s) half ->
  Rollback.batch (Rollback.batch_entries s (reverse half)) ->
  Rollback.batch_mapped m (Rollback.batch_entries s (reverse half)) ->
  exists decided m1,
    Rollback.decision_func_sequence_array half (Z.of_nat (length half)) (replicate cap 0) 0 =
      Some (decided, Z.of_nat (length half)) /\
    Rollback.revert_by_sequence_number_array garbage m s decided (Z.of_nat (length half)) c_log = Some m1 /\
    mfold Rollback.save_and_write m (Rollback.batch_entries s (reverse half)) = Some m1 /\
    same_layout m m1 /\
    (forall a, ~ Rollback.batch_area (Rollback.batch_entries s (reverse half)) a -> mem_get m1 a = mem_get m a).
Proof.
  intros Hwf Hs Hl Hsel Hb Hm.
  destruct (decided_reverse half cap Hs Hl) as [rest Hd].
  { intros x Hx. rewrite Forall_forall in Hsel. by apply Hsel. }
  destruct (Rollback.revert_batch_ok m _ Hb Hm) as (m1 & H1 & L1 & K1).
  exists (reverse half ++ rest), m1. split; [done|]. split; [|done].
  rewrite Rollback.revert_array_batch; [done|done|by apply Forall_reverse|by rewrite length_reverse].
Qed.

(** Where the entries of an attempt live: persistent addresses in the pool, as
    offsets from its base, and buffers in the heap. *)
Record located (m : memory) (s : seq_log) (half : list Z) : Prop := Located {
  lc_pool : exists base, pool_base m = Some base /\ forall q d, q ∈ half -> SeqLog.model s !! q = Some d ->
              sd_sorted_pmem_address d = base + sd_offset d /\ 0 <= sd_offset d /\
              0 <= sd_size d /\ sd_offset d + sd_size d <= pool_len m;
  lc_window : forall base a, pool_base m = Some base -> in_area base (pool_len m) a -> heap m !! a = None;
  lc_heap : forall d a, d ∈ Rollback.batch_entries s (reverse half) -> Rollback.buf_area d a ->
              is_Some (heap m !! a)
}.

(** The offset [o] belongs to a reverted entry. *)
Definition covered (s : seq_log) (half : list Z) (o : Z) : Prop :=
  exists d, d ∈ Rollback.batch_entries s (reverse half) /\ sd_offset d <= o < sd_offset d + sd_size d.

Lemma in_batch_half s half d :
  d ∈ Rollback.batch_entries s (reverse half) -> exists q, q ∈ half /\ SeqLog.model s !! q = Some d.
Proof.
  intros (q & Hq & Hd & _)%Rollback.batch_entries_in. exists q. by rewrite elem_of_reverse in Hq.
Qed.

(** The entries of a batch lie in the pool. *)
Lemma located_batch m s half base d :
  located m s half -> pool_base m = Some base -> d ∈ Rollback.batch_entries s (reverse half) ->
  sd_sorted_pmem_address d = base + sd_offset d /\ 0 <= sd_offset d /\ 0 <= sd_size d /\ sd_offset d + sd_size d <= pool_len m.
Proof.
  intros [(base0 & Hb & Hpl) _ _] Hbase (q & Hq & Hd)%in_batch_half. assert (base0 = base) as -> by congruence. by apply (Hpl q d).
Qed.

(** The buffers are in the heap, before and after the pool was mapped elsewhere. *)
Lemma located_buffers m m1 m3 s half base' d a :
  located m s half -> same_layout m m1 -> heap m3 = heap m1 -> pool_len m3 = pool_len m -> pool_base m3 = Some base' ->
  (forall a, in_area base' (pool_len m) a -> heap m !! a = None) ->
  d ∈ Rollback.batch_entries s (reverse half) -> Rollback.buf_area d a -> mem_get m1 a = heap m1 !! a /\ mem_get m3 a = heap m1 !! a.
Proof.
  intros [_ Hwin Hheap] L1 Hh Hn Hb3 Hap Hd Ha. pose proof (Hheap d a Hd Ha) as Hs.
  assert (is_Some (heap m1 !! a)) as Hs1 by (by apply (ly_hdom _ _ L1)).
  assert (forall b n, (in_area b n a -> heap m !! a = None) -> in_area b n a -> heap m1 !! a = None) as Hno.
  { intros b n Hb' Hi. specialize (Hb' Hi). rewrite Hb' in Hs. by destruct Hs. }
  split.
  - apply heap_get; [done|]. intros b Hb1. rewrite (ly_base _ _ L1) in Hb1. rewrite (ly_len _ _ L1).
    apply Hno. by apply Hwin.
  - rewrite <- Hh. apply heap_get; [by rewrite Hh|]. intros b Hb1. assert (b = base') as -> by congruence.
    rewrite Hn, Hh. apply Hno. apply Hap.
Qed.

(** Undoing on a pool that was closed, changed by the program and mapped again. *)
Lemma undo_relocated base base' m m1 m3 s s3 half :
  SeqLog.wf s -> Forall (Rollback.selectable s) half ->
  Rollback.batch (Rollback.batch_entries s (reverse half)) ->
  Rollback.batch_mapped m (Rollback.batch_entries s (reverse half)) ->
  located m s half -> pool_base m = Some base ->
  mfold Rollback.save_and_write m (Rollback.batch_entries s (reverse half)) = Some m1 ->
  same_layout m m1 ->
  heap m3 = heap m1 -> pool_len m3 = pool_len m -> pool_base m3 = Some base' ->
  (forall o, is_Some (pool m1 !! o) -> is_Some (pool m3 !! o)) ->
  0 < base' -> base' + pool_len m < 2 ^ 64 ->
  (forall a, in_area base' (pool_len m) a -> heap m !! a = None) ->
  SeqLog.wf s3 -> (forall k, SeqLog.model s3 !! k = place base' <$> SeqLog.model s !! k) ->
  exists m2, Rollback.undo_by_sequence_number_array garbage m3 s3 half = Some m2 /\
    (forall o, covered s half o -> pool m2 !! o = pool m !! o) /\
    (forall o, 0 <= o < pool_len m -> ~ covered s half o -> pool m2 !! o = pool m3 !! o).
Proof.
  intros Hwf Hsel Hb Hm Hloc Hbase H1 L1 Hh Hn Hb3 Hp Hb0 Hb64 Hap Hwf3 Hmod3.
  pose proof Hloc as [(base0 & Hb0' & Hpl) Hwin Hheap]. assert (base0 = base) as -> by congruence.
  pose proof (fun d => located_batch m s half base d Hloc Hbase) as Hds.
  pose proof (fun d a => located_buffers m m1 m3 s half base' d a Hloc L1 Hh Hn Hb3 Hap) as Hbufs.
  set (ds := Rollback.batch_entries s (reverse half)) in *.
  set (delta := base' - base).
  assert (forall a, Rollback.moved_area delta ds a ->
            exists d, d ∈ ds /\ sd_offset d <= a - base' < sd_offset d + sd_size d) as Hma.
  { intros a (d & Hd & Ha). exists d. split; [done|]. destruct (Hds d Hd) as [He _].
    unfold Rollback.pm_area, in_area in Ha. rewrite He in Ha. unfold delta in Ha. lia. }
  destruct (Rollback.write_back_restores delta m ds m1 m3 Hb Hm H1) as (m2 & H2 & L2 & R2 & K2).
  { intros d a Hd Ha. destruct (Hbufs d a Hd Ha) as [-> ->]. done. }
  { intros a (d & Hd & Ha)%Hma. destruct (Hds d Hd) as (He & Ho0 & _ & Ho1).
    replace a with (base' + (a - base')) by lia. rewrite (pool_get m3 base') by (done || lia).
    apply Hp. apply (ly_pdom _ _ L1). rewrite <- (pool_get m base) by (done || lia).
    eapply Rollback.bm_pm; [exact Hm|exact Hd|]. unfold Rollback.pm_area, in_area. lia. }
  { intros d a Hd (e & He & Ha)%Hma Hbuf.
    destruct (Hheap d a Hd Hbuf) as [v Hv]. destruct (Hds e He) as (_ & Ho0 & _ & Ho1).
    rewrite Hap in Hv; [done|]. unfold in_area. lia. }
  assert (pool_base m2 = Some base' /\ pool_len m2 = pool_len m) as [Hb2 Hn2]
    by (rewrite (ly_base _ _ L2), (ly_len _ _ L2); done).
  exists m2. split; [|split].
  - rewrite (Rollback.undo_array_batch delta garbage s s3 m3 half half); [| |done|done].
    + unfold ds, Rollback.batch_entries in H2. rewrite omap_reverse, reverse_involutive in H2. done.
    + split; [done|]. intros k Hk. rewrite Hmod3.
      destruct (SeqLog.model s !! k) as [d|] eqn:Hd; [|done]. cbn [fmap option_fmap option_map].
      f_equal. unfold place. f_equal. destruct (Hpl k d Hk Hd) as (He & Ho0 & Hs0 & Ho1).
      rewrite He. unfold delta. rewrite u64_small; lia.
  - intros o (d & Hd & Ho). destruct (Hds d Hd) as (He & Ho0 & _ & Ho1).
    rewrite <- (pool_get m2 base') by (done || lia). rewrite <- (pool_get m base) by (done || lia).
    replace (base' + o) with (base + o + delta) by (unfold delta; lia).
    apply (R2 d); [done|]. unfold Rollback.pm_area, in_area. lia.
  - intros o Ho Hnc. rewrite <- (pool_get m2 base') by (done || lia).
    rewrite <- (pool_get m3 base') by (done || lia). apply K2. intros (d & Hd & Ha)%Hma.
    apply Hnc. exists d. split; [done|]. lia.
Qed.

(** Writing to a pool and closing it leaves the places for mappings as they are. *)
Lemma stable_closed m m1 : stable m -> same_layout m m1 -> stable (set_base m1 None).
Proof.
  intros [Hs1 Hs2 Hs3] L1. split; cbn; rewrite ?(ly_len _ _ L1); [done..|].
  intros p l e a Ha. apply Hs3 in Ha. destruct (heap m1 !! a) eqn:Hx; [|done].
  assert (is_Some (heap m !! a)) as [? ?] by (apply (ly_hdom _ _ L1); by rewrite Hx). congruence.
Qed.

(** C3. Every attempt of the search can be undone, although the target program
    ran in between and the pool was mapped again somewhere else.  Revert a sorted
    list of entries in a libpmemobj pool, close it, re-execute the program, map
    the pool again, and undo the list: all steps succeed; afterwards every pool
    byte that an entry of the list covers is what it was before the attempt, and
    every other pool byte is what the program left there. *)
Theorem attempt_undone cap half st cmd path layout :
  let w := st_world st in
  Options.pmem_library options = Some "libpmemobj"%string ->
  Options.reexecute_cmd options = Some cmd -> Options.pmem_file options = Some path ->
  Options.pmem_layout options = Some layout ->
  st_pop st <> 0 -> stable (w_mem w) -> SeqLog.wf (w_log w) ->
  half <> [] -> StronglySorted Z.le half -> (length half <= cap)%nat ->
  Forall (Rollback.selectable (w_log w)) half ->
  Rollback.batch (Rollback.batch_entries (w_log w) (reverse half)) ->
  Rollback.batch_mapped (w_mem w) (Rollback.batch_entries (w_log w) (reverse half)) ->
  located (w_mem w) (w_log w) half ->
  exists flag st1 st2,
    try_entries cap half st = Ret (Some flag, st1) /\ (flag = 1 \/ flag = -1) /\
    undo_entries half st1 = Ret st2 /\
    (forall o, covered (w_log w) half o ->
       pool (w_mem (st_world st2)) !! o = pool (w_mem w) !! o) /\
    (forall o, 0 <= o < pool_len (w_mem w) -> ~ covered (w_log w) half o ->
       pool (w_mem (st_world st2)) !! o = pool (w_mem (st_world st1)) !! o).
Proof.
  intros w Hlib Hcmd Hpath Hlay Hpop Hst Hwf Hne Hs Hl Hsel Hb Hm Hloc.
  destruct (revert_half (w_mem w) (w_log w) half cap) as (dec & m1 & Hd & Hr & H1 & L1 & K1);
    [done..|].
  destruct (lc_pool _ _ _ Hloc) as (base & Hbase & _).
  set (w1 := with_mem (with_mem w m1) (set_base m1 None)).
  assert (stable (w_mem w1)) as Hst1 by (by apply (stable_closed (w_mem w))).
  destruct (re_execute_executed cmd path layout (Options.version_num options) 0 pool_address w1 Hst1)
    as (ret & w2 & Hx & Hret & [Xb Xn Xh Xp (pops & Xl)]); [done|done|].
  cbn in Xn, Xh, Xp, Xl.
  pose (base' := (env_open path layout (w_env w2)).1).
  destruct (sb_open _ Hst path layout (w_env w2)) as [Ho1 Ho2]. fold base' in Ho1, Ho2.
  assert (SeqLog.wf (w_log w2)) as Hwf2 by (rewrite Xl; by apply placed_at_wf).
  pose (w3 := World (set_base (w_mem w2) (Some base')) (placed_at base' (w_log w2))
                    (env_open path layout (w_env w2)).2).
  assert (redo_pmem_addresses path layout num_data w2 = Some (base', w3)) as Hredo.
  { rewrite redo_ok by done. cbv zeta. fold base'. rewrite !decide_False by lia. done. }
  set (x := add_reexecution (set_items (st_globals st) (Z.of_nat (length half)))).
  assert (try_entries cap half st = Ret (Some ret, State w3 x base')) as Htry.
  { unfold try_entries. rewrite Hd. cbn [run mbind outcome_bind]. fold w. rewrite Hr.
    cbn [run mbind outcome_bind]. unfold is_pmemobj. rewrite Hlib. cbn [run mbind option_bind outcome_bind].
    rewrite bool_decide_eq_true_2 by done. unfold pmemobj_close. rewrite decide_False by done.
    cbn [run mbind outcome_bind]. rewrite Hcmd, Hpath, Hlay. cbn [run mbind outcome_bind].
    unfold execute. rewrite decide_True by (destruct half; simpl; [done|lia]).
    change (with_mem (with_mem w m1) (set_base (w_mem (with_mem w m1)) None)) with w1.
    rewrite Hx. cbn [run mbind outcome_bind]. rewrite Hredo. done. }
  destruct (undo_relocated base base' (w_mem w) m1 (w_mem w3) (w_log w) (w_log w3) half
    Hwf Hsel Hb Hm Hloc Hbase H1 L1) as (m2 & Hu & R1 & R2).
  - exact Xh.
  - cbn. by rewrite Xn, (ly_len _ _ L1).
  - done.
  - intros o Ho. cbn. by apply Xp.
  - done.
  - done.
  - intros a Ha. by apply (sb_apart _ Hst path layout (w_env w2)).
  - cbn. by apply SeqLog.map_log_wf.
  - intros k. cbn. rewrite Xl. by apply placed_at_last.
  - exists ret, (State w3 x base'), (State (with_mem w3 m2) x base').
    split; [done|]. split; [done|]. split; [|done].
    unfold undo_entries. cbn [st_world st_globals st_pop]. rewrite Hu. done.
Qed.

End search.

(** ** A concrete search

    The pool of two checkpointed bytes of [Rollback], in the scripted environment
    of [ReExecute]: the program overwrites the first byte in every run. *)
Definition ex_options : Options.reactor_options :=
  Options.set_reexecute_cmd (Options.set_pmem_layout (Options.set_pmem_file
    (Options.set_pmem_library Options.zero_options "libpmemobj") "pool") "layout") "run".

Definition ex_state (script : list Z) : state :=
  State (World Rollback.ex_pm Rollback.ex_log script) (Globals (-1) 0 0 0) 40.

Definition ex_search (script : list Z) : outcome (Z * state) :=
  binary_reversion Rollback.ex_garbage ex_clog 1 40 ex_options 3 [4; 6] 0 1 (ex_state script).

(** The first attempt fails, the second succeeds. *)
Lemma binary_reversion_bounded_witness :
  exists r st', ex_search [256; 0] = Ret (r, st') /\ binary_reversion_count (st_globals st') = 0 /\
    1 <= total_reexecutions (st_globals st') <= 4.
Proof.
  destruct (binary_reversion_bounded Rollback.ex_garbage ex_clog 1 40 ex_options 3 [4; 6]
    (ex_state [256; 0])) as [_ H]; [discriminate|simpl; lia|simpl; lia|].
  change (ex_search [256; 0]) with (binary_reversion Rollback.ex_garbage ex_clog 1 40 ex_options 3 [4; 6] 0
    (Z.of_nat (length [4; 6]) - 1) (ex_state [256; 0])).
  destruct (binary_reversion Rollback.ex_garbage ex_clog 1 40 ex_options 3 [4; 6] 0 _ _)
    as [[r st']| |] eqn:Hr.
  - exists r, st'. split; [reflexivity|]. destruct (H r st' eq_refl) as [H1 H2].
    split; [exact H1|]. simpl in H2. lia.
  - exfalso. revert Hr. vm_compute. discriminate.
  - exfalso. revert Hr. vm_compute. discriminate.
Defined.

Lemma binary_reversion_reports_witness :
  exists r st', ex_search [256; 0] = Ret (r, st') /\
    last_attempt Rollback.ex_garbage ex_clog 1 40 ex_options [4; 6] (ex_state [256; 0]) st' /\
    binary_success (st_globals st') = 1.
Proof.
  destruct (ex_search [256; 0]) as [[r st']| |] eqn:Hr.
  - exists r, st'. split; [reflexivity|]. split.
    + exact (binary_reversion_reports Rollback.ex_garbage ex_clog 1 40 ex_options 3 [4; 6]
               (ex_state [256; 0]) r st' ltac:(discriminate) Hr).
    + vm_compute in Hr. injection Hr as _ <-. reflexivity.
  - exfalso. revert Hr. vm_compute. discriminate.
  - exfalso. revert Hr. vm_compute. discriminate.
Defined.

Lemma ex_stable : stable (E := list Z) Rollback.ex_pm.
Proof.
  split.
  - intros cmd e p o Ho. cbn. rewrite lookup_insert. case_decide; [eauto|done].
  - intros path layout e. cbn. lia.
  - intros path layout e a Ha. cbn in Ha. unfold in_area in Ha.
    unfold Rollback.ex_pm. cbn [heap].
    apply not_elem_of_list_to_map_1. cbn.
    rewrite !elem_of_cons, elem_of_nil. lia.
Qed.

Lemma ex_located : located Rollback.ex_pm Rollback.ex_log [4; 6].
Proof.
  split.
  - exists 40. split; [reflexivity|]. intros q d Hq. rewrite !elem_of_cons in Hq.
    destruct Hq as [->|[->|?%not_elem_of_nil]]; [..|done]; intros Hd; vm_compute in Hd; injection Hd as <-;
      unfold Rollback.ex_pm; cbn; lia.
  - intros base a [= <-] Ha. unfold in_area, Rollback.ex_pm in *. cbn [heap pool_len] in *.
    apply not_elem_of_list_to_map_1. cbn. rewrite !elem_of_cons, elem_of_nil. lia.
  - intros d a Hd Ha. change (reverse [4; 6]) with [6; 4] in Hd. rewrite Rollback.ex_entries in Hd.
    rewrite !elem_of_cons in Hd. unfold Rollback.buf_area, in_area in Ha.
    destruct Hd as [->|[->|?%not_elem_of_nil]]; cbn in Ha; [| |done].
    + assert (a = 102 \/ a = 103) as [->| ->] by lia; eexists; reflexivity.
    + assert (a = 100 \/ a = 101) as [->| ->] by lia; eexists; reflexivity.
Qed.

Lemma attempt_undone_witness :
  exists flag st1 st2,
    try_entries Rollback.ex_garbage ex_clog 1 40 ex_options 2 [4; 6] (ex_state [256]) = Ret (Some flag, st1) /\
    undo_entries Rollback.ex_garbage [4; 6] st1 = Ret st2 /\
    pool (w_mem (st_world st1)) !! 0 = Some xff /\
    pool (w_mem (st_world st2)) !! 0 = Some x05.
Proof.
  destruct (attempt_undone Rollback.ex_garbage ex_clog 1 40 ex_options 2 [4; 6] (ex_state [256])
    "run" "pool" "layout") as (flag & st1 & st2 & H1 & _ & H2 & H3 & _).
  - reflexivity.
  - reflexivity.
  - reflexivity.
  - reflexivity.
  - discriminate.
  - exact ex_stable.
  - exact Rollback.ex_log_wf.
  - discriminate.
  - repeat constructor. lia.
  - simpl. lia.
  - change [4; 6] with (reverse [6; 4]). apply Forall_reverse. exact Rollback.ex_selectable.
  - apply Rollback.ex_batch.
  - apply Rollback.ex_batch.
  - exact ex_located.
  - exists flag, st1, st2. split; [exact H1|]. split; [exact H2|]. split.
    + vm_compute in H1. injection H1 as _ <-. reflexivity.
    + rewrite (H3 0); [reflexivity|]. exists (Rollback.ex_entry 102 6 2 112).
      split; [|cbn; lia]. change (reverse [4; 6]) with [6; 4]. cbn [st_world ex_state w_log].
      rewrite Rollback.ex_entries. left.
Defined.

End BinaryReversion.
