(* ===== verification/Restore.v ===== *)
(** * From the checkpoint file to a reversible log

    The pieces of the reaction put together: the sequence log that
    order_by_sequence_num (reactor/lib/checkpoint.c) builds from a checkpoint
    log, placed in the pool by redo_pmem_addresses (reactor/lib/rollback.c),
    satisfies the conditions under which reversions can be undone. *)
From stdpp Require Import base list gmap.
From Stdlib Require Import Init.Byte.
From S2P Require Import Prelude Memory Checkpoint Chains SeqLog OrderLog Rollback ReExecute.

Module Restore.

(** A checkpoint of a pool mapped at [base]: versions lie inside the pool, an
    older version is never longer than a newer one, and no object replaced an
    object that was checkpointed elsewhere. *)
Record pool_checkpoint (m : memory) (base : Z) (c_log : checkpoint_log) : Prop := PoolCheckpoint {
  pc_base : pool_base m = Some base;
  pc_space : 0 < base /\ base + pool_len m < 2 ^ 64;
  pc_pool : forall o, 0 <= o < pool_len m -> is_Some (pool m !! o);
  pc_in : forall n j size, (n, j) ∈ OrderLog.versions c_log -> zget (cd_size (nd_c_data n)) j = Some size ->
            0 <= nd_offset n /\ nd_offset n + size <= pool_len m;
  pc_grow : forall n j size size', (n, j) ∈ OrderLog.versions c_log -> 1 <= j ->
              zget (cd_size (nd_c_data n)) (j - 1) = Some size ->
              zget (cd_size (nd_c_data n)) j = Some size' -> size <= size';
  pc_fresh : forall n, n ∈ concat (cl_list c_log) -> cd_old_checkpoint_entry (nd_c_data n) = 0
}.

Section built.
Context (m : memory) (base : Z) (c_log : checkpoint_log) (m' : memory) (s : seq_log).
Context (Hm : mem_ok m) (Hext : OrderLog.extends m m') (Hlog : OrderLog.log_of m (OrderLog.versions c_log) m' s).
Context (Hpc : pool_checkpoint m base c_log).

Let s' := SeqLog.map_log (ReExecute.place base) s.

(** What is known of an entry of the placed log. *)
Record built_entry (d : single_data) : Prop := BuiltEntry {
  be_key : exists k d0, SeqLog.model s !! k = Some d0 /\ sd_sequence_number d = k /\
             sd_data d = sd_data d0 /\ sd_size d = sd_size d0 /\ sd_version d = sd_version d0 /\
             sd_old_data d = sd_old_data d0 /\ sd_old_size d = sd_old_size d0;
  be_pm : sd_sorted_pmem_address d = base + sd_offset d /\ 0 <= sd_offset d /\
          0 <= sd_size d /\ sd_offset d + sd_size d <= pool_len m;
  be_blocks : OrderLog.blocks_in (brk m) (brk m') d;
  be_data : forall a, Rollback.buf_area d a -> is_Some (mem_get m' a);
  be_old : 1 <= sd_version d -> exists src size, Rollback.previous d = Some (src, size) /\
             0 <= size <= sd_size d /\ forall a, in_area src size a -> is_Some (mem_get m' a);
  be_fresh : sd_old_checkpoint_entry d = 0;
  be_seq : 0 <= sd_sequence_number d
}.

Lemma holds_get p bs a :
  OrderLog.holds m' p bs -> in_area p (Z.of_nat (length bs)) a -> is_Some (mem_get m' a).
Proof. intros H. by apply OrderLog.holds_mapped. Qed.

Lemma built_entry_ok k d :
  SeqLog.model s' !! k = Some d -> built_entry d /\ sd_sequence_number d = k.
Proof using Hm Hlog Hpc.
  unfold s'. rewrite SeqLog.map_log_model by apply Hlog. rewrite lookup_fmap, fmap_Some.
  intros (d0 & Hd0 & ->).
  destruct (OrderLog.lo_entry _ _ _ _ Hlog k d0 Hd0) as ([n j] & Hv & _ & Hk & Hent & Hbl).
  cbn [fst snd] in Hent.
  destruct Hent as [_ Hoff Hver _ _ Hold (bs & (p & Hp & Hsz & _) & Hsize & Hdata) Holds].
  destruct (pc_in _ _ _ Hpc n j _ Hv Hsz) as [Ho0 Ho1].
  destruct (proj1 (OrderLog.in_versions c_log n j) Hv) as [Hn Hj].
  destruct (pc_space _ _ _ Hpc) as [Hb0 Hb1].
  split; [|done]. split.
  - exists k, d0. done.
  - cbn. rewrite Hoff, Hsize. small. lia.
  - destruct Hbl as [B1 B2 B3]. split; cbn; done.
  - intros a Ha. unfold Rollback.buf_area in Ha. cbn in Ha. rewrite Hsize in Ha. by eapply holds_get.
  - cbn. rewrite Hver. intros Hj1.
    destruct (Holds (j - 1) ltac:(lia)) as (bs' & p' & (q' & _ & Hsz' & _) & Ho & Hos & Hh).
    exists p', (Z.of_nat (length bs')).
    split; [unfold Rollback.previous; cbn; by rewrite Hver, Ho, Hos|].
    split; [|intros a Ha; by eapply holds_get].
    rewrite Hsize. pose proof (pc_grow _ _ _ Hpc n j _ _ Hv Hj1 Hsz' Hsz). lia.
  - cbn. rewrite Hold. by apply (pc_fresh _ _ _ Hpc).
  - cbn. rewrite Hk. apply SeqLog.model_Some in Hd0 as (x & Hx & <- & _); [|apply Hlog].
    by apply (SeqLog.wf_keys _ (OrderLog.lo_wf _ _ _ _ Hlog)).
Qed.

Lemma built_pm_low d a : built_entry d -> Rollback.pm_area d a -> is_Some (mem_get m a) /\ a < brk m.
Proof using Hm Hpc.
  intros Hd Ha. destruct (be_pm _ Hd) as (He & H0 & H1 & H2).
  unfold Rollback.pm_area, in_area in Ha. rewrite He in Ha.
  assert (is_Some (mem_get m a)) as Hs.
  { replace a with (base + (a - base)) by lia.
    unfold mem_get, pool_off. rewrite (pc_base _ _ _ Hpc). rewrite decide_True by lia.
    apply (pc_pool _ _ _ Hpc). lia. }
  split; [done|]. by apply mem_ok_get.
Qed.

Lemma built_buf_high d a : built_entry d -> Rollback.buf_area d a -> brk m <= a.
Proof.
  intros Hd Ha. pose proof (OrderLog.bi_data _ _ _ (be_blocks _ Hd)).
  unfold Rollback.buf_area, in_area in Ha. lia.
Qed.

Lemma built_old_high d a :
  built_entry d -> 1 <= sd_version d -> Rollback.old_area d a -> sd_data d + sd_size d <= a.
Proof.
  intros Hd Hv (src & n & Hp & Ha). unfold Rollback.previous in Hp.
  destruct (zget (sd_old_data d) _) as [p|] eqn:E1; [|done].
  destruct (zget (sd_old_size d) _) as [z|] eqn:E2; [|done]. injection Hp as -> ->.
  destruct (OrderLog.bi_old _ _ _ (be_blocks _ Hd) (sd_version d - 1) src n) as [H1 H2]; [lia|done..|].
  unfold in_area in Ha. lia.
Qed.

(** The blocks of entries with different sequence numbers do not meet. *)
Lemma built_apart d e :
  built_entry d -> built_entry e -> sd_sequence_number d <> sd_sequence_number e ->
  1 <= sd_version d -> 1 <= sd_version e ->
  forall a, Rollback.buf_area d a -> ~ Rollback.buf_area e a /\ ~ Rollback.old_area e a.
Proof using Hlog.
  intros Hd He Hne Hv1 Hv2 a Ha.
  destruct (be_key _ Hd) as (k1 & d1 & Hk1 & <- & E1 & E2 & E3 & E4 & E5).
  destruct (be_key _ He) as (k2 & d2 & Hk2 & <- & F1 & F2 & F3 & F4 & F5).
  destruct (OrderLog.lo_sep _ _ _ _ Hlog _ _ _ _ Hne Hk1 Hk2)
    as (l1 & h1 & l2 & h2 & [B1 B2 B3] & [C1 C2 C3] & Hd12).
  unfold Rollback.buf_area, in_area in *. rewrite E1, E2 in Ha. split.
  - rewrite F1, F2. lia.
  - intros (src & n & Hp & Hi). unfold Rollback.previous in Hp. rewrite F3, F4, F5 in Hp.
    destruct (zget (sd_old_data d2) _) as [p|] eqn:G1; [|done].
    destruct (zget (sd_old_size d2) _) as [z|] eqn:G2; [|done]. injection Hp as -> ->.
    destruct (C2 (sd_version d2 - 1) src n) as [? ?]; [lia|done..|].
    destruct (be_pm _ He) as (_ & _ & ? & _). unfold in_area in Hi. lia.
Qed.

Lemma batch_entries_nodup qs :
  NoDup qs -> NoDup (sd_sequence_number <$> Rollback.batch_entries s' qs).
Proof using Hm Hlog Hpc.
  intros Hqs. eapply (sublist_NoDup _ qs); [exact Hqs|].
  clear Hqs. induction qs as [|q qs IH]; [constructor|].
  rewrite Rollback.batch_entries_cons. destruct (Rollback.live_entry s' q) as [d|] eqn:Hl.
  - rewrite fmap_cons. unfold Rollback.live_entry in Hl.
    destruct (SeqLog.model s' !! q) as [d'|] eqn:Hd; simplify_eq/=. case_decide; simplify_eq.
    destruct (built_entry_ok q d Hd) as [_ ->]. by constructor.
  - by constructor.
Qed.

Lemma built_batch qs :
  NoDup qs -> Rollback.batch (Rollback.batch_entries s' qs) /\
              Rollback.batch_mapped m' (Rollback.batch_entries s' qs).
Proof using Hm Hext Hlog Hpc.
  intros Hqs.
  assert (forall d, d ∈ Rollback.batch_entries s' qs -> built_entry d /\ 1 <= sd_version d) as Hin.
  { intros d (q & _ & Hd & Hv)%Rollback.batch_entries_in. split; [|done]. by eapply built_entry_ok. }
  pose proof (batch_entries_nodup qs Hqs) as Hnd.
  split; split.
  - intros d [Hd Hv]%Hin. split; [done|]. destruct (be_old _ Hd Hv) as (src & n & ? & ? & _). eauto.
  - intros d e a [Hd _]%Hin [He _]%Hin Ha Ha'.
    pose proof (built_pm_low _ _ Hd Ha) as [_ ?]. pose proof (built_buf_high _ _ He Ha'). lia.
  - intros i j d e a Hi Hj Hne Ha Ha'.
    destruct (Hin d) as [Hd Hv1]; [by eapply list_elem_of_lookup_2|].
    destruct (Hin e) as [He Hv2]; [by eapply list_elem_of_lookup_2|].
    refine (proj1 (built_apart d e Hd He _ Hv1 Hv2 a Ha) Ha').
    intros Heq. apply Hne. eapply (NoDup_lookup _ _ _ (sd_sequence_number d) Hnd);
      rewrite list_lookup_fmap, ?Hi, ?Hj; simpl; congruence.
  - intros d e a [Hd _]%Hin [He Hv]%Hin Ha Ha'.
    pose proof (built_pm_low _ _ Hd Ha) as [_ ?]. pose proof (built_old_high _ _ He Hv Ha').
    pose proof (OrderLog.bi_data _ _ _ (be_blocks _ He)).
    destruct (be_pm _ He) as (_ & _ & ? & _). lia.
  - intros d e a [Hd Hv1]%Hin [He Hv2]%Hin Ha Ha'.
    destruct (decide (sd_sequence_number d = sd_sequence_number e)) as [Heq|Hne].
    + pose proof (built_old_high _ _ He Hv2 Ha').
      destruct (be_key _ Hd) as (k1 & d1 & Hk1 & E0 & E1 & E2 & _).
      destruct (be_key _ He) as (k2 & d2 & Hk2 & F0 & F1 & F2 & _).
      assert (k1 = k2) as -> by congruence. assert (d1 = d2) as -> by congruence.
      unfold Rollback.buf_area, in_area in Ha. rewrite E1, E2, <- F1, <- F2 in Ha. lia.
    + by apply (built_apart d e Hd He Hne Hv1 Hv2 a Ha).
  - intros d a [Hd _]%Hin Ha. destruct (built_pm_low _ _ Hd Ha) as [Hs Hlt].
    by rewrite (OrderLog.ex_get _ _ Hext).
  - intros d a [Hd _]%Hin Ha. by apply (be_data _ Hd).
  - intros d a [Hd Hv]%Hin (src & n & Hp & Ha).
    destruct (be_old _ Hd Hv) as (src' & n' & Hp' & _ & Hmap). rewrite Hp in Hp'.
    injection Hp' as <- <-. by apply Hmap.
Qed.

Lemma built_selectable qs :
  (forall q, q ∈ qs -> q ∈ dom (SeqLog.model s)) -> Forall (Rollback.selectable s') qs.
Proof using Hm Hlog Hpc.
  intros Hqs. apply Forall_forall. intros q Hq. specialize (Hqs q Hq).
  apply elem_of_dom in Hqs as [d0 Hd0].
  assert (SeqLog.model s' !! q = Some (ReExecute.place base d0)) as Hd.
  { unfold s'. rewrite SeqLog.map_log_model by apply Hlog. by rewrite lookup_fmap, Hd0. }
  destruct (built_entry_ok q _ Hd) as [Hb Hk]. split.
  - apply SeqLog.model_Some in Hd0 as (x & Hx & <- & _); [|apply Hlog].
    by apply (SeqLog.wf_keys _ (OrderLog.lo_wf _ _ _ _ Hlog)).
  - eexists. split; [exact Hd|]. split; [pose proof (be_seq _ Hb); lia|].
    intros _. apply (be_fresh _ Hb).
Qed.

End built.

(** C7. From checkpoint to rollback.  Build the sequence log from a readable
    checkpoint of a mapped pool and place its entries in the pool, where every
    version lies in the pool, no older version of an object is longer than a newer one
    ([pc_grow]) and no object stands for another one that was replaced ([pc_fresh]:
    otherwise the undo is not complete, see [replaced_entry_not_undone] in Rollback):
    then any set of checkpointed sequence numbers can be reverted and, undoing in the opposite
    order, every byte that was mapped when the reaction started is again what it
    was. *)
Theorem checkpoint_rollback_undoable g m base size slots c_log :
  0 < size < 2 ^ 31 -> 92 < slots -> mem_ok m -> OrderLog.arrays_ok g -> OrderLog.clog_ok m c_log ->
  pool_checkpoint m base c_log ->
  exists st s', OrderLog.order_by_sequence_num g m (SeqLog.empty_log size slots) 0 c_log = Some st /\
    ReExecute.redo_all base (OrderLog.os_log st) = Some s' /\
    forall qs, NoDup qs -> (forall q, q ∈ qs -> q ∈ dom (SeqLog.model (OrderLog.os_log st))) ->
    exists m1 m2,
      Rollback.revert_by_sequence_number_array g (OrderLog.os_mem st) s' qs
        (Z.of_nat (length qs)) c_log = Some m1 /\
      Rollback.undo_by_sequence_number_array g m1 s' (reverse qs) = Some m2 /\
      forall a, is_Some (mem_get m a) -> mem_get m2 a = mem_get m a.
Proof.
  intros Hsz Hsl Hm Hg Hc Hpc.
  destruct (OrderLog.order_by_sequence_num_ok g m size slots 0 c_log)
    as (st & Hst & Hext & Hlog & _); [done..|].
  exists st. pose proof (OrderLog.lo_wf _ _ _ _ Hlog) as Hwf.
  rewrite (ReExecute.redo_all_ok base _ Hwf). eexists. split; [done|]. split; [done|].
  intros qs Hnd Hdom.
  destruct (built_batch m base c_log _ _ Hm Hext Hlog Hpc qs Hnd) as [Hb Hmap].
  destruct (Rollback.revert_undo_ok g (SeqLog.map_log (ReExecute.place base) (OrderLog.os_log st))
    c_log (OrderLog.os_mem st) qs []) as (m1 & m2 & H1 & H2 & _ & H3).
  - by apply SeqLog.map_log_wf.
  - by eapply built_selectable.
  - done.
  - done.
  - rewrite app_nil_r in H1. exists m1, m2. split; [done|]. split; [done|].
    intros a Ha. pose proof (mem_ok_get m a Hm Ha) as Hlt.
    rewrite H3; [by apply (OrderLog.ex_get _ _ Hext)|]. intros (d & Hd & Hbuf).
    apply Rollback.batch_entries_in in Hd as (q & _ & Hd & _).
    destruct (built_entry_ok m base c_log _ _ Hm Hlog Hpc q d Hd) as [Hbe _].
    pose proof (built_buf_high m base _ _ d a Hbe Hbuf). lia.
Qed.

Lemma ex_pool_checkpoint : pool_checkpoint OrderLog.ex_mem 40 OrderLog.ex_clog.
Proof.
  assert (forall n j, (n, j) ∈ OrderLog.versions OrderLog.ex_clog ->
            n = OrderLog.ex_node /\ (j = 0 \/ j = 1)) as Hv.
  { intros n j [Hn Hj]%OrderLog.in_versions. simpl in Hn.
    apply list_elem_of_singleton in Hn as ->. change (cd_version (nd_c_data OrderLog.ex_node)) with 1 in Hj. split; [reflexivity|lia]. }
  split.
  - reflexivity.
  - unfold OrderLog.ex_mem. simpl. lia.
  - intros o Ho. unfold OrderLog.ex_mem in *. cbn [pool_len pool] in *.
    assert (o = 0 \/ o = 1 \/ o = 2) as [->|[->| ->]] by lia; eexists; reflexivity.
  - intros n j size [-> [->| ->]]%Hv Hs; cbn in Hs; injection Hs as <-;
      unfold OrderLog.ex_mem; simpl; lia.
  - intros n j z z' [-> [->| ->]]%Hv Hj Hs Hs'; [lia|].
    cbn in Hs, Hs'. injection Hs as <-. injection Hs' as <-. lia.
  - intros n Hn. simpl in Hn. apply list_elem_of_singleton in Hn as ->. reflexivity.
Qed.

Lemma checkpoint_rollback_undoable_witness :
  exists st s' m1 m2,
    OrderLog.order_by_sequence_num OrderLog.ex_garbage OrderLog.ex_mem (SeqLog.empty_log 5 100) 0
      OrderLog.ex_clog = Some st /\
    ReExecute.redo_all 40 (OrderLog.os_log st) = Some s' /\
    Rollback.revert_by_sequence_number_array OrderLog.ex_garbage (OrderLog.os_mem st) s' [6; 4] 2
      OrderLog.ex_clog = Some m1 /\
    mem_get m1 40 = Some x01 /\
    Rollback.undo_by_sequence_number_array OrderLog.ex_garbage m1 s' [4; 6] = Some m2 /\
    mem_get m2 40 = Some x05.
Proof.
  destruct (checkpoint_rollback_undoable OrderLog.ex_garbage OrderLog.ex_mem 40 5 100 OrderLog.ex_clog)
    as (st & s' & H1 & H2 & H3).
  - lia.
  - lia.
  - exact OrderLog.ex_mem_ok.
  - exact OrderLog.ex_garbage_ok.
  - exact OrderLog.ex_clog_ok.
  - exact ex_pool_checkpoint.
  - destruct (H3 [6; 4]) as (m1 & m2 & H4 & H5 & H6).
    + apply (bool_decide_unpack _). vm_compute. exact I.
    + vm_compute in H1. injection H1 as <-. intros q Hq. rewrite !elem_of_cons in Hq.
      destruct Hq as [->|[->|?%not_elem_of_nil]]; [..|done]; apply elem_of_dom; eexists; reflexivity.
    + exists st, s', m1, m2. split; [exact H1|]. split; [exact H2|]. split; [exact H4|].
      split; [|split; [exact H5|rewrite H6; [reflexivity|eexists; reflexivity]]].
      vm_compute in H1. injection H1 as <-. vm_compute in H2. injection H2 as <-.
      vm_compute in H4. injection H4 as <-. reflexivity.
Defined.

End Restore.
