(* ===== verification/Strings.v ===== *)
(** * String utilities (analyzer/include/Utils/String.h, analyzer/lib/Utils/String.cpp)

    A [std::string] is a list of characters; a position is a natural number and
    [None] is [std::string::npos].  Where the code computes with positions the
    [size_t] arithmetic is written out. *)
From stdpp Require Import base list strings.
From Stdlib Require Import Ascii.
From Stdlib Require String.
From S2P Require Import Prelude.

Module Strings.

Abbreviation chars := (list ascii).

(** A string literal. *)
Definition lit (s : string) : chars := String.list_ascii_of_string s.

(** ** The operations of [std::string] the code uses *)

(** Whether [p] is a prefix of [s]. *)
Fixpoint starts (p s : chars) : bool :=
  match p, s with
  | [], _ => true
  | x :: p', y :: s' => bool_decide (x = y) && starts p' s'
  | _ :: _, [] => false
  end.

(** [s.find(p)]: the first position where [p] occurs. *)
Fixpoint find_sub (p s : chars) : option nat :=
  if starts p s then Some O
  else match s with
       | [] => None
       | _ :: s' => S <$> find_sub p s'
       end.

(** The first position of a character that satisfies [f]. *)
Fixpoint find_if (f : ascii -> bool) (s : chars) : option nat :=
  match s with
  | [] => None
  | x :: s' => if f x then Some O else S <$> find_if f s'
  end.

(** Searching from position [pos] on; a position past the end finds nothing. *)
Definition from (search : chars -> option nat) (s : chars) (pos : nat) : option nat :=
  if decide (pos <= length s)%nat then (fun i => (pos + i)%nat) <$> search (drop pos s) else None.

Definition find_char (c : ascii) (s : chars) (pos : nat) : option nat :=
  from (find_if (fun x => bool_decide (x = c))) s pos.

Definition find_str (p s : chars) (pos : nat) : option nat := from (find_sub p) s pos.

(** [s.rfind(c)] *)
Definition rfind (c : ascii) (s : chars) : option nat :=
  match find_if (fun x => bool_decide (x = c)) (reverse s) with
  | Some i => Some (length s - 1 - i)%nat
  | None => None
  end.

(** [s.substr(pos, len)]; [None] is the exception [std::out_of_range], and a
    [None] length is [npos]. *)
Definition substr (s : chars) (pos : nat) (len : option nat) : option chars :=
  if decide (pos <= length s)%nat
  then Some (match len with Some n => take n (drop pos s) | None => drop pos s end)
  else None.

(** ** Splitting *)

(** The loop of the first overload from position [pos], with the elements pushed
    so far; [fuel] bounds the number of pieces. *)
Fixpoint split_loop (fuel : nat) (str : chars) (sep : ascii) (pos : nat) (ret : list chars) (n : Z)
  : option (list chars * Z) :=
  match fuel with
  | O => None
  | S fuel' =>
    let found := find_char sep str pos in
    piece ← substr str pos ((fun p => (p - pos)%nat) <$> found);
    match found with
    | None => Some (ret ++ [piece], n + 1)
    | Some p => split_loop fuel' str sep (p + 1) (ret ++ [piece]) (n + 1)
    end
  end.

Definition splitList (str : chars) (sep : ascii) (ret : list chars) : option (list chars * Z) :=
  if decide (str = []) then Some (ret, 0)
  else split_loop (S (length str)) str sep 0 ret 0.

(** The second overload. *)
Fixpoint split_str_loop (fuel : nat) (str sep : chars) (start : nat) (found : option nat)
    (result : list chars) (n : Z) : option (list chars * Z) :=
  match found with
  | None => piece ← substr str start None; Some (result ++ [piece], n)
  | Some e =>
    match fuel with
    | O => None
    | S fuel' =>
      piece ← substr str start (Some (e - start)%nat);
      let start' := (e + length sep)%nat in
      split_str_loop fuel' str sep start' (find_str sep str start') (result ++ [piece]) (n + 1)
    end
  end.

Definition splitList_str (str sep : chars) (result : list chars) : option (list chars * Z) :=
  if decide (str = []) then Some (result, 0)
  else split_str_loop (S (length str)) str sep 0 (find_str sep str 0) result 0.

(** [find_first_of] and [find_first_not_of], from a position that may be [npos]. *)
Definition find_first_of (delimeters s : chars) (pos : option nat) : option nat :=
  p ← pos; from (find_if (fun x => bool_decide (x ∈ delimeters))) s p.
Definition find_first_not_of (delimeters s : chars) (pos : option nat) : option nat :=
  p ← pos; from (find_if (fun x => bool_decide (x ∉ delimeters))) s p.

Fixpoint split_untiln_loop (fuel : nat) (str delimeters : chars) (n i : Z) (prev_pos pos : option nat)
    (result : list chars) : option (list chars * Z * option nat) :=
  match prev_pos, pos with
  | None, None => Some (result, i, pos)
  | _, _ =>
    match fuel with
    | O => None
    | S fuel' =>
      prev ← prev_pos;
      piece ← substr str prev ((fun p => (p - prev)%nat) <$> pos);
      if decide (i >= n) then Some (result ++ [piece], i, pos)
      else let prev_pos' := find_first_not_of delimeters str pos in
           let pos' := find_first_of delimeters str prev_pos' in
           split_untiln_loop fuel' str delimeters n (i + 1) prev_pos' pos' (result ++ [piece])
    end
  end.

(** The pieces, [*last_pos] and the returned flag. *)
Definition split_untiln (str delimeters : chars) (n : Z) (result : list chars)
  : option (list chars * option nat * bool) :=
  let prev_pos := find_first_not_of delimeters str (Some O) in
  let pos := find_first_of delimeters str prev_pos in
  '(r, i, last) ← split_untiln_loop (S (length str)) str delimeters n 1 prev_pos pos result;
  Some (r, last, bool_decide (i = n)).

(** ** File names *)

(** [npos] as a [size_t]. *)
Definition size_of_pos (p : option nat) : Z :=
  match p with Some i => Z.of_nat i | None => 2 ^ 64 - 1 end.

(** [substr] with [size_t] arguments. *)
Definition substr_z (s : chars) (pos len : Z) : option chars :=
  if decide (pos <= Z.of_nat (length s))
  then Some (take (Z.to_nat (Z.min len (Z.of_nat (length s)))) (drop (Z.to_nat pos) s)) else None.

Definition getFileBaseName (filePath : chars) (withExt : bool) (dirSep : ascii) : option chars :=
  let sepPos := rfind dirSep filePath in
  let dotPos := rfind "." filePath in
  match sepPos with
  | Some s =>
    let len := u64 ((if withExt || bool_decide (dotPos = None) then Z.of_nat (length filePath)
                     else u64 (size_of_pos dotPos - 1)) - Z.of_nat s) in
    substr_z filePath (Z.of_nat s + 1) len
  | None =>
    if withExt || bool_decide (dotPos = None) then Some filePath
    else substr_z filePath 0 (size_of_pos dotPos)
  end.

(** ** Trimming *)

(** [isspace] in the C locale. *)
Definition isspace (c : ascii) : bool :=
  let n := Z.of_nat (nat_of_ascii c) in bool_decide (n = 32 \/ 9 <= n <= 13).

Fixpoint drop_while (f : ascii -> bool) (s : chars) : chars :=
  match s with
  | [] => []
  | x :: s' => if f x then drop_while f s' else s
  end.

Definition ltrim (str : chars) : chars := drop_while isspace str.
Definition rtrim (str : chars) : chars := reverse (drop_while isspace (reverse str)).
Definition trim (str : chars) : chars := ltrim (rtrim str).

(** ** Numbers *)

Definition digit_val (hex : bool) (c : ascii) : option Z :=
  let n := Z.of_nat (nat_of_ascii c) in
  if decide (48 <= n <= 57) then Some (n - 48)
  else if hex then
    if decide (97 <= n <= 102) then Some (n - 87)
    else if decide (65 <= n <= 70) then Some (n - 55)
    else None
  else None.

Definition radix (hex : bool) : Z := if hex then 16 else 10.

(** The longest run of digits: the value and whether there was a digit. *)
Fixpoint read_digits (hex : bool) (acc : Z) (some : bool) (s : chars) : Z * bool :=
  match s with
  | [] => (acc, some)
  | c :: s' => match digit_val hex c with
               | Some d => read_digits hex (acc * radix hex + d) true s'
               | None => (acc, some)
               end
  end.

Definition skip_0x (hex : bool) (s : chars) : chars :=
  match s with
  | "0"%char :: x :: s' => if hex && bool_decide (x = "x"%char \/ x = "X"%char) then s' else s
  | _ => s
  end.

(** [str2fmt<T>(s, hex)] for an unsigned type of [bits] bits: [std::istream]
    extraction skips white space, takes an optional sign, and fails without a
    digit or on overflow ([None], the exception); what follows is ignored. *)
Definition str2fmt (bits : Z) (hex : bool) (s : chars) : option Z :=
  let t := drop_while isspace s in
  let '(neg, u) := match t with
                   | "-"%char :: t' => (true, t')
                   | "+"%char :: t' => (false, t')
                   | _ => (false, t)
                   end in
  let '(v, some) := read_digits hex 0 false (skip_0x hex u) in
  if decide (some = false \/ 2 ^ bits <= v) then None
  else Some (if (neg : bool) then (- v) mod 2 ^ bits else v).

(** ** Printing numbers *)

Definition digit_char (d : Z) : ascii :=
  ascii_of_nat (Z.to_nat (if decide (d < 10) then 48 + d else 87 + d)).

(** Digits of a positive number, most significant first. *)
Fixpoint print_digits (fuel : nat) (base n : Z) (acc : chars) : chars :=
  match fuel with
  | O => acc
  | S fuel' => let acc' := digit_char (n mod base) :: acc in
               if decide (n < base) then acc' else print_digits fuel' base (n / base) acc'
  end.

(** [%u] and [operator<<] of an unsigned number (64 digits are enough for 64 bits). *)
Definition print_dec (n : Z) : chars := print_digits 64 10 n [].

(** [%p] of the GNU library. *)
Definition print_ptr (p : Z) : chars :=
  if decide (p = 0) then lit "(nil)" else lit "0x" ++ print_digits 64 16 p [].

(** ** Splitting at a character *)

(** The reference: the maximal pieces without the separator. *)
Fixpoint pieces (sep : ascii) (s : chars) : list chars :=
  match s with
  | [] => [[]]
  | x :: s' => if decide (x = sep) then [] :: pieces sep s'
               else match pieces sep s' with
                    | p :: ps => (x :: p) :: ps
                    | [] => [[x]]
                    end
  end.

Fixpoint join (sep : chars) (ps : list chars) : chars :=
  match ps with
  | [] => []
  | [p] => p
  | p :: ps' => p ++ sep ++ join sep ps'
  end.

Lemma pieces_ne sep s : pieces sep s <> [].
Proof. destruct s as [|x s]; simpl; [done|]. case_decide; [done|]. by destruct (pieces sep s). Qed.

Lemma join_cons sep p ps : ps <> [] -> join sep (p :: ps) = p ++ sep ++ join sep ps.
Proof. by destruct ps. Qed.

Lemma join_pieces sep s : join [sep] (pieces sep s) = s.
Proof.
  induction s as [|x s IH]; [done|]. cbn [pieces]. case_decide as Hx.
  - rewrite join_cons by apply pieces_ne. simpl. by rewrite IH, Hx.
  - destruct (pieces sep s) as [|p ps] eqn:Hp; [by apply pieces_ne in Hp|].
    destruct ps as [|p' ps]; simpl in *; [by rewrite IH|]. by rewrite <- IH.
Qed.

Lemma pieces_free sep s p : p ∈ pieces sep s -> sep ∉ p.
Proof.
  revert p. induction s as [|x s IH]; intros p; cbn [pieces].
  - intros ->%list_elem_of_singleton. apply not_elem_of_nil.
  - case_decide as Hx.
    + intros [->|Hp]%elem_of_cons; [apply not_elem_of_nil|by apply IH].
    + destruct (pieces sep s) as [|q qs] eqn:Hq; [by apply pieces_ne in Hq|].
      intros [->|Hp]%elem_of_cons; [|apply IH; by right].
      intros [?|Hs]%elem_of_cons; [by subst|]. by apply (IH q); [left|].
Qed.

Lemma pieces_app sep l s :
  sep ∉ l -> pieces sep (l ++ sep :: s) = l :: pieces sep s.
Proof.
  induction l as [|x l IH]; intros Hl; simpl; [by rewrite decide_True|].
  rewrite decide_False by set_solver. rewrite IH by set_solver. done.
Qed.

Lemma pieces_no_sep sep s : sep ∉ s -> pieces sep s = [s].
Proof.
  induction s as [|x s IH]; intros Hs; [done|]. simpl.
  rewrite decide_False by set_solver. rewrite IH by set_solver. done.
Qed.

Lemma pieces_find sep s :
  pieces sep s = match find_if (fun x => bool_decide (x = sep)) s with
                 | None => [s]
                 | Some i => take i s :: pieces sep (drop (i + 1) s)
                 end.
Proof.
  induction s as [|x s IH]; [done|]. cbn [pieces find_if].
  destruct (decide (x = sep)) as [Hx|Hx].
  - rewrite bool_decide_eq_true_2 by done. simpl. by rewrite drop_0.
  - rewrite bool_decide_eq_false_2 by done. rewrite IH.
    by destruct (find_if _ s) as [i|].
Qed.

Lemma find_if_lt f s i : find_if f s = Some i -> (i < length s)%nat.
Proof.
  revert i. induction s as [|x s IH]; intros i; simpl; [done|].
  destruct (f x); [intros [= <-]; lia|]. destruct (find_if f s) as [j|]; [|done].
  intros [= <-]. specialize (IH j eq_refl). lia.
Qed.

Lemma split_loop_ok fuel str sep pos ret n :
  (pos <= length str)%nat -> (length str - pos < fuel)%nat ->
  split_loop fuel str sep pos ret n =
  Some (ret ++ pieces sep (drop pos str), n + Z.of_nat (length (pieces sep (drop pos str)))).
Proof.
  revert pos ret n. induction fuel as [|fuel IH]; intros pos ret n Hp Hf; [lia|].
  cbn [split_loop]. unfold find_char, from, substr. rewrite !decide_True by done.
  rewrite (pieces_find sep (drop pos str)).
  destruct (find_if _ (drop pos str)) as [i|] eqn:Hi; simpl.
  - apply find_if_lt in Hi. rewrite length_drop in Hi.
    rewrite IH by lia. rewrite drop_drop.
    replace (pos + i - pos)%nat with i by lia.
    replace (pos + (i + 1))%nat with (pos + i + 1)%nat by lia.
    rewrite <- app_assoc. simpl. do 2 f_equal. lia.
  - done.
Qed.

Lemma splitList_ok str sep ret :
  str <> [] -> splitList str sep ret =
  Some (ret ++ pieces sep str, Z.of_nat (length (pieces sep str))).
Proof.
  intros Hne. unfold splitList. rewrite decide_False by done.
  rewrite split_loop_ok by lia. by rewrite drop_0.
Qed.

(** Splitting at a character returns the number of pieces and appends pieces
    that do not contain the separator and that, joined with it, are the string
    again; nothing is appended for the empty string. *)
Theorem splitList_join str sep ret :
  exists ps, splitList str sep ret = Some (ret ++ ps, Z.of_nat (length ps)) /\
    join [sep] ps = str /\ Forall (fun p => sep ∉ p) ps /\ (str = [] <-> ps = []).
Proof.
  destruct (decide (str = [])) as [->|Hne].
  - exists []. rewrite app_nil_r. done.
  - exists (pieces sep str). rewrite splitList_ok by done. split; [done|].
    split; [apply join_pieces|]. split; [apply Forall_forall; intros p; apply pieces_free|].
    split; [done|]. intros H. by apply pieces_ne in H.
Qed.

(** ** Splitting at a string *)

(** The separator first occurs right after [p]. *)
Definition clean (sep p : chars) : Prop := find_sub sep (p ++ sep) = Some (length p).

#[export] Instance clean_dec sep p : Decision (clean sep p).
Proof. unfold clean. apply _. Defined.

Lemma starts_app p s t : starts p s = true -> starts p (s ++ t) = true.
Proof.
  revert s. induction p as [|x p IH]; intros [|y s]; simpl; [done..|].
  intros [H1 H2]%andb_true_iff. rewrite H1. by apply IH.
Qed.

Lemma starts_app_long p s t :
  (length p <= length s)%nat -> starts p (s ++ t) = starts p s.
Proof.
  revert s. induction p as [|x p IH]; intros [|y s]; simpl; [done|done|lia|].
  intros Hl. by rewrite IH by lia.
Qed.

Lemma starts_refl p s : starts p (p ++ s) = true.
Proof. induction p as [|x p IH]; simpl; [done|]. by rewrite bool_decide_eq_true_2. Qed.

Lemma starts_split p s : starts p s = true -> exists x, s = p ++ x.
Proof.
  revert s. induction p as [|y p IH]; intros s; [by exists s|]. destruct s as [|z s]; [done|]. cbn [starts].
  intros [Hy Hs]%andb_true_iff. apply bool_decide_eq_true in Hy as ->. destruct (IH s Hs) as [x ->]. by exists x.
Qed.

(** The first occurrence, and none. *)
Lemma find_sub_Some p s i : find_sub p s = Some i -> clean p (take i s) /\ exists x, s = take i s ++ p ++ x.
Proof.
  revert i. induction s as [|y s IH]; intros i; cbn [find_sub].
  - destruct p as [|z p]; [|done]. intros [= <-]. by split; [|exists []].
  - destruct (starts p (y :: s)) eqn:Hs.
    + intros [= <-]. destruct (starts_split _ _ Hs) as [x Hx]. split; [|by exists x]. unfold clean. cbn [take app].
      destruct p as [|z p]; [done|]. cbn [find_sub]. pose proof (starts_refl (z :: p) []) as Hr. rewrite app_nil_r in Hr. by rewrite Hr.
    + intros (j & Hj & ->)%fmap_Some. destruct (IH j Hj) as (Hc & x & Hx). split; [|exists x; cbn [take app]; congruence].
      unfold clean in *. cbn [take app find_sub length]. rewrite Hc. destruct (starts p (y :: take j s ++ p)) eqn:Hs'; [|done].
      apply (fun H => starts_app _ _ x H) in Hs'. cbn [app] in Hs'. rewrite <- app_assoc, <- Hx in Hs'. congruence.
Qed.

Lemma find_sub_None p b x : find_sub p (b ++ p ++ x) <> None.
Proof.
  induction b as [|y b IH]; cbn [app].
  - destruct (p ++ x) as [|z s] eqn:E; cbn [find_sub]; rewrite <- E, starts_refl; done.
  - cbn [find_sub]. destruct (starts p (y :: b ++ p ++ x)); [done|]. by destruct (find_sub p (b ++ p ++ x)).
Qed.

Lemma find_sub_clean sep p rest :
  clean sep p -> find_sub sep (p ++ sep ++ rest) = Some (length p).
Proof.
  unfold clean. induction p as [|x p IH]; intros H.
  - simpl in *. destruct sep as [|y sep]; [by destruct rest|].
    cbn [app find_sub]. by rewrite (starts_refl (y :: sep) rest : starts (y :: sep) (y :: sep ++ rest) = true).
  - cbn [app find_sub length] in *.
    assert (starts sep (x :: p ++ sep ++ rest) = starts sep (x :: p ++ sep)) as ->.
    { rewrite app_assoc. apply (starts_app_long sep (x :: p ++ sep) rest).
      simpl. rewrite length_app. lia. }
    destruct (starts sep (x :: p ++ sep)); [done|].
    destruct (find_sub sep (p ++ sep)) as [i|] eqn:Hi; simpl in H; [|done].
    injection H as Hi'. rewrite IH by (by rewrite Hi'). done.
Qed.

Lemma split_str_loop_join fuel sep pre ps p0 ret n :
  sep <> [] -> Forall (clean sep) (removelast (p0 :: ps)) ->
  find_sub sep (List.last (p0 :: ps) []) = None -> (length ps <= fuel)%nat ->
  let str := pre ++ join sep (p0 :: ps) in
  split_str_loop fuel str sep (length pre) (find_str sep str (length pre)) ret n =
  Some (ret ++ p0 :: ps, n + Z.of_nat (length ps)).
Proof.
  intros Hsep. revert pre p0 fuel ret n. induction ps as [|p1 ps IH]; intros pre p0 fuel ret n Hc Hl Hf str.
  - simpl in Hl. unfold find_str, from. subst str. simpl join.
    rewrite decide_True by (rewrite length_app; lia). rewrite drop_app_length, Hl. simpl.
    destruct fuel; simpl; unfold substr; rewrite decide_True by (rewrite length_app; lia);
      simpl; rewrite drop_app_length, Z.add_0_r; done.
  - assert (str = (pre ++ p0 ++ sep) ++ join sep (p1 :: ps)) as Hstr.
    { unfold str. by rewrite join_cons, <- !app_assoc by done. }
    apply Forall_cons in Hc as [Hc0 Hc].
    assert (drop (length pre) str = join sep (p0 :: p1 :: ps)) as Hdrop by apply drop_app_length.
    assert (length pre <= length str)%nat as Hle by (unfold str; rewrite length_app; lia).
    assert (find_str sep str (length pre) = Some (length pre + length p0)%nat) as Hfind.
    { unfold find_str, from. rewrite decide_True by done.
      rewrite Hdrop, join_cons, find_sub_clean by done. done. }
    rewrite Hfind. destruct fuel as [|fuel]; simpl in Hf; [lia|]. cbn [split_str_loop].
    unfold substr. rewrite decide_True by done. rewrite Hdrop.
    simpl_bind.
    replace (length pre + length p0 + length sep)%nat with (length (pre ++ p0 ++ sep))
      by (rewrite !length_app; lia).
    replace (length pre + length p0 - length pre)%nat with (length p0) by lia.
    rewrite Hstr. rewrite (IH (pre ++ p0 ++ sep) p1 fuel) by (done || lia).
    rewrite join_cons, take_app_length by done.
    rewrite <- app_assoc. simpl. do 2 f_equal. lia.
Qed.

Lemma join_length sep ps : (sep <> []) -> (length ps <= S (length (join sep ps)))%nat.
Proof.
  intros Hs. induction ps as [|p [|q ps] IH]; [simpl; lia|simpl; lia|].
  rewrite join_cons by done. rewrite !length_app. destruct sep; [done|]. simpl in *. lia.
Qed.

Lemma splitList_str_join sep ps ret :
  sep <> [] -> ps <> [] -> join sep ps <> [] ->
  Forall (clean sep) (removelast ps) -> find_sub sep (List.last ps []) = None ->
  splitList_str (join sep ps) sep ret = Some (ret ++ ps, Z.of_nat (length ps) - 1).
Proof.
  intros Hs Hp Hj Hc Hl. unfold splitList_str. rewrite decide_False by done.
  destruct ps as [|p0 ps]; [done|].
  pose proof (join_length sep (p0 :: ps) Hs) as Hlen. simpl length in Hlen.
  rewrite (split_str_loop_join _ sep [] ps p0 ret 0) by (done || simpl length; lia).
  do 2 f_equal. simpl length. lia.
Qed.

(** ** Numbers read back *)

Definition is_digit (hex : bool) (c : ascii) : Prop := is_Some (digit_val hex c).

Lemma digit_val_char hex d :
  0 <= d < radix hex -> digit_val hex (digit_char d) = Some d.
Proof.
  intros Hd. assert (d = 0 \/ d = 1 \/ d = 2 \/ d = 3 \/ d = 4 \/ d = 5 \/ d = 6 \/ d = 7 \/ d = 8 \/
    d = 9 \/ (hex = true /\ (d = 10 \/ d = 11 \/ d = 12 \/ d = 13 \/ d = 14 \/ d = 15))) as H
    by (destruct hex; simpl in Hd; lia).
  destruct H as [->|[->|[->|[->|[->|[->|[->|[->|[->|[->|[-> H]]]]]]]]]]];
    [by destruct hex..|].
  by destruct H as [->|[->|[->|[->|[->| ->]]]]].
Qed.

Lemma radix_pos hex : 2 <= radix hex.
Proof. destruct hex; simpl; lia. Qed.

Lemma read_print hex fuel n a b rest :
  0 <= n < radix hex ^ Z.of_nat fuel -> (0 < fuel)%nat ->
  exists k, 0 <= k /\
    read_digits hex a b (print_digits fuel (radix hex) n rest) =
    read_digits hex (a * radix hex ^ k + n) true rest.
Proof.
  pose proof (radix_pos hex) as Hr. set (r := radix hex) in *.
  revert n a b rest. induction fuel as [|fuel IH]; intros n a b rest Hn Hf; [lia|].
  cbn [print_digits]. pose proof (Z.mod_pos_bound n r ltac:(lia)) as Hm.
  case_decide as Hlt.
  - exists 1. split; [lia|]. cbn [read_digits]. rewrite digit_val_char by done. fold r.
    rewrite Z.mod_small by lia. f_equal. lia.
  - assert (0 < fuel)%nat as Hf'.
    { destruct fuel; [|lia]. change (Z.of_nat 1) with 1 in Hn. rewrite Z.pow_1_r in Hn. lia. }
    destruct (IH (n / r) a b (digit_char (n mod r) :: rest)) as (k & Hk & ->); [|done|].
    { split; [apply Z.div_pos; lia|]. apply Z.div_lt_upper_bound; [lia|].
      rewrite Nat2Z.inj_succ, Z.pow_succ_r in Hn by lia. lia. }
    exists (k + 1). split; [lia|]. cbn [read_digits]. rewrite digit_val_char by done. fold r.
    rewrite Z.pow_add_r, Z.pow_1_r by lia. f_equal.
    pose proof (Z.div_mod n r ltac:(lia)). lia.
Qed.

Lemma print_digits_app fuel base n acc :
  print_digits fuel base n acc = print_digits fuel base n [] ++ acc.
Proof.
  revert n acc. induction fuel as [|fuel IH]; intros n acc; simpl; [done|].
  case_decide; [done|]. rewrite IH, (IH _ [_]), <- app_assoc. done.
Qed.

Lemma print_digits_digit hex fuel n :
  0 <= n -> Forall (is_digit hex) (print_digits fuel (radix hex) n []).
Proof.
  pose proof (radix_pos hex) as Hr. revert n.
  induction fuel as [|fuel IH]; intros n Hn; simpl; [constructor|].
  pose proof (Z.mod_pos_bound n (radix hex) ltac:(lia)).
  assert (is_digit hex (digit_char (n mod radix hex))) as Hd
    by (unfold is_digit; rewrite digit_val_char by done; eauto).
  case_decide; [by constructor|]. rewrite print_digits_app. apply Forall_app.
  split; [apply IH, Z.div_pos; lia|by constructor].
Qed.

Lemma print_digits_ne fuel base n acc : (0 < fuel)%nat -> print_digits fuel base n acc <> [].
Proof.
  intros Hf. destruct fuel as [|fuel]; [lia|]. simpl. case_decide; [done|].
  rewrite print_digits_app. by destruct (print_digits _ _ _ []).
Qed.

Lemma digit_plain hex c :
  is_digit hex c -> isspace c = false /\ c <> "-"%char /\ c <> "+"%char /\ c <> "x"%char /\
    c <> "X"%char /\ c <> ","%char /\ c <> "#"%char /\ c <> "010"%char.
Proof.
  intros [d Hd]. unfold digit_val in Hd.
  split; [apply bool_decide_eq_false; destruct hex; repeat case_decide; simplify_eq; lia|].
  split_and!; intros ->; destruct hex; vm_compute in Hd; discriminate Hd.
Qed.

Lemma skip_0x_digits hex s : Forall (is_digit hex) s -> skip_0x hex s = s.
Proof.
  intros Hs. destruct s as [|c [|x s]]; [done|by destruct c as [[] [] [] [] [] [] [] []]|].
  apply Forall_cons in Hs as [_ [Hx _]%Forall_cons]. apply digit_plain in Hx.
  unfold skip_0x. rewrite bool_decide_eq_false_2 by tauto. rewrite andb_false_r.
  by destruct c as [[] [] [] [] [] [] [] []].
Qed.

Lemma str2fmt_digits bits hex s n :
  Forall (is_digit hex) s -> read_digits hex 0 false s = (n, true) -> n < 2 ^ bits ->
  str2fmt bits hex s = Some n.
Proof.
  intros Hs Hr Hn. destruct s as [|c s]; [done|].
  pose proof (skip_0x_digits hex (c :: s) Hs) as Hsk. apply Forall_cons in Hs as [Hc _].
  destruct (digit_plain hex c Hc) as (Hsp & H1 & H2 & _).
  unfold str2fmt. cbn [drop_while]. rewrite Hsp.
  assert ((match c :: s with
           | "-"%char :: t' => (true, t')
           | "+"%char :: t' => (false, t')
           | _ => (false, c :: s) end) = (false, c :: s)) as ->
    by (destruct c as [[] [] [] [] [] [] [] []]; done).
  rewrite Hsk, Hr. rewrite decide_False by (intros [?|?]; [done|lia]). done.
Qed.

Lemma str2fmt_print bits hex n :
  0 <= bits <= 64 -> 0 <= n < 2 ^ bits ->
  str2fmt bits hex (print_digits 64 (radix hex) n []) = Some n.
Proof.
  intros Hb Hn. assert (2 ^ bits <= 2 ^ 64) as Hle by (apply Z.pow_le_mono_r; lia).
  apply str2fmt_digits; [apply print_digits_digit; lia| |lia].
  destruct (read_print hex 64 n 0 false []) as (k & _ & ->); [|lia|done].
  split; [lia|]. apply Z.lt_le_trans with (2 ^ 64); [lia|]. destruct hex; vm_compute; discriminate.
Qed.

(** Numbers survive being printed and read back: an unsigned number of the
    given width printed in decimal, or in hexadecimal without the prefix, is read
    back by [str2fmt] as itself. *)
Theorem str2fmt_roundtrip bits n :
  0 <= bits <= 64 -> 0 <= n < 2 ^ bits ->
  str2fmt bits false (print_dec n) = Some n /\
  (n <> 0 -> exists ds, print_ptr n = lit "0x" ++ ds /\ str2fmt bits true ds = Some n).
Proof.
  intros Hb Hn. split; [exact (str2fmt_print bits false n Hb Hn)|].
  intros Hz. exists (print_digits 64 16 n []). unfold print_ptr. rewrite decide_False by done.
  split; [done|]. exact (str2fmt_print bits true n Hb Hn).
Qed.

Lemma str2fmt_roundtrip_witness :
  str2fmt 64 false (lit "18446744073709551615") = Some (2 ^ 64 - 1) /\
  str2fmt 32 true (lit "ff") = Some 255.
Proof.
  split.
  - apply (str2fmt_roundtrip 64 (2 ^ 64 - 1)); lia.
  - destruct (str2fmt_roundtrip 32 255) as [_ H]; [lia|lia|]. destruct H as (ds & H1 & H2); [lia|].
    vm_compute in H1. injection H1 as <-. exact H2.
Defined.

(** ** Base names *)

Lemma find_if_Some f s i :
  find_if f s = Some i -> exists l1 x l2, s = l1 ++ x :: l2 /\ length l1 = i /\ f x = true /\
    forall y, y ∈ l1 -> f y = false.
Proof.
  revert i. induction s as [|x s IH]; intros i; simpl; [done|]. destruct (f x) eqn:Hx.
  - intros [= <-]. exists [], x, s. split_and!; [done..|]. by intros y ?%not_elem_of_nil.
  - destruct (find_if f s) as [j|]; [|done]. intros [= <-].
    destruct (IH j eq_refl) as (l1 & y & l2 & -> & Hl & Hy & Hall).
    exists (x :: l1), y, l2. split_and!; [done|simpl; lia|done|].
    intros z [->|Hz]%elem_of_cons; [done|by apply Hall].
Qed.

Lemma find_if_None f s : find_if f s = None -> forall y, y ∈ s -> f y = false.
Proof.
  induction s as [|x s IH]; simpl; [by intros _ y ?%not_elem_of_nil|].
  destruct (f x) eqn:Hx; [done|]. destruct (find_if f s); [done|]. intros _.
  intros y [->|Hy]%elem_of_cons; [done|by apply IH].
Qed.

Lemma rfind_Some c s i :
  rfind c s = Some i -> exists l1 l2, s = l1 ++ c :: l2 /\ length l1 = i /\ c ∉ l2.
Proof.
  unfold rfind. destruct (find_if _ (reverse s)) as [j|] eqn:Hf; [|done]. intros [= <-].
  apply find_if_Some in Hf as (l1 & x & l2 & Hs & Hl & Hx & Hall).
  apply bool_decide_eq_true in Hx as ->. apply (f_equal reverse) in Hs.
  rewrite reverse_involutive, reverse_app, reverse_cons, <- app_assoc in Hs.
  exists (reverse l2), (reverse l1). split; [done|]. split.
  - rewrite Hs, !length_app, !length_reverse. simpl. lia.
  - rewrite elem_of_reverse. intros Hc. apply Hall, bool_decide_eq_false in Hc. done.
Qed.

Lemma rfind_None c s : rfind c s = None <-> c ∉ s.
Proof.
  split.
  - unfold rfind. destruct (find_if _ (reverse s)) eqn:Hf; [done|]. intros _ Hc.
    apply elem_of_reverse in Hc. apply (find_if_None _ _ Hf), bool_decide_eq_false in Hc. done.
  - intros Hc. destruct (rfind c s) as [i|] eqn:Hi; [|done].
    apply rfind_Some in Hi as (l1 & l2 & -> & _). exfalso. apply Hc. set_solver.
Qed.

Lemma rfind_last c l1 l2 : c ∉ l2 -> rfind c (l1 ++ c :: l2) = Some (length l1).
Proof.
  intros Hl2. destruct (rfind c (l1 ++ c :: l2)) as [i|] eqn:Hi.
  - apply rfind_Some in Hi as (m1 & m2 & Heq & <- & Hm2).
    apply app_eq_inv in Heq as [(k & Hk1 & Hk2)|(k & Hk1 & Hk2)];
      destruct k as [|x k]; simplify_eq/=; rewrite ?app_nil_r; auto; set_solver.
  - apply rfind_None in Hi. set_solver.
Qed.

(** The position of the last dot relative to the last separator. *)
Lemma rfind_after c sep d name :
  sep <> c -> rfind c (d ++ sep :: name) =
    match rfind c name with Some i => Some (length d + 1 + i)%nat | None => rfind c d end.
Proof.
  intros Hne. destruct (rfind c name) as [i|] eqn:Hi.
  - apply rfind_Some in Hi as (l1 & l2 & -> & <- & Hl2).
    replace (d ++ sep :: l1 ++ c :: l2) with ((d ++ sep :: l1) ++ c :: l2) by (by rewrite <- app_assoc).
    rewrite rfind_last by done. f_equal. rewrite length_app. simpl. lia.
  - apply rfind_None in Hi. destruct (rfind c d) as [i|] eqn:Hd.
    + apply rfind_Some in Hd as (l1 & l2 & -> & <- & Hl2). rewrite <- app_assoc. simpl.
      apply rfind_last. set_solver.
    + apply rfind_None in Hd. apply rfind_None. set_solver.
Qed.

Lemma rfind_lt c s i : rfind c s = Some i -> (i < length s)%nat.
Proof. intros (l1 & l2 & -> & <- & _)%rfind_Some. rewrite length_app. simpl. lia. Qed.

(** [name] without its last extension. *)
Definition strip_extension (name : chars) : chars :=
  match rfind "." name with Some i => take i name | None => name end.

Lemma substr_z_name d sep name len :
  substr_z (d ++ sep :: name) (Z.of_nat (length d) + 1) len = Some (take (Z.to_nat len) name).
Proof.
  unfold substr_z. rewrite decide_True by (rewrite length_app; simpl; lia).
  replace (Z.to_nat (Z.of_nat (length d) + 1)) with (length (d ++ [sep]))
    by (rewrite length_app; simpl; lia).
  rewrite (cons_middle sep d name), app_assoc, drop_app_length.
  destruct (decide (Z.to_nat len <= length name)%nat).
  - do 2 f_equal. rewrite !length_app. simpl. lia.
  - rewrite !take_ge; [done|lia|]. rewrite !length_app. simpl. lia.
Qed.

(** The base name when there is a directory part: the lengths that wrap select
    the whole name. *)
Lemma getFileBaseName_dir d name withExt sep :
  Z.of_nat (length (d ++ sep :: name)) < 2 ^ 63 -> sep ∉ name -> sep <> "."%char ->
  getFileBaseName (d ++ sep :: name) withExt sep =
    Some (if withExt then name else strip_extension name).
Proof.
  intros Hlen Hn Hsep. unfold getFileBaseName. rewrite rfind_last by done.
  rewrite substr_z_name. f_equal. rewrite length_app in *. simpl in *.
  assert (take (Z.to_nat (u64 (Z.of_nat (length d + S (length name)) - Z.of_nat (length d)))) name
          = name) as Hall by (rewrite u64_small by lia; apply take_ge; lia).
  destruct withExt; simpl; [done|]. unfold strip_extension. rewrite rfind_after by done.
  destruct (rfind "." name) as [i|] eqn:Hi; simpl.
  - apply rfind_lt in Hi. rewrite !u64_small by (rewrite ?u64_small; lia). f_equal. lia.
  - destruct (rfind "." d) as [i|] eqn:Hd; simpl; [|done]. apply rfind_lt in Hd.
    apply take_ge. unfold u64. rewrite Zminus_mod_idemp_l.
    replace (Z.of_nat i - 1 - Z.of_nat (length d)) with
      (2 ^ 64 - (Z.of_nat (length d) + 1 - Z.of_nat i) + (-1) * 2 ^ 64) by lia.
    rewrite Z.mod_add by lia. rewrite Z.mod_small by lia. lia.
Qed.

(** [getFileBaseName] returns what follows the last separator (everything
    when there is none), without the last extension if [withExt] is false.  The
    wrapped lengths it computes when the last dot is in the directory part still
    select the whole name. *)
Theorem getFileBaseName_correct path withExt sep :
  Z.of_nat (length path) < 2 ^ 63 -> sep <> "."%char ->
  exists dir name, path = dir ++ name /\ sep ∉ name /\
    (dir = [] \/ exists d, dir = d ++ [sep]) /\
    getFileBaseName path withExt sep = Some (if withExt then name else strip_extension name).
Proof.
  intros Hlen Hsep. destruct (rfind sep path) as [s|] eqn:Hs.
  - apply rfind_Some in Hs as (d & name & -> & _ & Hn). exists (d ++ [sep]), name.
    split; [by rewrite <- app_assoc|]. split; [done|]. split; [right; by exists d|].
    by apply getFileBaseName_dir.
  - pose proof (proj1 (rfind_None _ _) Hs) as Hn. exists [], path.
    split_and!; [done|done|by left|]. unfold getFileBaseName, strip_extension. rewrite Hs.
    destruct withExt; [done|]. destruct (rfind "." path) as [i|] eqn:Hi; simpl; [|done].
    apply rfind_lt in Hi. unfold substr_z. rewrite decide_True by lia. do 2 f_equal. lia.
Qed.

Lemma getFileBaseName_correct_witness :
  exists dir name, lit "a.d/c" = dir ++ name /\ "/"%char ∉ name /\
    getFileBaseName (lit "a.d/c") false "/" = Some (strip_extension name).
Proof.
  destruct (getFileBaseName_correct (lit "a.d/c") false "/") as (dir & name & H1 & H2 & _ & H3);
    [vm_compute; reflexivity|discriminate|].
  exists dir, name. split; [exact H1|]. split; [exact H2|exact H3].
Defined.

(** ** The loops do not run out of fuel *)

Lemma find_sub_bound p s i : find_sub p s = Some i -> (i + length p <= length s)%nat.
Proof.
  assert (forall p s, starts p s = true -> (length p <= length s)%nat) as Hst.
  { clear. induction p as [|x p IH]; intros [|y s]; simpl; try (intros; done || lia).
    intros [_ H%IH]%andb_true_iff. lia. }
  revert i. induction s as [|x s IH]; intros i; simpl.
  - destruct p; [|done]. intros [= <-]. simpl. lia.
  - destruct (starts p (x :: s)) eqn:E; [intros [= <-]; by apply Hst in E|].
    destruct (find_sub p s) as [j|]; [|done]. intros [= <-]. specialize (IH j eq_refl). lia.
Qed.

Lemma find_str_bound sep str pos e :
  find_str sep str pos = Some e -> (pos <= e)%nat /\ (e + length sep <= length str)%nat.
Proof.
  unfold find_str, from. case_decide; [|done].
  destruct (find_sub sep (drop pos str)) as [i|] eqn:Hi; [|done]. intros [= <-].
  apply find_sub_bound in Hi. rewrite length_drop in Hi. lia.
Qed.

Lemma split_str_loop_total fuel str sep start result n :
  sep <> [] -> (start <= length str)%nat -> (length str < fuel + start)%nat ->
  exists r, split_str_loop fuel str sep start (find_str sep str start) result n = Some r.
Proof.
  intros Hs. assert (0 < length sep)%nat by (destruct sep; [done|simpl; lia]).
  revert start result n. induction fuel as [|fuel IH]; intros start result n Hle Hf; [lia|].
  cbn [split_str_loop]. destruct (find_str sep str start) as [e|] eqn:He.
  - apply find_str_bound in He as [? ?]. unfold substr at 1. rewrite decide_True by lia. simpl.
    apply IH; lia.
  - unfold substr. rewrite decide_True by lia. simpl. by eexists.
Qed.

(** [splitList] by a string never fails. *)
Lemma splitList_str_total str sep result :
  sep <> [] -> exists r, splitList_str str sep result = Some r.
Proof.
  intros Hs. unfold splitList_str. case_decide; [by eexists|].
  apply split_str_loop_total; [done|lia|lia].
Qed.

End Strings.
