(* ===== verification/GuidMap.v ===== *)
(** * The variable guid map (analyzer/{include,lib}/Instrument/PmemVarGuidMap)

    The instrumenter numbers the instructions that touch persistent memory and
    writes their source locations to a text file, one per line, the fields
    separated by [##]; the reactor reads the file back.  A [std::map] is a list
    of bindings ordered by key. *)
From stdpp Require Import base list strings.
From Stdlib Require Import Ascii.
From S2P Require Import Prelude Strings.
Import Strings.

Module GuidMap.

(** ** [std::map<uint64_t, V>] *)
Section StdMap.
Context {V : Type}.

(** [emplace] keeps the value of a key that is already there. *)
Fixpoint emplace (k : Z) (v : V) (m : list (Z * V)) : list (Z * V) :=
  match m with
  | [] => [(k, v)]
  | (k', v') :: m' =>
    if decide (k < k') then (k, v) :: m
    else if decide (k = k') then m
    else (k', v') :: emplace k v m'
  end.

Fixpoint find (k : Z) (m : list (Z * V)) : option V :=
  match m with
  | [] => None
  | (k', v) :: m' => if decide (k = k') then Some v else find k m'
  end.

(** The keys are in increasing order. *)
Definition ordered (m : list (Z * V)) : Prop := StronglySorted Z.lt m.*1.

Lemma emplace_keys k v m x : x ∈ (emplace k v m).*1 <-> x = k \/ x ∈ m.*1.
Proof.
  induction m as [|[k' v'] m IH]; simpl; [set_solver|].
  repeat case_decide; simpl; set_solver.
Qed.

Lemma emplace_ordered k v m : ordered m -> ordered (emplace k v m).
Proof.
  unfold ordered. induction m as [|[k' v'] m IH]; simpl; intros Hm.
  - repeat constructor.
  - inversion Hm as [|? ? Hs Hf]; subst. case_decide; [|case_decide]; simpl.
    + constructor; [done|]. constructor; [done|]. eapply Forall_impl; [exact Hf|]. simpl. lia.
    + done.
    + constructor; [by apply IH|]. apply Forall_forall. intros x [->|Hx]%emplace_keys; [lia|].
      by eapply Forall_forall in Hf.
Qed.

Lemma find_absent k m : Forall (fun x => k < x) m.*1 -> find k m = None.
Proof.
  induction m as [|[k' v'] m IH]; simpl; [done|]. intros [Hk Hm]%Forall_cons.
  rewrite decide_False by lia. by apply IH.
Qed.

Lemma find_emplace k v m j :
  ordered m -> find j (emplace k v m) =
    if decide (j = k) then Some (default v (find k m)) else find j m.
Proof.
  unfold ordered. induction m as [|[k' v'] m IH]; intros Hm.
  - simpl. repeat case_decide; done.
  - inversion Hm as [|? ? Hs Hf]; subst. cbn [emplace]. destruct (decide (k < k')).
    + rewrite (find_absent k ((k', v') :: m)); [cbn [find]; by repeat case_decide|].
      constructor; [done|]. eapply Forall_impl; [exact Hf|]. simpl. lia.
    + destruct (decide (k = k')) as [->|Hne]; cbn [find].
      * rewrite (decide_True _ _ (eq_refl k')). by destruct (decide (j = k')).
      * rewrite IH by done. rewrite (decide_False (P := k = k')) by done.
        destruct (decide (j = k')) as [->|]; [|done]. by rewrite decide_False.
Qed.

(** A key above all others goes to the end. *)
Lemma emplace_last k v m : Forall (fun x => x < k) m.*1 -> emplace k v m = m ++ [(k, v)].
Proof.
  induction m as [|[k' v'] m IH]; simpl; [done|]. intros [Hk Hm]%Forall_cons.
  rewrite !decide_False by lia. by rewrite IH.
Qed.

End StdMap.

(** ** Entries *)
Record PmemVarGuidMapEntry := MkEntry {
  guid : Z;
  source_path : chars;
  source_file : chars;
  function : chars;
  line : Z;
  instruction : chars }.

#[export] Instance entry_eq_dec : EqDecision PmemVarGuidMapEntry.
Proof. solve_decision. Defined.

Definition VarGuidMapTy := list (Z * PmemVarGuidMapEntry).

Definition FieldSeparator : chars := lit "##".
Definition EntryFields : nat := 6.

Definition add (m : VarGuidMapTy) (entry : PmemVarGuidMapEntry) : VarGuidMapTy :=
  emplace (guid entry) entry m.

Definition newline : ascii := "010"%char.

(** One line of the file. *)
Definition print_entry (entry : PmemVarGuidMapEntry) : chars :=
  print_dec (guid entry) ++ FieldSeparator ++ source_path entry ++ FieldSeparator ++
  source_file entry ++ FieldSeparator ++ function entry ++ FieldSeparator ++
  print_dec (line entry) ++ FieldSeparator ++ instruction entry ++ [newline].

(** The text written, [None] when the file cannot be opened (the operation
    returns [false]). *)
Definition serialize (is_open : bool) (m : VarGuidMapTy) : option chars :=
  if is_open then Some (concat (print_entry <$> m.*2)) else None.

(** [while (getline(f, line))]: a last line without a newline is delivered when
    it is not empty. *)
Definition getlines (s : chars) : list chars :=
  let ps := pieces newline s in
  match List.last ps [] with [] => removelast ps | _ => ps end.

(** How a call ends: it returns a flag, or the exception of [str2fmt] escapes. *)
Inductive outcome := Returns (b : bool) | Throws.

(** One line: [None] when the number of fields is wrong. *)
Definition split_fields (l : chars) : option (list chars) :=
  '(parts, _) ← splitList_str l FieldSeparator [];
  if decide (length parts = EntryFields) then Some parts else None.

(** The conversion of the six fields; [None] is the exception. *)
Definition parse_fields (parts : list chars) : option PmemVarGuidMapEntry :=
  match parts with
  | [p0; p1; p2; p3; p4; p5] =>
    g ← str2fmt 64 false p0;
    ln ← str2fmt 32 false p4;
    Some (MkEntry g p1 p2 p3 ln p5)
  | _ => None
  end.

Fixpoint read_lines (ls : list chars) (result : VarGuidMapTy) (ignoreBadLine : bool)
  : outcome * VarGuidMapTy :=
  match ls with
  | [] => (Returns true, result)
  | l :: ls' =>
    match split_fields l with
    | None => if ignoreBadLine then read_lines ls' result ignoreBadLine
              else (Returns false, result)
    | Some parts => match parse_fields parts with
                    | None => (Throws, result)
                    | Some entry => read_lines ls' (add result entry) ignoreBadLine
                    end
    end
  end.

(** [file] is the content of the file, [None] when it cannot be opened. *)
Definition deserialize (file : option chars) (result : VarGuidMapTy) (ignoreBadLine : bool)
  : outcome * VarGuidMapTy :=
  match file with
  | None => (Returns false, result)
  | Some text => read_lines (getlines text) result ignoreBadLine
  end.


(** ** Lines *)

Lemma pieces_lines ls :
  Forall (fun l => newline ∉ l) ls ->
  pieces newline (concat ((fun l => l ++ [newline]) <$> ls)) = ls ++ [[]].
Proof.
  induction ls as [|l ls IH]; intros Hls; [done|]. apply Forall_cons in Hls as [Hl Hls].
  rewrite fmap_cons. cbn [concat]. rewrite <- app_assoc. cbn [app].
  rewrite pieces_app by done. by rewrite IH.
Qed.

Lemma getlines_lines ls :
  Forall (fun l => newline ∉ l) ls ->
  getlines (concat ((fun l => l ++ [newline]) <$> ls)) = ls.
Proof.
  intros Hls. unfold getlines. rewrite pieces_lines by done.
  rewrite last_last. apply removelast_last.
Qed.

(** ** Round trip *)

(** The strings that survive: no newline, and for all but the last field the
    separator does not occur in the field, not even across its end. *)
Definition entry_ok (e : PmemVarGuidMapEntry) : Prop :=
  in_u64 (guid e) /\ 0 <= line e < 2 ^ 32 /\
  Forall (fun s => newline ∉ s /\ clean FieldSeparator s) [source_path e; source_file e; function e] /\
  newline ∉ instruction e /\ find_sub FieldSeparator (instruction e) = None.

#[export] Instance entry_ok_dec e : Decision (entry_ok e).
Proof. unfold entry_ok. apply _. Defined.

Definition fields (e : PmemVarGuidMapEntry) : list chars :=
  [print_dec (guid e); source_path e; source_file e; function e; print_dec (line e); instruction e].

Lemma print_entry_join e : print_entry e = join FieldSeparator (fields e) ++ [newline].
Proof. unfold print_entry, fields, join. by rewrite <- !app_assoc. Qed.

Lemma digit_not hex c : is_digit hex c -> c <> newline /\ c <> "#"%char.
Proof.
  intros [d Hd]. split; intros ->; destruct hex; vm_compute in Hd; discriminate.
Qed.

Lemma find_sub_free c sep s : c ∉ s -> find_sub (c :: sep) s = None.
Proof.
  induction s as [|x s IH]; intros Hc; simpl; [done|].
  rewrite bool_decide_eq_false_2 by set_solver. simpl. rewrite IH by set_solver. done.
Qed.

Lemma clean_free c s : c ∉ s -> clean [c; c] s.
Proof.
  unfold clean. induction s as [|x s IH]; intros Hc.
  - simpl. by rewrite bool_decide_eq_true_2 by done.
  - cbn [app find_sub starts length]. rewrite bool_decide_eq_false_2 by set_solver.
    cbn [andb]. rewrite IH by set_solver. done.
Qed.

Lemma print_dec_free n : 0 <= n < 2 ^ 64 -> newline ∉ print_dec n /\ "#"%char ∉ print_dec n.
Proof.
  intros Hn. assert (Forall (is_digit false) (print_dec n)) as H by (apply print_digits_digit; lia).
  split; intros Hin; eapply Forall_forall, digit_not in H; eauto; naive_solver.
Qed.

Lemma entry_line e : entry_ok e -> newline ∉ join FieldSeparator (fields e).
Proof.
  intros (Hg & Hl & Hs & Hi & _). destruct (print_dec_free (guid e) Hg) as [Hg' _].
  destruct (print_dec_free (line e)) as [Hl' _]; [lia|].
  apply Forall_cons in Hs as [[? _] Hs]. apply Forall_cons in Hs as [[? _] Hs].
  apply Forall_cons in Hs as [[? _] _]. unfold fields, join.
  rewrite !not_elem_of_app. split_and!; try done; vm_compute; set_solver.
Qed.

Lemma split_fields_entry e : entry_ok e -> split_fields (join FieldSeparator (fields e)) = Some (fields e).
Proof.
  intros (Hg & Hl & Hs & Hi & Hi'). unfold split_fields.
  rewrite splitList_str_join; [done|done|done| | |done].
  - unfold fields, join. intros H. by apply app_eq_nil in H as [_ ?].
  - apply Forall_cons in Hs as [[_ ?] Hs]. apply Forall_cons in Hs as [[_ ?] Hs].
    apply Forall_cons in Hs as [[_ ?] _].
    repeat apply Forall_cons_2; try done; apply clean_free, print_dec_free; lia.
Qed.

Lemma parse_fields_entry e : entry_ok e -> parse_fields (fields e) = Some e.
Proof.
  intros (Hg & Hl & _). unfold parse_fields, fields.
  assert (str2fmt 64 false (print_dec (guid e)) = Some (guid e)) as ->
    by (apply (str2fmt_print 64 false); lia).
  assert (str2fmt 32 false (print_dec (line e)) = Some (line e)) as ->
    by (apply (str2fmt_print 32 false); lia).
  by destruct e.
Qed.

(** Reading well-formed lines adds their entries in order. *)
Lemma read_lines_entries es result ign :
  Forall entry_ok es ->
  read_lines (join FieldSeparator ∘ fields <$> es) result ign = (Returns true, foldl add result es).
Proof.
  revert result. induction es as [|e es IH]; intros result Hes; cbn [fmap list_fmap read_lines foldl]; [done|].
  apply Forall_cons in Hes as [He Hes].
  change ((join FieldSeparator ∘ fields) e) with (join FieldSeparator (fields e)).
  rewrite split_fields_entry, parse_fields_entry by done.
  by apply IH.
Qed.

Lemma serialize_lines m :
  concat (print_entry <$> m) = concat ((fun l => l ++ [newline]) <$> (join FieldSeparator ∘ fields <$> m)).
Proof.
  rewrite <- list_fmap_compose. f_equal. apply list_fmap_ext. intros _ e _.
  apply print_entry_join.
Qed.

(** A map whose keys are the guids of its entries. *)
Definition keyed (m : VarGuidMapTy) : Prop := Forall (fun '(k, e) => k = guid e) m.

Lemma add_all_ordered m :
  ordered m -> keyed m -> foldl add [] m.*2 = m.
Proof.
  induction m as [|[k e] m IH] using rev_ind; intros Ho Hk; [done|].
  rewrite fmap_app, foldl_app. apply Forall_app in Hk as [Hk Hk'].
  apply Forall_cons in Hk' as [-> _]. unfold ordered in Ho. rewrite fmap_app in Ho.
  apply StronglySorted_app in Ho as (Hlt & Ho & _).
  rewrite IH by done. simpl. unfold add. apply emplace_last.
  apply Forall_forall. intros x Hx. apply Hlt; [done|]. simpl. set_solver.
Qed.

Lemma guid_map_read_back m ign text :
  ordered m -> keyed m -> Forall entry_ok m.*2 -> serialize true m = Some text ->
  deserialize (Some text) [] ign = (Returns true, m).
Proof.
  intros Ho Hk Hok [= <-]. unfold deserialize. rewrite serialize_lines, getlines_lines.
  - by rewrite read_lines_entries, add_all_ordered.
  - apply Forall_fmap. eapply Forall_impl; [exact Hok|]. intros e. apply entry_line.
Qed.

(** C35. Round trip of the guid map: a map whose keys are the guids of its entries
    and whose strings hold neither a newline nor the separator, written to a file
    and read back into an empty map, is the same map. *)
Theorem guid_map_roundtrip m ign text :
  ordered m -> keyed m -> Forall entry_ok m.*2 -> serialize true m = Some text ->
  deserialize (Some text) [] ign = (Returns true, m).
Proof. apply guid_map_read_back. Qed.

Definition ex_entry (g : Z) : PmemVarGuidMapEntry :=
  MkEntry g (lit "/src") (lit "a.c") (lit "main") 42 (lit "store i32 %x, i32* %p").

Lemma guid_map_roundtrip_witness :
  deserialize (serialize true [(3, ex_entry 3); (7, ex_entry 7)]) [] false =
    (Returns true, [(3, ex_entry 3); (7, ex_entry 7)]).
Proof.
  destruct (serialize true [(3, ex_entry 3); (7, ex_entry 7)]) as [text|] eqn:Ht; [|done].
  apply (guid_map_roundtrip _ false text); [| | |exact Ht].
  - unfold ordered. simpl. repeat constructor.
  - unfold keyed. repeat constructor.
  - apply (bool_decide_unpack _). vm_compute. reflexivity.
Defined.

End GuidMap.
