(* ===== verification/Tracker.v ===== *)
(** * The tracker in the target program (analyzer/runtime/addr_tracker.c)

    The instrumented program calls these hooks: [init] and [low_level_init] when
    [main] starts, [track_addr] at every access to persistent memory, the
    [low_level_*] and [save_file] hooks at flushes and fences, and [finish] as a
    global destructor.  The tracker file is a C stream: what is printed is kept in
    the stream until it is written to the disk, at any time by the C library or by
    [fflush] and [fclose].  The monitor of the reactor (file Monitor) reads the
    disk while the process runs. *)
From stdpp Require Import base list strings.
From Stdlib Require Import Ascii.
From S2P Require Import Prelude Strings GuidMap.
Import Strings.

Module Tracker.

(** ** The state of the process *)

(** A stream opened for writing: the file on the disk, and what was printed but
    not written. *)
Record FILE := MkFILE {
  disk : chars;
  unwritten : chars;
  closed : bool }.

Record process := MkProcess {
  tracker_file : option FILE;  (* [None]: the null pointer *)
  buffer : list (Z * Z);       (* [addresses] and [guids], the first [address_count] slots *)
  thread : bool;               (* the background thread was created *)
  handled : list Z;            (* signals with [termination_handler] as handler *)
  console : list chars }.

(** The result of code that may use a closed stream or the null pointer: the
    behaviour is undefined from there on, in the given state. *)
Inductive result := Ok (p : process) | UB (p : process).

Definition andThen (r : result) (f : process -> result) : result :=
  match r with Ok p => f p | UB p => UB p end.

Definition set_file (p : process) (f : option FILE) : process :=
  MkProcess f (buffer p) (thread p) (handled p) (console p).

Definition say (p : process) (m : chars) : process :=
  MkProcess (tracker_file p) (buffer p) (thread p) (handled p) (console p ++ [m]).

(** ** The C library on the stream *)

Definition fprintf (p : process) (text : chars) : result :=
  match tracker_file p with
  | Some (MkFILE d u false) => Ok (set_file p (Some (MkFILE d (u ++ text) false)))
  | _ => UB p
  end.

(** [fflush] of the null pointer flushes the other streams of the process. *)
Definition fflush (p : process) : result :=
  match tracker_file p with
  | Some (MkFILE d u false) => Ok (set_file p (Some (MkFILE (d ++ u) [] false)))
  | Some _ => UB p
  | None => Ok p
  end.

Definition fclose (p : process) : result :=
  match tracker_file p with
  | Some (MkFILE d u false) => Ok (set_file p (Some (MkFILE (d ++ u) [] true)))
  | _ => UB p
  end.

(** The library writes some of what was printed at a time of its own choice. *)
Definition write_back (n : nat) (p : process) : process :=
  match tracker_file p with
  | Some (MkFILE d u false) => set_file p (Some (MkFILE (d ++ take n u) (drop n u) false))
  | _ => p
  end.

(** ** The hooks *)

Definition FLUSH_LIMIT : Z := 100000.
Definition MAX_FILE_NAME_SIZE : nat := 128.

(** [snprintf(buf, 128, "pmem_addr_pid_%d.dat", getpid())] *)
Definition tracker_file_name (pid : Z) : chars :=
  take (MAX_FILE_NAME_SIZE - 1) (lit "pmem_addr_pid_" ++ print_dec pid ++ lit ".dat").

(** [fprintf(f, "%p,%u\n", addr, guid)] *)
Definition print_access (a : Z * Z) : chars :=
  print_ptr a.1 ++ lit "," ++ print_dec a.2 ++ [GuidMap.newline].

Definition track_addr (addr guid : Z) (p : process) : result := fprintf p (print_access (addr, guid)).

(** The loop over the buffer that [finish] and the background thread share. *)
Fixpoint print_accesses (p : process) (l : list (Z * Z)) : result :=
  match l with
  | [] => Ok p
  | a :: l' => andThen (fprintf p (print_access a)) (fun p' => print_accesses p' l')
  end.

Definition print_buffer (p : process) : result :=
  andThen (print_accesses p (buffer p))
    (fun p' => Ok (MkProcess (tracker_file p') [] (thread p') (handled p') (console p'))).

(** One round of the background thread; [None]: it spins until the buffer is long enough. *)
Definition myThreadFun (p : process) : option result :=
  if decide (Z.of_nat (length (buffer p)) < FLUSH_LIMIT) then None else Some (print_buffer p).

(** [fflush]; the hook always returns [true]. *)
Definition addr_tracker_dump (p : process) : result := fflush p.

Definition addr_tracker_finish (p : process) : result :=
  andThen (print_buffer p) (fun p' => andThen (fflush p') fclose).

Definition low_level_init (p : process) : process := p.
Definition low_level_fence (p : process) : process := p.
Definition low_level_flush (address : Z) (p : process) : process :=
  say (say p (lit "clflush address is " ++ print_ptr address)) (lit "low level flush").
Definition save_file (address : Z) (p : process) : process :=
  say p (lit "save file is " ++ print_ptr address).

(** SIGINT, SIGFPE, SIGTERM, SIGSEGV, SIGILL, SIGABRT, SIGBUS, SIGSTKFLT *)
Definition signals : list Z := [2; 8; 15; 11; 4; 6; 7; 16].

(** What the system answers to the calls of [init]. *)
Record system := MkSystem { mutex_ok : bool; fopen_ok : bool; pid : Z }.

Definition addr_tracker_init (e : system) (p : process) : process :=
  if mutex_ok e then
    let p1 := MkProcess (tracker_file p) (buffer p) true (handled p) (console p ++ [lit "start background thread"]) in
    let p2 := say p1 (lit "openning address tracker output file " ++ tracker_file_name (pid e)) in
    let p3 := set_file p2 (if fopen_ok e then Some (MkFILE [] [] false) else None) in
    MkProcess (tracker_file p3) (buffer p3) (thread p3) signals (console p3)
  else say p (lit " mutex init has failed").

(** ** The life of the process *)

Inductive status :=
| Running (p : process)
| Exited (code : Z) (p : process)  (* the exit status the parent sees *)
| Killed (p : process)             (* by the default action of a signal *)
| Undefined (p : process).

Definition resume (r : result) : status :=
  match r with Ok p => Running p | UB p => Undefined p end.

(** [exit] runs the global destructors, [finish] among them. *)
Definition exit_ (code : Z) (p : process) : status :=
  match addr_tracker_finish p with
  | Ok p' => Exited (Z.land code 255) p'
  | UB p' => Undefined p'
  end.

Definition termination_handler (p : process) : status :=
  match fclose p with Ok p' => exit_ (-1) p' | UB p' => Undefined p' end.

(** What happens to the process: its own calls of the hooks, its return from
    [main] or call of [exit], a round of the background thread, a write of the C
    library, and a signal (one whose default action ends the process). *)
Inductive event :=
| Access (addr guid : Z)
| Dump
| Fence
| Flush (address : Z)
| SaveFile (address : Z)
| Background
| WriteBack (n : nat)
| Signal (signum : Z)
| Exit (code : Z).

Definition run_event (p : process) (e : event) : status :=
  match e with
  | Access addr guid => resume (track_addr addr guid p)
  | Dump => resume (addr_tracker_dump p)
  | Fence => Running (low_level_fence p)
  | Flush address => Running (low_level_flush address p)
  | SaveFile address => Running (save_file address p)
  | Background => if thread p then from_option resume (Running p) (myThreadFun p) else Running p
  | WriteBack n => Running (write_back n p)
  | Signal signum => if decide (signum ∈ handled p) then termination_handler p else Killed p
  | Exit code => exit_ code p
  end.

Definition step (st : status) (e : event) : status :=
  match st with Running p => run_event p e | _ => st end.

Definition run (st : status) (evs : list event) : status := foldl step st evs.

(** The process when [main] starts. *)
Definition start (e : system) : status :=
  Running (low_level_init (addr_tracker_init e (MkProcess None [] false [] []))).

(** The state a status carries, and the file as another process sees it. *)
Definition state_of (st : status) : process :=
  match st with Running p | Exited _ p | Killed p | Undefined p => p end.

Definition on_disk (st : status) : chars := from_option disk [] (tracker_file (state_of st)).

(** The accesses the process makes: those of the events before its end. *)
Fixpoint accesses (st : status) (evs : list event) : list (Z * Z) :=
  match evs with
  | [] => []
  | e :: evs' =>
    match st, e with
    | Running _, Access addr guid => [(addr, guid)]
    | _, _ => []
    end ++ accesses (step st e) evs'
  end.

Definition text (l : list (Z * Z)) : chars := concat (print_access <$> l).

(** The file of a process that makes the given accesses and returns from [main]. *)
Definition session (l : list (Z * Z)) : list event := ((fun a => Access a.1 a.2) <$> l) ++ [Exit 0].
Definition trace_file (l : list (Z * Z)) : chars := on_disk (run (start (MkSystem true true 1)) (session l)).

(** ** The invariant of the life of the process *)

(** The tracker file when the accesses [l] have been made: all of their text was
    printed to the one open stream, and nothing is ever buffered in [addresses]. *)
Definition tracks (l : list (Z * Z)) (st : status) : Prop :=
  match st with
  | Running p => exists d u, tracker_file p = Some (MkFILE d u false) /\ d ++ u = text l /\
                   buffer p = [] /\ handled p = signals
  | Exited _ p | Undefined p => tracker_file p = Some (MkFILE (text l) [] true)
  | Killed p => exists d u, tracker_file p = Some (MkFILE d u false) /\ d ++ u = text l
  end.

Lemma text_app l1 l2 : text (l1 ++ l2) = text l1 ++ text l2.
Proof. unfold text. by rewrite fmap_app, concat_app. Qed.

Lemma tracks_start e : mutex_ok e = true -> fopen_ok e = true -> tracks [] (start e).
Proof. intros Hm Hf. unfold start, addr_tracker_init. rewrite Hm, Hf. by exists [], []. Qed.

(** The destructor on a stream that is open, and on one that is closed. *)
Lemma finish_open p d u :
  tracker_file p = Some (MkFILE d u false) -> buffer p = [] ->
  exists p', addr_tracker_finish p = Ok p' /\ tracker_file p' = Some (MkFILE (d ++ u) [] true).
Proof.
  intros Hf Hb. eexists. unfold addr_tracker_finish, print_buffer. rewrite Hb. simpl.
  unfold fflush. simpl. rewrite Hf. simpl. split; [done|]. simpl. by rewrite app_nil_r.
Qed.

Lemma finish_closed p d u :
  tracker_file p = Some (MkFILE d u true) -> buffer p = [] ->
  exists p', addr_tracker_finish p = UB p' /\ tracker_file p' = tracker_file p.
Proof.
  intros Hf Hb. eexists. unfold addr_tracker_finish, print_buffer. rewrite Hb. simpl.
  unfold fflush. simpl. rewrite Hf. by split.
Qed.

(** The handler closes the stream, and [exit] runs [finish] on the closed stream. *)
Lemma handler_undefined p d u :
  tracker_file p = Some (MkFILE d u false) -> buffer p = [] ->
  exists p', termination_handler p = Undefined p' /\ tracker_file p' = Some (MkFILE (d ++ u) [] true).
Proof.
  intros Hf Hb. unfold termination_handler, fclose, exit_. rewrite Hf.
  destruct (finish_closed (set_file p (Some (MkFILE (d ++ u) [] true))) (d ++ u) [] eq_refl Hb) as (p' & -> & Hp').
  by exists p'.
Qed.

Lemma event_tracks l p e :
  tracks l (Running p) -> tracks (l ++ accesses (Running p) [e]) (run_event p e).
Proof.
  intros (d & u & Hf & Ht & Hb & Hh).
  assert (tracks l (Running p)) as Hkeep by (by exists d, u).
  destruct e; cbn [accesses app run_event]; rewrite ?app_nil_r; [| |done..| | | |].
  - unfold track_addr, fprintf. rewrite Hf. exists d, (u ++ print_access (addr, guid)).
    rewrite app_assoc, Ht, text_app. unfold text at 3. simpl. by rewrite app_nil_r.
  - unfold addr_tracker_dump, fflush. rewrite Hf. exists (d ++ u), []. by rewrite app_nil_r.
  - destruct (thread p); [|done]. unfold myThreadFun. rewrite Hb. simpl. done.
  - unfold write_back. rewrite Hf. exists (d ++ take n u), (drop n u).
    by rewrite <- app_assoc, take_drop.
  - case_decide.
    + destruct (handler_undefined p d u Hf Hb) as (p' & -> & Hp'). simpl. by rewrite Hp', Ht.
    + by exists d, u.
  - unfold exit_. destruct (finish_open p d u Hf Hb) as (p' & -> & Hp'). simpl. by rewrite Hp', Ht.
Qed.

Lemma ended_stays st evs : (forall p, st <> Running p) -> run st evs = st /\ accesses st evs = [].
Proof.
  intros H. induction evs as [|e evs [IH1 IH2]]; [done|]. simpl.
  assert (step st e = st) as Hs by (destruct st; [by exfalso; eapply H|done..]).
  rewrite Hs, IH1, IH2. destruct st; [by exfalso; eapply H|done..].
Qed.

Lemma run_tracks l st evs : tracks l st -> tracks (l ++ accesses st evs) (run st evs).
Proof.
  revert l st. induction evs as [|e evs IH]; intros l st H; [simpl; by rewrite app_nil_r|].
  destruct st as [p|c p|p|p].
  { simpl. rewrite app_assoc. apply IH. pose proof (event_tracks l p e H) as H'. simpl in H'.
    by rewrite app_nil_r in H'. }
  all: match goal with
    |- tracks _ (run ?s ?es) => destruct (ended_stays s es) as [-> ->]; [done|by rewrite app_nil_r]
  end.
Qed.

(** ** What another process sees *)

Lemma run_app st evs evs' : run st (evs ++ evs') = run (run st evs) evs'.
Proof. apply foldl_app. Qed.

Lemma accesses_app st evs evs' : accesses st (evs ++ evs') = accesses st evs ++ accesses (run st evs) evs'.
Proof.
  revert st. induction evs as [|e evs IH]; intros st; [done|]. simpl. by rewrite IH, <- app_assoc.
Qed.

Lemma on_disk_prefix l st : tracks l st -> on_disk st `prefix_of` text l.
Proof.
  destruct st as [p|c p|p|p]; simpl; unfold on_disk; simpl.
  1: intros (d & u & -> & <- & _). 3: intros (d & u & -> & <-).
  1,3: simpl; by apply prefix_app_r.
  all: intros ->; done.
Qed.

Lemma event_disk p e d u :
  tracker_file p = Some (MkFILE d u false) -> buffer p = [] -> d `prefix_of` on_disk (run_event p e).
Proof.
  intros Hf Hb. unfold on_disk. destruct e; simpl.
  3-5: unfold low_level_fence, low_level_flush, save_file, say; simpl; by rewrite Hf.
  - unfold track_addr, fprintf. by rewrite Hf.
  - unfold addr_tracker_dump, fflush. rewrite Hf. by apply prefix_app_r.
  - destruct (thread p); simpl; [|by rewrite Hf]. unfold myThreadFun. rewrite Hb. simpl. by rewrite Hf.
  - unfold write_back. rewrite Hf. by apply prefix_app_r.
  - case_decide; [|simpl; by rewrite Hf].
    destruct (handler_undefined p d u Hf Hb) as (p' & -> & Hp'). simpl. rewrite Hp'. by apply prefix_app_r.
  - unfold exit_. destruct (finish_open p d u Hf Hb) as (p' & -> & Hp'). simpl. rewrite Hp'. by apply prefix_app_r.
Qed.

(** The file only grows. *)
Lemma run_disk l st evs : tracks l st -> on_disk st `prefix_of` on_disk (run st evs).
Proof.
  revert l st. induction evs as [|e evs IH]; intros l st H; [done|].
  destruct st as [p|c p|p|p].
  { pose proof (event_tracks l p e H) as H'. specialize (IH _ _ H').
    destruct H as (d & u & Hf & _ & Hb & _). pose proof (event_disk p e d u Hf Hb) as Hd. simpl.
    etrans; [|exact IH]. unfold on_disk at 1. simpl. by rewrite Hf. }
  all: match goal with |- context [run ?s (?x :: ?es)] => destruct (ended_stays s (x :: es)) as [-> _]; done end.
Qed.

Lemma set_file_twice p f g : set_file (set_file p f) g = set_file p g.
Proof. done. Qed.

Lemma run_accesses p d u l :
  tracker_file p = Some (MkFILE d u false) ->
  run (Running p) ((fun a => Access a.1 a.2) <$> l) = Running (set_file p (Some (MkFILE d (u ++ text l) false))) /\
  accesses (Running p) (session l) = l.
Proof.
  revert p u. induction l as [|a l IH]; intros p u Hf.
  - split; [|done]. simpl. rewrite app_nil_r, <- Hf. by destruct p.
  - set (p1 := set_file p (Some (MkFILE d (u ++ print_access a) false))).
    assert (run_event p (Access a.1 a.2) = Running p1) as Hp1.
    { simpl. unfold track_addr, fprintf. rewrite Hf. by destruct a. }
    destruct (IH p1 _ eq_refl) as [H1 H2]. unfold session in *. cbn [fmap list_fmap app run foldl step accesses].
    rewrite Hp1. split.
    + etrans; [exact H1|]. subst p1. rewrite set_file_twice. do 4 f_equal. by rewrite <- app_assoc.
    + destruct a as [x g]. cbn [fst snd app]. f_equal. exact H2.
Qed.

(** A process that returns from [main] leaves the text of its accesses. *)
Lemma session_disk e l :
  mutex_ok e = true -> fopen_ok e = true -> on_disk (run (start e) (session l)) = text l.
Proof.
  intros Hm Hf. unfold start, addr_tracker_init, low_level_init. rewrite Hm, Hf.
  unfold session. rewrite run_app.
  destruct (run_accesses (set_file (MkProcess None [] true signals
    [lit "start background thread"; lit "openning address tracker output file " ++ tracker_file_name (pid e)])
    (Some (MkFILE [] [] false))) [] [] l eq_refl) as [H _].
  etrans; [apply (f_equal (fun s => on_disk (run s [Exit 0])) H)|].
  simpl. unfold exit_.
  match goal with |- on_disk match addr_tracker_finish ?p with _ => _ end = _ =>
    destruct (finish_open p [] (text l) eq_refl eq_refl) as (p' & -> & Hp') end.
  unfold on_disk. simpl. by rewrite Hp'.
Qed.

Lemma trace_file_text l : trace_file l = text l.
Proof. by apply session_disk. Qed.

(** Why a process ends. *)
Definition cause (evs : list event) (st : status) : Prop :=
  match st with
  | Running _ => True
  | Exited code _ => exists c, Exit c ∈ evs /\ code = Z.land c 255
  | Killed _ => exists n, Signal n ∈ evs /\ n ∉ signals
  | Undefined _ => exists n, Signal n ∈ evs /\ n ∈ signals
  end.

Lemma event_cause l p e : tracks l (Running p) -> cause [e] (run_event p e).
Proof.
  intros (d & u & Hf & _ & Hb & Hh). destruct e; simpl; try done.
  - unfold track_addr, fprintf. by rewrite Hf.
  - unfold addr_tracker_dump, fflush. by rewrite Hf.
  - destruct (thread p); [|done]. unfold myThreadFun. by rewrite Hb.
  - rewrite Hh. case_decide as Hs.
    + destruct (handler_undefined p d u Hf Hb) as (p' & -> & _). exists signum. split; [by left|done].
    + exists signum. split; [by left|done].
  - unfold exit_. destruct (finish_open p d u Hf Hb) as (p' & -> & _). exists code. split; [by left|done].
Qed.

Lemma cause_mono evs evs' st : evs ⊆ evs' -> cause evs st -> cause evs' st.
Proof. intros H. destruct st; simpl; [done| | |]; intros (n & Hn & ?); exists n; auto. Qed.

Lemma run_cause l p evs : tracks l (Running p) -> cause evs (run (Running p) evs).
Proof.
  revert l p. induction evs as [|e evs IH]; intros l p H; [done|].
  change (run (Running p) (e :: evs)) with (run (run_event p e) evs).
  pose proof (event_tracks l p e H) as H'. pose proof (event_cause l p e H) as Hc.
  destruct (run_event p e) as [q|c q|q|q].
  { eapply cause_mono; [|by eapply IH]. intros x Hx. by right. }
  all: match goal with |- cause _ (run ?s ?es) => destruct (ended_stays s es) as [-> _]; [done|] end.
  all: eapply cause_mono; [|exact Hc]; intros x Hx%list_elem_of_singleton; subst; by left.
Qed.

(** Without a stream: what happens when [init] has failed. *)
Definition untracked (st : status) : Prop :=
  match st with
  | Running p => tracker_file p = None /\ buffer p = []
  | Exited _ _ => False
  | Killed p | Undefined p => tracker_file p = None
  end.

Lemma exit_untracked p code : tracker_file p = None -> buffer p = [] -> exists q, exit_ code p = Undefined q /\ tracker_file q = None.
Proof.
  intros Hf Hb. unfold exit_, addr_tracker_finish, print_buffer. rewrite Hb. cbn. rewrite Hf. cbn. by eexists.
Qed.

Lemma run_untracked st evs : untracked st -> untracked (run st evs).
Proof.
  revert st. induction evs as [|e evs IH]; intros st Hst; [done|]. apply (IH (step st e)). destruct st as [p|c p|p|p]; [|done..].
  destruct Hst as [Hf Hb]. destruct e; cbn.
  - unfold track_addr, fprintf. by rewrite Hf.
  - unfold addr_tracker_dump, fflush. by rewrite Hf.
  - done.
  - done.
  - done.
  - unfold myThreadFun. rewrite Hb. by destruct (thread p).
  - unfold write_back. by rewrite Hf.
  - case_decide; [|done]. unfold termination_handler, fclose. by rewrite Hf.
  - destruct (exit_untracked p code Hf Hb) as (q & -> & Hq). done.
Qed.

Lemma start_untracked e : mutex_ok e && fopen_ok e = false -> untracked (start e).
Proof. unfold start, addr_tracker_init. destruct (mutex_ok e); cbn; [|done]. by intros ->. Qed.

(** C26. Whatever happens to the target process, its tracker file holds the accesses
    it made, provided that [init] got its mutex and could open the file.  While it runs,
    the text on the disk followed by what the C stream still keeps is the text of all
    accesses so far, and the buffer of the background thread is empty, so that the
    thread never writes; after a return from [main] all of the text is on the disk; a
    process killed by a signal leaves a prefix of it.  The eight handled signals also
    leave all of the text on the disk, but then the process has undefined behaviour:
    the handler closes the stream and [exit] runs [finish] on the closed stream.  Nothing
    else does.  The file only grows.  When [init] has failed, there is no file; the
    process can be killed, but it never ends by itself: its next access and its exit use
    the null stream, which is undefined. *)
Theorem tracker_lifecycle e evs :
  let l := accesses (start e) evs in
  if mutex_ok e && fopen_ok e then
    match run (start e) evs with
    | Running p => (exists d u, tracker_file p = Some (MkFILE d u false) /\ d ++ u = text l) /\
                   buffer p = [] /\ myThreadFun p = None /\
                   (forall n, n ∈ signals -> exists q, step (Running p) (Signal n) = Undefined q)
    | Exited code p => tracker_file p = Some (MkFILE (text l) [] true) /\ exists c, Exit c ∈ evs /\ code = Z.land c 255
    | Killed p => on_disk (Killed p) `prefix_of` text l /\ exists n, Signal n ∈ evs /\ n ∉ signals
    | Undefined p => tracker_file p = Some (MkFILE (text l) [] true) /\ exists n, Signal n ∈ evs /\ n ∈ signals
    end /\
    (forall evs1 evs2, evs = evs1 ++ evs2 -> on_disk (run (start e) evs1) `prefix_of` on_disk (run (start e) evs))
  else
    tracker_file (state_of (run (start e) evs)) = None /\
    match run (start e) evs with
    | Running p => (forall addr guid, exists q, step (Running p) (Access addr guid) = Undefined q) /\
                   (forall code, exists q, step (Running p) (Exit code) = Undefined q)
    | Exited _ _ => False
    | Killed _ | Undefined _ => True
    end.
Proof.
  intros l. destruct (mutex_ok e && fopen_ok e) eqn:He.
  - apply andb_true_iff in He as [Hm Hf]. pose proof (tracks_start e Hm Hf) as Hs. split.
    + pose proof (run_tracks [] _ evs Hs) as Ht. pose proof (run_cause [] _ evs Hs) as Hc.
      pose proof (on_disk_prefix _ _ Ht) as Hd. fold l in Ht, Hd. simpl in Ht, Hd.
      change (Running (low_level_init (addr_tracker_init e (MkProcess None [] false [] [])))) with (start e) in Hc.
      destruct (run (start e) evs) as [p|c p|p|p]; simpl in Ht, Hc |- *; [|done..].
      destruct Ht as (d & u & Hfile & Htext & Hb & Hh). split; [by exists d, u|]. split; [done|].
      split; [unfold myThreadFun; by rewrite Hb|]. intros n Hn. rewrite decide_True by (by rewrite Hh).
      destruct (handler_undefined p d u Hfile Hb) as (q & -> & _). by exists q.
    + intros evs1 evs2 ->. rewrite run_app. eapply run_disk, run_tracks, Hs.
  - pose proof (run_untracked _ evs (start_untracked e He)) as Hu.
    destruct (run (start e) evs) as [p|c p|p|p]; cbn in Hu |- *; [|done..]. destruct Hu as [Hf Hb]. split; [done|]. split.
    + intros addr guid. unfold track_addr, fprintf. rewrite Hf. by eexists.
    + intros code. destruct (exit_untracked p code Hf Hb) as (q & -> & _). by eexists.
Qed.

(** The name of the tracker file is never cut off (a process id is not negative). *)
Lemma print_digits_length fuel base n acc :
  (length (print_digits fuel base n acc) <= fuel + length acc)%nat.
Proof.
  revert n acc. induction fuel as [|fuel IH]; intros n acc; simpl; [lia|].
  case_decide; simpl; [lia|]. etrans; [apply IH|]. simpl. lia.
Qed.

Lemma tracker_file_name_fits p :
  tracker_file_name p = lit "pmem_addr_pid_" ++ print_dec p ++ lit ".dat".
Proof.
  unfold tracker_file_name. apply take_ge. rewrite !length_app.
  pose proof (print_digits_length 64 10 p []) as H. unfold print_dec.
  change (length (lit "pmem_addr_pid_")) with 14%nat. change (length (lit ".dat")) with 4%nat.
  change (length (@nil ascii)) with 0%nat in H. unfold MAX_FILE_NAME_SIZE. lia.
Qed.

(** ** Examples *)

Definition ex_system : system := MkSystem true true 4711.
Definition ex_events : list event :=
  [Access 4096 200; WriteBack 4; Background; Access 4104 201; Flush 4104; Dump; Access 8192 200; Signal 11; Exit 0].
Definition ex_accesses : list (Z * Z) := [(4096, 200); (4104, 201); (8192, 200)].

(** The process is killed by SIGSEGV, that is, the handler runs. *)
Lemma tracker_lifecycle_witness :
  (exists p, run (start ex_system) ex_events = Undefined p /\
     tracker_file p = Some (MkFILE (text ex_accesses) [] true)) /\
  on_disk (run (start ex_system) (take 6 ex_events)) `prefix_of` on_disk (run (start ex_system) ex_events) /\
  on_disk (run (start ex_system) (take 6 ex_events)) = text (take 2 ex_accesses).
Proof.
  destruct (tracker_lifecycle ex_system ex_events) as [H Hgrow].
  split; [|split; [by apply (Hgrow (take 6 ex_events) (drop 6 ex_events))|vm_compute; reflexivity]].
  assert (accesses (start ex_system) ex_events = ex_accesses) as Hl by (vm_compute; reflexivity).
  cbv zeta in H. rewrite Hl in H.
  destruct (run (start ex_system) ex_events) as [p|c p|p|p] eqn:E;
    [vm_compute in E; discriminate..|]. exists p. split; [reflexivity|apply H].
Defined.

End Tracker.
