(* ===== verification/AddrTrace.v ===== *)
(** * The address trace (analyzer/{include,lib}/Instrument/PmemAddrTrace)

    The tracker linked into the target program (file Tracker) prints one line per
    access to persistent memory, the address and the guid of the instruction; the
    reactor parses the lines, resolves the guids to instructions and computes offsets
    inside pools.  A pointer to a trace item is the index of the item in the
    list [_items], where every item is allocated once and added once. *)
From stdpp Require Import base list strings gmap.
From Stdlib Require Import Ascii.
From S2P Require Import Prelude Strings GuidMap Tracker.
Import Strings.

Module AddrTrace.

(** ** Trace items *)

(** What the trace needs of the matcher: [matchInstr] with fuzzy matching and
    ignored columns finds an instruction for a source line and an instruction
    string, and says whether the match is exact. *)
Class Matcher (Instr : Type) := {
  processed : bool;
  matchInstr : chars -> Z -> chars -> option (Instr * bool)
}.

Section Trace.
Context {Instr : Type}.

Record PmemAddrTraceItem := MkItem {
  addr_str : chars;
  addr : Z;
  guid : Z;
  pool_offset : Z;
  is_pool : bool;
  is_mmap : bool;
  var : option GuidMap.PmemVarGuidMapEntry;
  instr : option Instr }.

Definition new_item : PmemAddrTraceItem := MkItem [] 0 0 0 false false None None.

Definition FieldSeparator : chars := lit ",".
Definition EntryFields : nat := 2.
Definition PmemObjCreateCallInstrStr : chars := lit "call %struct.pmemobjpool* @pmemobj_create".
Definition PmemCreateCallInstrStr : chars := lit "call i8* @pmem_map_file".

(** The address string without its prefix. *)
Definition strip_0x (s : chars) : chars :=
  match s with
  | "0"%char :: x :: s' => if decide (x = "x"%char \/ x = "X"%char) then s' else s
  | _ => s
  end.

Inductive parsed := Item (item : PmemAddrTraceItem) | BadLine | ParseThrows.

(** The pool flags of an item whose variable has been found. *)
Definition classify (instruction : chars) : bool * bool :=
  match find_str PmemObjCreateCallInstrStr instruction 0 with
  | Some _ => (true, false)
  | None => match find_str PmemCreateCallInstrStr instruction 0 with
            | Some _ => (false, true)
            | None => (false, false)
            end
  end.

(** [parse] on a fresh item; [varMap] may be null. *)
Definition parse (item_str : chars) (varMap : option GuidMap.VarGuidMapTy) : parsed :=
  match splitList_str item_str FieldSeparator [] with
  | Some ([p0; p1], _) =>
    match str2fmt 64 true (strip_0x p0), str2fmt 64 false p1 with
    | Some a, Some g =>
      match varMap ≫= GuidMap.find g with
      | None => Item (MkItem p0 a g 0 false false None None)
      | Some v => let '(pool, mmap) := classify (GuidMap.instruction v) in
                  Item (MkItem p0 a g 0 pool mmap (Some v) None)
      end
    | _, _ => ParseThrows
    end
  | _ => BadLine
  end.

(** ** Traces *)

Record PmemAddrPool := MkPool { pool_addr : nat; addresses : list nat }.

Record PmemAddrTrace := MkTrace {
  items : list PmemAddrTraceItem;
  pool_addrs : list PmemAddrPool;
  guid_instr_map : gmap Z Instr;
  failed_guids : gmap Z chars }.

Definition new_trace : PmemAddrTrace := MkTrace [] [] ∅ ∅.

Definition starts_pool (item : PmemAddrTraceItem) : bool := is_pool item || is_mmap item.

Definition add (t : PmemAddrTrace) (item : PmemAddrTraceItem) : PmemAddrTrace :=
  MkTrace (items t ++ [item])
    (if starts_pool item then pool_addrs t ++ [MkPool (length (items t)) []] else pool_addrs t)
    (guid_instr_map t) (failed_guids t).

(** The two maps are kept. *)
Definition clear (t : PmemAddrTrace) : PmemAddrTrace :=
  MkTrace [] [] (guid_instr_map t) (failed_guids t).

Fixpoint read_items (ls : list chars) (varMap : option GuidMap.VarGuidMapTy) (t : PmemAddrTrace)
  : GuidMap.outcome * PmemAddrTrace :=
  match ls with
  | [] => (GuidMap.Returns true, t)
  | l :: ls' => match parse l varMap with
                | BadLine => read_items ls' varMap t
                | ParseThrows => (GuidMap.Throws, t)
                | Item item => read_items ls' varMap (add t item)
                end
  end.

(** The argument [ignoreBadLine] is not used. *)
Definition deserialize (file : option chars) (varMap : option GuidMap.VarGuidMapTy) (t : PmemAddrTrace)
  : GuidMap.outcome * PmemAddrTrace :=
  match file with
  | None => (GuidMap.Returns false, t)
  | Some text => read_items (GuidMap.getlines text) varMap t
  end.

(** ** Resolving instructions *)
Section Resolve.
Context `{M : !Matcher Instr}.

Definition set_instr (item : PmemAddrTraceItem) (i : Instr) : PmemAddrTraceItem :=
  MkItem (addr_str item) (addr item) (guid item) (pool_offset item) (is_pool item) (is_mmap item)
    (var item) (Some i).

(** The item, the two maps and the result. *)
Definition addressToInstruction (item : PmemAddrTraceItem) (known : gmap Z Instr) (failed : gmap Z chars)
  : PmemAddrTraceItem * gmap Z Instr * gmap Z chars * bool :=
  match var item with
  | None => (item, known, failed, false)
  | Some v =>
    match known !! guid item with
    | Some i => (set_instr item i, known, failed, true)
    | None =>
      match failed !! guid item with
      | Some _ => (item, known, failed, false)
      | None =>
        match matchInstr (GuidMap.source_file v) (GuidMap.line v) (GuidMap.instruction v) with
        | None => (item, known, <[guid item := addr_str item]> failed, false)
        | Some (i, _) => (set_instr item i, <[guid item := i]> known, failed, true)
        end
      end
    end
  end.

Fixpoint resolve_items (its : list PmemAddrTraceItem) (known : gmap Z Instr) (failed : gmap Z chars)
  : list PmemAddrTraceItem * gmap Z Instr * gmap Z chars :=
  match its with
  | [] => ([], known, failed)
  | item :: its' =>
    let '(item', known', failed', _) := addressToInstruction item known failed in
    let '(its'', known'', failed'') := resolve_items its' known' failed' in
    (item' :: its'', known'', failed'')
  end.

Definition addressesToInstructions (t : PmemAddrTrace) : bool * PmemAddrTrace :=
  if negb processed then (false, t)
  else let '(its, known, failed) := resolve_items (items t) (guid_instr_map t) (failed_guids t) in
       (true, MkTrace its (pool_addrs t) known failed).

End Resolve.

(** ** Pool offsets *)

Definition set_offset (item : PmemAddrTraceItem) (o : Z) : PmemAddrTraceItem :=
  MkItem (addr_str item) (addr item) (guid item) o (is_pool item) (is_mmap item) (var item) (instr item).

(** The state of the loop over the items: [last_pool] is the position of the pool
    in [_pool_addrs]. *)
Record offsets := MkOffsets {
  done_items : list PmemAddrTraceItem;
  pools : list PmemAddrPool;
  last_pool : option nat;
  last_pool_addr : Z;
  offset_obtained : bool }.

(** The position of the pool whose address item is [i]. *)
Fixpoint find_pool (i : nat) (ps : list PmemAddrPool) : option nat :=
  match ps with
  | [] => None
  | p :: ps' => if decide (pool_addr p = i) then Some O else S <$> find_pool i ps'
  end.

Definition push_address (i : nat) (p : PmemAddrPool) : PmemAddrPool :=
  MkPool (pool_addr p) (addresses p ++ [i]).

(** The loop body on an item; [None] is the early [return false]. *)
Definition offset_step (s : offsets) (item : PmemAddrTraceItem) : option offsets :=
  let i := length (done_items s) in
  if starts_pool item then
    p ← find_pool i (pools s);
    Some (MkOffsets (done_items s ++ [item]) (pools s) (Some p) (addr item) (offset_obtained s))
  else match last_pool s with
       | None => Some (MkOffsets (done_items s ++ [item]) (pools s) None (last_pool_addr s) (offset_obtained s))
       | Some p =>
         if decide (addr item >= last_pool_addr s)
         then Some (MkOffsets (done_items s ++ [set_offset item (u64 (addr item - last_pool_addr s))])
                      (alter (push_address i) p (pools s)) (Some p) (last_pool_addr s) true)
         else Some (MkOffsets (done_items s ++ [item]) (pools s) (Some p) (last_pool_addr s) (offset_obtained s))
       end.

(** The loop: the state at the end, and whether it was left early. *)
Fixpoint offset_loop (s : offsets) (its : list PmemAddrTraceItem) : offsets * bool :=
  match its with
  | [] => (s, false)
  | item :: its' => match offset_step s item with
                    | None => (s, true)
                    | Some s' => offset_loop s' its'
                    end
  end.

Definition calculatePoolOffsets (t : PmemAddrTrace) : bool * PmemAddrTrace :=
  match pool_addrs t with
  | [] => (false, t)
  | _ :: _ =>
    let '(s, early) := offset_loop (MkOffsets [] (pool_addrs t) None 0 false) (items t) in
    (negb early && offset_obtained s,
     MkTrace (done_items s ++ drop (length (done_items s)) (items t)) (pools s)
       (guid_instr_map t) (failed_guids t))
  end.


(** ** Pool offsets: the reference *)

Definition pool_at (its : list PmemAddrTraceItem) (i : nat) : bool :=
  match its !! i with Some item => starts_pool item | None => false end.

(** The pool items before position [n], and the last of them. *)
Definition pools_before (its : list PmemAddrTraceItem) (n : nat) : list nat :=
  filter (fun i => pool_at its i = true) (seq 0 n).
Definition owner (its : list PmemAddrTraceItem) (i : nat) : option nat := last (pools_before its i).

(** The pool of item [i] and its offset: the last pool item before it, if the
    address is not below that pool's. *)
Definition assigned (its : list PmemAddrTraceItem) (i : nat) : option (nat * Z) :=
  item ← its !! i;
  if starts_pool item then None
  else j ← owner its i;
       pool ← its !! j;
       if decide (addr pool <= addr item) then Some (j, addr item - addr pool) else None.

Definition belongs (its : list PmemAddrTraceItem) (j i : nat) : Prop := fst <$> assigned its i = Some j.

#[export] Instance belongs_dec its j i : Decision (belongs its j i).
Proof. unfold belongs. apply _. Defined.

(** What the loop does to an item and, up to position [n], to a pool. *)
Definition with_offset (its : list PmemAddrTraceItem) (i : nat) (item : PmemAddrTraceItem) : PmemAddrTraceItem :=
  match assigned its i with Some (_, o) => set_offset item o | None => item end.
Definition with_addresses (its : list PmemAddrTraceItem) (n : nat) (p : PmemAddrPool) : PmemAddrPool :=
  MkPool (pool_addr p) (addresses p ++ filter (belongs its (pool_addr p)) (seq 0 n)).

(** The invariant of a trace: there is one pool per pool item, in order. *)
Definition trace_ok (t : PmemAddrTrace) : Prop :=
  pool_addr <$> pool_addrs t = pools_before (items t) (length (items t)) /\
  Forall (fun item => in_u64 (addr item)) (items t).

Lemma pools_before_S its n :
  pools_before its (S n) = pools_before its n ++ if pool_at its n then [n] else [].
Proof.
  unfold pools_before. rewrite seq_S, filter_app. simpl. f_equal. rewrite filter_cons.
  destruct (pool_at its n); [by rewrite decide_True|by rewrite decide_False].
Qed.

Lemma pools_before_app its its' n :
  (n <= length its)%nat -> pools_before (its ++ its') n = pools_before its n.
Proof.
  induction n as [|n IH]; intros Hn; [done|]. rewrite !pools_before_S, IH by lia. f_equal.
  unfold pool_at. by rewrite lookup_app_l by lia.
Qed.

Lemma trace_ok_new : trace_ok new_trace.
Proof. split; [done|constructor]. Qed.

Lemma trace_ok_add t item : in_u64 (addr item) -> trace_ok t -> trace_ok (add t item).
Proof.
  intros Hi [Hp Ha]. split.
  - simpl. rewrite length_app, Nat.add_1_r, pools_before_S, pools_before_app by done.
    unfold pool_at. rewrite list_lookup_middle by done.
    destruct (starts_pool item); [by rewrite fmap_app, Hp|by rewrite app_nil_r].
  - simpl. apply Forall_app. by rewrite Forall_singleton.
Qed.

Lemma trace_ok_clear t : trace_ok (clear t).
Proof. split; [done|constructor]. Qed.

Lemma pools_before_NoDup its n : NoDup (pools_before its n).
Proof. apply NoDup_filter, NoDup_seq. Qed.

Lemma find_pool_elem i ps :
  i ∈ pool_addr <$> ps -> exists p P, find_pool i ps = Some p /\ ps !! p = Some P /\ pool_addr P = i.
Proof.
  induction ps as [|P ps IH]; [by intros ?%not_elem_of_nil|]. rewrite fmap_cons.
  intros Hi. cbn [find_pool]. destruct (decide (pool_addr P = i)); [by exists O, P|].
  apply elem_of_cons in Hi as [->|Hi]; [done|]. destruct (IH Hi) as (p & Q & -> & HQ & Hq).
  by exists (S p), Q.
Qed.

Lemma with_addresses_S its n p :
  with_addresses its (S n) p =
    if decide (belongs its (pool_addr p) n) then push_address n (with_addresses its n p)
    else with_addresses its n p.
Proof.
  unfold with_addresses, push_address. rewrite seq_S, filter_app, filter_cons. simpl.
  case_decide; simpl; [by rewrite app_assoc|by rewrite app_nil_r].
Qed.

Lemma addresses_unassigned its n (ps : list PmemAddrPool) :
  assigned its n = None -> with_addresses its (S n) <$> ps = with_addresses its n <$> ps.
Proof.
  intros Ha. apply list_fmap_ext. intros _ p _. rewrite with_addresses_S.
  rewrite decide_False; [done|]. unfold belongs. by rewrite Ha.
Qed.

Lemma addresses_assigned its n (ps : list PmemAddrPool) k P o :
  assigned its n = Some (pool_addr P, o) -> ps !! k = Some P -> NoDup (pool_addr <$> ps) ->
  with_addresses its (S n) <$> ps = alter (push_address n) k (with_addresses its n <$> ps).
Proof.
  intros Ha Hk Hnd. apply list_eq. intros i. rewrite list_lookup_fmap.
  destruct (decide (i = k)) as [->|Hne].
  - rewrite list_lookup_alter_eq, list_lookup_fmap, Hk. simpl. rewrite with_addresses_S.
    rewrite decide_True; [done|]. unfold belongs. by rewrite Ha.
  - rewrite list_lookup_alter_ne, list_lookup_fmap by done. destruct (ps !! i) as [Q|] eqn:HQ; [|done].
    simpl. rewrite with_addresses_S, decide_False; [done|]. unfold belongs. rewrite Ha. simpl.
    intros [= He]. apply Hne. apply (NoDup_lookup _ i k (pool_addr P) Hnd).
    + by rewrite list_lookup_fmap, HQ, He.
    + by rewrite list_lookup_fmap, Hk.
Qed.

(** Whether an item before position [n] gets an offset. *)
Definition any_assigned (its : list PmemAddrTraceItem) (n : nat) : bool :=
  existsb (fun i => bool_decide (is_Some (assigned its i))) (seq 0 n).

(** The state of the loop before item [n]. *)
Definition offset_inv (its : list PmemAddrTraceItem) (ps : list PmemAddrPool) (n : nat) (s : offsets) : Prop :=
  done_items s = imap (with_offset its) (take n its) /\
  pools s = with_addresses its n <$> ps /\
  offset_obtained s = any_assigned its n /\
  match owner its n with
  | None => last_pool s = None
  | Some j => exists p P item, last_pool s = Some p /\ ps !! p = Some P /\ pool_addr P = j /\
                its !! j = Some item /\ last_pool_addr s = addr item
  end.

Lemma imap_take_S {B} (its : list PmemAddrTraceItem) (f : nat -> PmemAddrTraceItem -> B) n item :
  its !! n = Some item -> imap f (take (S n) its) = imap f (take n its) ++ [f n item].
Proof.
  intros Hn. rewrite (take_S_r _ _ _ Hn), imap_app. simpl. f_equal.
  rewrite length_take, Nat.add_0_r. apply lookup_lt_Some in Hn. by rewrite Nat.min_l by lia.
Qed.

Lemma owner_S its n item :
  its !! n = Some item -> owner its (S n) = if starts_pool item then Some n else owner its n.
Proof.
  intros Hn. unfold owner. rewrite pools_before_S. unfold pool_at. rewrite Hn.
  destruct (starts_pool item); [apply last_snoc|by rewrite app_nil_r].
Qed.

Lemma any_assigned_S its n :
  any_assigned its (S n) = any_assigned its n || bool_decide (is_Some (assigned its n)).
Proof. unfold any_assigned. rewrite seq_S, existsb_app. simpl. by rewrite orb_false_r. Qed.

Lemma offset_step_ok its (ps : list PmemAddrPool) n item s :
  pool_addr <$> ps = pools_before its (length its) -> Forall (fun it => in_u64 (addr it)) its ->
  its !! n = Some item -> offset_inv its ps n s ->
  exists s', offset_step s item = Some s' /\ offset_inv its ps (S n) s'.
Proof.
  intros Hps Ha Hn (Hd & Hp & Ho & Hl).
  assert (length (done_items s) = n) as Hlen.
  { rewrite Hd, length_imap, length_take. apply lookup_lt_Some in Hn. lia. }
  assert (in_u64 (addr item)) as Hai by (by eapply Forall_lookup_1 in Ha).
  unfold offset_step, offset_inv. rewrite Hlen, (owner_S _ _ _ Hn), (imap_take_S _ _ _ _ Hn), <- Hd.
  destruct (starts_pool item) eqn:Hsp.
  - assert (assigned its n = None) as Has by (unfold assigned; rewrite Hn; simpl; by rewrite Hsp).
    assert (n ∈ pool_addr <$> ps) as Hin.
    { rewrite Hps. apply list_elem_of_filter. split; [unfold pool_at; by rewrite Hn|].
      apply elem_of_seq. apply lookup_lt_Some in Hn. lia. }
    destruct (find_pool_elem n (pools s)) as (p & P & Hfp & HP & HPn).
    { rewrite Hp, <- list_fmap_compose. exact Hin. }
    rewrite Hfp. simpl. eexists. split; [done|]. simpl. unfold with_offset. rewrite Has.
    rewrite addresses_unassigned by done. split; [done|]. split; [done|].
    rewrite any_assigned_S, Has, <- Ho, orb_false_r. split; [done|].
    rewrite Hp, list_lookup_fmap in HP. destruct (ps !! p) as [Q|] eqn:HQ; [|done].
    injection HP as <-. by exists p, Q, item.
  - destruct (owner its n) as [j|] eqn:Hown.
    + destruct Hl as (p & P & pit & Hlp & HP & HPj & Hpit & Hla). rewrite Hlp, Hla.
      assert (in_u64 (addr pit)) as Hpa by (by eapply Forall_lookup_1 in Ha).
      assert (assigned its n = if decide (addr pit <= addr item) then Some (j, addr item - addr pit) else None)
        as Has by (unfold assigned; rewrite Hn; simpl; by rewrite Hsp, Hown; simpl; rewrite Hpit).
      unfold with_offset. rewrite any_assigned_S, <- Ho. rewrite Has.
      destruct (decide (addr pit <= addr item)).
      * rewrite decide_True by lia. eexists. split; [done|]. simpl. small.
        split; [done|]. split.
        -- rewrite Hp. symmetry. eapply addresses_assigned; [rewrite Has, HPj; done|done|].
           rewrite Hps. apply pools_before_NoDup.
        -- split; [by rewrite orb_true_r|]. by exists p, P, pit.
      * rewrite decide_False by lia. eexists. split; [done|]. simpl.
        rewrite addresses_unassigned, orb_false_r by done. split; [done|]. split; [done|].
        split; [done|]. by exists p, P, pit.
    + assert (assigned its n = None) as Has by (unfold assigned; rewrite Hn; simpl; by rewrite Hsp, Hown).
      rewrite Hl. eexists. split; [done|]. simpl. unfold with_offset. rewrite Has.
      rewrite addresses_unassigned by done. rewrite any_assigned_S, Has, <- Ho, orb_false_r. done.
Qed.

Lemma offset_loop_ok its (ps : list PmemAddrPool) n s :
  pool_addr <$> ps = pools_before its (length its) -> Forall (fun it => in_u64 (addr it)) its ->
  offset_inv its ps n s ->
  exists s', offset_loop s (drop n its) = (s', false) /\ offset_inv its ps (n `max` length its) s'.
Proof.
  intros Hps Ha. remember (length its - n)%nat as k eqn:Hk. revert n s Hk.
  induction k as [|k IH]; intros n s Hk Hinv.
  - exists s. rewrite drop_ge by lia. rewrite Nat.max_l by lia. done.
  - destruct (lookup_lt_is_Some_2 its n) as [item Hn]; [lia|].
    rewrite (drop_S _ _ _ Hn). simpl.
    destruct (offset_step_ok its ps n item s Hps Ha Hn Hinv) as (s' & -> & Hinv').
    destruct (IH (S n) s') as (s'' & H1 & H2); [lia|done|]. exists s''. split; [done|].
    by replace (n `max` length its)%nat with (S n `max` length its)%nat by lia.
Qed.

Lemma assigned_no_pool its i : pools_before its (length its) = [] -> assigned its i = None.
Proof.
  intros Hno. unfold assigned. destruct (its !! i) as [item|] eqn:Hi; [simpl|done].
  destruct (starts_pool item); [done|]. unfold owner.
  destruct (pools_before its i) as [|j l] eqn:E; [done|exfalso].
  assert (j ∈ pools_before its i) as Hj by (rewrite E; by left).
  apply not_elem_of_nil with j. rewrite <- Hno.
  apply list_elem_of_filter in Hj as [? Hj]. apply list_elem_of_filter. split; [done|].
  apply elem_of_seq in Hj. apply elem_of_seq. apply lookup_lt_Some in Hi. lia.
Qed.

Lemma calculatePoolOffsets_ok t :
  trace_ok t ->
  calculatePoolOffsets t =
    (any_assigned (items t) (length (items t)),
     MkTrace (imap (with_offset (items t)) (items t))
       (with_addresses (items t) (length (items t)) <$> pool_addrs t)
       (guid_instr_map t) (failed_guids t)).
Proof.
  intros [Hps Ha]. unfold calculatePoolOffsets. set (its := items t) in *.
  destruct (offset_loop_ok its (pool_addrs t) 0 (MkOffsets [] (pool_addrs t) None 0 false))
    as (s & Hloop & Hd & Hp & Ho & _); [done|done| |].
  { unfold offset_inv, owner. simpl. split; [done|]. split; [|done].
    rewrite <- (list_fmap_id (pool_addrs t)) at 1. apply list_fmap_ext. intros _ [p l] _.
    unfold with_addresses. simpl. by rewrite app_nil_r. }
  rewrite drop_0 in Hloop. simpl in Hd, Hp, Ho. rewrite take_ge in Hd by done.
  destruct (pool_addrs t) as [|p ps] eqn:Hpe.
  - pose proof (fun i => assigned_no_pool its i (eq_sym Hps)) as Has.
    f_equal.
    + symmetry. apply not_true_is_false. intros (i & _ & Hi)%existsb_exists.
      apply bool_decide_eq_true in Hi as [? Hi]. by rewrite Has in Hi.
    + destruct t as [its' ? ? ?]. subst its. simpl in *. subst. f_equal.
      symmetry. apply list_eq. intros i. rewrite list_lookup_imap. unfold with_offset.
      rewrite Has. by destruct (its' !! i).
  - rewrite Hloop, Hd, Hp, Ho. simpl. f_equal. f_equal.
    rewrite length_imap, drop_ge by done. by rewrite app_nil_r.
Qed.

(** C33. [calculatePoolOffsets] gives each item the distance of its address from
    the last pool (or mapped file) address before it in the trace, when it is not
    below that address, appends the item to that pool, leaves every other item
    alone, and returns whether any item got an offset.  It never takes its early
    exit on a trace built by [add]. *)
Theorem calculatePoolOffsets_correct t :
  trace_ok t ->
  calculatePoolOffsets t =
    (any_assigned (items t) (length (items t)),
     MkTrace (imap (with_offset (items t)) (items t))
       (with_addresses (items t) (length (items t)) <$> pool_addrs t)
       (guid_instr_map t) (failed_guids t)).
Proof. apply calculatePoolOffsets_ok. Qed.

(** ** Resolving through the maps is resolving directly *)
Section Resolved.
Context `{M : !Matcher Instr} (vars : Z -> option GuidMap.PmemVarGuidMapEntry).

Definition direct (v : GuidMap.PmemVarGuidMapEntry) : option Instr :=
  fst <$> matchInstr (GuidMap.source_file v) (GuidMap.line v) (GuidMap.instruction v).

Definition resolve (item : PmemAddrTraceItem) : PmemAddrTraceItem :=
  match var item ≫= direct with Some i => set_instr item i | None => item end.

(** The maps hold results of the matcher for the variables of their guids. *)
Definition cache_ok (known : gmap Z Instr) (failed : gmap Z chars) : Prop :=
  (forall g i, known !! g = Some i -> vars g ≫= direct = Some i) /\
  (forall g s, failed !! g = Some s -> vars g ≫= direct = None).

Definition vars_ok (item : PmemAddrTraceItem) : Prop := var item = vars (guid item).

(** The guids the maps answer for. *)
Definition answered (known : gmap Z Instr) (failed : gmap Z chars) (item : PmemAddrTraceItem) : Prop :=
  is_Some (var item) -> is_Some (known !! guid item) \/ is_Some (failed !! guid item).

Lemma addressToInstruction_ok item known failed :
  vars_ok item -> cache_ok known failed ->
  exists known' failed', addressToInstruction item known failed =
      (resolve item, known', failed', bool_decide (is_Some (var item ≫= direct))) /\
    cache_ok known' failed' /\ answered known' failed' item /\
    known ⊆ known' /\ failed ⊆ failed'.
Proof.
  intros Hv [Hk Hf]. unfold vars_ok in Hv. unfold addressToInstruction, resolve, answered.
  destruct (var item) as [v|] eqn:Ev; [simpl|by exists known, failed].
  destruct (known !! guid item) as [i|] eqn:Ek.
  { apply Hk in Ek as Hd. rewrite <- Hv in Hd. simpl in Hd. rewrite Hd.
    exists known, failed. split; [done|]. split; [by split|]. split; eauto. }
  destruct (failed !! guid item) as [s|] eqn:Ef.
  { apply Hf in Ef as Hd. rewrite <- Hv in Hd. simpl in Hd. rewrite Hd.
    exists known, failed. split; [done|]. split; [by split|]. split; eauto. }
  assert (direct v = fst <$> matchInstr (GuidMap.source_file v) (GuidMap.line v) (GuidMap.instruction v))
    as Hd by done.
  destruct (matchInstr _ _ _) as [[i ex]|]; simpl in Hd; rewrite Hd.
  - exists (<[guid item := i]> known), failed. split; [done|]. split_and!.
    + split; [|done]. intros g j [[<- <-]|[_ Hj]]%lookup_insert_Some; [|by apply Hk].
      by rewrite <- Hv.
    + rewrite lookup_insert_eq. eauto.
    + by apply insert_subseteq.
    + done.
  - exists known, (<[guid item := addr_str item]> failed). split; [done|]. split_and!.
    + split; [done|]. intros g j [[<- <-]|[_ Hj]]%lookup_insert_Some; [|by eapply Hf].
      by rewrite <- Hv.
    + rewrite lookup_insert_eq. eauto.
    + done.
    + by apply insert_subseteq.
Qed.

Lemma resolve_items_ok its known failed :
  Forall vars_ok its -> cache_ok known failed ->
  exists known' failed', resolve_items its known failed = (resolve <$> its, known', failed') /\
    cache_ok known' failed' /\ Forall (answered known' failed') its /\
    known ⊆ known' /\ failed ⊆ failed'.
Proof.
  revert known failed. induction its as [|item its IH]; intros known failed Hv Hc; simpl.
  { by exists known, failed. }
  apply Forall_cons in Hv as [Hv Hvs].
  destruct (addressToInstruction_ok item known failed Hv Hc) as (k1 & f1 & -> & Hc1 & Ha1 & Hk1 & Hf1).
  destruct (IH k1 f1 Hvs Hc1) as (k2 & f2 & -> & Hc2 & Ha2 & Hk2 & Hf2).
  exists k2, f2. split; [done|]. split; [done|]. split.
  - constructor; [|done]. intros Hs. destruct (Ha1 Hs) as [[x Hx]|[x Hx]].
    + left. exists x. by eapply lookup_weaken.
    + right. exists x. by eapply lookup_weaken.
  - split; by etrans.
Qed.

Lemma addressesToInstructions_ok t :
  Forall vars_ok (items t) -> cache_ok (guid_instr_map t) (failed_guids t) ->
  if processed then
    exists known failed,
      addressesToInstructions t = (true, MkTrace (resolve <$> items t) (pool_addrs t) known failed) /\
      cache_ok known failed /\ Forall (answered known failed) (items t)
  else addressesToInstructions t = (false, t).
Proof.
  intros Hv Hc. unfold addressesToInstructions. destruct processed; simpl; [|done].
  destruct (resolve_items_ok _ _ _ Hv Hc) as (k & f & -> & Hc' & Ha & _).
  exists k, f. split; [done|]. by split.
Qed.

(** The maps of known and failed guids are only a cache: when the items carry
    the variables of their guids, every item ends up with the instruction the
    matcher gives for its variable, or keeps its field when there is none, the
    maps stay consistent, and they answer for every guid that has a variable.
    Without a processed matcher nothing happens. *)
Theorem addressesToInstructions_correct t :
  Forall vars_ok (items t) -> cache_ok (guid_instr_map t) (failed_guids t) ->
  if processed then
    exists known failed,
      addressesToInstructions t = (true, MkTrace (resolve <$> items t) (pool_addrs t) known failed) /\
      cache_ok known failed /\ Forall (answered known failed) (items t)
  else addressesToInstructions t = (false, t).
Proof. apply addressesToInstructions_ok. Qed.

End Resolved.

(** ** From the tracker to the trace *)

(** The item of an access. *)
Definition item_of (varMap : option GuidMap.VarGuidMapTy) (a : Z * Z) : PmemAddrTraceItem :=
  let v := varMap ≫= GuidMap.find a.2 in
  let c := from_option (classify ∘ GuidMap.instruction) (false, false) v in
  MkItem (print_ptr a.1) a.1 a.2 0 c.1 c.2 v None.

Definition access_ok (a : Z * Z) : Prop := 0 <= a.1 < 2 ^ 64 /\ 0 <= a.2 < 2 ^ 32.

#[export] Instance access_ok_dec a : Decision (access_ok a).
Proof. unfold access_ok. apply _. Defined.

Definition access_line (a : Z * Z) : chars := print_ptr a.1 ++ lit "," ++ print_dec a.2.

Lemma print_access_line a : Tracker.print_access a = access_line a ++ [GuidMap.newline].
Proof. unfold Tracker.print_access, access_line. by rewrite <- !app_assoc. Qed.

Lemma text_lines accesses :
  Tracker.text accesses = concat ((fun l => l ++ [GuidMap.newline]) <$> (access_line <$> accesses)).
Proof.
  unfold Tracker.text. f_equal. rewrite <- list_fmap_compose. apply list_fmap_ext.
  intros _ a _. apply print_access_line.
Qed.

Lemma hex_free n c : 0 <= n -> digit_val true c = None -> c ∉ print_digits 64 16 n [].
Proof.
  intros Hn Hc Hin. pose proof (print_digits_digit true 64 n Hn) as H.
  eapply Forall_forall in H as [d Hd]; [|exact Hin]. by rewrite Hc in Hd.
Qed.

Lemma print_ptr_free n c :
  0 <= n -> digit_val true c = None -> c ∉ lit "0x(nil)" -> c ∉ print_ptr n.
Proof.
  intros Hn Hc Hl. unfold print_ptr. case_decide.
  - intros H'. apply Hl. revert H'. vm_compute. set_solver.
  - rewrite not_elem_of_app. split; [|by apply hex_free].
    intros H'. apply Hl. revert H'. vm_compute. set_solver.
Qed.

Lemma access_line_free a : access_ok a -> GuidMap.newline ∉ access_line a.
Proof.
  intros [? ?]. unfold access_line. rewrite !not_elem_of_app. split_and!.
  - apply print_ptr_free; [lia|done|]. by vm_compute; set_solver.
  - by vm_compute; set_solver.
  - apply GuidMap.print_dec_free. lia.
Qed.

Lemma clean_free1 c s : c ∉ s -> clean [c] s.
Proof.
  unfold clean. induction s as [|x s IH]; intros Hc.
  - simpl. by rewrite bool_decide_eq_true_2 by done.
  - cbn [app find_sub starts length]. rewrite bool_decide_eq_false_2 by set_solver.
    cbn [andb]. rewrite IH by set_solver. done.
Qed.

Lemma split_access a :
  access_ok a -> exists n, splitList_str (access_line a) FieldSeparator [] = Some ([print_ptr a.1; print_dec a.2], n).
Proof.
  intros [Ha Hg]. eexists.
  apply (splitList_str_join FieldSeparator [print_ptr a.1; print_dec a.2]); [done|done| | |].
  - intros H. by apply app_eq_nil in H as [_ ?].
  - apply Forall_singleton, clean_free1, print_ptr_free; [lia|done|]. by vm_compute; set_solver.
  - apply GuidMap.find_sub_free. intros H.
    assert (Forall (is_digit false) (print_dec a.2)) as Hd by (apply print_digits_digit; lia).
    eapply Forall_forall in Hd as [d Hd]; [|exact H]. vm_compute in Hd. discriminate.
Qed.

Lemma parse_access varMap a :
  access_ok a -> parse (access_line a) varMap = if decide (a.1 = 0) then ParseThrows else Item (item_of varMap a).
Proof.
  intros Hok. destruct (split_access a Hok) as [n Hs]. destruct Hok as [Ha Hg].
  unfold parse. rewrite Hs.
  assert (str2fmt 64 false (print_dec a.2) = Some a.2) as -> by (apply (str2fmt_print 64 false); lia).
  case_decide as Hz.
  - unfold print_ptr. rewrite decide_True by done. by vm_compute.
  - assert (strip_0x (print_ptr a.1) = print_digits 64 (radix true) a.1 []) as ->.
    { unfold print_ptr. by rewrite decide_False. }
    rewrite (str2fmt_print 64 true) by lia. unfold item_of.
    destruct (varMap ≫= GuidMap.find a.2) as [v|]; simpl; [|done].
    by destruct (classify (GuidMap.instruction v)).
Qed.

(** Reading the lines of accesses none of which is to the null pointer. *)
Lemma read_accesses varMap pre rest t :
  Forall access_ok pre -> Forall (fun a => a.1 <> 0) pre ->
  read_items ((access_line <$> pre) ++ rest) varMap t =
    read_items rest varMap (foldl add t (item_of varMap <$> pre)).
Proof.
  revert t. induction pre as [|a pre IH]; intros t Hok Hnz; simpl; [done|].
  apply Forall_cons in Hok as [Ha Hok]. apply Forall_cons in Hnz as [Hz Hnz].
  rewrite parse_access, decide_False by done. by apply IH.
Qed.

Lemma tracker_file_parsed varMap pre rest t :
  Forall access_ok (pre ++ rest) -> Forall (fun a => a.1 <> 0) pre ->
  (rest = [] \/ exists g post, rest = (0, g) :: post) ->
  deserialize (Some (Tracker.trace_file (pre ++ rest))) varMap t =
    (match rest with [] => GuidMap.Returns true | _ => GuidMap.Throws end,
     foldl add t (item_of varMap <$> pre)).
Proof.
  intros Hok Hnz Hrest. unfold deserialize. rewrite Tracker.trace_file_text, text_lines, GuidMap.getlines_lines.
  - apply Forall_app in Hok as [Hok Hok']. rewrite fmap_app, read_accesses by done.
    destruct Hrest as [->|(g & post & ->)]; [done|]. apply Forall_cons in Hok' as [Hg _].
    simpl. by rewrite parse_access.
  - apply Forall_fmap. eapply Forall_impl; [exact Hok|]. intros a. apply access_line_free.
Qed.

(** C34. What the tracker writes the reactor reads: the file of a run that makes the
    given accesses, none of them to the null pointer, is parsed into exactly those
    accesses, in order, each with the address, the guid and the variable of the
    guid.  An access to the null pointer is printed as [(nil)] and the parser's
    exception ends the reading right there. *)
Theorem tracker_parse_roundtrip varMap pre rest t :
  Forall access_ok (pre ++ rest) -> Forall (fun a => a.1 <> 0) pre ->
  (rest = [] \/ exists g post, rest = (0, g) :: post) ->
  deserialize (Some (Tracker.trace_file (pre ++ rest))) varMap t =
    (match rest with [] => GuidMap.Returns true | _ => GuidMap.Throws end,
     foldl add t (item_of varMap <$> pre)).
Proof. apply tracker_file_parsed. Qed.

(** The items read satisfy the hypotheses of the other operations. *)
Lemma vars_ok_item_of varMap a : vars_ok (fun g => varMap ≫= GuidMap.find g) (item_of varMap a).
Proof. done. Qed.

(** Adding items touches the list and the pools only. *)
Lemma items_add_all t l :
  items (foldl add t l) = items t ++ l /\ guid_instr_map (foldl add t l) = guid_instr_map t /\
  failed_guids (foldl add t l) = failed_guids t.
Proof.
  revert t. induction l as [|x l IH]; intros t; cbn [foldl]; [by rewrite app_nil_r|].
  destruct (IH (add t x)) as (-> & -> & ->). unfold add. cbn. by rewrite <- app_assoc.
Qed.

Lemma trace_ok_read varMap accesses t :
  Forall access_ok accesses -> trace_ok t -> trace_ok (foldl add t (item_of varMap <$> accesses)).
Proof.
  revert t. induction accesses as [|a l IH]; intros t Hok Ht; simpl; [done|].
  apply Forall_cons in Hok as [[Ha _] Hok]. apply IH; [done|]. by apply trace_ok_add.
Qed.

End Trace.

(** ** Examples *)

Definition ex_varMap : GuidMap.VarGuidMapTy :=
  [(1, GuidMap.MkEntry 1 [] (lit "a.c") (lit "main") 5 (lit "%9 = call i8* @pmem_map_file(i8* %p)"));
   (2, GuidMap.MkEntry 2 [] (lit "a.c") (lit "main") 6 (lit "store i32 %x, i32* %p"))].

Definition ex_accesses : list (Z * Z) := [(4096, 2); (8192, 1); (8200, 2); (4096, 2); (8300, 7)].

Definition ex_trace : PmemAddrTrace (Instr := nat) :=
  foldl add new_trace (item_of (Some ex_varMap) <$> ex_accesses).

#[export] Instance ex_matcher : Matcher nat := {
  processed := true;
  matchInstr := fun _ l _ => if decide (l = 6) then Some (17%nat, true) else None
}.

Lemma calculatePoolOffsets_correct_witness :
  trace_ok ex_trace /\
  fst (calculatePoolOffsets ex_trace) = true /\
  pool_offset <$> items (snd (calculatePoolOffsets ex_trace)) = [0; 0; 8; 0; 108] /\
  addresses <$> pool_addrs (snd (calculatePoolOffsets ex_trace)) = [[2%nat; 4%nat]].
Proof.
  assert (trace_ok ex_trace) as H.
  { split; [vm_compute; reflexivity|]. apply (bool_decide_unpack _). vm_compute. reflexivity. }
  split; [exact H|]. rewrite (calculatePoolOffsets_correct ex_trace H). vm_compute.
  split; [reflexivity|]. split; reflexivity.
Defined.

Lemma addressesToInstructions_correct_witness :
  exists known failed,
    addressesToInstructions ex_trace =
      (true, MkTrace (resolve <$> items ex_trace) (pool_addrs ex_trace) known failed) /\
    instr <$> (resolve <$> items ex_trace) = [Some 17%nat; None; Some 17%nat; Some 17%nat; None].
Proof.
  destruct (addressesToInstructions_correct (fun g => GuidMap.find g ex_varMap) ex_trace) as (k & f & H & _).
  - repeat constructor.
  - split; intros g ? H; vm_compute in H; destruct g; discriminate.
  - exists k, f. split; [exact H|vm_compute; reflexivity].
Defined.

Lemma tracker_parse_roundtrip_witness :
  deserialize (Some (Tracker.trace_file (ex_accesses ++ [(0, 2)]))) (Some ex_varMap) new_trace =
    (GuidMap.Throws, ex_trace).
Proof.
  apply (tracker_parse_roundtrip (Some ex_varMap) ex_accesses [(0, 2)] new_trace).
  - apply (bool_decide_unpack _). vm_compute. reflexivity.
  - apply (bool_decide_unpack _). vm_compute. reflexivity.
  - right. by exists 2, [].
Defined.

End AddrTrace.
