(* ===== verification/TraceType.v ===== *)
(** * The type of address traces (analyzer/lib/Instrument/PmemAddrTrace.cpp)

    The invariant that every trace the program builds satisfies, whatever lines it
    reads and in whatever order it reads, clears, computes offsets and resolves
    instructions: its numbers are 64-bit, its pointers point to items of the trace,
    and every pool holds addresses of its own. *)
From stdpp Require Import base list strings gmap relations.
From Stdlib Require Import Ascii.
From S2P Require Import Prelude Strings GuidMap Tracker AddrTrace.
Import Strings AddrTrace.

Module TraceType.

(** ** The numbers the parser gives *)

Lemma digit_val_nonneg hex c d : digit_val hex c = Some d -> 0 <= d.
Proof. unfold digit_val. repeat case_decide; destruct hex; intros Hd; simplify_eq; lia. Qed.

Lemma read_digits_nonneg hex acc some s : 0 <= acc -> 0 <= (read_digits hex acc some s).1.
Proof.
  revert acc some. induction s as [|c s IH]; intros acc some Ha; [done|]. cbn [read_digits].
  destruct (digit_val hex c) as [d|] eqn:Hd; [|done]. apply digit_val_nonneg in Hd. apply IH. destruct hex; cbn; lia.
Qed.

Lemma str2fmt_range bits hex s n : 0 <= bits -> str2fmt bits hex s = Some n -> 0 <= n < 2 ^ bits.
Proof.
  intros Hb. unfold str2fmt. set (p := match drop_while isspace s with [] => _ | _ => _ end). destruct p as [neg u].
  pose proof (read_digits_nonneg hex 0 false (skip_0x hex u) ltac:(lia)) as Hr.
  destruct (read_digits hex 0 false (skip_0x hex u)) as [v some]. cbn [fst] in Hr. case_decide as Hc; [done|].
  assert (v < 2 ^ bits) by (destruct (decide (2 ^ bits <= v)); [exfalso; apply Hc; by right|lia]).
  destruct neg; intros [= <-]; [|lia]. apply Z.mod_pos_bound. by apply Z.pow_pos_nonneg.
Qed.

Section Type_.
Context {Instr : Type} `{M : !Matcher Instr}.
Abbreviation trace := (PmemAddrTrace (Instr := Instr)).
Abbreviation item := (PmemAddrTraceItem (Instr := Instr)).

(** ** Well-typed traces *)

Record item_typed (it : item) : Prop := MkItemTyped {
  ty_addr : in_u64 (addr it);
  ty_guid : in_u64 (guid it);
  ty_offset : in_u64 (pool_offset it);
  ty_flags : (is_pool it, is_mmap it) = from_option (classify ∘ GuidMap.instruction) (false, false) (var it);
  ty_instr : is_Some (instr it) -> is_Some (var it);
  ty_pool : starts_pool it = true -> pool_offset it = 0
}.

(** Item [i] lies in the pool [j]: it comes after it, with no other pool between, is
    not below it, and has its distance as offset. *)
Definition address_typed (its : list item) (j i : nat) : Prop :=
  exists it pool, its !! i = Some it /\ its !! j = Some pool /\ starts_pool it = false /\ owner its i = Some j /\
    addr pool <= addr it /\ pool_offset it = addr it - addr pool.

Record typed (t : trace) : Prop := MkTyped {
  ty_items : Forall item_typed (items t);
  ty_pools : pool_addr <$> pool_addrs t = pools_before (items t) (length (items t));
  ty_addresses : forall p i, p ∈ pool_addrs t -> i ∈ addresses p -> address_typed (items t) (pool_addr p) i
}.

(** The operations on a trace; [step_add] is a line the monitor reads. *)
Inductive step : trace -> trace -> Prop :=
  | step_add t line varMap it : parse line varMap = Item it -> step t (add t it)
  | step_read t file varMap : step t (deserialize file varMap t).2
  | step_clear t : step t (clear t)
  | step_offsets t : step t (calculatePoolOffsets t).2
  | step_resolve t : step t (addressesToInstructions t).2.

(** ** Preservation *)

Lemma parse_typed line varMap it : parse line varMap = Item it -> item_typed it.
Proof.
  unfold parse. destruct (splitList_str line FieldSeparator []) as [[[|p0 [|p1 [|]]] ?]|]; try done.
  destruct (str2fmt 64 true (strip_0x p0)) as [a|] eqn:Ha; [|done]. destruct (str2fmt 64 false p1) as [g|] eqn:Hg; [|done].
  apply str2fmt_range in Ha; [|lia]. apply str2fmt_range in Hg; [|lia]. destruct (varMap ≫= GuidMap.find g) as [v|].
  - destruct (classify (GuidMap.instruction v)) as [pool mmap] eqn:Hc. intros [= <-]. by constructor; cbn; rewrite ?Hc.
  - intros [= <-]. constructor; cbn; done.
Qed.

Lemma owner_app (its its' : list item) n : (n <= length its)%nat -> owner (its ++ its') n = owner its n.
Proof. intros Hn. unfold owner. by rewrite pools_before_app. Qed.

Lemma address_typed_app its its' j i : address_typed its j i -> address_typed (its ++ its') j i.
Proof.
  intros (it & pool & Hi & Hj & Hs & Ho & Hle & Hoff). exists it, pool.
  split; [by apply lookup_app_l_Some|]. split; [by apply lookup_app_l_Some|]. split; [done|].
  rewrite owner_app by (apply lookup_lt_Some in Hi; lia). done.
Qed.

Lemma typed_add t it : item_typed it -> typed t -> typed (add t it).
Proof.
  intros Hit [Hi Hp Ha]. constructor; cbn [items pool_addrs add].
  - apply Forall_app. by rewrite Forall_singleton.
  - rewrite length_app, Nat.add_1_r, pools_before_S, pools_before_app by done. unfold pool_at.
    rewrite list_lookup_middle by done. destruct (starts_pool it); [by rewrite fmap_app, Hp|by rewrite app_nil_r].
  - intros p i Hin Hia. apply address_typed_app. destruct (starts_pool it); [|by apply Ha].
    apply elem_of_app in Hin as [Hin| ->%list_elem_of_singleton]; [by apply Ha|]. by apply elem_of_nil in Hia.
Qed.

Lemma typed_read ls varMap t : typed t -> typed (read_items ls varMap t).2.
Proof.
  revert t. induction ls as [|l ls IH]; intros t Ht; [done|]. cbn [read_items].
  destruct (parse l varMap) as [it| |] eqn:Hp; [|by apply IH|done].
  apply IH, typed_add; [by eapply parse_typed|done].
Qed.

Lemma typed_ok t : typed t -> trace_ok t.
Proof. intros [Hi Hp _]. split; [done|]. eapply Forall_impl; [exact Hi|]. by intros it []. Qed.

(** A trace whose items keep everything but offsets and instructions. *)
Definition same_addresses (its its' : list item) : Prop :=
  forall i, (fun it => (addr it, starts_pool it)) <$> its !! i = (fun it => (addr it, starts_pool it)) <$> its' !! i.

Lemma pools_before_same (its its' : list item) n : same_addresses its its' -> pools_before its' n = pools_before its n.
Proof.
  intros H. unfold pools_before. apply list_filter_iff. intros i. unfold pool_at. specialize (H i).
  destruct (its !! i), (its' !! i); try done. cbn in H. by injection H as _ ->.
Qed.

Lemma same_owner (its its' : list item) i : same_addresses its its' -> owner its' i = owner its i.
Proof. intros H. unfold owner. by rewrite (pools_before_same its its'). Qed.

(** The items keep their order, addresses and kinds in both computations. *)
Lemma with_offset_same its : same_addresses its (imap (with_offset its) its).
Proof.
  intros i. rewrite list_lookup_imap. destruct (its !! i) as [it|]; [|done]. cbn. unfold with_offset.
  by destruct (assigned its i) as [[? ?]|].
Qed.

Lemma typed_offsets t : typed t -> typed (calculatePoolOffsets t).2.
Proof.
  intros Ht. pose proof Ht as [Hi Hp Ha]. rewrite calculatePoolOffsets_ok by (by apply typed_ok). cbn [snd].
  pose proof (with_offset_same (items t)) as Hsame. set (its := items t) in *.
  assert (forall j i, fst <$> assigned its i = Some j -> address_typed (imap (with_offset its) its) j i) as Hnew.
  { intros j i. unfold assigned. destruct (its !! i) as [it|] eqn:Hit; [|done]. cbn [mbind option_bind].
    destruct (starts_pool it) eqn:Hs; [done|]. destruct (owner its i) as [k|] eqn:Ho; [|done]. cbn [mbind option_bind].
    destruct (its !! k) as [pool|] eqn:Hk; [|done]. cbn [mbind option_bind]. case_decide as Hle; [|done]. cbn. intros [= ->].
    assert (assigned its i = Some (j, addr it - addr pool)) as Has.
    { unfold assigned. rewrite Hit. cbn [mbind option_bind]. rewrite Hs, Ho. cbn [mbind option_bind]. rewrite Hk. cbn. by rewrite decide_True. }
    exists (set_offset it (addr it - addr pool)), (with_offset its j pool). rewrite !list_lookup_imap, Hit, Hk. cbn.
    unfold with_offset at 1. rewrite Has. split; [done|]. split; [done|]. split; [done|].
    rewrite (same_owner its) by done. split; [done|]. unfold with_offset. by destruct (assigned its j) as [[? ?]|]. }
  constructor; cbn [items pool_addrs].
  - apply Forall_lookup. intros i it. rewrite list_lookup_imap. destruct (its !! i) as [it0|] eqn:Hit; [|done]. cbn. intros [= <-].
    rewrite Forall_lookup in Hi. pose proof (Hi i it0 Hit) as [H1 H2 H3 H4 H5 H6]. unfold with_offset.
    destruct (assigned its i) as [[j o]|] eqn:Has; [|done].
    destruct (Hnew j i) as (it & pool & Hl & Hj & Hs & _ & Hle & Hoff); [by rewrite Has|].
    rewrite list_lookup_imap, Hit in Hl. cbn in Hl. unfold with_offset in Hl. rewrite Has in Hl. injection Hl as <-.
    constructor; try done; [|by intros Hs'; rewrite Hs' in Hs]. rewrite Hoff. cbn.
    rewrite list_lookup_imap in Hj. destruct (its !! j) as [pool0|] eqn:Hpj; [|done]. cbn in Hj. injection Hj as <-.
    pose proof (ty_addr _ (Hi j pool0 Hpj)) as Hpa. assert (addr (with_offset its j pool0) = addr pool0) as Hpe.
    { unfold with_offset. by destruct (assigned its j) as [[? ?]|]. }
    rewrite Hpe in *. cbn in Hle. lia.
  - rewrite length_imap, (pools_before_same its) by done. rewrite <- Hp, <- list_fmap_compose. by apply list_fmap_ext.
  - intros p i (p0 & -> & Hp0)%list_elem_of_fmap. cbn [pool_addr addresses with_addresses].
    intros [Hia|[Hb _]%list_elem_of_filter]%elem_of_app; [|by apply Hnew].
    pose proof (Ha p0 i Hp0 Hia) as (it & pool & Hit & Hpl & Hs & Ho & Hle & _). apply Hnew.
    unfold assigned. fold its in Hit, Hpl, Ho. rewrite Hit. cbn [mbind option_bind]. rewrite Hs, Ho. cbn [mbind option_bind]. rewrite Hpl. cbn. by rewrite decide_True.
Qed.

(** Resolving sets instructions only. *)
Definition resolved_item (it it' : item) : Prop :=
  it' = it \/ exists i, it' = set_instr it i /\ is_Some (var it).

Lemma resolve_items_keep its known failed : Forall2 resolved_item its (resolve_items its known failed).1.1.
Proof.
  revert known failed. induction its as [|it its IH]; intros known failed; [constructor|]. cbn [resolve_items].
  destruct (addressToInstruction it known failed) as [[[it' k'] f'] b] eqn:E.
  specialize (IH k' f'). destruct (resolve_items its k' f') as [[its' k''] f'']. constructor; [|exact IH].
  unfold addressToInstruction in E. destruct (var it) as [v|] eqn:Hv; [|left; congruence].
  destruct (known !! guid it) as [i|]; [injection E as <-; right; by eexists|].
  destruct (failed !! guid it); [left; congruence|]. destruct (matchInstr _ _ _) as [[i ex]|]; [|left; congruence].
  injection E as <-. right. by eexists.
Qed.

Lemma typed_resolve t : typed t -> typed (addressesToInstructions t).2.
Proof.
  intros Ht. pose proof Ht as [Hi Hp Ha]. unfold addressesToInstructions. destruct (negb processed); [done|].
  pose proof (resolve_items_keep (items t) (guid_instr_map t) (failed_guids t)) as Hk.
  destruct (resolve_items _ _ _) as [[its k] f]. cbn [fst snd] in *.
  assert (forall i it, items t !! i = Some it -> exists it', its !! i = Some it' /\ resolved_item it it') as Hl.
  { intros i it Hit. destruct (Forall2_lookup_l _ _ _ _ _ Hk Hit) as (it' & ? & ?). eauto. }
  assert (same_addresses (items t) its) as Hsame.
  { intros i. destruct (items t !! i) as [it|] eqn:Hit.
    - destruct (Hl i it Hit) as (it' & -> & [-> |(x & -> & _)]); done.
    - rewrite Forall2_lookup in Hk. specialize (Hk i). rewrite Hit in Hk. by inversion Hk. }
  constructor; cbn [items pool_addrs].
  - apply Forall_lookup. intros i it' Hit'. rewrite Forall2_lookup in Hk. specialize (Hk i). rewrite Hit' in Hk.
    inversion Hk as [it ? Hr Hit|]; subst. rewrite Forall_lookup in Hi. symmetry in Hit. pose proof (Hi i it Hit) as [H1 H2 H3 H4 H5 H6].
    destruct Hr as [-> |(x & -> & Hv)]; by constructor.
  - rewrite <- (Forall2_length _ _ _ Hk). by rewrite (pools_before_same (items t)).
  - intros p i Hin Hia. destruct (Ha p i Hin Hia) as (it & pool & Hit & Hpl & Hs & Ho & Hle & Hoff).
    destruct (Hl i it Hit) as (it' & Hit' & Hr). destruct (Hl _ pool Hpl) as (pool' & Hpl' & Hr').
    exists it', pool'. split; [done|]. split; [done|]. rewrite (same_owner (items t)) by done.
    destruct Hr as [-> |(x & -> & _)], Hr' as [-> |(y & -> & _)]; done.
Qed.

Lemma typed_new : typed new_trace.
Proof. constructor; [constructor|done|]. intros p i Hp. by apply elem_of_nil in Hp. Qed.

Lemma typed_step t t' : typed t -> step t t' -> typed t'.
Proof.
  intros Ht Hs. destruct Hs.
  - apply typed_add; [by eapply parse_typed|done].
  - unfold deserialize. destruct file; [by apply typed_read|done].
  - constructor; [constructor|done|]. intros p i Hp. by apply elem_of_nil in Hp.
  - by apply typed_offsets.
  - by apply typed_resolve.
Qed.

(** C27. Every trace is well-typed, whatever lines are read and whatever operations are
    applied, in any order and any number of times: addresses, guids and offsets are
    64-bit numbers although the parser accepts signs and any digits; there is exactly
    one pool for every item that starts one, in order, so that no pool points outside
    the items; and every address filed with a pool is an item of the trace that lies
    behind the pool with no other pool between, is not below it and carries its
    distance as offset.  An instruction is only set where there is a variable. *)
Theorem trace_well_typed t : rtc step new_trace t -> typed t.
Proof.
  intros H. pose proof typed_new as H0. revert H0. induction H as [|t1 t2 t3 Hs _ IH]; intros Ht; [done|]. apply IH. by eapply typed_step.
Qed.

End Type_.

(** ** Example: offsets are computed twice, with lines added between *)

#[local] Existing Instance ex_matcher.

Definition ex_read : PmemAddrTrace (Instr := nat) :=
  (deserialize (Some (Tracker.text [(4096, 1); (4104, 2); (4112, 2)])) (Some ex_varMap) new_trace).2.
Definition ex_item : PmemAddrTraceItem (Instr := nat) := item_of (Some ex_varMap) (4128, 2).
Definition ex_trace : PmemAddrTrace (Instr := nat) :=
  (calculatePoolOffsets (add (calculatePoolOffsets ex_read).2 ex_item)).2.

Lemma trace_well_typed_witness :
  typed ex_trace /\ addresses <$> pool_addrs ex_trace = [[1; 2; 1; 2; 3]]%nat.
Proof.
  split; [|vm_compute; reflexivity]. apply trace_well_typed.
  apply (rtc_l _ _ ex_read); [apply step_read|]. apply (rtc_l _ _ (calculatePoolOffsets ex_read).2); [apply step_offsets|].
  apply (rtc_l _ _ (add (calculatePoolOffsets ex_read).2 ex_item)); [|apply rtc_once, step_offsets].
  apply (step_add _ (access_line (4128, 2)) (Some ex_varMap)). vm_compute. reflexivity.
Defined.

End TraceType.
