(* ===== verification/Monitor.v ===== *)
(** * Monitoring the address trace file (Reactor::monitor_address_trace, reactor/lib/core.cpp)

    A background thread polls the trace file while the target program appends to
    it.  Each round looks at the size of the file, then reads from the last
    position to the end; the file may grow in between, so that a round is given
    by two contents: the one whose size is taken and the one that is read.  An
    incomplete last line is kept for the next round. *)
From stdpp Require Import base list strings.
From Stdlib Require Import Ascii.
From S2P Require Import Prelude Strings GuidMap AddrTrace.
Import Strings.

Module Monitor.

Section Monitor.
Context {Instr : Type}.
Abbreviation trace := (AddrTrace.PmemAddrTrace (Instr := Instr)).

(** The local variables of the loop and the part of the reactor state it shares. *)
Record state := MkState {
  start_pos : nat;
  partial_line : chars;
  partial : bool;
  addr_trace : trace;
  trace_ready : bool }.

Definition initial (t : trace) : state := MkState 0 [] false t false.

Section Poll.
Context (var_map : GuidMap.VarGuidMapTy).

(** A line that was read completely; [None]: the exception of the parser ends
    the process. *)
Definition complete_line (s : state) (line : chars) : option state :=
  let text := if partial s then partial_line s ++ line else line in
  let kept := if partial s then [] else partial_line s in
  match AddrTrace.parse text (Some var_map) with
  | AddrTrace.ParseThrows => None
  | AddrTrace.BadLine => Some (MkState (start_pos s) kept false (addr_trace s) (trace_ready s))
  | AddrTrace.Item item =>
    Some (MkState (start_pos s) kept false (AddrTrace.add (addr_trace s) item) (trace_ready s))
  end.

(** A line that the end of the file cut off. *)
Definition cut_line (s : state) (line : chars) : state :=
  MkState (start_pos s) (partial_line s ++ line) true (addr_trace s) (trace_ready s).

(** The [getline] loop over the pieces of the text; the last piece is at the end
    of the file and is delivered only when it is not empty. *)
Fixpoint read_loop (s : state) (ps : list chars) : option state :=
  match ps with
  | [] => Some s
  | [p] => Some (match p with [] => s | _ => cut_line s p end)
  | p :: ps' => s' ← complete_line s p; read_loop s' ps'
  end.

(** One round of the outer loop. *)
Definition poll (s : state) (sized content : chars) : option state :=
  let end_pos := length sized in
  let s1 := if decide (end_pos < start_pos s)%nat
            then MkState 0 (partial_line s) (partial s) (AddrTrace.clear (addr_trace s)) false
            else s in
  if decide (end_pos = start_pos s1) then
    if decide (0 < start_pos s1)%nat
    then Some (MkState (start_pos s1) (partial_line s1) (partial s1) (addr_trace s1) true)
    else Some s1
  else
    s2 ← read_loop s1 (pieces GuidMap.newline (drop (start_pos s1) content));
    Some (MkState end_pos (partial_line s2) (partial s2) (addr_trace s2) (trace_ready s2)).

(** Several rounds. *)
Fixpoint polls (s : state) (rounds : list (chars * chars)) : option state :=
  match rounds with
  | [] => Some s
  | (sized, content) :: rounds' => s' ← poll s sized content; polls s' rounds'
  end.

(** ** The reference: reading complete lines at once *)

Definition complete_lines (c : chars) : list chars := removelast (pieces GuidMap.newline c).
Definition tail_line (c : chars) : chars := List.last (pieces GuidMap.newline c) [].

Definition read_all (ls : list chars) (t : trace) : option trace :=
  match AddrTrace.read_items ls (Some var_map) t with
  | (GuidMap.Returns _, t') => Some t'
  | (GuidMap.Throws, _) => None
  end.

Lemma read_all_cons l ls t :
  read_all (l :: ls) t =
    match AddrTrace.parse l (Some var_map) with
    | AddrTrace.ParseThrows => None
    | AddrTrace.BadLine => read_all ls t
    | AddrTrace.Item item => read_all ls (AddrTrace.add t item)
    end.
Proof. unfold read_all. simpl. by destruct (AddrTrace.parse l (Some var_map)). Qed.

Lemma read_all_app ls1 ls2 t : read_all (ls1 ++ ls2) t = t' ← read_all ls1 t; read_all ls2 t'.
Proof.
  revert t. induction ls1 as [|l ls1 IH]; intros t; [done|].
  rewrite <- app_comm_cons, !read_all_cons. by destruct (AddrTrace.parse l (Some var_map)).
Qed.

Lemma pieces_snoc c : pieces GuidMap.newline c = complete_lines c ++ [tail_line c].
Proof. apply app_removelast_last, pieces_ne. Qed.

(** Splitting a text that is extended: the last piece grows by the first new one. *)
Lemma pieces_extend sep a b la ta pb lb :
  pieces sep a = la ++ [ta] -> pieces sep b = pb :: lb ->
  pieces sep (a ++ b) = la ++ (ta ++ pb) :: lb.
Proof.
  intros Ha Hb. revert la ta Ha. induction a as [|x a IH]; intros la ta Ha; simpl in *.
  - destruct la as [|? [|? ?]]; simplify_eq/=; done.
  - case_decide as Hx.
    + destruct la as [|l la]; injection Ha as <- Ha; [by apply pieces_ne in Ha|].
      simpl. f_equal. by apply IH.
    + destruct (pieces sep a) as [|p ps] eqn:Hp; [by apply pieces_ne in Hp|].
      destruct la as [|l la]; simplify_eq/=.
      * by rewrite (IH [] p).
      * rewrite (IH (p :: la) ta) by done. done.
Qed.

Lemma lines_unique c ls p :
  pieces GuidMap.newline c = ls ++ [p] -> complete_lines c = ls /\ tail_line c = p.
Proof. intros H. unfold complete_lines, tail_line. rewrite H. by rewrite removelast_last, last_last. Qed.

(** The lines of a text that grows: the first new piece completes the tail. *)
Lemma lines_app c d :
  complete_lines (c ++ d) = complete_lines c ++
    match complete_lines d with [] => [] | q :: qs => (tail_line c ++ q) :: qs end /\
  tail_line (c ++ d) = match complete_lines d with [] => tail_line c | _ => [] end ++ tail_line d.
Proof.
  apply lines_unique. pose proof (pieces_snoc d) as Hd.
  destruct (complete_lines d) as [|q qs]; rewrite (pieces_extend _ c d _ _ _ _ (pieces_snoc c) Hd).
  - by rewrite app_nil_r.
  - by rewrite <- app_assoc.
Qed.

(** The state after the text [c] has been read on top of the trace [t]. *)
Definition consumed (t : trace) (c : chars) (s : state) : Prop :=
  partial_line s = tail_line c /\
  partial s = negb (bool_decide (tail_line c = [])) /\
  read_all (complete_lines c) t = Some (addr_trace s).

(** The line the loop parses first is completed by what was kept. *)
Definition pending (s : state) : Prop := partial s = negb (bool_decide (partial_line s = [])).

Lemma complete_line_ok s p :
  pending s ->
  match complete_line s p with
  | Some s' => read_all [partial_line s ++ p] (addr_trace s) = Some (addr_trace s') /\
               partial_line s' = [] /\ partial s' = false /\ trace_ready s' = trace_ready s
  | None => read_all [partial_line s ++ p] (addr_trace s) = None
  end.
Proof.
  intros Hp. unfold complete_line, pending in *. rewrite read_all_cons.
  destruct (decide (partial_line s = [])) as [He|He].
  - rewrite bool_decide_eq_true_2 in Hp by done. simpl in Hp. rewrite Hp, He. simpl.
    by destruct (AddrTrace.parse p (Some var_map)).
  - rewrite bool_decide_eq_false_2 in Hp by done. simpl in Hp. rewrite Hp.
    by destruct (AddrTrace.parse _ (Some var_map)).
Qed.

Lemma read_loop_ok ps p s :
  pending s ->
  match read_loop s (ps ++ [p]) with
  | Some s' => read_all (match ps with [] => [] | q :: qs => (partial_line s ++ q) :: qs end)
                 (addr_trace s) = Some (addr_trace s') /\
               partial_line s' = match ps with [] => partial_line s | _ => [] end ++ p /\
               pending s' /\ trace_ready s' = trace_ready s
  | None => read_all (match ps with [] => [] | q :: qs => (partial_line s ++ q) :: qs end)
              (addr_trace s) = None
  end.
Proof.
  revert s. induction ps as [|q ps IH]; intros s Hp.
  - simpl. destruct p as [|x p]; simpl.
    + by rewrite app_nil_r.
    + split; [done|]. split; [done|]. split; [|done]. unfold pending. simpl.
      by rewrite bool_decide_eq_false_2 by (intros H; by apply app_eq_nil in H as [_ ?]).
  - assert (read_loop s ((q :: ps) ++ [p]) = s' ← complete_line s q; read_loop s' (ps ++ [p])) as ->
      by (by destruct ps).
    pose proof (complete_line_ok s q Hp) as Hq.
    change ((partial_line s ++ q) :: ps) with ([partial_line s ++ q] ++ ps). rewrite read_all_app.
    destruct (complete_line s q) as [s1|]; simpl; [|by rewrite Hq].
    destruct Hq as (Hr & Hl & Hpa & Hrd). rewrite Hr. simpl.
    specialize (IH s1). rewrite Hl in IH. simpl in IH.
    assert (match ps with [] => [] | q0 :: qs => q0 :: qs end = ps) as E by (by destruct ps).
    rewrite E in IH. rewrite Hrd in IH.
    assert (match ps with [] => [] | _ :: _ => [] end ++ p = p) as E' by (by destruct ps).
    rewrite E' in IH. apply IH. unfold pending. by rewrite Hl, Hpa.
Qed.

(** A round that reads the text [d]. *)
Lemma poll_reads t c d s sized content :
  consumed t c s -> (start_pos s < length sized)%nat -> drop (start_pos s) content = d ->
  match poll s sized content with
  | Some s' => consumed t (c ++ d) s' /\ start_pos s' = length sized /\ trace_ready s' = trace_ready s
  | None => read_all (complete_lines (c ++ d)) t = None
  end.
Proof.
  intros (Hl & Hp & Hr) Hlt Hd. unfold poll.
  rewrite (decide_False (P := (length sized < start_pos s)%nat)) by lia.
  rewrite decide_False by lia. rewrite Hd.
  assert (pending s) as Hpend by (unfold pending; by rewrite Hp, Hl).
  pose proof (read_loop_ok (complete_lines d) (tail_line d) s Hpend) as H.
  rewrite <- pieces_snoc in H. destruct (lines_app c d) as [Hc Ht].
  rewrite Hl in H. rewrite Hc, read_all_app, Hr. simpl.
  destruct (read_loop s (pieces GuidMap.newline d)) as [s'|]; simpl; [|done].
  destruct H as (Hr' & Hl' & Hp' & Hrd). split; [|done].
  unfold consumed. simpl. rewrite Hc, Ht, read_all_app, Hr. simpl. split_and!; [done| |done].
  unfold pending in Hp'. by rewrite Hp', Hl'.
Qed.

(** A round over a file that has grown from [c] to [c ++ d]. *)
Lemma poll_grown t c d s :
  consumed t c s -> start_pos s = length c ->
  match poll s (c ++ d) (c ++ d) with
  | Some s' => consumed t (c ++ d) s' /\ start_pos s' = length (c ++ d) /\
               trace_ready s' = trace_ready s || bool_decide (d = [] /\ c <> [])
  | None => read_all (complete_lines (c ++ d)) t = None
  end.
Proof.
  intros Hc Hs. destruct (decide (d = [])) as [->|Hd].
  - rewrite app_nil_r. unfold poll.
    rewrite (decide_False (P := (length c < start_pos s)%nat)) by lia.
    rewrite Hs, decide_True by done. destruct c as [|x c].
    + rewrite decide_False by (simpl; lia). rewrite bool_decide_eq_false_2 by naive_solver.
      by rewrite orb_false_r.
    + rewrite decide_True by (simpl; lia). rewrite bool_decide_eq_true_2, orb_true_r by naive_solver.
      done.
  - assert (0 < length d)%nat by (destruct d; [done|simpl; lia]).
    pose proof (poll_reads t c d s (c ++ d) (c ++ d) Hc) as H0.
    rewrite bool_decide_eq_false_2, orb_false_r by naive_solver. apply H0.
    + rewrite length_app. lia.
    + by rewrite Hs, drop_app_length.
Qed.

(** The rounds of a file that grows by the given pieces, each round seeing the
    file at rest. *)
Fixpoint growth (c : chars) (ds : list chars) : list (chars * chars) :=
  match ds with
  | [] => []
  | d :: ds' => (c ++ d, c ++ d) :: growth (c ++ d) ds'
  end.

Lemma read_all_prefix c d t :
  read_all (complete_lines c) t = None -> read_all (complete_lines (c ++ d)) t = None.
Proof. intros H. rewrite (proj1 (lines_app c d)), read_all_app, H. done. Qed.

Lemma polls_growth t c ds s :
  consumed t c s -> start_pos s = length c ->
  match polls s (growth c ds) with
  | Some s' => consumed t (c ++ concat ds) s' /\ start_pos s' = length (c ++ concat ds) /\
      (trace_ready s' = true <-> trace_ready s = true \/
         exists ds1 ds2, ds = ds1 ++ [] :: ds2 /\ c ++ concat ds1 <> [])
  | None => read_all (complete_lines (c ++ concat ds)) t = None
  end.
Proof.
  revert c s. induction ds as [|d ds IH]; intros c s Hc Hs; simpl.
  - rewrite app_nil_r. split; [done|]. split; [done|]. split; [by left|].
    intros [H|(ds1 & ds2 & H & _)]; [done|]. by destruct ds1.
  - pose proof (poll_grown t c d s Hc Hs) as Hp. rewrite app_assoc.
    destruct (poll s (c ++ d) (c ++ d)) as [s1|]; simpl; [|by apply read_all_prefix].
    destruct Hp as (Hc1 & Hs1 & Hr1). specialize (IH (c ++ d) s1 Hc1 Hs1).
    destruct (polls s1 (growth (c ++ d) ds)) as [s2|]; [|done].
    destruct IH as (Hc2 & Hs2 & Hr2). split; [done|]. split; [done|]. rewrite Hr2, Hr1.
    rewrite orb_true_iff, bool_decide_eq_true. split.
    + intros [[H|[-> H]]|(ds1 & ds2 & -> & H)]; [by left| |].
      * right. exists [], ds. simpl. by rewrite app_nil_r.
      * right. exists (d :: ds1), ds2. simpl. by rewrite app_assoc.
    + intros [H|(ds1 & ds2 & H1 & H2)]; [by left; left|]. destruct ds1 as [|e ds1]; simplify_eq/=.
      * left. right. by rewrite app_nil_r in H2.
      * right. exists ds1, ds2. by rewrite <- app_assoc.
Qed.

Lemma getlines_complete c :
  GuidMap.getlines c = complete_lines c ++ match tail_line c with [] => [] | l => [l] end.
Proof.
  unfold GuidMap.getlines. cbv zeta. rewrite (pieces_snoc c), last_last, removelast_last.
  destruct (tail_line c); [by rewrite app_nil_r|done].
Qed.

Lemma read_items_returns ls t :
  AddrTrace.read_items ls (Some var_map) t =
    match read_all ls t with
    | Some t' => (GuidMap.Returns true, t')
    | None => (GuidMap.Throws, snd (AddrTrace.read_items ls (Some var_map) t))
    end.
Proof.
  revert t. induction ls as [|l ls IH]; intros t; [done|]. rewrite read_all_cons. simpl.
  by destruct (AddrTrace.parse l (Some var_map)).
Qed.

Lemma consumed_initial t : consumed t [] (initial t).
Proof. done. Qed.

(** C31. Monitoring a file that only grows, seen at rest in every round, is reading
    it once: whatever pieces it grows by, even in the middle of a line, the trace
    is that of the complete lines so far, the incomplete one is kept, and when the
    file ends with a newline the result is [deserialize]'s.  The process dies of
    the parser's exception only when [deserialize] would throw too.  The trace is
    announced ready exactly when a round found a non-empty file that had not
    grown. *)
Theorem monitor_incremental t ds :
  match polls (initial t) (growth [] ds) with
  | Some s =>
    read_all (complete_lines (concat ds)) t = Some (addr_trace s) /\
    partial_line s = tail_line (concat ds) /\ start_pos s = length (concat ds) /\
    (tail_line (concat ds) = [] ->
       AddrTrace.deserialize (Some (concat ds)) (Some var_map) t = (GuidMap.Returns true, addr_trace s)) /\
    (trace_ready s = true <-> exists ds1 ds2, ds = ds1 ++ [] :: ds2 /\ concat ds1 <> [])
  | None => fst (AddrTrace.deserialize (Some (concat ds)) (Some var_map) t) = GuidMap.Throws
  end.
Proof.
  pose proof (polls_growth t [] ds (initial t) (consumed_initial t) eq_refl) as H. simpl in H.
  unfold AddrTrace.deserialize. rewrite read_items_returns, getlines_complete, read_all_app.
  destruct (polls (initial t) (growth [] ds)) as [s|]; [|by rewrite H].
  destruct H as ((Hl & _ & Hr) & Hs & Hrd). rewrite Hr. split; [done|]. split; [done|].
  split; [done|]. split; [intros ->; done|]. rewrite Hrd. naive_solver.
Qed.

(** The two situations in which the monitor misreads the file.  When the file
    grows by [e] between taking its size and reading it, [e] is read now and once
    more in the next round, as if it had been written twice.  When the file has
    become shorter the trace is cleared but the incomplete line is not, so that
    the new content is read as if it followed what was kept of the old file. *)
Theorem monitor_misreads t c s :
  consumed t c s -> start_pos s = length c ->
  (forall d e, d <> [] -> e <> [] ->
     match polls s [(c ++ d, c ++ d ++ e); (c ++ d ++ e, c ++ d ++ e)] with
     | Some s' => consumed t (c ++ d ++ e ++ e) s' /\ start_pos s' = length (c ++ d ++ e)
     | None => read_all (complete_lines (c ++ d ++ e ++ e)) t = None
     end) /\
  (forall f, f <> [] -> (length f < length c)%nat ->
     match poll s f f with
     | Some s' => consumed (AddrTrace.clear (addr_trace s)) (tail_line c ++ f) s' /\ trace_ready s' = false
     | None => read_all (complete_lines (tail_line c ++ f)) (AddrTrace.clear (addr_trace s)) = None
     end).
Proof.
  intros Hc Hs. split.
  - intros d e Hd He.
    assert (0 < length d)%nat by (destruct d; [done|simpl; lia]).
    assert (0 < length e)%nat by (destruct e; [done|simpl; lia]).
    pose proof (poll_reads t c (d ++ e) s (c ++ d) (c ++ d ++ e) Hc) as H1. cbn [polls].
    destruct (poll s (c ++ d) (c ++ d ++ e)) as [s1|]; simpl_bind.
    + destruct H1 as (Hc1 & Hs1 & _); [rewrite length_app; lia|by rewrite Hs, drop_app_length|].
      pose proof (poll_reads t _ e s1 (c ++ d ++ e) (c ++ d ++ e) Hc1) as H2.
      rewrite <- !app_assoc in H2.
      destruct (poll s1 (c ++ d ++ e) (c ++ d ++ e)) as [s2|]; simpl_bind.
      * destruct H2 as (Hc2 & Hs2 & _); [| |done].
        { rewrite Hs1, !length_app. lia. } { rewrite Hs1, app_assoc. apply drop_app_length. }
      * apply H2; [rewrite Hs1, !length_app; lia|]. rewrite Hs1, app_assoc. apply drop_app_length.
    + replace (c ++ d ++ e ++ e) with ((c ++ d ++ e) ++ e) by (by rewrite <- !app_assoc).
      apply read_all_prefix, H1; [rewrite length_app; lia|by rewrite Hs, drop_app_length].
  - intros f Hf Hlt. destruct Hc as (Hl & Hp & Hr).
    set (s1 := MkState 0 (partial_line s) (partial s) (AddrTrace.clear (addr_trace s)) false).
    assert (0 < length f)%nat by (destruct f; [done|simpl; lia]).
    assert (poll s f f = poll s1 f f) as ->.
    { unfold poll. rewrite (decide_True (P := (length f < start_pos s)%nat)) by lia. done. }
    pose proof (poll_reads (AddrTrace.clear (addr_trace s)) (tail_line c) f s1 f f) as H1.
    destruct (poll s1 f f) as [s2|]; [destruct H1 as (H1 & _ & H2); try done|apply H1; try done].
    all: destruct (lines_unique (tail_line c) [] (tail_line c)) as [E1 E2].
    all: try (unfold consumed; rewrite E1, E2; done).
    all: apply pieces_no_sep, (pieces_free _ c); rewrite pieces_snoc; set_solver.
Qed.

End Poll.
End Monitor.

(** ** Example: the file is cut in the middle of a line *)

Definition ex_line (s : string) : chars := lit s ++ [GuidMap.newline].
Definition ex_text : chars := ex_line "0x1000,2" ++ lit "0x20".

Definition ex_state : state (Instr := nat) :=
  default (initial AddrTrace.new_trace)
    (poll AddrTrace.ex_varMap (initial AddrTrace.new_trace) ex_text ex_text).

(** After truncation the kept text [0x20] is put before the new line, which then
    has the address [0x200x30]: the parser reads [0x200] and ignores the rest. *)
Lemma monitor_misreads_witness :
  consumed AddrTrace.ex_varMap AddrTrace.new_trace ex_text ex_state /\
  exists s', poll AddrTrace.ex_varMap ex_state (ex_line "0x30,2") (ex_line "0x30,2") = Some s' /\
    consumed AddrTrace.ex_varMap (AddrTrace.clear (addr_trace ex_state))
      (lit "0x20" ++ ex_line "0x30,2") s' /\
    AddrTrace.addr <$> AddrTrace.items (addr_trace s') = [512].
Proof.
  assert (consumed AddrTrace.ex_varMap AddrTrace.new_trace ex_text ex_state) as Hc.
  { vm_compute. split; [reflexivity|]. split; reflexivity. }
  split; [exact Hc|].
  destruct (monitor_misreads AddrTrace.ex_varMap AddrTrace.new_trace ex_text ex_state Hc) as [_ H].
  { vm_compute. reflexivity. }
  specialize (H (ex_line "0x30,2") ltac:(discriminate) ltac:(vm_compute; lia)).
  destruct (poll AddrTrace.ex_varMap ex_state (ex_line "0x30,2") (ex_line "0x30,2")) as [s'|] eqn:E.
  - exists s'. destruct H as [H _]. split; [reflexivity|]. split; [exact H|].
    vm_compute in E. injection E as <-. vm_compute. reflexivity.
  - vm_compute in E. discriminate.
Defined.

End Monitor.
