(* ===== verification/Tracing.v ===== *)
(** * Tracking and monitoring together

    The target process writes its tracker file (file Tracker) while the background
    thread of the reactor polls it (file Monitor). *)
From stdpp Require Import base list strings.
From Stdlib Require Import Ascii.
From S2P Require Import Prelude Strings GuidMap Tracker AddrTrace Monitor.
Import Strings.

Module Tracing.

Section Tracing.
Context {Instr : Type} (var_map : GuidMap.VarGuidMapTy).
Abbreviation trace := (AddrTrace.PmemAddrTrace (Instr := Instr)).

(** What the monitor sees when it polls after each of the given stretches of the
    life of the process. *)
Fixpoint samples (st : Tracker.status) (segs : list (list Tracker.event)) : list chars :=
  match segs with
  | [] => []
  | evs :: segs' => Tracker.on_disk (Tracker.run st evs) :: samples (Tracker.run st evs) segs'
  end.

Definition rounds (st : Tracker.status) (segs : list (list Tracker.event)) : list (chars * chars) :=
  (fun c => (c, c)) <$> samples st segs.

(** The trace of some accesses. *)
Definition trace_of (t : trace) (l : list (Z * Z)) : trace :=
  foldl AddrTrace.add t (AddrTrace.item_of (Some var_map) <$> l).

(** The samples are the rounds of a file that grows. *)
Lemma rounds_growth l st segs :
  Tracker.tracks l st ->
  exists ds, rounds st segs = Monitor.growth (Tracker.on_disk st) ds /\
    Tracker.on_disk st ++ concat ds = Tracker.on_disk (Tracker.run st (concat segs)).
Proof.
  revert l st. induction segs as [|evs segs IH]; intros l st H.
  - exists []. simpl. by rewrite app_nil_r.
  - pose proof (Tracker.run_tracks _ _ evs H) as H'. destruct (IH _ _ H') as (ds & Hr & Hd).
    destruct (Tracker.run_disk _ _ evs H) as [d Hgrow]. exists (d :: ds). split.
    + unfold rounds in *. cbn [samples Monitor.growth]. by rewrite fmap_cons, Hr, Hgrow.
    + cbn [concat]. by rewrite Tracker.run_app, app_assoc, <- Hgrow.
Qed.

(** A text is its complete lines and its incomplete last one. *)
Lemma complete_lines_text c :
  c = concat ((fun l => l ++ [GuidMap.newline]) <$> Monitor.complete_lines c) ++ Monitor.tail_line c.
Proof.
  rewrite <- (join_pieces GuidMap.newline c) at 1. rewrite Monitor.pieces_snoc.
  induction (Monitor.complete_lines c) as [|l ls IH]; [done|]. cbn [app].
  rewrite join_cons by (by destruct ls). rewrite IH, fmap_cons. cbn [concat].
  by rewrite <- !app_assoc.
Qed.

(** The lines of a prefix of the tracker's text are those of the first accesses. *)
Lemma complete_prefix l c :
  Forall AddrTrace.access_ok l -> c `prefix_of` Tracker.text l ->
  exists k, Monitor.complete_lines c = AddrTrace.access_line <$> take k l /\
    c = Tracker.text (take k l) ++ Monitor.tail_line c /\ (c = Tracker.text l -> take k l = l).
Proof.
  intros Hok [r Hr]. pose proof (complete_lines_text c) as Hc.
  assert (forall x, x = Tracker.text l -> Monitor.complete_lines x = AddrTrace.access_line <$> l) as Hall.
  { intros x ->. rewrite AddrTrace.text_lines. unfold Monitor.complete_lines.
    rewrite GuidMap.pieces_lines; [apply removelast_last|].
    apply Forall_fmap. eapply Forall_impl; [exact Hok|]. apply AddrTrace.access_line_free. }
  destruct (Monitor.lines_app c r) as [Hlines _]. rewrite <- Hr, (Hall _ eq_refl) in Hlines.
  set (k := length (Monitor.complete_lines c)).
  assert (Monitor.complete_lines c = AddrTrace.access_line <$> take k l) as Hk.
  { rewrite fmap_take, Hlines. unfold k. by rewrite take_app_length. }
  exists k. split; [done|]. split.
  - rewrite Hc at 1. by rewrite Hk, <- AddrTrace.text_lines.
  - intros E. unfold k. rewrite (Hall _ E), length_fmap. by apply firstn_all.
Qed.

Lemma tracker_monitored_ok e segs t :
  Tracker.mutex_ok e = true -> Tracker.fopen_ok e = true ->
  let evs := concat segs in
  let l := Tracker.accesses (Tracker.start e) evs in
  Forall AddrTrace.access_ok l -> Forall (fun a => a.1 <> 0) l ->
  exists s k,
    Monitor.polls var_map (Monitor.initial t) (rounds (Tracker.start e) segs) = Some s /\
    Monitor.addr_trace s = trace_of t (take k l) /\
    Tracker.text (take k l) ++ Monitor.partial_line s = Tracker.on_disk (Tracker.run (Tracker.start e) evs) /\
    GuidMap.newline ∉ Monitor.partial_line s /\
    match Tracker.run (Tracker.start e) evs with
    | Tracker.Exited _ _ | Tracker.Undefined _ => take k l = l
    | _ => True
    end.
Proof.
  intros Hm Hf evs l Hok Hnz. pose proof (Tracker.tracks_start e Hm Hf) as Hs.
  destruct (rounds_growth _ _ segs Hs) as (ds & Hr & Hd). fold evs in Hd.
  pose proof (Tracker.run_tracks _ _ evs Hs) as Ht. cbn [app] in Ht. fold l in Ht.
  assert (Tracker.on_disk (Tracker.start e) = []) as Hempty.
  { unfold Tracker.start, Tracker.addr_tracker_init. by rewrite Hm, Hf. }
  rewrite Hempty in Hr, Hd. cbn [app] in Hd.
  destruct (complete_prefix l (concat ds) Hok) as (k & Hk & Hc & Hend).
  { rewrite Hd. by apply Tracker.on_disk_prefix. }
  assert (Monitor.read_all var_map (Monitor.complete_lines (concat ds)) t = Some (trace_of t (take k l))) as Hread.
  { unfold Monitor.read_all. rewrite Hk, <- (app_nil_r (AddrTrace.access_line <$> take k l)).
    rewrite AddrTrace.read_accesses by (by apply Forall_take). done. }
  pose proof (Monitor.polls_growth var_map t [] ds _ (Monitor.consumed_initial var_map t) eq_refl) as Hp.
  rewrite Hr. cbn [app] in Hp.
  destruct (Monitor.polls var_map (Monitor.initial t) (Monitor.growth [] ds)) as [s|]; [|congruence].
  destruct Hp as ((Hl & _ & Hra) & _ & _). exists s, k. split; [done|]. split; [congruence|].
  rewrite Hl, <- Hd. split; [done|]. split.
  { apply (pieces_free _ (concat ds)). rewrite Monitor.pieces_snoc. set_solver. }
  destruct (Tracker.run (Tracker.start e) evs) as [p|c p|p|p]; try done.
  all: apply Hend; rewrite Hd; unfold Tracker.on_disk; simpl in Ht |- *; by rewrite Ht.
Qed.

(** C23. The reactor follows a target process from its first access to its end, when
    the initialisation of the tracker got its mutex and its file, no access is to a
    null address, for which the monitor would die of an exception, and in every round
    the file is at rest between the moment the monitor takes its size and the end of
    its reading, without which text is read twice.  Polled any number of times between
    the steps of the process, whatever part of the stream the C library has
    written by then, the monitor never dies of an exception and holds the trace of
    the first [k] accesses of the process, those whose lines are completely on the
    disk; the incomplete line is kept.  Once the process has returned from [main],
    or has run into one of the handled signals, and the monitor has polled, its
    trace is that of all accesses, in order. *)
Theorem tracker_monitored e segs t :
  Tracker.mutex_ok e = true -> Tracker.fopen_ok e = true ->
  let evs := concat segs in
  let l := Tracker.accesses (Tracker.start e) evs in
  Forall AddrTrace.access_ok l -> Forall (fun a => a.1 <> 0) l ->
  exists s k,
    Monitor.polls var_map (Monitor.initial t) (rounds (Tracker.start e) segs) = Some s /\
    Monitor.addr_trace s = trace_of t (take k l) /\
    Tracker.text (take k l) ++ Monitor.partial_line s = Tracker.on_disk (Tracker.run (Tracker.start e) evs) /\
    GuidMap.newline ∉ Monitor.partial_line s /\
    match Tracker.run (Tracker.start e) evs with
    | Tracker.Exited _ _ | Tracker.Undefined _ => take k l = l
    | _ => True
    end.
Proof. apply tracker_monitored_ok. Qed.

End Tracing.

(** ** Example: a process that dies of SIGSEGV in the middle of its work *)

Definition ex_segments : list (list Tracker.event) :=
  [take 2 Tracker.ex_events; drop 2 (take 6 Tracker.ex_events); drop 6 Tracker.ex_events].

Lemma tracker_monitored_witness :
  exists s : Monitor.state (Instr := nat),
    Monitor.polls AddrTrace.ex_varMap (Monitor.initial AddrTrace.new_trace)
      (rounds (Tracker.start Tracker.ex_system) ex_segments) = Some s /\
    AddrTrace.addr <$> AddrTrace.items (Monitor.addr_trace s) = [4096; 4104; 8192].
Proof.
  destruct (tracker_monitored AddrTrace.ex_varMap Tracker.ex_system ex_segments (AddrTrace.new_trace (Instr := nat)))
    as (s & k & Hp & Ht & _ & _ & He).
  - reflexivity.
  - reflexivity.
  - apply (bool_decide_unpack _). vm_compute. reflexivity.
  - apply (bool_decide_unpack _). vm_compute. reflexivity.
  - exists s. split; [exact Hp|]. rewrite Ht. destruct (Tracker.run _ _) as [p|c p|p|p] eqn:E; [vm_compute in E; discriminate..|].
    rewrite He. vm_compute. reflexivity.
Defined.

End Tracing.
