(* ===== verification/Concurrency.v ===== *)
(** * Concurrent requests (Reactor::compute_dependencies, Reactor::wait_address_trace_ready,
      reactor/lib/core.cpp)

    Requests of a reactor in server mode run in threads that share the flags of
    [ReactorState] under two mutexes.  A state of the model has the flags, the
    owner of the mutex and the program point of each thread; every step is what
    one thread does without giving up the mutex, so that any interleaving the
    mutex admits is a sequence of steps.  The theorems are safety (one thread works on
    the trace, once), liveness (every request returns when the trace can be processed)
    and what happens when it cannot. *)
From stdpp Require Import base list option.
From S2P Require Import Prelude AddrTrace.

Module Concurrency.

(** ** The dependence graph is computed once *)
Module Dependencies.

(** Program points of [compute_dependencies]. *)
Inductive compute_pc :=
  | Start            (* before [std::unique_lock lk(_lock)] *)
  | Locked           (* the lock is held, the flags are not yet looked at *)
  | Waiting          (* in [_cv.wait] *)
  | Computing        (* in [computeDependencies] *)
  | Done (b : bool). (* returned *)

#[export] Instance pc_eq_dec : EqDecision compute_pc.
Proof. solve_decision. Defined.

Record compute_state := MkState {
  dependency_computed : bool;
  computing_dependency : bool;
  owner : option nat;
  threads : list compute_pc }.

Definition initial (n : nat) : compute_state := MkState false false None (replicate n Start).

Definition set_thread (s : compute_state) (t : nat) (p : compute_pc) : list compute_pc := <[t := p]> (threads s).

(** The step of thread [t]; whether the computation succeeds is not determined. *)
Inductive compute_step (s : compute_state) (t : nat) : compute_state -> Prop :=
  | step_lock :
      threads s !! t = Some Start -> owner s = None ->
      compute_step s t (MkState (dependency_computed s) (computing_dependency s) (Some t) (set_thread s t Locked))
  | step_computed :
      threads s !! t = Some Locked -> owner s = Some t -> dependency_computed s = true ->
      compute_step s t (MkState true (computing_dependency s) None (set_thread s t (Done true)))
  | step_wait :
      threads s !! t = Some Locked -> owner s = Some t ->
      dependency_computed s = false -> computing_dependency s = true ->
      compute_step s t (MkState false true None (set_thread s t Waiting))
  | step_compute :
      threads s !! t = Some Locked -> owner s = Some t ->
      dependency_computed s = false -> computing_dependency s = false ->
      compute_step s t (MkState false true (Some t) (set_thread s t Computing))
  | step_finish ok :
      threads s !! t = Some Computing -> owner s = Some t ->
      compute_step s t (MkState true false None (set_thread s t (Done ok)))
  | step_wake :
      threads s !! t = Some Waiting -> owner s = None -> dependency_computed s = true ->
      compute_step s t (MkState true (computing_dependency s) None (set_thread s t (Done true))).

Inductive reachable (n : nat) : compute_state -> Prop :=
  | reach_initial : reachable n (initial n)
  | reach_step s t s' : reachable n s -> compute_step s t s' -> reachable n s'.

(** What holds at the program point of thread [t]. *)
Definition thread_ok (s : compute_state) (t : nat) (p : compute_pc) : Prop :=
  match p with
  | Start => owner s <> Some t
  | Locked => owner s = Some t /\ computing_dependency s = false
  | Waiting => False
  | Computing => owner s = Some t /\ computing_dependency s = true /\ dependency_computed s = false
  | Done b => owner s <> Some t /\ dependency_computed s = true
  end.

(** The number of threads that returned [false]. *)
Definition failures (s : compute_state) : nat := count_occ pc_eq_dec (threads s) (Done false).

Definition inv (s : compute_state) : Prop :=
  (forall t p, threads s !! t = Some p -> thread_ok s t p) /\
  (forall t, owner s = Some t ->
     threads s !! t = Some (if computing_dependency s then Computing else Locked)) /\
  (computing_dependency s = true -> is_Some (owner s)) /\
  (failures s <= if dependency_computed s then 1 else 0)%nat.

Lemma count_insert (l : list compute_pc) t p q x :
  l !! t = Some p ->
  (count_occ pc_eq_dec (<[t := q]> l) x + (if decide (p = x) then 1 else 0) =
   count_occ pc_eq_dec l x + (if decide (q = x) then 1 else 0))%nat.
Proof.
  revert t. induction l as [|y l IH]; intros [|t] H; simpl in *; try done.
  - injection H as ->. repeat case_decide; repeat destruct (pc_eq_dec _ _); simplify_eq; lia.
  - specialize (IH t H). repeat case_decide; repeat destruct (pc_eq_dec _ _); simplify_eq; lia.
Qed.

Lemma failures_same s s' t p q :
  threads s !! t = Some p -> threads s' = <[t := q]> (threads s) ->
  p <> Done false -> q <> Done false -> failures s' = failures s.
Proof.
  intros Ht Hs Hp Hq. unfold failures. rewrite Hs.
  pose proof (count_insert (threads s) t p q (Done false) Ht) as H.
  rewrite !decide_False in H by done. lia.
Qed.

(** Moving one thread: the others keep their assertion, the mover has its new one. *)
Lemma threads_move s s' t q :
  threads s' = <[t := q]> (threads s) -> is_Some (threads s !! t) ->
  thread_ok s' t q ->
  (forall u p, u <> t -> threads s !! u = Some p -> thread_ok s u p -> thread_ok s' u p) ->
  (forall u p, threads s !! u = Some p -> thread_ok s u p) ->
  forall u p, threads s' !! u = Some p -> thread_ok s' u p.
Proof.
  intros Hs Ht Hq Hother Hall u p Hu. rewrite Hs in Hu. destruct (decide (u = t)) as [->|Hne].
  - rewrite list_lookup_insert_eq in Hu by (by apply lookup_lt_is_Some). by injection Hu as <-.
  - rewrite list_lookup_insert_ne in Hu by done. auto.
Qed.

Lemma inv_initial n : inv (initial n).
Proof.
  split; [|split; [done|split; [done|]]].
  - intros t p Hp. apply lookup_replicate in Hp as [-> _]. done.
  - assert (failures (initial n) = 0%nat) as ->; [|done]. unfold failures. simpl.
    induction n as [|n IH]; simpl; [done|]. exact IH.
Qed.

(** Discharges the assertion of a thread that did not move. *)
Ltac other_threads :=
  intros ? p' ? ? Hp'; destruct p'; simpl in Hp' |- *; intuition congruence.

Lemma inv_step s t s' : inv s -> compute_step s t s' -> inv s'.
Proof.
  intros (Hth & Hown & Hc & Hf) Hstep.
  inversion Hstep as [Ht Ho|Ht Ho Hd|Ht Ho Hd Hcc|Ht Ho Hd Hcc|ok Ht Ho|Ht Ho Hd]; subst.
  all: pose proof (Hth t _ Ht) as Hok; simpl in Hok.
  - assert (computing_dependency s = false) as Hcc.
    { destruct (computing_dependency s); [|done]. destruct Hc as [? ?]; [done|congruence]. }
    split; [|split; [|split]].
    + eapply threads_move; eauto; simpl; [done|clear Hth Hown]. other_threads.
    + simpl. intros ? [= <-]. rewrite Hcc. apply list_lookup_insert_eq. by eapply lookup_lt_Some.
    + by simpl.
    + simpl. by erewrite (failures_same s _ t).
  - split; [|split; [|split]].
    + eapply threads_move; eauto; simpl; [done|clear Hth Hown]. other_threads.
    + done.
    + simpl. destruct Hok as [_ ->]. done.
    + simpl. erewrite (failures_same s _ t); eauto. by rewrite Hd in Hf.
  - destruct Hok. congruence.
  - split; [|split; [|split]].
    + eapply threads_move; eauto; simpl; [done|clear Hth Hown]. other_threads.
    + simpl. intros ? [= <-]. apply list_lookup_insert_eq. by eapply lookup_lt_Some.
    + by simpl.
    + simpl. erewrite (failures_same s _ t); eauto. by rewrite Hd in Hf.
  - destruct Hok as (_ & _ & Hd). rewrite Hd in Hf. split; [|split; [|split]].
    + eapply threads_move; eauto; simpl; [done|clear Hth Hown]. other_threads.
    + done.
    + done.
    + unfold failures, set_thread in *. simpl.
      pose proof (count_insert (threads s) t Computing (Done ok) (Done false) Ht) as H.
      rewrite (decide_False (P := Computing = Done false)) in H by done. case_decide; lia.
  - done.
Qed.

Lemma reachable_inv n s : reachable n s -> inv s.
Proof. induction 1; [apply inv_initial|by eapply inv_step]. Qed.

(** Each thread takes at most three steps. *)
Definition pc_weight (p : compute_pc) : nat :=
  match p with Start => 3 | Locked => 2 | Waiting => 1 | Computing => 1 | Done _ => 0 end.
Definition weight (s : compute_state) : nat := sum_list_with pc_weight (threads s).

Lemma sum_insert (l : list compute_pc) t p q :
  l !! t = Some p ->
  (sum_list_with pc_weight (<[t := q]> l) + pc_weight p = sum_list_with pc_weight l + pc_weight q)%nat.
Proof.
  revert t. induction l as [|y l IH]; intros [|t] H; simpl in *; try done.
  - injection H as ->. lia.
  - specialize (IH t H). lia.
Qed.

Lemma step_weight s t s' : compute_step s t s' -> (weight s' < weight s)%nat.
Proof.
  intros Hstep. destruct Hstep; unfold weight, set_thread; simpl.
  all: match goal with
       | Ht : threads _ !! _ = Some _ |- context [<[_ := ?q]> _] => pose proof (sum_insert _ _ _ q Ht) as Hw
       end.
  all: simpl in Hw; lia.
Qed.

(** Whatever the interleaving of the requests: the lock is held for the whole
    computation, so that no thread ever waits on the condition variable and at
    most one computes; every thread that has returned did so after the
    computation, and at most one of them reports a failure, the others report
    success even when the computation has failed. *)
Theorem compute_dependencies_once n s :
  reachable n s ->
  (forall t, threads s !! t <> Some Waiting) /\
  (forall t u, threads s !! t = Some Computing -> threads s !! u = Some Computing -> t = u) /\
  (forall t b, threads s !! t = Some (Done b) -> dependency_computed s = true) /\
  (failures s <= 1)%nat.
Proof.
  intros (Hth & _ & _ & Hf)%reachable_inv.
  split_and!; [| | |destruct (dependency_computed s); lia].
  - intros t Ht. by apply Hth in Ht.
  - intros t u Ht Hu. apply Hth in Ht as [Ht _]. apply Hth in Hu as [Hu _]. congruence.
  - intros t b Ht. by apply Hth in Ht as [_ Ht].
Qed.

(** No deadlock: as long as a request has not returned some thread can take a
    step, and since every step brings some thread closer to its return, all
    requests return after at most three steps each. *)
Theorem compute_dependencies_returns n s :
  reachable n s ->
  (weight s <= 3 * n)%nat /\ (forall t s', compute_step s t s' -> (weight s' < weight s)%nat) /\
  ((exists t s', compute_step s t s') \/ forall t p, threads s !! t = Some p -> exists b, p = Done b).
Proof.
  intros Hr. split_and!; [|by intros; eapply step_weight|].
  - induction Hr as [|s t s' Hr IH Hs].
    + unfold weight. simpl. induction n as [|n IH]; simpl in *; lia.
    + apply step_weight in Hs. lia.
  - destruct (reachable_inv n s Hr) as (Hth & Hown & Hc & _). destruct (owner s) as [t|] eqn:Ho.
    + left. pose proof (Hown t eq_refl) as Ht. destruct (computing_dependency s) eqn:Hcc.
      * eexists t, _. by apply (step_finish s t true).
      * destruct (dependency_computed s) eqn:Hd; eexists t, _; [by apply step_computed|by apply step_compute].
    + destruct (decide (Exists (fun p => p = Start) (threads s))) as [He|Hne].
      * left. apply Exists_exists in He as (p & Hp & ->). apply list_elem_of_lookup in Hp as [t Ht].
        eexists t, _. by apply step_lock.
      * right. intros t p Ht. pose proof (Hth t p Ht) as Hok. destruct p as [| | | |b]; simpl in Hok; try (by destruct Hok).
        -- exfalso. apply Hne, Exists_exists. exists Start. split; [|done]. by eapply list_elem_of_lookup_2.
        -- destruct Hok; congruence.
        -- destruct Hok; congruence.
        -- by exists b.
Qed.

(** Two requests: the first computes, the second finds the result. *)
Definition ex_done : compute_state := MkState true false None [Done false; Done true].

Lemma ex_done_reachable : reachable 2 ex_done.
Proof.
  eapply (reach_step 2 _ 1); [|by apply (step_computed (MkState true false (Some 1%nat) [Done false; Locked]) 1)].
  eapply (reach_step 2 _ 1); [|by apply (step_lock (MkState true false None [Done false; Start]) 1)].
  eapply (reach_step 2 _ 0); [|by apply (step_finish (MkState false true (Some 0%nat) [Computing; Start]) 0 false)].
  eapply (reach_step 2 _ 0); [|by apply (step_compute (MkState false false (Some 0%nat) [Locked; Start]) 0)].
  eapply (reach_step 2 _ 0); [|by apply (step_lock (initial 2) 0)]. apply reach_initial.
Qed.

Lemma compute_dependencies_once_witness :
  reachable 2 ex_done /\ (failures ex_done <= 1)%nat /\ failures ex_done = 1%nat.
Proof.
  split; [exact ex_done_reachable|].
  split; [apply (compute_dependencies_once 2 ex_done ex_done_reachable)|reflexivity].
Defined.

Lemma compute_dependencies_returns_witness :
  (weight ex_done <= 6)%nat /\ exists t s', compute_step (initial 2) t s'.
Proof.
  split; [apply (compute_dependencies_returns 2 ex_done ex_done_reachable)|].
  destruct (compute_dependencies_returns 2 (initial 2) (reach_initial 2)) as (_ & _ & [H|H]); [exact H|].
  destruct (H 0%nat Start eq_refl) as [b Hb]. discriminate.
Defined.

End Dependencies.
(** ** Waiting for the trace *)
Module TraceReady.

Section TraceReady.
Context {Instr : Type} `{M : !AddrTrace.Matcher Instr}.
Abbreviation trace := (AddrTrace.PmemAddrTrace (Instr := Instr)).

(** What is done with a trace that is ready: the offsets, then the instructions;
    the flag is [false] at the first failure. *)
Definition process_trace (t : trace) : bool * trace :=
  match AddrTrace.pool_addrs t with
  | [] => (false, t)
  | _ :: _ =>
    let '(ok, t1) := AddrTrace.calculatePoolOffsets t in
    if ok then AddrTrace.addressesToInstructions t1 else (false, t1)
  end.

(** [trace_instrs]: each item filed under its instruction. *)
Definition instr_pairs (t : trace) : list (option Instr * nat) :=
  imap (fun i item => (AddrTrace.instr item, i)) (AddrTrace.items t).

(** Program points of [wait_address_trace_ready]. *)
Inductive wait_pc :=
  | Start
  | Locked            (* [_trace_mu] is held *)
  | WaitProcessed     (* in [_trace_processed_cv.wait] *)
  | WaitReady         (* in [_trace_ready_cv.wait] *)
  | Processing        (* the lock is held and the trace is ready *)
  | Done (b : bool).

#[local] Instance pc_eq_dec : EqDecision wait_pc.
Proof. solve_decision. Defined.

Record wait_state := MkState {
  trace_ready : bool;
  trace_processed : bool;
  processing_trace : bool;
  addr_trace : trace;
  trace_instrs : list (option Instr * nat);
  owner : option nat;
  threads : list wait_pc }.

Definition initial (t : trace) (n : nat) : wait_state :=
  MkState false false false t [] None (replicate n Start).

(** Thread [u] moves to [p], the lock to [o]. *)
Definition move (s : wait_state) (o : option nat) (u : nat) (p : wait_pc) : wait_state :=
  MkState (trace_ready s) (trace_processed s) (processing_trace s) (addr_trace s) (trace_instrs s)
    o (<[u := p]> (threads s)).

Definition set_processing (s : wait_state) : wait_state :=
  MkState (trace_ready s) (trace_processed s) true (addr_trace s) (trace_instrs s) (owner s) (threads s).

(** The end of the processing: the flags are updated only when it succeeds.  The work
    on the trace is one step: items that the monitor adds meanwhile, without the lock,
    count as added before or after it.  [fopen] of output_log, whose result is used
    without a check, is taken to succeed. *)
Definition finish (s : wait_state) (u : nat) : wait_state :=
  let '(ok, t) := process_trace (addr_trace s) in
  if ok
  then MkState (trace_ready s) true false t (trace_instrs s ++ instr_pairs t) None
         (<[u := Done true]> (threads s))
  else MkState (trace_ready s) (trace_processed s) (processing_trace s) t (trace_instrs s) None
         (<[u := Done false]> (threads s)).

(** Who takes a step: a request or the monitor of the trace. *)
Inductive actor := Request (u : nat) | TraceMonitor.

Inductive wait_step (s : wait_state) : actor -> wait_state -> Prop :=
  | step_lock u :
      threads s !! u = Some Start -> owner s = None -> wait_step s (Request u) (move s (Some u) u Locked)
  | step_processed u :
      threads s !! u = Some Locked -> owner s = Some u -> trace_processed s = true ->
      wait_step s (Request u) (move s None u (Done true))
  | step_wait_processed u :
      threads s !! u = Some Locked -> owner s = Some u -> trace_processed s = false ->
      processing_trace s = true -> wait_step s (Request u) (move s None u WaitProcessed)
  | step_take u :
      threads s !! u = Some Locked -> owner s = Some u -> trace_processed s = false ->
      processing_trace s = false ->
      wait_step s (Request u) (if trace_ready s then move (set_processing s) (Some u) u Processing
              else move (set_processing s) None u WaitReady)
  | step_ready u :
      threads s !! u = Some WaitReady -> owner s = None -> trace_ready s = true ->
      wait_step s (Request u) (move s (Some u) u Processing)
  | step_finish u :
      threads s !! u = Some Processing -> owner s = Some u -> wait_step s (Request u) (finish s u)
  | step_wake u :
      threads s !! u = Some WaitProcessed -> owner s = None -> trace_processed s = true ->
      wait_step s (Request u) (move s None u (Done true))
  (* the monitor thread: it takes the lock for the flag, not for the trace *)
  | step_monitor_ready b :
      owner s = None ->
      wait_step s TraceMonitor
        (MkState b (trace_processed s) (processing_trace s) (addr_trace s) (trace_instrs s) (owner s) (threads s))
  | step_monitor_trace t :
      wait_step s TraceMonitor
        (MkState (trace_ready s) (trace_processed s) (processing_trace s) t (trace_instrs s) (owner s) (threads s)).

Definition any_step (s s' : wait_state) : Prop := exists a, wait_step s a s'.

Definition steps : wait_state -> wait_state -> Prop := rtc any_step.

(** A thread that is responsible for the trace. *)
Definition active (p : wait_pc) : bool := match p with WaitReady | Processing => true | _ => false end.

(** The lock and the flags agree with the program points: who owns the lock is
    inside, whoever is inside owns it, an active thread has announced itself and
    is the only one, and success is announced by a processed trace. *)
Record inv (s : wait_state) : Prop := Inv {
  inv_owner : forall u p, threads s !! u = Some p -> p = Locked \/ p = Processing -> owner s = Some u;
  inv_active : forall u p, threads s !! u = Some p -> active p = true ->
    processing_trace s = true /\ trace_processed s = false;
  inv_one : forall u v p q, threads s !! u = Some p -> threads s !! v = Some q ->
    active p = true -> active q = true -> u = v;
  inv_success : forall u, threads s !! u = Some (Done true) -> trace_processed s = true;
  inv_processed : trace_processed s = true -> processing_trace s = false;
  inv_instrs : trace_processed s = false -> trace_instrs s = []
}.

Lemma lookup_move (l : list wait_pc) u p v q :
  <[u := p]> l !! v = Some q -> (v = u /\ q = p) \/ (v <> u /\ l !! v = Some q).
Proof.
  destruct (decide (v = u)) as [->|Hne].
  - intros H. left. split; [done|]. pose proof (lookup_lt_Some _ _ _ H) as Hlt.
    rewrite length_insert in Hlt. rewrite list_lookup_insert_eq in H by done. congruence.
  - rewrite list_lookup_insert_ne by done. by right.
Qed.

(** Case analysis of the program points after a move. *)
Ltac points :=
  repeat match goal with
         | H : <[_ := _]> _ !! _ = Some _ |- _ => apply lookup_move in H as [[-> ?]|[? ?]]
         end.

Lemma wait_inv_initial t n : inv (initial t n).
Proof.
  split; simpl; intros; try done.
  all: repeat match goal with H : replicate _ _ !! _ = Some _ |- _ => apply lookup_replicate in H as [? _] end.
  all: naive_solver.
Qed.


(** The clauses of the invariant after a move of one thread. *)
Ltac clause Ho Ha H1 :=
  simpl in *; points; subst; simpl in *; try done; try congruence;
  try (match goal with H : _ \/ _ |- _ => destruct H; congruence end);
  try (match goal with
       | H : threads _ !! ?v = Some ?q, E : ?q = _ \/ ?q = _ |- _ => specialize (Ho v q H E); congruence
       end);
  try (match goal with
       | H : threads _ !! _ = Some ?q, E : active ?q = true |- _ =>
         destruct (Ha _ _ H E); split; congruence || fail
       end);
  try (match goal with
       | H : threads _ !! _ = Some ?q, E : active ?q = true |- _ => destruct (Ha _ _ H E); congruence
       end);
  try (eapply H1; eauto; done).

Lemma wait_inv_step s a s' : inv s -> wait_step s a s' -> inv s'.
Proof.
  intros [Ho Ha H1 Hs Hp Hi] Hstep.
  destruct Hstep as [u Hu Hw|u Hu Hw Hd|u Hu Hw Hd Hpr|u Hu Hw Hd Hpr|u Hu Hw Hr|u Hu Hw|u Hu Hw Hd|b Hw|t].
  - constructor; intros; clause Ho Ha H1; eauto.
  - constructor; intros; clause Ho Ha H1; eauto.
  - constructor; intros; clause Ho Ha H1; eauto.
  - destruct (trace_ready s); constructor; intros; clause Ho Ha H1; eauto.
  - constructor; intros; clause Ho Ha H1; eauto.
  - pose proof (fun v q Hv Hq => H1 v u q Processing Hv Hu Hq eq_refl) as Hone.
    destruct (Ha u Processing Hu eq_refl) as [Hpr Hpd].
    unfold finish. destruct (process_trace (addr_trace s)) as [[] t]; constructor; intros; clause Ho Ha H1;
      eauto; exfalso; eauto.
  - constructor; intros; clause Ho Ha H1; eauto.
  - constructor; intros; clause Ho Ha H1; eauto.
  - constructor; intros; clause Ho Ha H1; eauto.
Qed.

Lemma wait_inv_steps s s' : inv s -> steps s s' -> inv s'.
Proof. intros Hi Hs. induction Hs as [|? ? ? [? ?]]; eauto using wait_inv_step. Qed.

(** After the trace has been processed nothing touches it again. *)
Lemma processed_step s a s' :
  inv s -> trace_processed s = true -> wait_step s a s' ->
  trace_processed s' = true /\ trace_instrs s' = trace_instrs s.
Proof.
  intros Hi Hp Hstep.
  destruct Hstep as [u Hu Hw|u Hu Hw Hd|u Hu Hw Hd Hpr|u Hu Hw Hd Hpr|u Hu Hw Hr|u Hu Hw|u Hu Hw Hd|b Hw|t];
    try done.
  - by destruct (trace_ready s).
  - destruct (inv_active s Hi u Processing Hu eq_refl). congruence.
Qed.

(** The requests are stuck: a thread has announced that it processes the trace, and
    there is no such thread. *)
Record stuck (s : wait_state) : Prop := Stuck {
  stuck_processing : processing_trace s = true;
  stuck_processed : trace_processed s = false;
  stuck_inactive : forall v q, threads s !! v = Some q -> active q = false
}.

Lemma stuck_step s a s' :
  stuck s -> wait_step s a s' ->
  stuck s' /\ forall v b, threads s' !! v = Some (Done b) -> threads s !! v = Some (Done b).
Proof.
  intros [Hpr Hpd Ha] Hstep.
  destruct Hstep as [u Hu Hw|u Hu Hw Hd|u Hu Hw Hd Hp|u Hu Hw Hd Hp|u Hu Hw Hr|u Hu Hw|u Hu Hw Hd|b Hw|t];
    try congruence; try (by specialize (Ha u _ Hu)).
  all: split; [constructor|]; simpl; try done.
  all: intros v q Hv; points; subst; try done; eauto.
Qed.

Lemma stuck_steps s s' :
  stuck s -> steps s s' -> forall v b, threads s' !! v = Some (Done b) -> threads s !! v = Some (Done b).
Proof.
  intros Hst Hs. induction Hs as [|s s1 s2 [a Hstep] Hs IH]; [done|].
  destruct (stuck_step s a s1 Hst Hstep) as [Hst1 H1]. eauto.
Qed.

(** C37. In every interleaving of requests and monitor: one thread at a time is
    responsible for the trace, a request that returns success does so after the
    trace has been processed, and once it has been, it and the table of traced
    instructions stay as they are. *)
Theorem trace_processed_once t n s :
  steps (initial t n) s ->
  (forall u v p q, threads s !! u = Some p -> threads s !! v = Some q ->
     active p = true -> active q = true -> u = v) /\
  (forall u, threads s !! u = Some (Done true) -> trace_processed s = true) /\
  (forall s', steps s s' -> trace_processed s = true ->
     trace_processed s' = true /\ trace_instrs s' = trace_instrs s).
Proof.
  intros Hs. pose proof (wait_inv_steps _ _ (wait_inv_initial t n) Hs) as Hi.
  split; [apply (inv_one s Hi)|]. split; [apply (inv_success s Hi)|].
  intros s' Hs'. clear Hs. induction Hs' as [|s s1 s2 [a Hstep] Hs' IH]; [done|]. intros Hp.
  destruct (processed_step s a s1 Hi Hp Hstep) as [Hp1 Ht1].
  destruct (IH (wait_inv_step s a s1 Hi Hstep) Hp1) as [? Ht2]. split; [done|]. by rewrite Ht2.
Qed.

(** When the processing fails the request returns with [processing_trace] still
    set: no request that has not returned by then ever returns, whatever the
    threads and the monitor do afterwards. *)
Theorem processing_failure_blocks t n s u s' v b :
  steps (initial t n) s -> threads s !! u = Some Processing -> owner s = Some u ->
  (process_trace (addr_trace s)).1 = false -> steps (finish s u) s' ->
  threads s' !! v = Some (Done b) -> (v = u /\ b = false) \/ threads s !! v = Some (Done b).
Proof.
  intros Hs Hu Hw Hf Hs' Hv. pose proof (wait_inv_steps _ _ (wait_inv_initial t n) Hs) as Hi.
  destruct (inv_active s Hi u Processing Hu eq_refl) as [Hpr Hpd].
  unfold finish in Hs'. destruct (process_trace (addr_trace s)) as [ok t1]. simpl in Hf. subst ok.
  eapply stuck_steps in Hv; [| |exact Hs'].
  - simpl in Hv. apply lookup_move in Hv as [[-> [= ->]]|[_ Hv]]; [by left|by right].
  - constructor; simpl; try done. intros w q Hq. apply lookup_move in Hq as [[-> ->]|[Hne Hq]]; [done|].
    destruct (active q) eqn:Ha; [|done]. destruct Hne. eapply (inv_one s Hi); eauto.
Qed.

(** ** Every request is answered

    While the monitor is silent and the trace is good, the steps of the requests are
    finite in number, and when none is left all requests have returned success. *)
Definition request_step (s s' : wait_state) : Prop := exists u, wait_step s (Request u) s'.

Record live (s : wait_state) : Prop := Live {
  lv_inv : inv s;
  lv_owner : forall u, owner s = Some u -> exists p, threads s !! u = Some p /\ (p = Locked \/ p = Processing);
  lv_waits : forall u, threads s !! u = Some WaitProcessed -> processing_trace s = true \/ trace_processed s = true;
  lv_worker : processing_trace s = true -> trace_processed s = false ->
    exists u p, threads s !! u = Some p /\ (active p = true \/ p = Done false)
}.

Lemma live_initial t n : live (initial t n).
Proof.
  split; [apply wait_inv_initial|done| |done]. intros u Hu. cbn in Hu. by apply lookup_replicate in Hu as [? _].
Qed.

(** Another thread keeps its program point. *)
Lemma keep_other (l : list wait_pc) u p v q : l !! v = Some q -> v <> u -> <[u := p]> l !! v = Some q.
Proof. intros. by rewrite list_lookup_insert_ne. Qed.

Lemma moved_self (l : list wait_pc) u p q : l !! u = Some q -> <[u := p]> l !! u = Some p.
Proof. intros. apply list_lookup_insert_eq. by eapply lookup_lt_Some. Qed.

(** A move of a thread that is neither working nor waiting for its work. *)
Lemma keep_worker (s : wait_state) u p0 p :
  (exists v q, threads s !! v = Some q /\ (active q = true \/ q = Done false)) -> threads s !! u = Some p0 ->
  active p0 = false -> p0 <> Done false ->
  exists v q, <[u := p]> (threads s) !! v = Some q /\ (active q = true \/ q = Done false).
Proof.
  intros (v & q & Hv & Hq) Hu Ha Hd. exists v, q. split; [|done]. apply keep_other; [done|]. intros ->. destruct Hq; congruence.
Qed.

Lemma live_step s a s' : live s -> wait_step s a s' -> live s'.
Proof.
  intros [Hinv Ho Hw Hk] Hstep. pose proof (wait_inv_step s a s' Hinv Hstep) as Hinv'.
  destruct Hstep as [u Hu Hn|u Hu Hn Hd|u Hu Hn Hd Hpr|u Hu Hn Hd Hpr|u Hu Hn Hr|u Hu Hn|u Hu Hn Hd|b Hn|t];
    [..|done|done].
  - split; [exact Hinv'| | |]; cbn.
    + intros v [= <-]. exists Locked. split; [by eapply moved_self|by left].
    + intros v Hv. points; [done|by eapply Hw].
    + intros Hp Hd. eapply keep_worker; eauto; done.
  - split; [exact Hinv'|done| |]; cbn; [|congruence]. intros v Hv. points; [done|by eapply Hw].
  - split; [exact Hinv'|done| |]; cbn; [by left|]. intros _ _. eapply keep_worker; eauto; done.
  - destruct (trace_ready s); (split; [exact Hinv'| |by left|]); cbn.
    + intros v [= <-]. exists Processing. split; [by eapply moved_self|by right].
    + intros _ _. exists u, Processing. split; [by eapply moved_self|by left].
    + done.
    + intros _ _. exists u, WaitReady. split; [by eapply moved_self|by left].
  - split; [exact Hinv'| | |]; cbn.
    + intros v [= <-]. exists Processing. split; [by eapply moved_self|by right].
    + intros v Hv. points; [done|by eapply Hw].
    + intros _ _. exists u, Processing. split; [by eapply moved_self|by left].
  - unfold finish in *. destruct (process_trace (addr_trace s)) as [[] t].
    + split; [exact Hinv'|done|by right|done].
    + split; [exact Hinv'|done| |]; cbn.
      * intros v Hv. points; [done|by eapply Hw].
      * intros _ _. exists u, (Done false). split; [by eapply moved_self|by right].
  - split; [exact Hinv'|done| |]; cbn; [|congruence]. intros v Hv. points; [done|by eapply Hw].
Qed.

Lemma live_steps s s' : live s -> steps s s' -> live s'.
Proof. intros Hl Hs. induction Hs as [|? ? ? [? ?]]; eauto using live_step. Qed.

(** The trace is there and can be processed, and no request has failed. *)
Record answerable (s : wait_state) : Prop := Answerable {
  an_live : live s;
  an_ready : trace_ready s = true;
  an_good : trace_processed s = false -> (process_trace (addr_trace s)).1 = true;
  an_none : forall u, threads s !! u <> Some (Done false)
}.

Lemma answerable_step s s' : answerable s -> request_step s s' -> answerable s'.
Proof.
  intros [Hl Hr Hg Hn] [u Hstep]. pose proof (live_step s (Request u) s' Hl Hstep) as Hl'.
  pose proof (fun H => inv_active s (lv_inv s Hl) u Processing H eq_refl) as Hpd.
  inversion Hstep as [? Hu Hw|? Hu Hw Hd|? Hu Hw Hd Hpr|? Hu Hw Hd Hpr|? Hu Hw Hrd|? Hu Hw|? Hu Hw Hd| |]; subst;
    (split; [exact Hl'|..]); clear Hl' Hstep; try rewrite Hr; unfold finish; try done.
  all: try (by intros v Hv; cbn in Hv; points; [done|eapply Hn]).
  all: destruct (Hpd Hu) as [_ Hp]; specialize (Hg Hp); destruct (process_trace (addr_trace s)) as [ok t]; cbn in Hg; subst ok; try done.
  intros v Hv. cbn in Hv. points; [done|by eapply Hn].
Qed.

(** How far a thread is from its return. *)
Definition distance_of (p : wait_pc) : nat :=
  match p with Start => 4 | Locked => 3 | WaitReady => 2 | WaitProcessed => 1 | Processing => 1 | Done _ => 0 end.
Definition distance (s : wait_state) : nat := sum_list (distance_of <$> threads s).

Lemma distance_insert (l : list wait_pc) u p q :
  l !! u = Some p -> (distance_of q < distance_of p)%nat ->
  (sum_list (distance_of <$> <[u := q]> l) < sum_list (distance_of <$> l))%nat.
Proof.
  intros Hp Hlt. rewrite <- (take_drop_middle l u p Hp) at 2. rewrite (insert_take_drop l u q) by (by eapply lookup_lt_Some).
  rewrite !fmap_app, !fmap_cons, !sum_list_with_app. cbn. lia.
Qed.

Lemma request_closer s s' : request_step s s' -> (distance s' < distance s)%nat.
Proof.
  intros [u Hstep]. unfold distance. inversion Hstep; subst; unfold finish;
    repeat case_match; cbn [move threads set_processing]; (eapply distance_insert; [eassumption|cbn; lia]).
Qed.

(** A request that has not returned can go on, or waits for one that can. *)
Lemma request_enabled s u p :
  answerable s -> threads s !! u = Some p -> (forall b, p <> Done b) -> exists s', request_step s s'.
Proof.
  intros [[Hinv Ho Hw Hk] Hr Hg Hn] Hu Hp. unfold request_step.
  destruct (owner s) as [v|] eqn:Hown.
  - destruct (Ho v eq_refl) as (q & Hv & [->| ->]); [|eexists _, v; by apply step_finish].
    destruct (trace_processed s) eqn:Hd; [eexists _, v; by apply step_processed|].
    destruct (processing_trace s) eqn:Hpr; [eexists _, v; by apply step_wait_processed|eexists _, v; by apply step_take].
  - pose proof (inv_owner s Hinv) as Hown'. destruct p as [| | | | |b].
    + eexists _, u. by apply step_lock.
    + specialize (Hown' u _ Hu (or_introl eq_refl)). congruence.
    + destruct (trace_processed s) eqn:Hd; [eexists _, u; by apply step_wake|].
      destruct (Hw u Hu) as [Hpr|?]; [|congruence]. destruct (Hk Hpr eq_refl) as (v & q & Hv & [Hq| ->]); [|by destruct (Hn v)].
      destruct q; try done; [eexists _, v; by apply step_ready|]. specialize (Hown' v _ Hv (or_intror eq_refl)). congruence.
    + eexists _, u. by apply step_ready.
    + specialize (Hown' u _ Hu (or_intror eq_refl)). congruence.
    + by destruct (Hp b).
Qed.

Lemma answerable_steps s s' : answerable s -> rtc request_step s s' -> answerable s'.
Proof. intros Ha Hs. induction Hs; eauto using answerable_step. Qed.

(** C36. Every request is answered.  In any reachable state in which the trace is ready
    and can be processed, or has been, and no request has failed: as long as the
    monitor is silent the requests take finitely many steps in whatever order, and
    when no step is left, all of them have returned success. *)
Theorem requests_answered t n s :
  steps (initial t n) s -> trace_ready s = true ->
  (trace_processed s = false -> (process_trace (addr_trace s)).1 = true) ->
  (forall u, threads s !! u <> Some (Done false)) ->
  sn request_step s /\
  forall s', rtc request_step s s' -> nf request_step s' -> Forall (fun p => p = Done true) (threads s').
Proof.
  intros Hs Hr Hg Hn. assert (answerable s) as Ha by (split; [eapply live_steps, Hs; apply live_initial|done..]). split.
  - clear. remember (distance s) as d eqn:Hd. revert s Hd. induction d as [d IH] using lt_wf_ind. intros s ->.
    constructor. intros s' Hs'. eapply IH; [by apply request_closer, Hs'|done].
  - intros s' Hs' Hnf. pose proof (answerable_steps s s' Ha Hs') as Ha'. apply Forall_lookup. intros u p Hu.
    destruct p as [| | | | |[]]; [..|done|by destruct (an_none s' Ha' u)];
      (exfalso; apply Hnf; eapply request_enabled; [exact Ha'|exact Hu|done]).
Qed.

End TraceReady.

#[local] Existing Instance AddrTrace.ex_matcher.

(** Two requests on an empty trace: the first fails, the second blocks. *)
Definition ex_blocked : wait_state (Instr := nat) :=
  MkState true false true AddrTrace.new_trace [] (Some 0%nat) [Processing; Start].

Lemma ex_blocked_reachable : steps (initial AddrTrace.new_trace 2) ex_blocked.
Proof.
  eapply rtc_l; [eexists; by apply (step_monitor_ready _ true)|].
  eapply rtc_l; [eexists; by apply (step_lock _ 0)|].
  eapply rtc_l; [eexists; by apply (step_take _ 0)|]. apply rtc_refl.
Qed.

(** Three requests on the trace of [AddrTrace], two of them already under way. *)
Definition ex_waiting : wait_state (Instr := nat) :=
  MkState true false true AddrTrace.ex_trace [] None [WaitReady; WaitProcessed; Start].

Lemma ex_waiting_reachable : steps (initial AddrTrace.ex_trace 3) ex_waiting.
Proof.
  eapply rtc_l; [eexists; by apply (step_lock _ 0)|].
  eapply rtc_l; [eexists; by apply (step_take _ 0)|].
  eapply rtc_l; [eexists; by apply (step_lock _ 1)|].
  eapply rtc_l; [eexists; by apply (step_wait_processed _ 1)|].
  eapply rtc_l; [eexists; by apply (step_monitor_ready _ true)|]. apply rtc_refl.
Qed.

Lemma requests_answered_witness :
  sn request_step ex_waiting /\
  forall s', rtc request_step ex_waiting s' -> nf request_step s' -> Forall (fun p => p = Done true) (threads s').
Proof.
  apply (requests_answered AddrTrace.ex_trace 3 ex_waiting ex_waiting_reachable).
  - reflexivity.
  - intros _. vm_compute. reflexivity.
  - intros [|[|[|u]]]; discriminate.
Defined.

Lemma trace_processed_once_witness :
  steps (initial AddrTrace.new_trace 2) ex_blocked /\
  (forall u, threads ex_blocked !! u = Some (Done true) -> trace_processed ex_blocked = true).
Proof.
  split; [exact ex_blocked_reachable|].
  apply (trace_processed_once AddrTrace.new_trace 2 ex_blocked ex_blocked_reachable).
Defined.

Lemma processing_failure_blocks_witness :
  threads (finish ex_blocked 0) !! 1%nat = Some Start /\
  forall s' b, steps (finish ex_blocked 0) s' -> threads s' !! 1%nat <> Some (Done b).
Proof.
  split; [reflexivity|]. intros s' b Hs H.
  destruct (processing_failure_blocks AddrTrace.new_trace 2 ex_blocked 0 s' 1 b) as [[? _]|Hd];
    [exact ex_blocked_reachable|reflexivity|reflexivity|reflexivity|exact Hs|exact H|discriminate|].
  vm_compute in Hd. discriminate.
Defined.

End TraceReady.
End Concurrency.
