(* ===== verification/React.v ===== *)
(** * The reaction (Reactor::react of reactor/lib/core.cpp)

    The driver that ties the components together: it opens the pool, builds the
    logs of the checkpoint, collects the sequence numbers of the updates made by
    the instructions of the fault's slices, and has them reverted.  The slices
    and the fault instruction are arguments: computing them is the analyzer's
    part. *)
From stdpp Require Import base list gmap strings sorting.
From S2P Require Import Prelude Memory Checkpoint Chains SeqLog Rollback LogCreation.
From S2P Require Import ReExecute Options BinaryReversion AddrTrace.

Module React.
Import ReExecute.

Definition BATCH_REEXECUTION : nat := 1.
Definition ROLLBACK_MODE : Z := 0.

(** [std::sort], which gives the unique sorted rearrangement of integers. *)
Definition sort_up (l : list Z) : list Z := merge_sort Z.le l.
Definition sort_down (l : list Z) : list Z := reverse (sort_up l).

Section React.
Context {E : Type} `{!Environment E} {Instr : Type} `{!EqDecision Instr}.
Abbreviation item := (AddrTrace.PmemAddrTraceItem (Instr := Instr)).

(** ** Addresses and sequence numbers *)

(** Copying the sequence numbers of an address to the array, from its start; the
    number of elements written and the largest. *)
Definition copy_range (sequences seqs : list Z) : option (list Z * Z * Z) :=
  mfold (fun '(sequences, ind, highest) q =>
      sequences' ← zset sequences ind q;
      Some (sequences', ind + 1, if decide (q > highest) then q else highest))
    (sequences, 0, -1) seqs.

Record address_seqs := AddressSeqs {
  address_seq_nums : LogCreation.multimap;
  as_sequences : list Z;
  as_highest_num : Z;
  as_starting_seq_num : Z
}.

Definition address_seq_creation (s_log : seq_log) (sequences : list Z) (items : list item)
    (fault_inst : Instr) : option address_seqs :=
  chains ← scan (sl_size s_log) (sl_list s_log);
  let mm := walk (fun mm temp => LogCreation.mm_insert mm (sd_address (sn_ordered_data temp))
                                   (sn_sequence_number temp)) [] chains in
  '(sequences, highest, starting) ←
    mfold (fun '(sequences, highest, starting) it =>
        if decide (AddrTrace.instr it = Some fault_inst) then
          '(sequences', _, highest') ← copy_range sequences (LogCreation.equal_range mm (AddrTrace.addr it));
          Some (sequences', highest', if decide (highest' = -1) then starting else highest')
        else Some (sequences, highest, starting))
      (sequences, -1, -1) items;
  Some (AddressSeqs mm sequences highest starting).

(** ** Collecting candidates *)

(** The collected numbers: [many_address_seq], the array [slice_seq_numbers] with
    its iterator, [it_count], the scratch array and the table of numbers already
    taken. *)
Record collector := Collector {
  sequences : list Z;
  many_address_seq : list Z;
  slice_seq_numbers : list Z;
  slice_seq_iterator : Z;
  it_count : Z;
  r_log : seq_log
}.

Section Collect.
Context (empty_data : single_data) (mm : LogCreation.multimap)
        (trace_instrs : list (option Instr * item)).

(** The body of the loop over the sorted numbers of an address. *)
Definition take_sequence (c : collector) (i : Z) : option collector :=
  q ← zget (sequences c) i;
  search_num ← SeqLog.rev_lookup (r_log c) q;
  if decide (q <> -1 /\ search_num <> 1) then
    slice' ← zset (slice_seq_numbers c) (slice_seq_iterator c) q;
    r' ← SeqLog.insert (r_log c) q empty_data;
    Some (Collector (sequences c) (many_address_seq c ++ [q]) slice' (slice_seq_iterator c + 1)
            (if decide (i = 0) then it_count c + 1 else it_count c) r')
  else Some c.

Definition collect_address (c : collector) (addr : Z) : option collector :=
  '(sequences', ind, _) ← copy_range (sequences c) (LogCreation.equal_range mm addr);
  let sorted := sort_down (take (Z.to_nat ind) sequences') ++ drop (Z.to_nat ind) sequences' in
  mfold take_sequence
    (Collector sorted (many_address_seq c) (slice_seq_numbers c) (slice_seq_iterator c) (it_count c) (r_log c))
    (reverse (seqZ 0 ind)).

(** All trace items filed under the instruction. *)
Definition traced (dep_inst : Instr) : list item :=
  snd <$> filter (fun e => e.1 = Some dep_inst) trace_instrs.

Definition collect_instr (c : collector) (dep_inst : Instr) : option collector :=
  mfold (fun c it => if decide (AddrTrace.instr it = Some dep_inst)
                     then collect_address c (AddrTrace.addr it) else Some c)
    c (traced dep_inst).

End Collect.

(** ** The loop over the slices *)

(** The state of the driver: the state of the search with the world and the
    global counters, the collector, and the local flags. *)
Record driver := Driver {
  dr_search : BinaryReversion.state (E := E);
  dr_coll : collector;
  many_address_clear : bool;
  req_flag2 : Z;
  total_reverted_items : Z;
  high_num : Z
}.

Inductive verdict := Finished | Continue.

Section Driver.
Context (garbage empty_data : single_data) (c_log : checkpoint_log) (num_data pool_address : Z)
        (options : Options.reactor_options) (fp : Z)
        (mm : LogCreation.multimap) (trace_instrs : list (option Instr * item)) (fuel : nat).

Definition set_coll (d : driver) (c : collector) : driver :=
  Driver (dr_search d) c (many_address_clear d) (req_flag2 d) (total_reverted_items d) (high_num d).
Definition set_search (d : driver) (s : BinaryReversion.state) : driver :=
  Driver s (dr_coll d) (many_address_clear d) (req_flag2 d) (total_reverted_items d) (high_num d).
Definition set_many (c : collector) (l : list Z) : collector :=
  Collector (sequences c) l (slice_seq_numbers c) (slice_seq_iterator c) (it_count c) (r_log c).
Definition set_iterator (c : collector) (i : Z) : collector :=
  Collector (sequences c) (many_address_seq c) (slice_seq_numbers c) i (it_count c) (r_log c).
Definition set_r_log (c : collector) (r : seq_log) : collector :=
  Collector (sequences c) (many_address_seq c) (slice_seq_numbers c) (slice_seq_iterator c) (it_count c) r.

(** [fprintf] to the log of the server, which is undefined when it is not open. *)
Definition log_success : option unit := if decide (fp = 0) then None else Some tt.

(** Binary reversion of the collected numbers when there are several. *)
Definition binary_batch (d : driver) : outcome (verdict * driver) :=
  let many := sort_up (many_address_seq (dr_coll d)) in
  let s := dr_search d in
  '(_, s1) ← BinaryReversion.binary_reversion garbage c_log num_data pool_address options fuel many 0
               (Z.of_nat (length many) - 1)
               (BinaryReversion.with_globals s
                  (BinaryReversion.set_success (BinaryReversion.st_globals s) (-1)));
  let x := BinaryReversion.st_globals s1 in
  let total := total_reverted_items d + BinaryReversion.binary_reverted_items x in
  if decide (BinaryReversion.binary_success x = 1) then
    _ ← run log_success;
    Ret (Finished, Driver s1 (set_many (dr_coll d) many) (many_address_clear d) (req_flag2 d) total (high_num d))
  else
    Ret (Continue, Driver s1 (set_many (dr_coll d) []) true (req_flag2 d) total (high_num d)).

(** The numbers between two batches, reverted in rollback mode. *)
Definition rollback_between (decided : list Z) (decided_total : Z) (d : driver) : outcome driver :=
  lowest ← run (LogCreation.findSmallestElement decided decided_total);
  let w := BinaryReversion.st_world (dr_search d) in
  '(r, nums) ← run (mfold (fun '(r, nums) i =>
                        s_num ← SeqLog.rev_lookup r i;
                        if decide (s_num = 1) then Some (r, nums)
                        else r' ← SeqLog.insert r i empty_data; Some (r', nums ++ [i]))
                      (r_log (dr_coll d), []) (reverse (seqZ lowest (high_num d - lowest))));
  m ← run (Rollback.revert_by_sequence_number_array garbage (w_mem w) (w_log w) nums
             (Z.of_nat (length nums)) c_log);
  let s := dr_search d in
  Ret (Driver (BinaryReversion.State (with_mem w m) (BinaryReversion.st_globals s) (BinaryReversion.st_pop s))
         (set_r_log (dr_coll d) r) (many_address_clear d) (req_flag2 d) (total_reverted_items d) lowest).

(** Direct reversion of the numbers of one slice item. *)
Definition direct_batch (d : driver) : outcome (verdict * driver) :=
  let c := dr_coll d in
  let w := BinaryReversion.st_world (dr_search d) in
  '(decided, decided_total) ← run (Rollback.decision_func_sequence_array (slice_seq_numbers c)
      (slice_seq_iterator c) (replicate (Z.to_nat (sl_size (w_log w))) 0) 0);
  m ← run (Rollback.revert_by_sequence_number_array garbage (w_mem w) (w_log w) decided decided_total c_log);
  let s := dr_search d in
  let d1 := set_search d (BinaryReversion.State (with_mem w m) (BinaryReversion.st_globals s)
                            (BinaryReversion.st_pop s)) in
  d2 ← (if decide (ROLLBACK_MODE <> 0) then rollback_between decided decided_total d1 else Ret d1);
  d3 ← (if decide (decided_total > 0) then
          let s2 := dr_search d2 in
          obj ← run (BinaryReversion.is_pmemobj options);
          w1 ← run (if (obj : bool) then pmemobj_close (BinaryReversion.st_pop s2) (BinaryReversion.st_world s2)
                    else Some (BinaryReversion.st_world s2));
          cmd ← run (Options.reexecute_cmd options);
          path ← run (Options.pmem_file options);
          layout ← run (Options.pmem_layout options);
          '(ret, w2) ← re_execute 1 garbage cmd (Options.version_num options) c_log num_data path layout
                         FINE_GRAIN (-1) pool_address w1;
          '(pop, w3) ← run (redo_pmem_addresses path layout num_data w2);
          Ret (Driver (BinaryReversion.State w3
                         (BinaryReversion.add_reexecution (BinaryReversion.st_globals s2)) pop)
                 (dr_coll d2) (many_address_clear d2) ret (total_reverted_items d2 + decided_total) (high_num d2))
        else Ret d2);
  Ret (if decide (req_flag2 d3 = 1) then Finished else Continue, d3).

(** One slice item. *)
Definition react_item (d : driver) (dep_inst : Instr) : outcome (verdict * driver) :=
  c ← run (collect_instr empty_data mm trace_instrs (dr_coll d) dep_inst);
  '(v1, d1) ← (if decide (BATCH_REEXECUTION < length (many_address_seq c))%nat
               then binary_batch (set_coll d c) else Ret (Continue, set_coll d c));
  match v1 with
  | Finished => Ret (Finished, d1)
  | Continue =>
    let c1 := dr_coll d1 in
    '(v2, d2) ← (if decide (slice_seq_iterator c1 >= 1 /\
                            (length (many_address_seq c1) < BATCH_REEXECUTION)%nat /\
                            many_address_clear d1 = false)
                 then direct_batch d1 else Ret (Continue, d1));
    match v2 with
    | Finished => Ret (Finished, d2)
    | Continue => Ret (Continue, Driver (dr_search d2) (set_iterator (dr_coll d2) 0) false (req_flag2 d2)
                                   (total_reverted_items d2) (high_num d2))
    end
  end.

Fixpoint react_items (d : driver) (insts : list Instr) : outcome (verdict * driver) :=
  match insts with
  | [] => Ret (Continue, d)
  | i :: insts' =>
    '(v, d') ← react_item d i;
    match v with Finished => Ret (Finished, d') | Continue => react_items d' insts' end
  end.

Fixpoint react_slices (d : driver) (fault_slices : list (list Instr)) : outcome (verdict * driver) :=
  match fault_slices with
  | [] => Ret (Continue, d)
  | slice :: slices' =>
    '(v, d') ← react_items d slice;
    match v with Finished => Ret (Finished, d') | Continue => react_slices d' slices' end
  end.

End Driver.

(** ** The reference: batches of new candidates

    The numbers of an instruction are those of the addresses its trace items
    recorded; each number is collected once; a batch is tried when it has at
    least two. *)
Section Reference.
Context (mm : LogCreation.multimap) (trace_instrs : list (option Instr * item)).

Definition candidates_of (it : item) (dep_inst : Instr) : list Z :=
  if decide (AddrTrace.instr it = Some dep_inst)
  then sort_up (LogCreation.equal_range mm (AddrTrace.addr it)) else [].
Definition candidates (dep_inst : Instr) : list Z :=
  traced trace_instrs dep_inst ≫= fun it => candidates_of it dep_inst.

(** The numbers of [l] that were not seen, without repetition, and what is seen
    afterwards. *)
Fixpoint fresh (seen : gset Z) (l : list Z) : list Z :=
  match l with
  | [] => []
  | q :: l' => if decide (q ∈ seen) then fresh seen l' else q :: fresh ({[q]} ∪ seen) l'
  end.

Record reference := Reference {
  rf_search : BinaryReversion.state (E := E);
  rf_seen : gset Z;
  rf_many : list Z;
  rf_total : Z
}.

Context (garbage : single_data) (c_log : checkpoint_log) (num_data pool_address : Z)
        (options : Options.reactor_options) (fp : Z) (fuel : nat).

Definition ref_item (r : reference) (dep_inst : Instr) : outcome (verdict * reference) :=
  let new := fresh (rf_seen r) (candidates dep_inst) in
  let seen := rf_seen r ∪ list_to_set new in
  let many := rf_many r ++ new in
  if decide (length many <= 1)%nat then Ret (Continue, Reference (rf_search r) seen many (rf_total r))
  else
    '(_, s1) ← BinaryReversion.binary_reversion garbage c_log num_data pool_address options fuel
                 (sort_up many) 0 (Z.of_nat (length many) - 1)
                 (BinaryReversion.with_globals (rf_search r)
                    (BinaryReversion.set_success (BinaryReversion.st_globals (rf_search r)) (-1)));
    let x := BinaryReversion.st_globals s1 in
    let total := rf_total r + BinaryReversion.binary_reverted_items x in
    if decide (BinaryReversion.binary_success x = 1) then
      if decide (fp = 0) then Undefined else Ret (Finished, Reference s1 seen (sort_up many) total)
    else Ret (Continue, Reference s1 seen [] total).

Fixpoint ref_items (r : reference) (insts : list Instr) : outcome (verdict * reference) :=
  match insts with
  | [] => Ret (Continue, r)
  | i :: insts' => '(v, r') ← ref_item r i;
                   match v with Finished => Ret (Finished, r') | Continue => ref_items r' insts' end
  end.

End Reference.

(** What the reference keeps of a driver. *)
Definition abs (d : driver) : reference :=
  Reference (dr_search d) (dom (SeqLog.model (r_log (dr_coll d)))) (many_address_seq (dr_coll d))
    (total_reverted_items d).
Definition abs_result (o : outcome (verdict * driver)) : outcome (verdict * reference) :=
  '(v, d) ← o; Ret (v, abs d).

(** The table of taken numbers is a working table, the arrays have room for every
    number of the address map, and the iterator is at the start. *)
Record coll_ok (mm : LogCreation.multimap) (c : collector) : Prop := CollOk {
  co_wf : SeqLog.wf (r_log c);
  co_slots : 92 < sl_slots (r_log c);
  co_sequences : (length mm <= length (sequences c))%nat;
  co_slice : (length mm <= length (slice_seq_numbers c))%nat
}.

Definition nums_ok (mm : LogCreation.multimap) : Prop := Forall (fun e => 0 <= e.2 < 2 ^ 31) mm.

(** *** Collecting is collecting what is new *)

Lemma sort_up_perm l : sort_up l ≡ₚ l.
Proof. apply merge_sort_Permutation. Qed.

Lemma copy_range_ok seqs arr :
  (length seqs <= length arr)%nat ->
  exists h, copy_range arr seqs = Some (seqs ++ drop (length seqs) arr, Z.of_nat (length seqs), h).
Proof.
  intros Hlen. unfold copy_range.
  destruct (mfold_total
    (fun '(sequences, ind, highest) q =>
       sequences' ← zset sequences ind q;
       Some (sequences', ind + 1, if decide (q > highest) then q else highest))
    (fun done '(s, ind, h) => s = done ++ drop (length done) arr /\ ind = Z.of_nat (length done))
    seqs (arr, 0, -1)) as ([[s ind] h] & Hm & -> & ->); [done| |by exists h].
  intros l1 q l2 [[s ind] h] Hl [-> ->].
  assert (length l1 < length arr)%nat as Hlt by (rewrite Hl, length_app in Hlen; simpl in Hlen; lia).
  rewrite zset_total by (rewrite length_app, length_drop; lia). eexists. split; [done|].
  rewrite Nat2Z.id, length_app. simpl. split; [|lia].
  rewrite insert_app_r_alt, Nat.sub_diag by lia.
  destruct (lookup_lt_is_Some_2 arr (length l1) Hlt) as [x Hx].
  rewrite (drop_S _ _ _ Hx). simpl. by rewrite <- app_assoc, Nat.add_1_r.
Qed.

Lemma fresh_app seen l1 l2 :
  fresh seen (l1 ++ l2) = fresh seen l1 ++ fresh (seen ∪ list_to_set (fresh seen l1)) l2.
Proof.
  revert seen. induction l1 as [|q l1 IH]; intros seen; simpl.
  - f_equal. set_solver.
  - case_decide; [apply IH|]. rewrite IH. simpl. do 3 f_equal. set_solver.
Qed.

Lemma fresh_new seen l q : q ∈ fresh seen l -> q ∉ seen /\ q ∈ l.
Proof.
  revert seen. induction l as [|x l IH]; intros seen; simpl; [set_solver|].
  case_decide; [intros [? ?]%IH; set_solver|]. rewrite elem_of_cons. intros [->|[? ?]%IH]; set_solver.
Qed.

Lemma fresh_NoDup seen l : NoDup (fresh seen l).
Proof.
  revert seen. induction l as [|x l IH]; intros seen; simpl; [constructor|].
  case_decide; [done|]. constructor; [|done]. intros [Hin _]%fresh_new. set_solver.
Qed.

(** The invariant of collecting from [c0]: the numbers of [l] are processed. *)
Record collected (c0 : collector) (l : list Z) (c : collector) : Prop := Collected {
  cd_many : many_address_seq c = many_address_seq c0 ++ fresh (dom (SeqLog.model (r_log c0))) l;
  cd_iter : slice_seq_iterator c =
              slice_seq_iterator c0 + Z.of_nat (length (fresh (dom (SeqLog.model (r_log c0))) l));
  cd_wf : SeqLog.wf (r_log c);
  cd_slots : 92 < sl_slots (r_log c);
  cd_seen : dom (SeqLog.model (r_log c)) =
              dom (SeqLog.model (r_log c0)) ∪ list_to_set (fresh (dom (SeqLog.model (r_log c0))) l);
  cd_sequences : length (sequences c) = length (sequences c0);
  cd_slice : length (slice_seq_numbers c) = length (slice_seq_numbers c0)
}.

Lemma collected_refl c : SeqLog.wf (r_log c) -> 92 < sl_slots (r_log c) -> collected c [] c.
Proof. intros Hw Hs. split; simpl; try done; [by rewrite app_nil_r|lia|set_solver]. Qed.

Lemma collected_trans c0 c1 c2 l1 l2 :
  collected c0 l1 c1 -> collected c1 l2 c2 -> collected c0 (l1 ++ l2) c2.
Proof.
  intros [A1 A2 A3 A4 A5 A6 A7] [B1 B2 B3 B4 B5 B6 B7]. rewrite A5 in B1, B2, B5.
  split; try done; rewrite ?fresh_app; try congruence.
  - by rewrite B1, A1, app_assoc.
  - rewrite B2, A2, length_app. lia.
  - rewrite B5, list_to_set_app_L. set_solver.
Qed.

(** There is room in the array for what is collected. *)
Definition room (c : collector) (l : list Z) : Prop :=
  0 <= slice_seq_iterator c /\
  slice_seq_iterator c + Z.of_nat (length (fresh (dom (SeqLog.model (r_log c))) l)) <=
    Z.of_nat (length (slice_seq_numbers c)).

Lemma room_app c0 c1 l1 l2 : room c0 (l1 ++ l2) -> collected c0 l1 c1 -> room c1 l2.
Proof.
  intros [H1 H2] [A1 A2 A3 A4 A5 A6 A7]. rewrite fresh_app, length_app in H2.
  split; rewrite A2, ?A5, ?A7; lia.
Qed.

Lemma room_prefix c l1 l2 : room c (l1 ++ l2) -> room c l1.
Proof. intros [H1 H2]. rewrite fresh_app, length_app in H2. split; lia. Qed.

Lemma take_one_ok e c i q :
  SeqLog.wf (r_log c) -> 92 < sl_slots (r_log c) -> 0 <= q < 2 ^ 31 ->
  zget (sequences c) i = Some q -> room c [q] ->
  exists c', take_sequence e c i = Some c' /\ sequences c' = sequences c /\ collected c [q] c'.
Proof.
  intros Hwf Hsl Hq Hi [Hr1 Hr2]. unfold take_sequence. rewrite Hi. simpl in *.
  rewrite SeqLog.rev_lookup_ok by done. simpl.
  destruct (decide (q ∈ dom (SeqLog.model (r_log c)))) as [Hin|Hin].
  - rewrite decide_False by lia. exists c. split; [done|]. split; [done|].
    split; simpl; rewrite ?decide_True by done; simpl; try done; [by rewrite app_nil_r|lia|set_solver].
  - rewrite decide_True by lia. simpl in Hr2. rewrite zset_total by lia. simpl.
    destruct (SeqLog.insert_ok (r_log c) q e Hwf Hq Hsl) as (r' & -> & Hw' & Hm' & _ & Hs').
    simpl. eexists. split; [done|]. split; [done|].
    split; simpl; rewrite ?decide_False by done; simpl; try done; try lia.
    + rewrite Hm', dom_insert_L. set_solver.
    + by rewrite length_insert.
Qed.

Lemma take_loop_ok e l rest c :
  SeqLog.wf (r_log c) -> 92 < sl_slots (r_log c) -> Forall (fun q => 0 <= q < 2 ^ 31) l ->
  sequences c = l ++ rest -> room c (reverse l) ->
  exists c', mfold (take_sequence e) c (reverse (seqZ 0 (Z.of_nat (length l)))) = Some c' /\
    collected c (reverse l) c'.
Proof.
  revert rest c. induction l as [|q l IH] using rev_ind; intros rest c Hwf Hsl Hq Hs Hr.
  { exists c. split; [done|]. by apply collected_refl. }
  rewrite length_app. simpl. replace (Z.of_nat (length l + 1)) with (Z.of_nat (S (length l))) by lia.
  rewrite seqZ_S, !reverse_snoc in *. cbn [mfold]. rewrite Z.add_0_l.
  apply Forall_app in Hq as [Hq Hq']. rewrite Forall_singleton in Hq'.
  destruct (take_one_ok e c (Z.of_nat (length l)) q) as (c1 & -> & Hs1 & Hc1); [done|done|done| | |].
  { rewrite Hs, zget_nat, <- app_assoc. by apply list_lookup_middle. }
  { by apply (room_prefix c [q] (reverse l)). }
  simpl_bind.
  destruct (IH (q :: rest) c1) as (c2 & Hc2 & Hcd).
  - by apply Hc1.
  - by apply Hc1.
  - done.
  - by rewrite Hs1, Hs, <- app_assoc.
  - by apply (room_app c c1 [q]).
  - exists c2. split; [done|]. by apply (collected_trans c c1 c2 [q]).
Qed.

Lemma reverse_sort_down l : reverse (sort_down l) = sort_up l.
Proof. apply reverse_involutive. Qed.

Lemma equal_range_elem (mm : LogCreation.multimap) k q :
  q ∈ LogCreation.equal_range mm k -> q ∈ mm.*2.
Proof.
  unfold LogCreation.equal_range. rewrite !list_elem_of_fmap.
  intros (x & -> & [_ Hx]%list_elem_of_filter). eauto.
Qed.

Lemma equal_range_length (mm : LogCreation.multimap) k :
  (length (LogCreation.equal_range mm k) <= length mm)%nat.
Proof. unfold LogCreation.equal_range. rewrite length_fmap. apply length_filter. Qed.

Lemma collect_address_ok e mm c addr :
  coll_ok mm c -> nums_ok mm -> room c (sort_up (LogCreation.equal_range mm addr)) ->
  exists c', collect_address e mm c addr = Some c' /\
    collected c (sort_up (LogCreation.equal_range mm addr)) c'.
Proof.
  intros [Hwf Hsl Hseq Hsli] Hn Hr. unfold collect_address.
  set (er := LogCreation.equal_range mm addr) in *.
  assert (length er <= length mm)%nat as Hle by apply equal_range_length.
  destruct (copy_range_ok er (sequences c)) as [h ->]; [lia|]. simpl_bind.
  rewrite Nat2Z.id, take_app_length, drop_app_length.
  set (c1 := Collector _ _ _ _ _ _).
  destruct (take_loop_ok e (sort_down er) (drop (length er) (sequences c)) c1) as (c' & Hc' & Hcd); try done.
  - apply Forall_forall. intros q Hq. unfold sort_down in Hq. rewrite elem_of_reverse, sort_up_perm in Hq.
    apply equal_range_elem, list_elem_of_fmap in Hq as (x & -> & Hx). by eapply Forall_forall in Hn.
  - rewrite reverse_sort_down. exact Hr.
  - exists c'. rewrite reverse_sort_down in Hcd. split.
    + unfold sort_down in Hc'. rewrite length_reverse, (Permutation_length (sort_up_perm er)) in Hc'. exact Hc'.
    + destruct Hcd as [A1 A2 A3 A4 A5 A6 A7]. split; try done. rewrite A6. simpl.
      unfold sort_down. rewrite length_app, length_reverse, (Permutation_length (sort_up_perm er)), length_drop. lia.
Qed.

Lemma collected_ok mm c0 c l : coll_ok mm c0 -> collected c0 l c -> coll_ok mm c.
Proof. intros [] []. split; try done; lia. Qed.

Lemma collect_instr_ok e mm tr c inst :
  coll_ok mm c -> nums_ok mm -> room c (candidates mm tr inst) ->
  exists c', collect_instr e mm tr c inst = Some c' /\ collected c (candidates mm tr inst) c'.
Proof.
  unfold collect_instr, candidates. generalize (traced tr inst). intros its Hok Hn.
  revert c Hok. induction its as [|it its IH]; intros c Hok Hr; cbn [mfold].
  { exists c. split; [done|]. apply collected_refl; apply Hok. }
  change ((it :: its) ≫= _) with
    (candidates_of mm it inst ++ (its ≫= fun it => candidates_of mm it inst)) in *.
  assert (exists c1, (if decide (AddrTrace.instr it = Some inst) then collect_address e mm c (AddrTrace.addr it)
                      else Some c) = Some c1 /\ collected c (candidates_of mm it inst) c1) as (c1 & -> & Hc1).
  { unfold candidates_of in *. case_decide.
    - apply collect_address_ok; [done|done|]. by eapply room_prefix.
    - exists c. split; [done|]. apply collected_refl; apply Hok. }
  simpl_bind. destruct (IH c1) as (c2 & -> & Hc2).
  - by eapply collected_ok.
  - by eapply room_app.
  - exists c2. split; [done|]. by eapply collected_trans.
Qed.

(** *** The driver is the reference *)
Section Equivalence.
Context (garbage empty_data : single_data) (c_log : checkpoint_log) (num_data pool_address : Z)
        (options : Options.reactor_options) (fp : Z)
        (mm : LogCreation.multimap) (trace_instrs : list (option Instr * item)) (fuel : nat).

Abbreviation item_step := (react_item garbage empty_data c_log num_data pool_address options fp mm trace_instrs fuel).
Abbreviation items_step := (react_items garbage empty_data c_log num_data pool_address options fp mm trace_instrs fuel).
Abbreviation slices_step := (react_slices garbage empty_data c_log num_data pool_address options fp mm trace_instrs fuel).
Abbreviation ref_step := (ref_item mm trace_instrs garbage c_log num_data pool_address options fp fuel).
Abbreviation ref_steps := (ref_items mm trace_instrs garbage c_log num_data pool_address options fp fuel).

(** Between two slice items. *)
Record driver_ok (d : driver) : Prop := DriverOk {
  do_coll : coll_ok mm (dr_coll d);
  do_iter : slice_seq_iterator (dr_coll d) = 0;
  do_clear : many_address_clear d = false
}.

Lemma fresh_length (seen : gset Z) l : (forall q, q ∈ l -> q ∈ mm.*2) -> (length (fresh seen l) <= length mm)%nat.
Proof.
  intros Hl. rewrite <- (length_fmap snd mm). apply submseteq_length, NoDup_submseteq.
  - apply fresh_NoDup.
  - intros q [_ Hq]%fresh_new. by apply Hl.
Qed.

Lemma candidates_elem inst q : q ∈ candidates mm trace_instrs inst -> q ∈ mm.*2.
Proof.
  unfold candidates. rewrite list_elem_of_bind. intros (it & Hq & _).
  unfold candidates_of in Hq. case_decide; [|by apply not_elem_of_nil in Hq].
  rewrite sort_up_perm in Hq. by eapply equal_range_elem.
Qed.

Lemma driver_room d inst : driver_ok d -> room (dr_coll d) (candidates mm trace_instrs inst).
Proof.
  intros [[Hwf Hsl Hseq Hsli] Hi _]. split; rewrite Hi; [done|].
  pose proof (fresh_length (dom (SeqLog.model (r_log (dr_coll d)))) (candidates mm trace_instrs inst)
    (candidates_elem inst)). lia.
Qed.

Lemma react_item_ok d inst :
  driver_ok d -> nums_ok mm ->
  abs_result (item_step d inst) = ref_step (abs d) inst /\
  forall d', item_step d inst = Ret (Continue, d') -> driver_ok d'.
Proof.
  intros Hd Hn. unfold react_item, ref_item. unfold binary_batch.
  destruct (collect_instr_ok empty_data mm trace_instrs (dr_coll d) inst (do_coll d Hd) Hn (driver_room d inst Hd))
    as (c & -> & Hc).
  pose proof (collected_ok mm _ _ _ (do_coll d Hd) Hc) as Hcok. destruct Hc as [Hm Hi _ _ Hs _ _].
  rewrite (do_iter d Hd), Z.add_0_l in Hi. cbn [run mbind outcome_bind abs rf_seen rf_many rf_search rf_total].
  rewrite <- Hm, <- Hs. set (new := fresh _ _) in *.
  destruct (decide (BATCH_REEXECUTION < length (many_address_seq c))%nat) as [Hlt|Hge].
  - rewrite decide_False by (unfold BATCH_REEXECUTION in Hlt; lia).
    cbn [set_coll dr_coll dr_search total_reverted_items].
    rewrite (Permutation_length (sort_up_perm (many_address_seq c))).
    destruct (BinaryReversion.binary_reversion _ _ _ _ _ _ _ _ _ _) as [[r s1]| |];
      cbn [mbind outcome_bind]; [|by split|by split].
    unfold log_success. destruct (decide (BinaryReversion.binary_success (BinaryReversion.st_globals s1) = 1)).
    + destruct (decide (fp = 0)); by split.
    + cbn [mbind outcome_bind dr_coll many_address_clear set_many many_address_seq slice_seq_iterator].
      rewrite decide_False by (intros (_ & _ & ?); done). split; [done|].
      intros d' [= <-]. split; [|done|done]. destruct Hcok. by split.
  - rewrite decide_True by (unfold BATCH_REEXECUTION in Hge; lia).
    cbn [mbind outcome_bind set_coll dr_coll many_address_clear].
    rewrite decide_False.
    + split; [done|]. intros d' [= <-]. split; [|done|done]. destruct Hcok. by split.
    + unfold BATCH_REEXECUTION. rewrite Hi, Hm, length_app. lia.
Qed.

Lemma react_items_ok d insts :
  driver_ok d -> nums_ok mm ->
  abs_result (items_step d insts) = ref_steps (abs d) insts /\
  forall d', items_step d insts = Ret (Continue, d') -> driver_ok d'.
Proof.
  intros Hd Hn. revert d Hd. induction insts as [|i insts IH]; intros d Hd; cbn [react_items ref_items].
  { split; [done|]. by intros d' [= <-]. }
  destruct (react_item_ok d i Hd Hn) as [Heq Hok]. rewrite <- Heq.
  destruct (item_step d i) as [[[] d1]| |]; cbn [abs_result mbind outcome_bind]; try by split.
  apply IH. by apply Hok.
Qed.

Lemma ref_items_app r l1 l2 :
  ref_steps r (l1 ++ l2) =
    ('(v, r') ← ref_steps r l1; match v with Finished => Ret (Finished, r') | Continue => ref_steps r' l2 end).
Proof.
  revert r. induction l1 as [|i l1 IH]; intros r; [done|]. rewrite <- app_comm_cons. cbn [ref_items].
  destruct (ref_step r i) as [[[] r1]| |]; cbn [mbind outcome_bind]; [done|apply IH|done|done].
Qed.

Lemma react_slices_ok d slices :
  driver_ok d -> nums_ok mm ->
  abs_result (slices_step d slices) = ref_steps (abs d) (concat slices).
Proof.
  intros Hd Hn. revert d Hd. induction slices as [|slice slices IH]; intros d Hd; cbn [react_slices concat]; [done|].
  rewrite ref_items_app. destruct (react_items_ok d slice Hd Hn) as [<- Hok].
  destruct (items_step d slice) as [[[] d1]| |]; cbn [abs_result mbind outcome_bind]; try done.
  apply IH. by apply Hok.
Qed.

(** C8. The driver is its reference: over all items of all slices in order, it
    collects the sequence numbers recorded for the addresses of the item's
    instruction, each number once in the whole reaction, waits until it has at
    least two, and then searches among them by binary reversion in increasing
    order, until a search succeeds.  The branch that reverts the numbers of one
    item directly is never taken. *)
Theorem react_slices_reference d slices :
  driver_ok d -> nums_ok mm ->
  abs_result (slices_step d slices) = ref_steps (abs d) (concat slices).
Proof. apply react_slices_ok. Qed.

Lemma ref_items_waits r insts :
  (length (rf_many r ++ fresh (rf_seen r) (insts ≫= candidates mm trace_instrs)) <= 1)%nat ->
  exists r', ref_steps r insts = Ret (Continue, r') /\ rf_search r' = rf_search r /\ rf_total r' = rf_total r.
Proof.
  revert r. induction insts as [|i insts IH]; intros r Hl; cbn [ref_items]; [by exists r|].
  change ((i :: insts) ≫= ?f) with (f i ++ (insts ≫= f)) in Hl.
  rewrite fresh_app, app_assoc in Hl. pose proof Hl as Hl'. rewrite length_app in Hl'.
  unfold ref_item at 1. rewrite decide_True by lia. cbn [mbind outcome_bind].
  set (r1 := Reference _ _ _ _). by destruct (IH r1 Hl) as (r' & H & Hs & Ht); exists r'.
Qed.

(** A fault with a single candidate is given up without an attempt: when the
    traced instructions of all slices lead to at most one sequence number, the
    driver returns without reverting anything or running the program. *)
Theorem single_candidate_not_tried d slices :
  driver_ok d -> nums_ok mm -> many_address_seq (dr_coll d) = [] ->
  (length (fresh (dom (SeqLog.model (r_log (dr_coll d))))
             (concat slices ≫= candidates mm trace_instrs)) <= 1)%nat ->
  exists d', slices_step d slices = Ret (Continue, d') /\
    dr_search d' = dr_search d /\ total_reverted_items d' = total_reverted_items d.
Proof.
  intros Hd Hn Hm Hl. destruct (ref_items_waits (abs d) (concat slices)) as (r' & Hr & Hs & Ht).
  { simpl. by rewrite Hm. }
  rewrite <- (react_slices_ok d slices Hd Hn) in Hr.
  destruct (slices_step d slices) as [[v d']| |]; simpl in Hr; try done. injection Hr as -> <-.
  exists d'. done.
Qed.

End Equivalence.

(** ** Rolling back checkpoint by checkpoint *)
Section Arckpt.
Context (garbage : single_data) (c_log : checkpoint_log) (num_data pool_address : Z)
        (options : Options.reactor_options) (fp : Z).

(** One round: the update with number [cpkt_ind] is reverted for good and the
    program is run. *)
Definition arckpt_round (cpkt_ind : Z) (d : driver) : outcome (verdict * driver) :=
  let s := dr_search d in
  let w := BinaryReversion.st_world s in
  decided ← run (zset (replicate (Z.to_nat (sl_size (w_log w))) 0) 0 cpkt_ind);
  m ← run (Rollback.revert_by_sequence_number_array garbage (w_mem w) (w_log w) decided 1 c_log);
  let x := BinaryReversion.add_reexecution (BinaryReversion.st_globals s) in
  let total := total_reverted_items d + 1 in
  obj ← run (BinaryReversion.is_pmemobj options);
  w1 ← run (if (obj : bool) then pmemobj_close (BinaryReversion.st_pop s) (with_mem w m)
            else Some (with_mem w m));
  cmd ← run (Options.reexecute_cmd options);
  path ← run (Options.pmem_file options);
  layout ← run (Options.pmem_layout options);
  '(ret, w2) ← re_execute 1 garbage cmd (Options.version_num options) c_log num_data path layout
                 FINE_GRAIN (-1) pool_address w1;
  if decide (ret = 1) then
    _ ← run (log_success fp);
    Ret (Finished, Driver (BinaryReversion.State w2 x (BinaryReversion.st_pop s)) (dr_coll d)
                     (many_address_clear d) ret total (high_num d))
  else
    '(pop, w3) ← run (redo_pmem_addresses path layout num_data w2);
    Ret (Continue, Driver (BinaryReversion.State w3 x pop) (dr_coll d)
                     (many_address_clear d) ret total (high_num d)).

Fixpoint arckpt (fuel : nat) (cpkt_ind : Z) (d : driver) : outcome driver :=
  if decide (cpkt_ind > 0) then
    match fuel with
    | O => NoFuel
    | S fuel' =>
      '(v, d') ← arckpt_round cpkt_ind d;
      match v with Finished => Ret d' | Continue => arckpt fuel' (cpkt_ind - 1) d' end
    end
  else Ret d.

Lemma arckpt_round_counts k d :
  arckpt_round k d <> NoFuel /\
  forall v d', arckpt_round k d = Ret (v, d') ->
    total_reverted_items d' = total_reverted_items d + 1 /\
    BinaryReversion.total_reexecutions (BinaryReversion.st_globals (dr_search d')) =
      BinaryReversion.total_reexecutions (BinaryReversion.st_globals (dr_search d)) + 1 /\
    (v = Finished <-> req_flag2 d' = 1).
Proof.
  split.
  - unfold arckpt_round. repeat (apply BinaryReversion.bind_not_nofuel; [apply BinaryReversion.run_not_nofuel|intros]).
    apply BinaryReversion.bind_not_nofuel; [apply BinaryReversion.re_execute_fine_fuel|].
    intros [ret w2] _. case_decide; (apply BinaryReversion.bind_not_nofuel; [apply BinaryReversion.run_not_nofuel|]);
      [done|by intros [] _].
  - intros v d' H. unfold arckpt_round in H.
    repeat (apply BinaryReversion.bind_Ret in H as (? & _ & H)).
    destruct x6 as [ret w2]. case_decide as Hr; apply BinaryReversion.bind_Ret in H as (y & _ & H).
    + by injection H as <- <-.
    + destruct y as [pop w3]. injection H as <- <-. split; [done|]. split; [done|]. by split.
Qed.

(** C40. Rolling back checkpoint by checkpoint ends: it runs the program at most
    as many times as the highest sequence number says, reverting one update before
    each run, and it stops early only after a run that was counted a success. *)
Theorem arckpt_bounded fuel k d :
  k <= Z.of_nat fuel -> arckpt fuel k d <> NoFuel /\
  forall d', arckpt fuel k d = Ret d' ->
    let runs := BinaryReversion.total_reexecutions (BinaryReversion.st_globals (dr_search d')) -
                BinaryReversion.total_reexecutions (BinaryReversion.st_globals (dr_search d)) in
    0 <= runs <= Z.max 0 k /\ total_reverted_items d' = total_reverted_items d + runs /\
    (runs < Z.max 0 k -> req_flag2 d' = 1).
Proof.
  revert k d. induction fuel as [|fuel IH]; intros k d Hk; cbn [arckpt].
  { rewrite decide_False by lia. split; [done|]. intros d' [= <-]. cbv zeta. lia. }
  case_decide as Hpos; [|split; [done|]; intros d' [= <-]; cbv zeta; lia].
  destruct (arckpt_round_counts k d) as [Hnf Hc]. destruct (arckpt_round k d) as [[v d1]| |] eqn:Hr;
    cbn [mbind outcome_bind]; [|by split|done].
  destruct (Hc v d1 eq_refl) as (H1 & H2 & H3). destruct v.
  - split; [done|]. intros d' [= <-]. cbv zeta. rewrite H1, H2. split; [lia|]. split; [lia|].
    intros _. by apply H3.
  - destruct (IH (k - 1) d1) as [Hn IH1]; [lia|]. split; [done|]. intros d' Hd. specialize (IH1 d' Hd).
    cbv zeta in *. destruct IH1 as (A1 & A2 & A3). split; [lia|]. split; [lia|]. intros Hlt. apply A3. lia.
Qed.

End Arckpt.

(** ** The whole reaction *)
Section Whole.
Context (garbage empty_data : single_data) (options : Options.reactor_options) (fp : Z).
(** [pmem_map_file] of the pool file: the address, [0] for [NULL]. *)
Context (pmem_map_file : string -> world E -> option (Z * world E)).

(** Options without a layout are not accepted (see [Options]). *)
Definition open_pool (lib path : string) (layout : option string) (w : world E) : option (Z * world E) :=
  if decide (lib = "libpmemobj"%string) then l ← layout; pmemobj_open path l w
  else if decide (lib = "libpmem"%string) then pmem_map_file path w
  else Some (0, w).

(** The offsets and the pool addresses of [PmemAddrOffsetList]. *)
Definition offset_list (its : list item) (addresses : list nat) (pop : Z) : option (list Z * list Z) :=
  pool_items ← mapM (M:=option) (fun i => its !! i) addresses;
  Some (map AddrTrace.pool_offset pool_items,
        map (fun it => u64 (pop + AddrTrace.pool_offset it)) pool_items).

(** The tables are built and the reversion is chosen; the pool is open at [pop]. *)
Definition react_with (fuel : nat) (trace : AddrTrace.PmemAddrTrace (Instr := Instr))
    (trace_instrs : list (option Instr * item)) (last_pool : AddrTrace.PmemAddrPool)
    (fault_inst : Instr) (slices : list (list Instr)) (c_log : checkpoint_log)
    (pop : Z) (w : world E) (x : BinaryReversion.globals) : outcome driver :=
  '(offsets, pmem_addresses) ← run (offset_list (AddrTrace.items trace) (AddrTrace.addresses last_pool) pop);
  let num_data := Z.of_nat (length (AddrTrace.addresses last_pool)) in
  pool_item ← run (AddrTrace.items trace !! AddrTrace.pool_addr last_pool);
  cr ← run (LogCreation.seq_log_creation garbage (w_mem w) c_log);
  '(m, _) ← run (LogCreation.tx_log_creation garbage (LogCreation.cr_mem cr) c_log);
  offset_seq_map ← run (LogCreation.offset_seq_creation [] (LogCreation.cr_s_log cr));
  s_log ← run (LogCreation.sort_creation offsets pmem_addresses num_data offset_seq_map
                 (LogCreation.cr_s_log cr));
  let array := replicate (Z.to_nat (sl_size s_log)) 0 in
  seqs ← run (address_seq_creation s_log array (AddrTrace.items trace) fault_inst);
  high ← run (SeqLog.find_highest_seq_num s_log);
  let d := Driver (BinaryReversion.State (World m s_log (w_env w)) x pop)
             (Collector (as_sequences seqs) [] array 0 0 (LogCreation.cr_r_log cr)) false 0 0 high in
  let pool_address := AddrTrace.addr pool_item in
  if Options.arckpt options then
    arckpt garbage c_log num_data pool_address options fp (Z.to_nat high) high d
  else
    '(_, d') ← react_slices garbage empty_data c_log num_data pool_address options fp
                 (address_seq_nums seqs) trace_instrs fuel d slices;
    Ret d'.

(** [react]: the value is the [bool] the caller sees, to which the integers the
    code returns are converted; [checkpoint] is what [reconstruct_checkpoint]
    gives. *)
Definition react (fuel : nat) (ready : bool) (fault_inst : option Instr)
    (fault_slices : option (list (list Instr))) (trace : AddrTrace.PmemAddrTrace (Instr := Instr))
    (trace_instrs : list (option Instr * item)) (checkpoint : option checkpoint_log)
    (w : world E) (x : BinaryReversion.globals) : outcome bool :=
  if negb ready then Ret false
  else match fault_inst with
  | None => Ret false
  | Some inst =>
    match fault_slices with
    | None => Ret false
    | Some slices =>
      match Options.pmem_file options with
      | None => Ret false
      | Some path =>
        lib ← run (Options.pmem_library options);
        '(pop, w1) ← run (open_pool lib path (Options.pmem_layout options) w);
        if decide (pop = 0) then Ret (bool_decide ((-1) <> 0))
        else
          last_pool ← run (last (AddrTrace.pool_addrs trace));
          if decide (AddrTrace.addresses last_pool = []) then Ret false
          else match checkpoint with
               | None => Ret (bool_decide (1 <> 0))
               | Some c_log =>
                 _ ← react_with fuel trace trace_instrs last_pool inst slices c_log pop w1 x;
                 Ret (bool_decide (1 <> 0))
               end
      end
    end
  end.

(** Once the fault is located and a pool file is given, the reaction can only
    report success: also when the pool or the checkpoint cannot be opened (the
    code returns [-1] and [1] there), and when no reversion has helped.  The only
    exception is a last pool without addresses. *)
Theorem react_reports_success fuel ready fi fs trace ti cp w x b :
  react fuel ready fi fs trace ti cp w x = Ret b ->
  b = false <->
    ready = false \/ fi = None \/ fs = None \/ Options.pmem_file options = None \/
    (exists lib path pop w1 p, Options.pmem_library options = Some lib /\
       Options.pmem_file options = Some path /\
       open_pool lib path (Options.pmem_layout options) w = Some (pop, w1) /\ pop <> 0 /\
       last (AddrTrace.pool_addrs trace) = Some p /\ AddrTrace.addresses p = []).
Proof.
  unfold react. destruct ready; simpl; [|by intros [= <-]; naive_solver].
  destruct fi as [inst|]; [|by intros [= <-]; naive_solver].
  destruct fs as [slices|]; [|by intros [= <-]; naive_solver].
  destruct (Options.pmem_file options) as [path|]; [|by intros [= <-]; naive_solver].
  intros H. apply BinaryReversion.bind_Ret in H as (lib & Hlib%BinaryReversion.run_Ret & H).
  apply BinaryReversion.bind_Ret in H as ([pop w1] & Hop%BinaryReversion.run_Ret & H).
  case_decide as Hp.
  { assert (b = true) as -> by (by injection H as <-). naive_solver. }
  apply BinaryReversion.bind_Ret in H as (p & Hlast%BinaryReversion.run_Ret & H).
  case_decide as Ha.
  { injection H as <-. split; [|done]. intros _. do 4 right. by exists lib, path, pop, w1, p. }
  assert (b = true) as ->; [|naive_solver].
  destruct cp as [c_log|]; [|by injection H as <-].
  by apply BinaryReversion.bind_Ret in H as (d & _ & [= <-]).
Qed.

End Whole.
End React.

(** ** Examples

    The log and the scripted environment of the search, with a trace in which the
    instruction 7 touches the addresses of both entries, in two slice items. *)
Definition ex_item (a : Z) : AddrTrace.PmemAddrTraceItem (Instr := nat) :=
  AddrTrace.MkItem [] a 0 0 false false None (Some 7%nat).
Definition ex_mm : LogCreation.multimap := [(40, 6); (41, 4)].
Definition ex_traced : list (option nat * AddrTrace.PmemAddrTraceItem) :=
  [(Some 7%nat, ex_item 40); (Some 7%nat, ex_item 41)].

Definition ex_driver (script : list Z) : driver (E := list Z) :=
  Driver (BinaryReversion.ex_state script)
    (Collector [0; 0] [] [0; 0] 0 0 (SeqLog.empty_log 3 93)) false 0 0 6.

Lemma ex_driver_ok mm script : (length mm <= 2)%nat -> driver_ok mm (ex_driver script).
Proof.
  intros Hl. split; [|done|done]. split; try done. by apply SeqLog.empty_log_wf.
Qed.

Definition ex_reaction (tr : list (option nat * AddrTrace.PmemAddrTraceItem)) (script : list Z)
  : outcome (verdict * driver (E := list Z)) :=
  react_slices Rollback.ex_garbage Rollback.ex_garbage ex_clog 1 40 BinaryReversion.ex_options 1
    ex_mm tr 3 (ex_driver script) [[5%nat]; [7%nat]].

(** Projections of a result, so that the examples evaluate small terms. *)
Definition result {A B} (f : A -> B) (b : B) (o : outcome A) : B :=
  match o with Ret a => f a | _ => b end.

(** The first attempt fails, the second succeeds: two runs, two items reverted in
    total. *)
Lemma react_slices_reference_witness :
  exists d, ex_reaction ex_traced [256; 0] = Ret (Finished, d) /\
    ref_items ex_mm ex_traced Rollback.ex_garbage ex_clog 1 40 BinaryReversion.ex_options 1 3
      (abs (ex_driver [256; 0])) [5%nat; 7%nat] = Ret (Finished, abs d) /\
    many_address_seq (dr_coll d) = [4; 6] /\
    BinaryReversion.total_reexecutions (BinaryReversion.st_globals (dr_search d)) = 2.
Proof.
  pose proof (react_slices_reference Rollback.ex_garbage Rollback.ex_garbage ex_clog 1 40
    BinaryReversion.ex_options 1 ex_mm ex_traced 3 (ex_driver [256; 0]) [[5%nat]; [7%nat]]
    (ex_driver_ok ex_mm _ ltac:(simpl; lia)) ltac:(repeat constructor; simpl; lia)) as H.
  fold (ex_reaction ex_traced [256; 0]) in H.
  assert (result (fun '(v, d) => bool_decide (many_address_seq (dr_coll d) = [4; 6] /\
            BinaryReversion.total_reexecutions (BinaryReversion.st_globals (dr_search d)) = 2) &&
          match v with Finished => true | Continue => false end) false (ex_reaction ex_traced [256; 0]) = true)
    as Hc by (vm_compute; reflexivity).
  destruct (ex_reaction ex_traced [256; 0]) as [[v d]| |]; [|discriminate|discriminate].
  simpl in Hc. apply andb_true_iff in Hc as [Hc Hv]. apply bool_decide_eq_true in Hc as [H1 H2].
  destruct v; [|discriminate]. exists d. split; [reflexivity|]. split; [symmetry; exact H|].
  split; [exact H1|exact H2].
Defined.

(** With the second item untraced there is a single candidate and no run. *)
Lemma single_candidate_not_tried_witness :
  exists d, ex_reaction [(Some 7%nat, ex_item 40)] [0] = Ret (Continue, d) /\
    dr_search d = BinaryReversion.ex_state [0].
Proof.
  destruct (single_candidate_not_tried Rollback.ex_garbage Rollback.ex_garbage ex_clog 1 40
    BinaryReversion.ex_options 1 ex_mm [(Some 7%nat, ex_item 40)] 3 (ex_driver [0]) [[5%nat]; [7%nat]])
    as (d & Hd & Hs & _).
  - apply ex_driver_ok. simpl. lia.
  - repeat constructor; simpl; lia.
  - reflexivity.
  - vm_compute. lia.
  - exists d. split; [exact Hd|exact Hs].
Defined.

(** The third run succeeds. *)
Lemma arckpt_bounded_witness :
  exists d, arckpt Rollback.ex_garbage ex_clog 1 40 BinaryReversion.ex_options 1 6 6
              (ex_driver [256; 256; 0]) = Ret d /\
    total_reverted_items d = 3 /\
    0 <= BinaryReversion.total_reexecutions (BinaryReversion.st_globals (dr_search d)) - 0 <= 6.
Proof.
  destruct (arckpt_bounded Rollback.ex_garbage ex_clog 1 40 BinaryReversion.ex_options 1 6 6
    (ex_driver [256; 256; 0])) as [Hn H]; [lia|].
  assert (result total_reverted_items 0 (arckpt Rollback.ex_garbage ex_clog 1 40 BinaryReversion.ex_options 1 6 6
            (ex_driver [256; 256; 0])) = 3) as Ht by (vm_compute; reflexivity).
  destruct (arckpt _ _ _ _ _ _ 6 6 _) as [d| |]; [|discriminate|discriminate].
  exists d. split; [reflexivity|]. split; [exact Ht|]. exact (proj1 (H d eq_refl)).
Defined.

(** Options that name a library the reactor does not know: no pool is opened. *)
Lemma react_reports_success_witness :
  exists b, react (E := list Z) Rollback.ex_garbage Rollback.ex_garbage
      (Options.set_pmem_library BinaryReversion.ex_options "other") 1 (fun _ _ => None) 3 true (Some 7%nat)
      (Some []) AddrTrace.new_trace ex_traced None (ex_world [0]) (BinaryReversion.Globals (-1) 0 0 0) = Ret b /\
    b <> false.
Proof.
  eexists. split; [vm_compute; reflexivity|]. intros Hb.
  eapply (react_reports_success (E := list Z) Rollback.ex_garbage Rollback.ex_garbage
    (Options.set_pmem_library BinaryReversion.ex_options "other") 1 (fun _ _ => None) 3 true (Some 7%nat)
    (Some []) AddrTrace.new_trace ex_traced None (ex_world [0]) (BinaryReversion.Globals (-1) 0 0 0) true) in Hb;
    [|vm_compute; reflexivity].
  destruct Hb as [H|[H|[H|[H|(lib & path & pop & w1 & p & H1 & _ & H2 & H3 & _)]]]]; try discriminate.
  injection H1 as <-. vm_compute in H2. injection H2 as <- _. by apply H3.
Defined.

End React.
