(* ===== verification/Layout.v ===== *)
(** * The layout of the tables does not matter

    The sequence log is a hash table; its contents depend on the number of slots and
    on the order of insertion only in how the nodes are laid out.  This file makes
    "the same entries" an equivalence of tables, shows that every operation of the
    reaction respects it ([Proper] instances over Rollback, ReExecute,
    BinaryReversion), and concludes that the reaction does. *)
From stdpp Require Import base list gmap strings sorting.
From S2P Require Import Prelude Memory Checkpoint Chains SeqLog Rollback LogCreation ReExecute Options BinaryReversion AddrTrace React.

Module Layout.
Import ReExecute.

(** ** Tables with the same entries *)

#[export] Instance seq_log_equiv : Equiv seq_log := fun s1 s2 =>
  SeqLog.wf s1 /\ SeqLog.wf s2 /\ SeqLog.model s1 = SeqLog.model s2.

#[export] Instance seq_log_per : RelationClasses.PER (≡@{seq_log}).
Proof. split; [by intros s1 s2 (? & ? & ?)|]. intros s1 s2 s3 (? & ? & ?) (? & ? & ?). split; [done|]. split; [done|congruence]. Qed.

(** The keys the tables can hold. *)
Definition seq_key (k : Z) : Prop := 0 <= k < 2 ^ 31.
Definition same_key : relation Z := fun k1 k2 => k1 = k2 /\ seq_key k1.

Create HintDb layout.

(** ** Results up to a relation *)

Inductive outcome_rel {A} (R : relation A) : relation (outcome A) :=
| rel_Ret a b : R a b -> outcome_rel R (Ret a) (Ret b)
| rel_Undefined : outcome_rel R Undefined Undefined
| rel_NoFuel : outcome_rel R NoFuel NoFuel.
#[export] Hint Constructors outcome_rel option_Forall2 : layout.

Lemma pair_rel {A B} (R : relation A) (S : relation B) a b c d : R a b -> S c d -> prod_relation R S (a, c) (b, d).
Proof. by split. Qed.
#[export] Hint Resolve pair_rel eq_refl : layout.

#[export] Instance run_proper {A} (R : relation A) : Proper (option_Forall2 R ==> outcome_rel R) run.
Proof. intros _ _ []; by constructor. Qed.

Lemma outcome_bind_rel {A B} (R : relation A) (S : relation B) o1 o2 (f1 f2 : A -> outcome B) :
  outcome_rel R o1 o2 -> (forall a b, R a b -> outcome_rel S (f1 a) (f2 b)) -> outcome_rel S (o1 ≫= f1) (o2 ≫= f2).
Proof. intros [] Hf; [by apply Hf|constructor|constructor]. Qed.

(** ** The table operations *)

#[export] Instance lookup_proper g : Proper ((≡) ==> same_key ==> eq) (SeqLog.lookup g).
Proof. intros s1 s2 (H1 & H2 & HM) k _ [<- Hk]. by rewrite !SeqLog.lookup_ok, HM. Qed.

#[export] Instance rev_lookup_proper : Proper ((≡) ==> same_key ==> eq) SeqLog.rev_lookup.
Proof. intros s1 s2 (H1 & H2 & HM) k _ [<- Hk]. by rewrite !SeqLog.rev_lookup_ok, HM. Qed.

Lemma lookup_undo_save_model m s k a n :
  SeqLog.wf s -> seq_key k ->
  SeqLog.lookup_undo_save m s k a n =
    match SeqLog.model s !! k with
    | Some d => memcpy m (sd_data d) (sd_sorted_pmem_address d) n
    | None => Some m
    end.
Proof.
  intros Hwf Hk. destruct (SeqLog.chain_at_ok s k Hwf Hk) as (c & Hc & Hch & _).
  unfold SeqLog.lookup_undo_save. rewrite Hc, (SeqLog.model_lookup _ _ _ Hwf Hch). simpl_bind. by destruct (find k c).
Qed.

#[export] Instance lookup_undo_save_proper m : Proper ((≡) ==> same_key ==> eq ==> eq ==> eq) (SeqLog.lookup_undo_save m).
Proof. intros s1 s2 (H1 & H2 & HM) k _ [<- Hk] a _ <- n _ <-. by rewrite !lookup_undo_save_model, HM. Qed.

#[export] Instance lookup_modify_proper :
  Proper ((≡) ==> same_key ==> eq ==> option_Forall2 (≡)) SeqLog.lookup_modify.
Proof.
  intros s1 s2 (H1 & H2 & HM) k _ [<- Hk] a _ <-.
  destruct (SeqLog.lookup_modify_ok s1 k a H1 Hk) as (t1 & -> & Ht1 & HM1 & _).
  destruct (SeqLog.lookup_modify_ok s2 k a H2 Hk) as (t2 & -> & Ht2 & HM2 & _).
  constructor. split; [done|]. split; [done|congruence].
Qed.

#[export] Instance map_log_proper f : Proper ((≡) ==> (≡)) (SeqLog.map_log f).
Proof.
  intros s1 s2 (H1 & H2 & HM). split; [by apply SeqLog.map_log_wf|]. split; [by apply SeqLog.map_log_wf|].
  by rewrite !SeqLog.map_log_model, HM.
Qed.

#[export] Instance redo_all_proper pop : Proper ((≡) ==> option_Forall2 (≡)) (redo_all pop).
Proof.
  intros s1 s2 Hs. pose proof Hs as (H1 & H2 & _). rewrite !redo_all_ok by done. constructor. by f_equiv.
Qed.

(** ** Reversion *)

#[export] Instance revert_by_sequence_number_proper m d :
  Proper (same_key ==> eq ==> (≡) ==> eq) (Rollback.revert_by_sequence_number m d).
Proof. intros k1 k2 Hk v _ <- s1 s2 Hs. unfold Rollback.revert_by_sequence_number. by rewrite (lookup_undo_save_proper m s1 s2 Hs k1 k2 Hk _ _ eq_refl _ _ eq_refl). Qed.

#[export] Instance revert_step_proper g : Proper ((≡) ==> eq ==> eq ==> same_key ==> eq) (Rollback.revert_step g).
Proof.
  intros s1 s2 Hs c _ <- m _ <- k1 k2 Hk. unfold Rollback.revert_step. rewrite (lookup_proper g s1 s2 Hs k1 k2 Hk).
  destruct (SeqLog.lookup g s2 k2) as [d|]; simpl_bind; [|done]. repeat case_decide; try done.
  by apply revert_by_sequence_number_proper.
Qed.

Lemma revert_array_layout g m s1 s2 qs n c :
  s1 ≡ s2 -> Forall seq_key qs ->
  Rollback.revert_by_sequence_number_array g m s1 qs n c = Rollback.revert_by_sequence_number_array g m s2 qs n c.
Proof.
  intros Hs Hqs. unfold Rollback.revert_by_sequence_number_array. apply mfold_ext. intros m' i _.
  destruct (zget qs i) as [q|] eqn:Hq; simpl_bind; [|done]. apply revert_step_proper; [done..|]. split; [done|].
  unfold zget in Hq. case_decide; [|done]. rewrite Forall_lookup in Hqs. by eapply Hqs.
Qed.

Lemma undo_array_layout g m s1 s2 qs :
  s1 ≡ s2 -> Forall seq_key qs ->
  Rollback.undo_by_sequence_number_array g m s1 qs = Rollback.undo_by_sequence_number_array g m s2 qs.
Proof.
  intros Hs Hqs. unfold Rollback.undo_by_sequence_number_array. apply mfold_ext. intros m' q Hq.
  rewrite Forall_forall in Hqs. by rewrite (lookup_proper g s1 s2 Hs q q (conj eq_refl (Hqs q Hq))).
Qed.

Lemma coarse_grain_layout g m q pop old s1 s2 :
  s1 ≡ s2 -> seq_key q ->
  Rollback.seq_coarse_grain_reversion g m q pop old s1 = Rollback.seq_coarse_grain_reversion g m q pop old s2.
Proof. intros Hs Hq. unfold Rollback.seq_coarse_grain_reversion. by rewrite (lookup_proper g s1 s2 Hs q q (conj eq_refl Hq)). Qed.

(** ** Re-execution *)
Section Environment.
Context {E : Type} `{!Environment E}.

#[export] Instance world_equiv : Equiv (world E) := fun w1 w2 =>
  w_mem w1 = w_mem w2 /\ w_log w1 ≡ w_log w2 /\ w_env w1 = w_env w2.

#[export] Instance with_mem_proper : Proper ((≡) ==> eq ==> (≡)) (with_mem (E := E)).
Proof. by intros w1 w2 (? & ? & ?) m _ <-. Qed.

#[export] Instance system_proper cmd : Proper ((≡) ==> prod_relation eq (≡)) (system cmd).
Proof.
  intros [m1 s1 e1] [m2 s2 e2] (Hm & Hs & He). simpl in Hm, He. subst. unfold system. cbn [w_mem w_log w_env].
  by destruct (env_system cmd e2 (pool m2)) as [[status e] p].
Qed.

#[export] Instance pmemobj_close_proper pop : Proper ((≡) ==> option_Forall2 (≡)) (pmemobj_close (E := E) pop).
Proof.
  intros w1 w2 Hw. unfold pmemobj_close. case_decide; [constructor|]. constructor. pose proof Hw as (-> & _). by f_equiv.
Qed.

#[export] Instance redo_proper path layout n :
  Proper ((≡) ==> option_Forall2 (prod_relation eq (≡))) (redo_pmem_addresses path layout n).
Proof.
  intros [m1 s1 e1] [m2 s2 e2] (Hm & Hs & He). simpl in Hm, He. subst. unfold redo_pmem_addresses, pmemobj_open. cbn [w_mem w_log w_env].
  destruct (pool_base m2); [constructor|]. destruct (env_open path layout e2) as [pop e]. simpl_bind.
  case_decide; [by constructor|]. cbn [w_log]. destruct (redo_all_proper pop s1 s2 Hs) as [t1 t2 Ht|]; simpl_bind; [|constructor].
  by constructor.
Qed.

Lemma re_execute_layout fuel g cmd v c n path layout type q old w1 w2 :
  w1 ≡ w2 -> q < 2 ^ 31 ->
  outcome_rel (prod_relation eq (≡)) (re_execute fuel g cmd v c n path layout type q old w1)
                                     (re_execute fuel g cmd v c n path layout type q old w2).
Proof.
  revert v q w1 w2. induction fuel as [|fuel IH]; intros v q w1 w2 Hw Hq; cbn [re_execute]; [constructor|].
  destruct (system_proper cmd w1 w2 Hw) as [Hst Hw']. destruct (system cmd w1) as [st u1], (system cmd w2) as [st' u2].
  cbn [fst snd] in Hst, Hw'. subst st'. case_decide; [by auto with layout|]. destruct (_ && _); [|by auto with layout].
  eapply outcome_bind_rel; [by apply run_proper, redo_proper|]. intros [pop1 x1] [pop1' x2] [Hp Hx]. cbn [fst snd] in Hp, Hx. subst pop1'.
  eapply (outcome_bind_rel (prod_relation eq (≡))).
  { apply run_proper. case_decide; [|by auto with layout]. apply redo_proper. by apply system_proper. }
  intros [pop y1] [pop' y2] [Hp Hy]. cbn [fst snd] in Hp, Hy. subst pop'. pose proof Hy as (Hm & Hs & _). rewrite Hm.
  case_decide; [|case_decide; [case_decide; [by auto with layout|]|]].
  - eapply outcome_bind_rel; [by apply run_proper, pmemobj_close_proper|]. intros z1 z2 Hz.
    eapply outcome_bind_rel; [apply IH; [exact Hz|lia]|]. intros [] [] [_ ?]; auto with layout.
  - rewrite (coarse_grain_layout g (w_mem y2) q pop old _ _ Hs) by (unfold seq_key; lia).
    destruct (Rollback.seq_coarse_grain_reversion _ _ _ _ _ _) as [m|]; cbn [run mbind outcome_bind]; [|constructor].
    eapply outcome_bind_rel; [apply run_proper, pmemobj_close_proper; by f_equiv|]. intros z1 z2 Hz.
    eapply outcome_bind_rel; [apply IH; [exact Hz|lia]|]. intros [] [] [_ ?]; auto with layout.
  - eapply outcome_bind_rel; [by apply run_proper, pmemobj_close_proper|]. intros z1 z2 Hz. auto with layout.
Qed.

End Environment.

(** ** The search *)
Section Search.
Context {E : Type} `{!Environment E}.
Context (garbage : single_data) (c_log : checkpoint_log) (num_data pool_address : Z) (options : Options.reactor_options).
Implicit Types st : BinaryReversion.state (E := E).

#[export] Instance state_equiv : Equiv (BinaryReversion.state (E := E)) := fun st1 st2 =>
  BinaryReversion.st_world st1 ≡ BinaryReversion.st_world st2 /\
  BinaryReversion.st_globals st1 = BinaryReversion.st_globals st2 /\ BinaryReversion.st_pop st1 = BinaryReversion.st_pop st2.

Lemma state_rel (w1 w2 : world E) x pop : w1 ≡ w2 -> BinaryReversion.State w1 x pop ≡ BinaryReversion.State w2 x pop.
Proof. done. Qed.
#[export] Instance with_globals_proper : Proper ((≡) ==> eq ==> (≡)) (BinaryReversion.with_globals (E := E)).
Proof. by intros [] [] (? & ? & ?) x _ <-. Qed.
Lemma with_globals_rel st1 st2 x : st1 ≡ st2 -> BinaryReversion.with_globals st1 x ≡ BinaryReversion.with_globals st2 x.
Proof. intros. by f_equiv. Qed.
#[local] Hint Resolve state_rel with_globals_rel : layout.

Abbreviation try_entries := (BinaryReversion.try_entries garbage c_log num_data pool_address options).
Abbreviation undo_entries := (BinaryReversion.undo_entries garbage).
Abbreviation binary_reversion := (BinaryReversion.binary_reversion garbage c_log num_data pool_address options).

Lemma close_if_layout (obj : bool) pop (w1 w2 : world E) :
  w1 ≡ w2 -> option_Forall2 (≡) (if obj then pmemobj_close pop w1 else Some w1) (if obj then pmemobj_close pop w2 else Some w2).
Proof. intros. destruct obj; [by apply pmemobj_close_proper|by constructor]. Qed.

Lemma execute_layout cmd path layout n (w1 w2 : world E) x :
  w1 ≡ w2 ->
  outcome_rel (prod_relation (prod_relation eq (≡)) eq)
    (BinaryReversion.execute garbage c_log num_data pool_address options cmd path layout n w1 x)
    (BinaryReversion.execute garbage c_log num_data pool_address options cmd path layout n w2 x).
Proof.
  intros Hw. unfold BinaryReversion.execute. case_decide; [|auto with layout].
  eapply outcome_bind_rel; [by apply re_execute_layout|]. intros [r1 u1] [r2 u2] [Hr Hu]. cbn in Hr, Hu. subst r2. auto with layout.
Qed.

Lemma try_entries_layout cap half st1 st2 :
  st1 ≡ st2 -> Forall seq_key half -> (length half <= cap)%nat ->
  outcome_rel (prod_relation eq (≡)) (try_entries cap half st1) (try_entries cap half st2).
Proof.
  intros (Hw & Hx & Hp) Hhalf Hcap. unfold BinaryReversion.try_entries. rewrite <- Hx, <- Hp.
  rewrite Forall_forall in Hhalf.
  destruct (Rollback.decision_func_ok half (replicate cap 0)) as (dec & -> & Hperm & _); [by rewrite length_replicate|done|].
  cbn [run mbind outcome_bind]. set (arr := dec ++ _). assert (Forall seq_key arr) as Harr.
  { apply Forall_app. split; [rewrite Hperm; by apply Forall_forall|]. apply Forall_drop, Forall_replicate. unfold seq_key. lia. }
  pose proof Hw as (Hm & Hs & _). rewrite Hm, (revert_array_layout _ _ _ _ _ _ _ Hs Harr).
  destruct (Rollback.revert_by_sequence_number_array _ _ _ _ _ _) as [m|]; cbn [run mbind outcome_bind]; [|constructor].
  destruct (BinaryReversion.is_pmemobj options) as [obj|]; cbn [run mbind outcome_bind]; [|constructor].
  eapply outcome_bind_rel; [apply run_proper, close_if_layout; by f_equiv|]. intros w1 w2 Hw1.
  destruct (Options.reexecute_cmd options) as [cmd|]; cbn [run mbind outcome_bind]; [|constructor].
  destruct (Options.pmem_file options) as [path|]; cbn [run mbind outcome_bind]; [|constructor].
  destruct (Options.pmem_layout options) as [layout|]; cbn [run mbind outcome_bind]; [|constructor].
  eapply outcome_bind_rel; [by apply execute_layout|]. intros [[f1 u1] x1] [[f2 u2] x2] [[Hf Hu] Hx1]. cbn in Hf, Hu, Hx1. subst f2 x2.
  destruct obj; [|auto with layout].
  eapply outcome_bind_rel; [by apply run_proper, redo_proper|]. intros [p1 v1] [p2 v2] [Hp1 Hv]. cbn in Hp1, Hv. subst p2. auto with layout.
Qed.

Lemma undo_entries_layout half st1 st2 :
  st1 ≡ st2 -> Forall seq_key half -> outcome_rel (≡) (undo_entries half st1) (undo_entries half st2).
Proof.
  intros (Hw & Hx & Hp) Hhalf. unfold BinaryReversion.undo_entries. pose proof Hw as (Hm & Hs & _).
  rewrite Hm, Hx, Hp, (undo_array_layout _ _ _ _ _ Hs Hhalf).
  destruct (Rollback.undo_by_sequence_number_array _ _ _ _) as [m|]; cbn [run mbind outcome_bind]; [|constructor].
  constructor. apply state_rel. by f_equiv.
Qed.

Lemma binary_reversion_layout fuel seq_list l r st1 st2 :
  st1 ≡ st2 -> Forall seq_key seq_list ->
  outcome_rel (prod_relation eq (≡)) (binary_reversion fuel seq_list l r st1) (binary_reversion fuel seq_list l r st2).
Proof.
  revert seq_list l r st1 st2. induction fuel as [|fuel IH]; intros seq_list l r st1 st2 Hst Hseq; cbn [BinaryReversion.binary_reversion]; [constructor|].
  case_decide; [|auto with layout]. set (mid := l + Z.quot (r - l) 2).
  destruct (BinaryReversion.split_left seq_list mid) as [left|] eqn:Hleft; cbn [run mbind outcome_bind]; [|constructor].
  assert (Forall seq_key left /\ (length left <= length seq_list)%nat) as [Hl Hll].
  { unfold BinaryReversion.split_left in Hleft. case_decide; [|done]. injection Hleft as <-. split; [by apply Forall_take|]. rewrite length_take. lia. }
  assert (Forall seq_key (BinaryReversion.split_right seq_list mid) /\ (length (BinaryReversion.split_right seq_list mid) <= length seq_list)%nat) as [Hr Hrl].
  { unfold BinaryReversion.split_right. case_decide; (split; [by apply Forall_drop|rewrite length_drop; lia]). }
  set (right := BinaryReversion.split_right seq_list mid) in *.
  eapply outcome_bind_rel; [by apply try_entries_layout|]. intros [f u1] [f' u2] [Hf Hu]. cbn in Hf, Hu. subst f'.
  pose proof Hu as (_ & Hx & _). rewrite Hx. set (count := BinaryReversion.binary_reversion_count _ + 1).
  destruct f as [flag|]; cbn [run mbind outcome_bind]; [|constructor].
  case_decide.
  - cbn [BinaryReversion.with_globals BinaryReversion.st_globals]. case_decide; [auto with layout|].
    eapply outcome_bind_rel; [apply undo_entries_layout; auto with layout|]. intros v1 v2 Hv.
    eapply outcome_bind_rel; [by apply IH|]. intros [] [] [_ ?]. auto with layout.
  - eapply outcome_bind_rel; [apply undo_entries_layout; auto with layout|]. intros v1 v2 Hv. case_decide.
    + pose proof Hv as (_ & Hvx & _). rewrite Hvx.
      eapply outcome_bind_rel; [apply try_entries_layout; auto with layout|]. intros [g1 y1] [g2 y2] [Hg Hy]. cbn in Hg, Hy. subst g2.
      constructor. apply pair_rel; [done|]. pose proof Hy as (_ & Hyx & _). rewrite Hyx. case_decide; auto with layout.
    + eapply outcome_bind_rel; [by apply IH|]. intros [] [] [_ ?]. auto with layout.
Qed.

End Search.

(** ** What the driver reads from the table *)

(** Both tables have the same nodes. *)
Lemma nodes_perm s1 s2 : s1 ≡ s2 -> concat (sl_list s1) ≡ₚ concat (sl_list s2).
Proof.
  intros (H1 & H2 & HM). set (f := fun n : seq_node => (sn_sequence_number n, sn_ordered_data n)).
  assert (f <$> concat (sl_list s1) ≡ₚ f <$> concat (sl_list s2)) as Hp.
  { apply list_to_map_inj; [| |exact HM]; (rewrite <- list_fmap_compose; apply SeqLog.wf_nodup); done. }
  assert (forall l : list seq_node, (fun p => SeqNode p.1 p.2) <$> (f <$> l) = l) as Hback.
  { intros l. rewrite <- list_fmap_compose. rewrite <- (list_fmap_id l) at 2. apply list_fmap_ext. by intros i [] _. }
  rewrite <- (Hback (concat (sl_list s1))), <- (Hback (concat (sl_list s2))). by rewrite Hp.
Qed.

#[export] Instance find_highest_proper : Proper ((≡) ==> eq) SeqLog.find_highest_seq_num.
Proof.
  intros s1 s2 Hs. pose proof Hs as (H1 & H2 & _). unfold SeqLog.find_highest_seq_num. rewrite !SeqLog.scan_ok by done.
  simpl_bind. f_equal. rewrite !walk_concat. pose proof (nodes_perm _ _ Hs) as Hp.
  destruct (SeqLog.fold_max_spec (concat (sl_list s1)) (-1)) as (L1 & U1 & M1).
  destruct (SeqLog.fold_max_spec (concat (sl_list s2)) (-1)) as (L2 & U2 & M2). cbv zeta in *.
  set (x := fold_left _ (concat (sl_list s1)) _) in *. set (y := fold_left _ (concat (sl_list s2)) _) in *.
  assert (x <= y) by (destruct M1 as [->|(n & Hn & <-)]; [done|]; apply U2; by rewrite <- Hp).
  assert (y <= x) by (destruct M2 as [->|(n & Hn & <-)]; [done|]; apply U1; by rewrite Hp). lia.
Qed.

#[export] Instance count_higher_proper : Proper ((≡) ==> eq ==> eq) SeqLog.count_higher.
Proof.
  intros s1 s2 Hs q _ <-. pose proof Hs as (H1 & H2 & _). unfold SeqLog.count_higher. rewrite !SeqLog.scan_ok by done.
  simpl_bind. by rewrite !walk_concat, !SeqLog.fold_count_spec, (nodes_perm _ _ Hs).
Qed.

#[export] Instance equal_range_proper : Proper ((≡ₚ) ==> eq ==> (≡ₚ)) LogCreation.equal_range.
Proof. intros mm1 mm2 Hmm k _ <-. unfold LogCreation.equal_range. by rewrite Hmm. Qed.

#[export] Instance sort_up_proper : Proper ((≡ₚ) ==> eq) React.sort_up.
Proof.
  intros l1 l2 Hl. apply (Sorted_unique Z.le); [apply Sorted_merge_sort, _|apply Sorted_merge_sort, _|].
  unfold React.sort_up. by rewrite !merge_sort_Permutation.
Qed.

Lemma nums_ok_perm mm1 mm2 : mm1 ≡ₚ mm2 -> React.nums_ok mm1 -> React.nums_ok mm2.
Proof. unfold React.nums_ok. by intros ->. Qed.

(** ** The driver *)
Section Driver.
Context {E : Type} `{!Environment E} {Instr : Type} `{!EqDecision Instr}.
Abbreviation item := (AddrTrace.PmemAddrTraceItem (Instr := Instr)).

(** The numbers by address that the driver builds, in the order of the table. *)
Definition by_address (s : seq_log) : LogCreation.multimap :=
  (fun n => (sd_address (sn_ordered_data n), sn_sequence_number n)) <$> concat (sl_list s).

#[export] Instance by_address_proper : Proper ((≡) ==> (≡ₚ)) by_address.
Proof. intros s1 s2 Hs. unfold by_address. by rewrite (nodes_perm _ _ Hs). Qed.

Lemma by_address_nums s : SeqLog.wf s -> React.nums_ok (by_address s).
Proof. intros [_ _ Hk]. apply Forall_fmap, Forall_forall. intros n Hn. by apply Hk. Qed.

Lemma by_address_length s : SeqLog.wf s -> length (by_address s) = size (SeqLog.model s).
Proof.
  intros [_ Hn _]. unfold by_address, SeqLog.model, to_map. rewrite length_fmap, map_size_list_to_map by (by rewrite to_map_keys).
  by rewrite length_fmap.
Qed.

Lemma walk_by_address s : walk (fun mm temp => LogCreation.mm_insert mm (sd_address (sn_ordered_data temp)) (sn_sequence_number temp))
  [] (sl_list s) = by_address s.
Proof.
  rewrite walk_concat. unfold by_address. change (?f <$> ?l) with ([] ++ (f <$> l)). generalize (@nil (Z * Z)).
  induction (concat (sl_list s)) as [|n l IH]; intros mm; cbn [fold_left fmap list_fmap]; [by rewrite app_nil_r|].
  rewrite IH. unfold LogCreation.mm_insert. by rewrite <- app_assoc.
Qed.

(** The array has room: all of its sequences are found. *)
Lemma address_seq_creation_ok s arr (its : list item) fi :
  SeqLog.wf s -> (length (by_address s) <= length arr)%nat ->
  exists a, React.address_seq_creation s arr its fi = Some a /\ React.address_seq_nums a = by_address s /\
    length (React.as_sequences a) = length arr.
Proof.
  intros Hwf Hlen. unfold React.address_seq_creation. rewrite (SeqLog.scan_ok _ Hwf). simpl_bind. rewrite walk_by_address.
  destruct (mfold_total (fun '(sequences, highest, starting) it =>
        if decide (AddrTrace.instr it = Some fi) then
          '(sequences', _, highest') ← React.copy_range sequences (LogCreation.equal_range (by_address s) (AddrTrace.addr it));
          Some (sequences', highest', if decide (highest' = -1) then starting else highest')
        else Some (sequences, highest, starting))
    (fun _ '(sequences, _, _) => length sequences = length arr) its (arr, -1, -1)) as ([[sq h] st] & -> & Hsq); [done| |by eexists].
  intros l1 it l2 [[sq h] st] _ Hsq. case_decide; [|by eexists].
  pose proof (React.equal_range_length (by_address s) (AddrTrace.addr it)).
  destruct (React.copy_range_ok (LogCreation.equal_range (by_address s) (AddrTrace.addr it)) sq) as [h' ->]; [lia|].
  cbn [mbind option_bind]. eexists. split; [reflexivity|]. cbn beta iota. rewrite length_app, length_drop. lia.
Qed.

Lemma candidates_perm mm1 mm2 (tr : list (option Instr * item)) i :
  mm1 ≡ₚ mm2 -> React.candidates mm1 tr i = React.candidates mm2 tr i.
Proof.
  intros Hmm. unfold React.candidates. apply list_bind_ext; [|done]. intros it. unfold React.candidates_of. case_decide; [|done].
  by rewrite Hmm.
Qed.

#[export] Instance reference_equiv : Equiv (React.reference (E := E)) := fun r1 r2 =>
  React.rf_search r1 ≡ React.rf_search r2 /\ React.rf_seen r1 = React.rf_seen r2 /\
  React.rf_many r1 = React.rf_many r2 /\ React.rf_total r1 = React.rf_total r2.

Section Reference.
Context (garbage : single_data) (c_log : checkpoint_log) (num_data pool_address : Z)
        (options : Options.reactor_options) (fp : Z) (tr : list (option Instr * item)) (fuel : nat).
Abbreviation ref_item mm := (React.ref_item mm tr garbage c_log num_data pool_address options fp fuel).
Abbreviation ref_items mm := (React.ref_items mm tr garbage c_log num_data pool_address options fp fuel).

(** The numbers that wait are keys. *)
Definition waiting (r : React.reference (E := E)) : Prop := Forall seq_key (React.rf_many r).

Lemma fresh_keys mm seen i : React.nums_ok mm -> Forall seq_key (React.fresh seen (React.candidates mm tr i)).
Proof.
  intros Hn. apply Forall_forall. intros q [_ Hq]%React.fresh_new. apply React.candidates_elem in Hq.
  apply list_elem_of_fmap in Hq as (e & -> & He). unfold React.nums_ok in Hn. rewrite Forall_forall in Hn. by apply Hn.
Qed.

Lemma ref_item_layout mm1 mm2 r1 r2 i :
  mm1 ≡ₚ mm2 -> React.nums_ok mm1 -> r1 ≡ r2 -> waiting r1 ->
  outcome_rel (prod_relation eq (fun r r' => r ≡ r' /\ waiting r)) (ref_item mm1 r1 i) (ref_item mm2 r2 i).
Proof.
  intros Hmm Hn (Hs & Hseen & Hmany & Htotal) Hw. unfold React.ref_item. rewrite (candidates_perm _ _ tr i Hmm), Hseen, Hmany, Htotal.
  pose proof (fresh_keys mm2 (React.rf_seen r2) i (nums_ok_perm _ _ Hmm Hn)) as Hf. set (new := React.fresh _ _) in *.
  assert (Forall seq_key (React.rf_many r2 ++ new)) as Hk by (apply Forall_app; by rewrite <- Hmany).
  assert (Forall seq_key (React.sort_up (React.rf_many r2 ++ new))) as Hk' by (by rewrite React.sort_up_perm).
  case_decide; [constructor; apply pair_rel; [done|]; by split|].
  eapply outcome_bind_rel.
  { apply binary_reversion_layout; [|done]. pose proof Hs as (_ & -> & _). by apply with_globals_rel. }
  intros [b1 u1] [b2 u2] [Hb Hu]. cbn in Hb, Hu. subst b2. pose proof Hu as (_ & -> & _).
  case_decide; [case_decide; [constructor|]|]; constructor; (apply pair_rel; [done|]); (split; [done|]); [done|constructor].
Qed.

Lemma ref_items_layout mm1 mm2 r1 r2 l :
  mm1 ≡ₚ mm2 -> React.nums_ok mm1 -> r1 ≡ r2 -> waiting r1 ->
  outcome_rel (prod_relation eq (≡)) (ref_items mm1 r1 l) (ref_items mm2 r2 l).
Proof.
  intros Hmm Hn. revert r1 r2. induction l as [|i l IH]; intros r1 r2 Hr Hw; cbn [React.ref_items]; [auto with layout|].
  eapply outcome_bind_rel; [by apply ref_item_layout|]. intros [v u1] [v' u2] [Hv [Hu Hw']]. cbn in Hv, Hu, Hw'. subst v'.
  destruct v; [auto with layout|by apply IH].
Qed.

End Reference.

(** ** The reaction *)

#[export] Instance driver_equiv : Equiv (React.driver (E := E)) := fun d1 d2 => React.abs d1 ≡ React.abs d2.

Lemma abs_result_rel (o1 o2 : outcome (React.verdict * React.driver (E := E))) :
  outcome_rel (prod_relation eq (≡)) (React.abs_result o1) (React.abs_result o2) -> outcome_rel (prod_relation eq (≡)) o1 o2.
Proof. destruct o1 as [[v1 d1]| |], o2 as [[v2 d2]| |]; intros H; inversion H as [? ? [Hv Hd]| |]; constructor. by split. Qed.

Context (garbage empty_data : single_data) (c_log : checkpoint_log) (num_data pool_address : Z)
        (options : Options.reactor_options) (fp : Z) (its : list item) (fault_inst : Instr)
        (tr : list (option Instr * item)) (slices : list (list Instr)) (fuel : nat)
        (m : memory) (e : E) (x : BinaryReversion.globals) (pop : Z).

(** What the driver does once the sequence log is sorted: [r_log] is the work table. *)
Definition reaction (s_log r_log : seq_log) : outcome (React.verdict * React.driver (E := E)) :=
  let array := replicate (Z.to_nat (sl_size s_log)) 0 in
  seqs ← run (React.address_seq_creation s_log array its fault_inst);
  high ← run (SeqLog.find_highest_seq_num s_log);
  React.react_slices garbage empty_data c_log num_data pool_address options fp (React.address_seq_nums seqs) tr fuel
    (React.Driver (BinaryReversion.State (World m s_log e) x pop)
       (React.Collector (React.as_sequences seqs) [] array 0 0 r_log) false 0 0 high) slices.

(** The sizes the code chooses: as many slots as entries, and a work table beyond the dead read. *)
Record tables_ok (s_log r_log : seq_log) : Prop := TablesOk {
  to_size : Z.of_nat (size (SeqLog.model s_log)) <= sl_size s_log;
  to_slots : 92 < sl_slots r_log
}.

Lemma reaction_reference s r :
  SeqLog.wf s -> SeqLog.wf r -> tables_ok s r ->
  React.abs_result (reaction s r) =
    React.ref_items (by_address s) tr garbage c_log num_data pool_address options fp fuel
      (React.Reference (BinaryReversion.State (World m s e) x pop) (dom (SeqLog.model r)) [] 0) (concat slices).
Proof.
  intros Hs Hr [Hsize Hslots]. unfold reaction. set (arr := replicate _ 0).
  assert (length (by_address s) <= length arr)%nat as Hlen by (unfold arr; rewrite length_replicate, by_address_length by done; lia).
  destruct (address_seq_creation_ok s arr its fault_inst Hs Hlen) as (a & -> & Ha & Hal). cbn [run mbind outcome_bind].
  destruct (SeqLog.find_highest_seq_num s) as [high|] eqn:Hh; cbn [run mbind outcome_bind].
  - rewrite Ha. rewrite React.react_slices_ok; [done| |by apply by_address_nums].
    split; [|done|done]. split; [done|done| |done]. cbn [React.dr_coll React.sequences]. by rewrite Hal.
  - unfold SeqLog.find_highest_seq_num in Hh. by rewrite (SeqLog.scan_ok _ Hs) in Hh.
Qed.

Lemma reaction_layout_ok s1 s2 r1 r2 :
  s1 ≡ s2 -> r1 ≡ r2 -> tables_ok s1 r1 -> tables_ok s2 r2 ->
  outcome_rel (prod_relation eq (≡)) (reaction s1 r1) (reaction s2 r2).
Proof.
  intros Hs Hr H1 H2. apply abs_result_rel. pose proof Hs as (Hs1 & Hs2 & _). pose proof Hr as (Hr1 & Hr2 & HM).
  rewrite !reaction_reference by done. apply ref_items_layout.
  - by rewrite Hs.
  - by apply by_address_nums.
  - by rewrite HM.
  - constructor.
Qed.

(** C9. The reaction depends on its tables only through their entries.  Two sequence
    logs of any sizes that hold the same entries, in any order in the chains, with
    work tables that hold the same numbers, lead to the same reaction: both are
    undefined, both run out of fuel, or both give the same verdict with the same
    memory and pool, the same runs of the program, the same counters, the same
    collected numbers, and again tables with the same entries. *)
Theorem reaction_layout_independent s1 s2 r1 r2 :
  s1 ≡ s2 -> r1 ≡ r2 -> tables_ok s1 r1 -> tables_ok s2 r2 ->
  outcome_rel (prod_relation eq (≡)) (reaction s1 r1) (reaction s2 r2).
Proof. apply reaction_layout_ok. Qed.

End Driver.

(** The tail of [react_with] is the reaction. *)
Lemma react_with_reaction {E} `{!Environment E} {Instr} `{!EqDecision Instr} garbage empty_data options fp fuel
    (trace : AddrTrace.PmemAddrTrace (Instr := Instr)) tr p fi slices c_log pop (w : world E) x offsets addresses cr m t mm s it :
  let num_data := Z.of_nat (length (AddrTrace.addresses p)) in
  Options.arckpt options = false ->
  React.offset_list (AddrTrace.items trace) (AddrTrace.addresses p) pop = Some (offsets, addresses) ->
  AddrTrace.items trace !! AddrTrace.pool_addr p = Some it ->
  LogCreation.seq_log_creation garbage (w_mem w) c_log = Some cr ->
  LogCreation.tx_log_creation garbage (LogCreation.cr_mem cr) c_log = Some (m, t) ->
  LogCreation.offset_seq_creation [] (LogCreation.cr_s_log cr) = Some mm ->
  LogCreation.sort_creation offsets addresses num_data mm (LogCreation.cr_s_log cr) = Some s ->
  React.react_with garbage empty_data options fp fuel trace tr p fi slices c_log pop w x =
    ('(_, d) ← reaction garbage empty_data c_log num_data (AddrTrace.addr it) options fp (AddrTrace.items trace) fi tr slices fuel
                 m (w_env w) x pop s (LogCreation.cr_r_log cr); Ret d).
Proof.
  intros num_data Harc Ho Hit Hcr Htx Hmm Hs. unfold React.react_with, reaction.
  rewrite Ho, Hit, Hcr. cbn [run mbind outcome_bind]. rewrite Htx. cbn [run mbind outcome_bind]. rewrite Hmm. cbn [run mbind outcome_bind].
  fold num_data. rewrite Hs. cbn [run mbind outcome_bind]. rewrite Harc.
  destruct (React.address_seq_creation _ _ _ _) as [a|]; [|done]. cbn [run mbind outcome_bind].
  by destruct (SeqLog.find_highest_seq_num s).
Qed.

(** ** Tables built in any order *)
Definition inserts (es : list (Z * single_data)) : list SeqLog.seq_op := (fun p => SeqLog.OpInsert p.1 p.2) <$> es.

Lemma inserts_map es : fold_left SeqLog.spec_op (inserts es) ∅ = list_to_map (reverse es).
Proof.
  rewrite <- fold_left_rev_right. unfold inserts, reverse. change (?f <$> es) with (map f es). rewrite <- map_rev, <- rev_alt.
  induction (rev es) as [|[k d] l IH]; [done|]. cbn. by rewrite IH.
Qed.

(** Entries with distinct numbers, inserted in any order into empty tables of any
    sizes, give the same table. *)
Lemma inserted_equiv n1 k1 n2 k2 es1 es2 :
  0 < n1 < 2 ^ 31 -> 0 < n2 < 2 ^ 31 -> 92 < k1 -> 92 < k2 -> es1 ≡ₚ es2 -> NoDup es1.*1 -> Forall (fun p => seq_key p.1) es1 ->
  exists s1 s2, SeqLog.run_ops (SeqLog.empty_log n1 k1) (inserts es1) = Some s1 /\
    SeqLog.run_ops (SeqLog.empty_log n2 k2) (inserts es2) = Some s2 /\ s1 ≡ s2.
Proof.
  intros Hn1 Hn2 Hk1 Hk2 Hp Hnd Hkeys.
  destruct (SeqLog.run_ops_ok (SeqLog.empty_log n1 k1) (inserts es1)) as (s1 & H1 & W1 & M1 & _);
    [by apply SeqLog.empty_log_wf|done|by apply Forall_fmap|].
  destruct (SeqLog.run_ops_ok (SeqLog.empty_log n2 k2) (inserts es2)) as (s2 & H2 & W2 & M2 & _);
    [by apply SeqLog.empty_log_wf|done|apply Forall_fmap; by rewrite <- Hp|].
  exists s1, s2. split; [done|]. split; [done|]. split; [done|]. split; [done|].
  rewrite M1, M2, !SeqLog.empty_log_model, !inserts_map. apply list_to_map_proper; [by rewrite fmap_reverse, reverse_Permutation|].
  by rewrite !reverse_Permutation.
Qed.

(** ** Example

    The two entries of [Rollback] in tables of two and of seven slots: the first run
    of the program fails, the second succeeds. *)
Definition ex_entries : list (Z * single_data) := [(4, Rollback.ex_entry 100 4 1 110); (6, Rollback.ex_entry 102 6 2 112)].
Definition ex_table1 : seq_log :=
  SeqLog 2 100 [[SeqNode 6 (Rollback.ex_entry 102 6 2 112); SeqNode 4 (Rollback.ex_entry 100 4 1 110)]; []].
Definition ex_table2 : seq_log :=
  SeqLog 7 100 [[]; []; []; []; [SeqNode 4 (Rollback.ex_entry 100 4 1 110)]; []; [SeqNode 6 (Rollback.ex_entry 102 6 2 112)]].
Definition ex_run (s r : seq_log) : outcome (React.verdict * React.driver (E := list Z)) :=
  reaction Rollback.ex_garbage Rollback.ex_garbage ex_clog 1 40 BinaryReversion.ex_options 1 [] 7%nat
    [(Some 7%nat, React.ex_item 40)] [[5%nat]; [7%nat]] 3
    Rollback.ex_pm [256; 0] (BinaryReversion.Globals (-1) 0 0 0) 40 s r.
Definition ex_seen (d : React.driver (E := list Z)) : list Z * Z :=
  (React.many_address_seq (React.dr_coll d), BinaryReversion.total_reexecutions (BinaryReversion.st_globals (React.dr_search d))).

Lemma reaction_layout_independent_witness :
  exists d1 d2, ex_run ex_table1 (SeqLog.empty_log 3 93) = Ret (React.Finished, d1) /\
    ex_run ex_table2 (SeqLog.empty_log 9 200) = Ret (React.Finished, d2) /\ d1 ≡ d2 /\ ex_seen d1 = ([4; 6], 2).
Proof.
  assert (ex_table1 ≡ ex_table2) as Hs.
  { destruct (inserted_equiv 2 100 7 100 ex_entries (reverse ex_entries)) as (s1 & s2 & H1 & H2 & Hs); [done..| | | |].
    - symmetry. apply reverse_Permutation.
    - apply (bool_decide_unpack _). vm_compute. exact I.
    - repeat constructor; done.
    - vm_compute in H1, H2. injection H1 as <-. injection H2 as <-. exact Hs. }
  assert (outcome_rel (prod_relation eq (≡)) (ex_run ex_table1 (SeqLog.empty_log 3 93)) (ex_run ex_table2 (SeqLog.empty_log 9 200))) as Hrel.
  { apply reaction_layout_independent; [exact Hs| | |].
    - split; [by apply SeqLog.empty_log_wf|]. split; [by apply SeqLog.empty_log_wf|]. vm_compute. reflexivity.
    - split; [vm_compute; discriminate|done].
    - split; [vm_compute; discriminate|done]. }
  assert (React.result (fun '(v, d) => bool_decide (ex_seen d = ([4; 6], 2)) && match v with React.Finished => true | React.Continue => false end)
    false (ex_run ex_table1 (SeqLog.empty_log 3 93)) = true) as Hc by (vm_compute; reflexivity).
  destruct Hrel as [[v1 d1] [v2 d2] [Hv Hd]| |]; [|discriminate|discriminate]. cbn in Hv. subst v2.
  cbn [React.result] in Hc. apply andb_true_iff in Hc as [Hc Hv]. apply bool_decide_eq_true in Hc.
  destruct v1; [|discriminate]. by exists d1, d2.
Defined.

End Layout.
