(* ===== verification/Path.v ===== *)
(** * File paths (analyzer/lib/Utils/Path.cpp)

    C strings are lists of characters without the terminator.  The buffer
    [canonpath] fills is given by what lies before [dest]; the undefined accesses
    in front of the buffer are [Undef]. *)
From stdpp Require Import base list strings.
From Stdlib Require Import Ascii.
From S2P Require Import Prelude Strings.
Import Strings.

Module Path.

Definition MAX_PATH : Z := 512.
Definition slash : ascii := "/"%char.
Definition dot : ascii := "."%char.

(** [ISSLASH] *)
Definition ISSLASH (c : ascii) : bool := bool_decide (c = slash).

(** ** [stripname] *)

(** The loop: [p] is the suffix to return, [str] what is left to scan; [left]
    counts down.  In a run of separators only the last one counts. *)
Definition starts_slash (s : chars) : bool := match s with c :: _ => ISSLASH c | [] => false end.

Fixpoint strip_loop (str p : chars) (strips left : Z) : chars :=
  match str with
  | [] => p
  | c :: rest =>
    if ISSLASH c && negb (starts_slash rest) then
      let left' := if decide (strips < 0) then left else left - 1 in
      let p' := if decide (strips < 0 \/ left' >= 0) then rest else p in
      if decide (left' = 0) then p' else strip_loop rest p' strips left'
    else strip_loop rest p strips left
  end.

Definition stripname (name : chars) (strips : Z) : chars :=
  if decide (strips = 0) then name else strip_loop name name strips strips.

(** ** [canonpath] *)

Inductive canon :=
  | Canon (path : chars)   (* the canonical name *)
  | Null                   (* the error return *)
  | Undef.                 (* an access in front of the buffer *)

(** The component at the start of a name and what follows it. *)
Fixpoint component (s : chars) : chars * chars :=
  match s with
  | [] => ([], [])
  | c :: s' => if ISSLASH c then ([], s) else let '(a, b) := component s' in (c :: a, b)
  end.

Fixpoint skip_slashes (s : chars) : chars :=
  match s with
  | c :: s' => if ISSLASH c then skip_slashes s' else s
  | [] => []
  end.

(** [while ((dest > rpath + 1) && (--dest)[-1] != '/');] on the buffer read from
    [dest] backwards. *)
Fixpoint back_up (rev : chars) : chars :=
  match rev with
  | _ :: ((c :: _) as rest) => if ISSLASH c then rest else back_up rest
  | _ => rev
  end.

(** Backing up over the last component; [None] reads in front of the buffer. *)
Definition back_component (rev : chars) : option chars :=
  match back_up rev with
  | [] => None
  | c :: rest => Some (if ISSLASH c then c :: rest else rest)
  end.

(** Appending a component; [None] when the caller's buffer is too short. *)
Definition push_component (resolved : bool) (rev comp : chars) : option chars :=
  let rev' := match rev with
              | c :: _ => if ISSLASH c then rev else slash :: rev
              | [] => rev
              end in
  if decide (resolved = true /\ Z.of_nat (length rev') + Z.of_nat (length comp) >= MAX_PATH) then None
  else Some (reverse comp ++ rev').

Definition is_dot (comp : chars) : bool := bool_decide (comp = [dot]).
Definition is_dotdot (comp : chars) : bool := bool_decide (comp = [dot; dot]).

(** The loop over the components; the fuel bounds their number. *)
Fixpoint canon_loop (fuel : nat) (resolved : bool) (start rev : chars) : canon :=
  match fuel with
  | O => Undef
  | S fuel' =>
    match start with
    | [] => Canon rev
    | _ =>
      let '(comp, rest) := component (skip_slashes start) in
      if bool_decide (comp = []) then Canon rev
      else if is_dot comp then canon_loop fuel' resolved rest rev
      else if is_dotdot comp then
        match back_component rev with
        | None => Undef
        | Some rev' => canon_loop fuel' resolved rest rev'
        end
      else
        match push_component resolved rev comp with
        | None => Null
        | Some rev' => canon_loop fuel' resolved rest rev'
        end
    end
  end.

(** The end: a trailing separator is dropped unless it is the root. *)
Definition finish_path (rev : chars) : chars :=
  match rev with
  | c :: _ :: _ => reverse (if ISSLASH c then tail rev else rev)
  | _ => reverse rev
  end.

(** [resolved] says whether the caller gives a buffer of [MAX_PATH] characters;
    without one the buffer grows. *)
Definition canonpath (name : chars) (resolved : bool) : canon :=
  match name with
  | [] => Null
  | c :: name' =>
    let run rev := match canon_loop (S (length name)) resolved name rev with
                   | Canon rev' => Canon (finish_path rev')
                   | r => r
                   end in
    if ISSLASH c then run [slash]
    else if bool_decide (c = dot) && bool_decide (head name' = Some dot) then Null
    else run []
  end.

(** ** Comparing paths *)

(** The comparison of [pathendswith] on the canonical name. *)
Definition ends_with (path path2 : chars) : bool :=
  let len1 := Z.of_nat (length path) in
  let len2 := Z.of_nat (length path2) in
  if decide (len1 < len2) then false
  else
    let i := Z.to_nat (len1 - len2) in
    if bool_decide (head path = Some slash) && bool_decide (0 < i)%nat &&
       bool_decide (head path2 <> Some slash) && bool_decide (path !! (i - 1)%nat <> Some slash)
    then false
    else bool_decide (drop i path = path2).

(** [None] is undefined behaviour. *)
Definition pathendswith (path1 path2 : chars) : option bool :=
  match canonpath path1 true with
  | Canon p => Some (ends_with p path2)
  | Null => Some false
  | Undef => None
  end.

Definition pathneq (path1 path2 : chars) (n : Z) : option bool :=
  match canonpath path1 true with
  | Canon p => Some (bool_decide (stripname p n = path2))
  | Null => Some false
  | Undef => None
  end.

Example canon_1 : canonpath (lit "/a//b/./../c/") true = Canon (lit "/a/c").
Proof. vm_compute. reflexivity. Qed.
Example canon_2 : canonpath (lit "ab/../c/d") true = Canon (lit "c/d").
Proof. vm_compute. reflexivity. Qed.
Example canon_3 : canonpath (lit "a/../../b") true = Undef.
Proof. vm_compute. reflexivity. Qed.
Example strip_1 : stripname (lit "/a//b/c") 2 = lit "b/c".
Proof. vm_compute. reflexivity. Qed.

(** ** What [canonpath] computes *)

(** The components of a name, without empty ones and dots. *)
Definition components (s : chars) : list chars :=
  filter (fun p => p <> [] /\ p <> [dot]) (pieces slash s).

(** Resolving the parent components on a stack of components, the last first; at
    the root of an absolute name there is nothing to go up to, a relative name
    cannot go up beyond its start. *)
Fixpoint resolve (absolute : bool) (comps stack : list chars) : option (list chars) :=
  match comps with
  | [] => Some stack
  | c :: comps' =>
    if is_dotdot c then
      match stack with
      | _ :: stack' => resolve absolute comps' stack'
      | [] => if absolute then resolve absolute comps' [] else None
      end
    else resolve absolute comps' (c :: stack)
  end.

Definition base (absolute : bool) : chars := if absolute then [slash] else [].

Definition render (absolute : bool) (stack : list chars) : chars :=
  base absolute ++ join [slash] (reverse stack).

(** The buffer of a stack, backwards: without and with the separator that a
    further component needs. *)
Fixpoint buf (absolute : bool) (stack : list chars) : chars :=
  match stack with
  | [] => base absolute
  | c :: stack' => reverse c ++ match stack' with [] => base absolute | _ => slash :: buf absolute stack' end
  end.
Definition buf_slash (absolute : bool) (stack : list chars) : chars :=
  match stack with [] => base absolute | _ => slash :: buf absolute stack end.

Lemma buf_cons absolute c stack : buf absolute (c :: stack) = reverse c ++ buf_slash absolute stack.
Proof. by destruct stack. Qed.

(** Components do not hold separators. *)
Definition comp_ok (c : chars) : Prop := c <> [] /\ slash ∉ c.

Lemma join_snoc sep ps p : ps <> [] -> join sep (ps ++ [p]) = join sep ps ++ sep ++ p.
Proof.
  induction ps as [|q ps IH]; intros Hne; [done|]. destruct ps as [|r ps]; [done|].
  rewrite <- app_comm_cons, !join_cons by (try done; by destruct ps).
  rewrite IH by done. by rewrite <- !app_assoc.
Qed.

Lemma render_buf absolute stack : reverse (buf absolute stack) = render absolute stack.
Proof.
  induction stack as [|c stack IH]; [by destruct absolute|].
  rewrite buf_cons, reverse_app, reverse_involutive. unfold render. rewrite reverse_cons.
  destruct stack as [|d stack]; [by destruct absolute|].
  cbn [buf_slash]. rewrite reverse_cons, IH, join_snoc by (intros H; apply (f_equal length) in H; by rewrite length_reverse in H).
  unfold render. by rewrite <- !app_assoc.
Qed.

Lemma ISSLASH_true c : ISSLASH c = true <-> c = slash.
Proof. apply bool_decide_eq_true. Qed.
Lemma ISSLASH_false c : ISSLASH c = false <-> c <> slash.
Proof. apply bool_decide_eq_false. Qed.

Lemma reverse_comp c : comp_ok c -> exists x w, reverse c = x :: w /\ x <> slash /\ slash ∉ w.
Proof.
  intros [Hne Hs]. destruct (reverse c) as [|x w] eqn:Hr.
  - apply (f_equal reverse) in Hr. rewrite reverse_involutive in Hr. done.
  - exists x, w. rewrite <- elem_of_reverse, Hr in Hs. set_solver.
Qed.

(** The buffer represents the stack. *)
Definition represents (absolute : bool) (stack : list chars) (rev : chars) : Prop :=
  Forall comp_ok stack /\ (rev = buf absolute stack \/ rev = buf_slash absolute stack).

Lemma push_slash absolute stack rev :
  represents absolute stack rev ->
  match rev with c :: _ => if ISSLASH c then rev else slash :: rev | [] => rev end = buf_slash absolute stack.
Proof.
  intros [Hok Hrev]. destruct stack as [|c stack].
  - assert (rev = base absolute) as -> by (by destruct Hrev). by destruct absolute.
  - apply Forall_cons in Hok as [Hc _]. destruct Hrev as [->| ->]; [|done].
    destruct (reverse_comp c Hc) as (x & w & Hr & Hx & _). cbn [buf_slash]. rewrite buf_cons, Hr.
    cbn [app]. rewrite (proj2 (ISSLASH_false x)) by done. done.
Qed.

Lemma back_up_word w q :
  w <> [] -> slash ∉ w -> (q = [] \/ exists q', q = slash :: q') ->
  match back_up (w ++ q) with [] => None | c :: rest => Some (if ISSLASH c then c :: rest else rest) end = Some q.
Proof.
  intros Hne Hs Hq. induction w as [|x w IH]; [done|]. destruct w as [|y w].
  - destruct Hq as [->|[q' ->]]; [|done]. simpl. by rewrite (proj2 (ISSLASH_false x)) by set_solver.
  - change ((x :: y :: w) ++ q) with (x :: (y :: w) ++ q). rewrite <- app_comm_cons in *.
    cbn [back_up]. rewrite (proj2 (ISSLASH_false y)) by set_solver. apply IH; [done|set_solver].
Qed.

Lemma buf_slash_head absolute stack : buf_slash absolute stack = [] \/ exists q, buf_slash absolute stack = slash :: q.
Proof. destruct stack; [destruct absolute; eauto|right; eauto]. Qed.

Lemma back_component_ok absolute stack rev :
  represents absolute stack rev ->
  match stack with
  | [] => if absolute then back_component rev = Some rev else back_component rev = None
  | _ :: stack' => back_component rev = Some (buf_slash absolute stack')
  end.
Proof.
  intros [Hok Hrev]. destruct stack as [|c stack].
  - assert (rev = base absolute) as -> by (by destruct Hrev). by destruct absolute.
  - apply Forall_cons in Hok as [Hc _]. destruct (reverse_comp c Hc) as (x & w & Hr & Hx & Hw).
    assert (forall q, (q = [] \/ exists q', q = slash :: q') ->
              match back_up (reverse c ++ q) with [] => None
              | c :: rest => Some (if ISSLASH c then c :: rest else rest) end = Some q) as H.
    { intros q. rewrite Hr. apply back_up_word; [done|set_solver]. }
    unfold back_component. destruct Hrev as [->| ->]; cbn [buf_slash]; rewrite buf_cons.
    + apply H, buf_slash_head.
    + rewrite <- (H _ (buf_slash_head absolute stack)). rewrite Hr. rewrite <- app_comm_cons.
      cbn [back_up]. by rewrite (proj2 (ISSLASH_false x)).
Qed.

Lemma finish_ok absolute stack rev :
  represents absolute stack rev -> finish_path rev = render absolute stack.
Proof.
  intros [Hok Hrev]. rewrite <- render_buf. destruct stack as [|c stack].
  - assert (rev = base absolute) as -> by (by destruct Hrev). by destruct absolute.
  - apply Forall_cons in Hok as [Hc _]. destruct (reverse_comp c Hc) as (x & w & Hr & Hx & Hw).
    cbn [buf_slash] in Hrev. rewrite buf_cons, Hr in *. destruct Hrev as [->| ->].
    + rewrite <- app_comm_cons. unfold finish_path. destruct (w ++ _); [done|].
      by rewrite (proj2 (ISSLASH_false x)).
    + done.
Qed.

(** *** Components *)

Lemma component_ok s a b :
  component s = (a, b) -> s = a ++ b /\ slash ∉ a /\ (b = [] \/ exists b', b = slash :: b').
Proof.
  revert a b. induction s as [|c s IH]; intros a b; simpl.
  - intros [= <- <-]. split; [done|]. split; [set_solver|by left].
  - destruct (ISSLASH c) eqn:Hc.
    + intros [= <- <-]. apply ISSLASH_true in Hc as ->. split; [done|]. split; [set_solver|eauto].
    + destruct (component s) as [a' b'] eqn:Hs. intros [= <- <-].
      destruct (IH a' b' eq_refl) as (-> & Ha & Hb). apply ISSLASH_false in Hc.
      split; [done|]. split; [set_solver|done].
Qed.

Lemma components_slash s : components (slash :: s) = components s.
Proof. unfold components. cbn [pieces]. rewrite decide_True by done. rewrite filter_cons, decide_False by naive_solver. done. Qed.

Lemma skip_slashes_ok s :
  components (skip_slashes s) = components s /\ (length (skip_slashes s) <= length s)%nat /\
  starts_slash (skip_slashes s) = false.
Proof.
  induction s as [|c s (IH1 & IH2 & IH3)]; simpl; [done|]. destruct (ISSLASH c) eqn:Hc.
  - apply ISSLASH_true in Hc as ->. rewrite components_slash. split; [done|]. split; [lia|done].
  - split; [done|]. split; [done|]. done.
Qed.

Lemma components_split a b :
  slash ∉ a -> a <> [] -> (b = [] \/ exists b', b = slash :: b') ->
  components (a ++ b) = (if is_dot a then [] else [a]) ++ components b.
Proof.
  intros Ha Hne Hb.
  assert (forall l, filter (fun p => p <> [] /\ p <> [dot]) (a :: l) =
            (if is_dot a then [] else [a]) ++ filter (fun p => p <> [] /\ p <> [dot]) l) as Hf.
  { intros l. rewrite filter_cons. unfold is_dot. case_bool_decide.
    - by rewrite decide_False by naive_solver.
    - by rewrite decide_True. }
  destruct Hb as [->|[b' ->]].
  - rewrite app_nil_r. unfold components. rewrite pieces_no_sep, Hf by done. done.
  - rewrite components_slash. unfold components. by rewrite pieces_app, Hf by done.
Qed.

(** *** The loop *)

(** There is room in a caller's buffer for what is left of the name. *)
Definition path_room (resolved absolute : bool) (stack : list chars) (start : chars) : Prop :=
  resolved = true -> start <> [] ->
  Z.of_nat (length (buf_slash absolute stack) + length (skip_slashes start)) < MAX_PATH.

Lemma room_rest resolved absolute stack stack' start a b k :
  path_room resolved absolute stack start -> start <> [] -> skip_slashes start = a ++ b ->
  (b = [] \/ exists b', b = slash :: b') ->
  (length (buf_slash absolute stack') <= length (buf_slash absolute stack) + k)%nat ->
  (k <= length a + 1)%nat -> path_room resolved absolute stack' b.
Proof.
  intros Hr Hne Hsk Hb Hk Ha Hres Hbne. specialize (Hr Hres Hne). destruct Hb as [->|[b' ->]]; [done|].
  rewrite Hsk, length_app in Hr. simpl in *.
  pose proof (proj1 (proj2 (skip_slashes_ok b'))) as Hle. simpl in Hle. lia.
Qed.

Lemma push_ok resolved absolute stack rev a :
  represents absolute stack rev -> comp_ok a ->
  (resolved = true -> Z.of_nat (length (buf_slash absolute stack) + length a) < MAX_PATH) ->
  push_component resolved rev a = Some (buf absolute (a :: stack)).
Proof.
  intros Hrep Ha Hroom. unfold push_component. rewrite (push_slash absolute stack rev Hrep), buf_cons.
  rewrite decide_False; [done|]. intros [Hres Hge]. specialize (Hroom Hres). lia.
Qed.

Lemma represents_slash absolute stack : Forall comp_ok stack -> represents absolute stack (buf_slash absolute stack).
Proof. intros H. split; [done|by right]. Qed.

Lemma canon_loop_ok fuel resolved absolute start stack rev :
  represents absolute stack rev -> (length start < fuel)%nat ->
  path_room resolved absolute stack start ->
  match resolve absolute (components start) stack with
  | Some stack' => exists rev', canon_loop fuel resolved start rev = Canon rev' /\ represents absolute stack' rev'
  | None => canon_loop fuel resolved start rev = Undef
  end.
Proof.
  revert start stack rev. induction fuel as [|fuel IH]; intros start stack rev Hrep Hf Hroom; [lia|].
  destruct start as [|c0 start0]; [by exists rev|]. cbn [canon_loop].
  set (start := c0 :: start0) in *. assert (start <> []) as Hne by done.
  destruct (skip_slashes_ok start) as (Hcomp & Hlen & Hhead). rewrite <- Hcomp.
  destruct (component (skip_slashes start)) as [a b] eqn:Hab.
  destruct (component_ok _ _ _ Hab) as (Hsk & Ha & Hb).
  assert (length (skip_slashes start) = length a + length b)%nat as Hl by (by rewrite Hsk, length_app).
  clearbody start. case_bool_decide as Hae.
  { subst a. destruct Hb as [->|[b' ->]]; [rewrite Hsk|by rewrite Hsk in Hhead].
    exists rev. by split. }
  assert (0 < length a)%nat as Hpos by (destruct a; [done|simpl; lia]).
  rewrite Hsk, components_split by done. unfold is_dotdot, is_dot. case_bool_decide as Hd.
  { apply IH; [done|lia|]. by eapply (room_rest _ _ stack stack start a b 0); eauto with lia. }
  cbn [app resolve]. unfold is_dotdot. case_bool_decide as Hdd.
  - pose proof (back_component_ok absolute stack rev Hrep) as Hback. destruct stack as [|top stack].
    + destruct absolute; rewrite Hback; [|done]. apply IH; [done|lia|].
      by eapply (room_rest _ _ [] [] start a b 0); eauto with lia.
    + rewrite Hback. destruct Hrep as [Hok _]. apply Forall_cons in Hok as [_ Hok].
      apply IH; [by apply represents_slash|lia|].
      eapply (room_rest _ _ (top :: stack) stack start a b 0); eauto; [|lia].
      cbn [buf_slash]. rewrite buf_cons. simpl. rewrite length_app. lia.
  - assert (comp_ok a) as Hca by done.
    rewrite (push_ok resolved absolute stack rev a Hrep Hca).
    + apply IH; [|lia|].
      * split; [|by left]. destruct Hrep as [Hok _]. by constructor.
      * eapply (room_rest _ _ stack (a :: stack) start a b (length a + 1)); eauto.
        cbn [buf_slash]. rewrite buf_cons. simpl. rewrite length_app, length_reverse. lia.
    + intros Hres. specialize (Hroom Hres Hne). rewrite Hl in Hroom. lia.
Qed.

Lemma represents_nil absolute : represents absolute [] (base absolute).
Proof. split; [constructor|by left]. Qed.

Lemma initial_room resolved absolute c name :
  (resolved = true -> Z.of_nat (length (c :: name)) < MAX_PATH) -> (absolute = true -> c = slash) ->
  path_room resolved absolute [] (c :: name).
Proof.
  intros Hlen Habs Hres _. specialize (Hlen Hres). destruct absolute; cbn [buf_slash base length] in *.
  - rewrite Habs by done. simpl. pose proof (proj1 (proj2 (skip_slashes_ok name))). lia.
  - pose proof (proj1 (proj2 (skip_slashes_ok (c :: name)))) as Hle. simpl in Hle |- *. lia.
Qed.

(** [canonpath] resolves a name: the result is the root, if the name is
    absolute, and the components joined by single separators, empty components
    and dots dropped and every [..] removing the component before it.  For an
    absolute name [..] at the root is ignored; a relative name that goes up
    beyond its start makes the code read in front of its buffer, unless it
    begins with two dots, which is refused.  A caller's buffer is long enough for
    names shorter than [MAX_PATH]. *)
Theorem canonpath_resolves name resolved :
  (resolved = true -> Z.of_nat (length name) < MAX_PATH) ->
  canonpath name resolved =
    let absolute := starts_slash name in
    if bool_decide (name = []) || bool_decide (take 2 name = [dot; dot]) then Null
    else match resolve absolute (components name) [] with
         | Some stack => Canon (render absolute stack)
         | None => Undef
         end.
Proof.
  intros Hlen. destruct name as [|c name]; [done|]. unfold canonpath. cbv zeta.
  rewrite (bool_decide_eq_false_2 (c :: name = [])) by done. cbn [orb starts_slash].
  set (full := c :: name) in *.
  assert (forall absolute, (absolute = true -> c = slash) ->
    match canon_loop (S (length full)) resolved full (base absolute) with
    | Canon rev' => Canon (finish_path rev') | r => r end =
    match resolve absolute (components full) [] with Some st => Canon (render absolute st) | None => Undef end) as H.
  { intros absolute Habs.
    pose proof (canon_loop_ok (S (length full)) resolved absolute full [] (base absolute)
      (represents_nil absolute) (Nat.lt_succ_diag_r _) (initial_room resolved absolute c name Hlen Habs)) as Hloop.
    destruct (resolve absolute (components full) []) as [st|]; [|by rewrite Hloop].
    destruct Hloop as (rev' & -> & Hrep). by rewrite (finish_ok absolute st). }
  destruct (ISSLASH c) eqn:Hc.
  - rewrite <- (H true) by (intros _; by apply ISSLASH_true). apply ISSLASH_true in Hc as ->.
    by rewrite bool_decide_eq_false_2 by (unfold full; by destruct name).
  - unfold full. destruct (decide (c = dot /\ head name = Some dot)) as [[-> Hh]|Hn].
    + destruct name as [|d name]; [done|]. injection Hh as ->. by vm_compute.
    + rewrite (bool_decide_eq_false_2 (take 2 (c :: name) = [dot; dot])).
      * assert (bool_decide (c = dot) && bool_decide (head name = Some dot) = false) as ->.
        { apply andb_false_iff. rewrite !bool_decide_eq_false. destruct (decide (c = dot)); naive_solver. }
        by apply (H false).
      * intros Ht. apply Hn. destruct name as [|d name]; simplify_eq/=; done.
Qed.

(** *** Suffixes *)

(** [path2] ends [p] at a component boundary; for a relative [p] the code does not
    look at the boundary. *)
Definition path_suffix (p path2 : chars) : Prop :=
  exists prefix, p = prefix ++ path2 /\
    (starts_slash p = true -> prefix = [] \/ starts_slash path2 = true \/ last prefix = Some slash).

Lemma head_slash s : head s = Some slash <-> starts_slash s = true.
Proof. destruct s as [|c s]; simpl; [done|]. rewrite ISSLASH_true. naive_solver. Qed.

Lemma ends_with_ok p path2 : ends_with p path2 = true <-> path_suffix p path2.
Proof.
  unfold ends_with, path_suffix. cbv zeta. case_decide as Hlt.
  { split; [done|]. intros (prefix & -> & _). rewrite length_app in Hlt. lia. }
  assert (exists i, i = Z.to_nat (Z.of_nat (length p) - Z.of_nat (length path2))) as [i Hi0] by eauto.
  rewrite <- Hi0. assert (i = length p - length path2)%nat as Hi by lia. clear Hi0.
  assert (drop i p = path2 <-> p = take i p ++ path2) as Hd.
  { split; [intros <-; by rewrite take_drop|]. intros He. rewrite He at 1. apply drop_app_length'.
    rewrite length_take. lia. }
  assert (forall prefix, p = prefix ++ path2 -> prefix = take i p) as Hpre.
  { intros prefix He. rewrite He, take_app_length'; [done|]. apply (f_equal length) in He.
    rewrite length_app in He. lia. }
  assert (last (take i p) = if decide (0 < i)%nat then p !! (i - 1)%nat else None) as Hlast.
  { case_decide; [|by replace i with 0%nat by lia]. rewrite last_lookup, length_take.
    replace (Nat.pred (i `min` length p)) with (i - 1)%nat by lia. apply lookup_take_lt. lia. }
  assert (take i p = [] <-> i = 0%nat) as Hnil.
  { split; [|by intros ->]. intros H. apply (f_equal length) in H. rewrite length_take in H. simpl in H. lia. }
  destruct (bool_decide (head p = Some slash) && _ && _ && _) eqn:Hb.
  - rewrite !andb_true_iff, !bool_decide_eq_true in Hb. destruct Hb as [[[H1 H2] H3] H4].
    split; [done|]. intros (prefix & He & Hbound). exfalso. rewrite (Hpre _ He) in Hbound.
    rewrite head_slash in H1, H3. rewrite Hlast, decide_True, Hnil in Hbound by done.
    destruct (Hbound H1) as [?|[?|?]]; [lia|done|done].
  - rewrite bool_decide_eq_true, Hd. split.
    + intros He. exists (take i p). split; [done|]. intros Hs. rewrite Hnil, Hlast.
      rewrite !andb_false_iff, !bool_decide_eq_false, !head_slash in Hb.
      destruct (decide (0 < i)%nat); [|left; lia].
      destruct (decide (starts_slash path2 = true)); [by right; left|].
      destruct (decide (p !! (i - 1)%nat = Some slash)); [by right; right|]. naive_solver.
    + intros (prefix & He & _). by rewrite <- (Hpre _ He).
Qed.

(** [pathendswith] holds when the canonical form of the first path ends with
    the second one, and for an absolute path only at a component boundary; for a
    relative path it also holds inside a component, as for [atest.c] and
    [test.c]. *)
Theorem pathendswith_suffix path1 path2 :
  pathendswith path1 path2 = Some true <->
  exists p, canonpath path1 true = Canon p /\ path_suffix p path2.
Proof.
  unfold pathendswith. destruct (canonpath path1 true) as [p| |].
  - split; [intros [= H%ends_with_ok]; eauto|]. intros (q & [= <-] & H%ends_with_ok). by rewrite H.
  - naive_solver.
  - naive_solver.
Qed.

Lemma canonpath_resolves_witness :
  canonpath (lit "/usr/./lib/../../x") true = Canon (lit "/x") /\
  canonpath (lit "a/../..") false = Undef.
Proof.
  split.
  - rewrite (canonpath_resolves (lit "/usr/./lib/../../x") true) by (intros _; vm_compute; reflexivity).
    vm_compute. reflexivity.
  - rewrite (canonpath_resolves (lit "a/../..") false) by discriminate. vm_compute. reflexivity.
Defined.

End Path.
