(* ===== verification/Detector.v ===== *)
(** * The hard-fault detector (detector/Detector.cpp)

    A command line tool that reads the back traces of a debugger.  [analyze]
    extracts the location of the first frame; [fault] compares the traces of two
    runs to tell a hard fault, which recurs at the same places, from others.  A
    file is its content, [None] when it cannot be opened. *)
From stdpp Require Import base list strings gmap.
From Stdlib Require Import Ascii.
From S2P Require Import Prelude Strings GuidMap.
Import Strings.

Module Detector.

Definition colon : ascii := ":"%char.

(** [line.substr(line.find_last_of(' ') + 1)]: without a space the sum wraps to
    zero. *)
Definition last_word (line : chars) : chars :=
  match rfind " " line with Some i => drop (i + 1) line | None => line end.

(** [line[0] == '#'] *)
Definition is_frame (line : chars) : bool := bool_decide (head line = Some "#"%char).

(** The parts of a location before and after the first colon. *)
Definition location (combined : chars) : option (chars * chars) :=
  match find_char colon combined 0 with
  | Some i => Some (take i combined, drop (i + 1) combined)
  | None => None
  end.

(** The loop of [analyze]: the first location found. *)
Fixpoint analyze_loop (ls : list chars) (next_line : bool) : option (chars * chars) :=
  match ls with
  | [] => None
  | line :: ls' =>
    if is_frame line || next_line then
      match location (last_word line) with
      | Some l => Some l
      | None => analyze_loop ls' true
      end
    else analyze_loop ls' next_line
  end.

Definition analyze (file : option chars) : option (chars * chars) :=
  text ← file; analyze_loop (GuidMap.getlines text) false.

(** [insert] of [std::map] keeps the first value. *)
Definition map_insert (m : gmap chars chars) (k v : chars) : gmap chars chars :=
  match m !! k with Some _ => m | None => <[k := v]> m end.

(** The two loops of [fault] that collect locations; the second does not look at
    [next_line]. *)
Fixpoint collect_loop (use_next : bool) (ls : list chars) (next_line : bool) (m : gmap chars chars)
  : gmap chars chars :=
  match ls with
  | [] => m
  | line :: ls' =>
    if is_frame line || (use_next && next_line) then
      match location (last_word line) with
      | Some (f, n) => collect_loop use_next ls' false (map_insert m f n)
      | None => collect_loop use_next ls' true m
      end
    else collect_loop use_next ls' next_line m
  end.

(** The loop that compares the two files line by line: [combined] and [combined2]
    are both computed from the line of the second file. *)
Fixpoint compare_loop (ls : list (chars * chars)) (next_line hard_fault : bool) : bool :=
  match ls with
  | [] => hard_fault
  | (line, line2) :: ls' =>
    if (is_frame line && is_frame line2) || next_line then
      let combined := last_word line2 in
      let combined2 := last_word line2 in
      if bool_decide (is_Some (find_char colon combined 0)) &&
         bool_decide (is_Some (find_char colon combined2 0))
      then compare_loop ls' false (if bool_decide (combined <> combined2) then false else hard_fault)
      else compare_loop ls' true hard_fault
    else compare_loop ls' next_line hard_fault
  end.

(** The result printed by [fault]: [Some true] for a hard fault, [None] when a file
    cannot be opened; the collected locations are not used. *)
Definition fault (file file2 : option chars) : option bool :=
  let lines f := from_option GuidMap.getlines [] f in
  let func_line_mapping := collect_loop true (lines file) false ∅ in
  let func_line_mapping2 := collect_loop false (lines file2) false ∅ in
  match file, file2 with
  | Some text, Some text2 =>
    Some (compare_loop (zip (GuidMap.getlines text) (GuidMap.getlines text2)) false true)
  | _, _ => None
  end.

Lemma compare_loop_hard ls next_line : compare_loop ls next_line true = true.
Proof.
  revert next_line. induction ls as [|[line line2] ls IH]; intros next_line; simpl; [done|].
  destruct (_ || next_line); [|apply IH]. destruct (_ && _); [|apply IH].
  rewrite bool_decide_eq_false_2 by naive_solver. apply IH.
Qed.

(** The detector calls every pair of traces a hard fault: the location it takes
    from the first trace is read from the line of the second one, so that no
    difference between the two can be found. *)
Theorem fault_always_hard text text2 : fault (Some text) (Some text2) = Some true.
Proof. unfold fault. by rewrite compare_loop_hard. Qed.

(** A location is what follows the last space of the line, cut at its first colon. *)
Lemma location_join c f n : location c = Some (f, n) -> c = f ++ colon :: n /\ colon ∉ f.
Proof.
  unfold location, find_char, from. rewrite decide_True by lia. rewrite drop_0.
  destruct (find_if _ c) as [i|] eqn:Hi; [|done]. simpl. intros [= <- <-].
  apply find_if_Some in Hi as (l1 & x & l2 & -> & <- & Hx & Hall).
  apply bool_decide_eq_true in Hx as ->. rewrite take_app_length.
  replace (length l1 + 1)%nat with (length (l1 ++ [colon])) by (rewrite length_app; done).
  rewrite cons_middle, app_assoc, drop_app_length. split; [by rewrite <- app_assoc|].
  intros Hin. by apply Hall, bool_decide_eq_false in Hin.
Qed.

(** [analyze] reports the location of the first frame: the first line that
    starts with [#] begins the search, and from there the first line whose last
    word has a colon gives the file and the line number around it. *)
Theorem analyze_first_frame ls :
  match analyze_loop ls false with
  | Some (f, n) => exists before frame between line after,
      (ls = before ++ frame :: between ++ line :: after \/
       (between = [] /\ frame = line /\ ls = before ++ line :: after)) /\
      Forall (fun l => is_frame l = false) before /\ is_frame frame = true /\
      Forall (fun l => location (last_word l) = None) between /\
      last_word line = f ++ colon :: n /\ colon ∉ f
  | None => Forall (fun l => is_frame l = false) ls \/
      exists before frame rest, ls = before ++ frame :: rest /\ is_frame frame = true /\
        Forall (fun l => location (last_word l) = None) (frame :: rest)
  end.
Proof.
  assert (forall ls, match analyze_loop ls true with
    | Some (f, n) => exists between line after, ls = between ++ line :: after /\
        Forall (fun l => location (last_word l) = None) between /\ last_word line = f ++ colon :: n /\ colon ∉ f
    | None => Forall (fun l => location (last_word l) = None) ls end) as Htrue.
  { clear ls. induction ls as [|line ls IH]; simpl; [constructor|]. rewrite orb_true_r.
    destruct (location (last_word line)) as [[f n]|] eqn:Hl.
    - apply location_join in Hl as [Hl Hf]. by exists [], line, ls.
    - destruct (analyze_loop ls true) as [[f n]|]; [|by constructor].
      destruct IH as (between & l & after & -> & Hb & Hw & Hf).
      exists (line :: between), l, after. split; [done|]. split; [by constructor|done]. }
  induction ls as [|line ls IH]; simpl; [by left|]. rewrite orb_false_r.
  destruct (is_frame line) eqn:Hfr.
  - destruct (location (last_word line)) as [[f n]|] eqn:Hl.
    + apply location_join in Hl as [Hl Hf]. exists [], line, [], line, ls. split; [by right|]. by split.
    + specialize (Htrue ls). destruct (analyze_loop ls true) as [[f n]|].
      * destruct Htrue as (between & l & after & -> & Hb & Hw & Hf).
        exists [], line, between, l, after. split; [by left|]. by split.
      * right. exists [], line, ls. split; [done|]. split; [done|]. by constructor.
  - destruct (analyze_loop ls false) as [[f n]|].
    + destruct IH as (before & frame & between & l & after & Hls & Hb & Hrest).
      exists (line :: before), frame, between, l, after. split; [|split; [by constructor|done]].
      destruct Hls as [->|(-> & -> & ->)]; [by left|by right].
    + destruct IH as [IH|(before & frame & rest & -> & Hf & Hrest)]; [left; by constructor|].
      right. exists (line :: before), frame, rest. done.
Qed.

(** ** [main] *)

(** What the tool does: it prints lines and runs a command in a shell. *)
Inductive effect := Print (text : chars) | System (command : chars).

(** [argv] without the program name, the first line of the standard input (empty at
    its end) and the two report files; [None]: without an argument the null pointer
    is compared.  The locations that differ, which [fault_always_hard] shows there
    are none of, are not printed here. *)
Definition main (argv : list chars) (line_command : chars) (gdb gdb2 : option chars) : option (list effect) :=
  match argv with
  | [] => None
  | arg :: _ =>
    Some (
      if decide (arg = lit "run") then
        [Print (lit "Start System you wish to run "); System (lit "gdb --args " ++ line_command)]
      else if decide (arg = lit "analyze") then
        match analyze gdb with
        | Some (func_name, line_no) =>
          [Print (lit "file: " ++ func_name); Print (lit "line no: " ++ line_no); Print (lit "Run extractor with these inputs")]
        | None => []
        end
      else if decide (arg = lit "fault") then
        match fault gdb gdb2 with
        | Some hard_fault => [Print (lit (if hard_fault : bool then "Result: likely a hard fault" else "Result: likely not a hard fault"))]
        | None => []
        end
      else [Print (lit "please use options run, analyze or fault as argument")])
  end.

(** The verdict does not depend on the reports: two that can be opened give a hard
    fault, and otherwise nothing is printed at all. *)
Theorem fault_verdict rest line_command gdb gdb2 :
  main (lit "fault" :: rest) line_command gdb gdb2 =
    Some (match gdb, gdb2 with Some _, Some _ => [Print (lit "Result: likely a hard fault")] | _, _ => [] end).
Proof.
  unfold main. rewrite decide_False by (vm_compute; discriminate). rewrite decide_False by (vm_compute; discriminate).
  rewrite decide_True by done. unfold fault. destruct gdb, gdb2; [|done..]. by rewrite compare_loop_hard.
Qed.

Example ex_fault :
  fault (Some (lit "#0 main at a.c:1")) (Some (lit "#0 main at b.c:2")) = Some true.
Proof. vm_compute. reflexivity. Qed.

End Detector.
