(* ===== verification/Scope.v ===== *)
(** * Scopes (analyzer/{include,lib}/Matcher/Scope)

    Ranges of source lines. *)
From stdpp Require Import base list strings.
From Stdlib Require Import Ascii.
From S2P Require Import Prelude Strings.
Import Strings.

Module Scope.

(** The bounds are [unsigned long]. *)
Record Scope := MkScope { begin_ : Z; end_ : Z }.

Definition new_scope : Scope := MkScope 0 0.
Definition scope_at (b : Z) : Scope := MkScope b b.

Definition includes (s another : Scope) : bool :=
  bool_decide (begin_ another >= begin_ s) && bool_decide (end_ another <= end_ s).
Definition intersects (s another : Scope) : bool :=
  bool_decide (end_ another >= begin_ s /\ begin_ another <= end_ s).
Definition equal (s another : Scope) : bool :=
  bool_decide (begin_ s = begin_ another) && bool_decide (end_ s = end_ another).

(** [operator<<] *)
Definition print (s : Scope) : chars := lit "[#" ++ print_dec (begin_ s) ++ lit ",#" ++ print_dec (end_ s) ++ lit "]".

(** ** The lines of a scope *)

Definition inside (l : Z) (s : Scope) : Prop := begin_ s <= l <= end_ s.
Definition nonempty (s : Scope) : Prop := begin_ s <= end_ s.

Lemma includes_spec s t : includes s t = true <-> begin_ s <= begin_ t /\ end_ t <= end_ s.
Proof. unfold includes. rewrite andb_true_iff, !bool_decide_eq_true. lia. Qed.

Lemma intersects_spec s t : intersects s t = true <-> begin_ s <= end_ t /\ begin_ t <= end_ s.
Proof. unfold intersects. rewrite bool_decide_eq_true. lia. Qed.

Lemma equal_spec s t : equal s t = true <-> s = t.
Proof.
  unfold equal. rewrite andb_true_iff, !bool_decide_eq_true. destruct s, t; cbn. split; [by intros [-> ->]|by intros [= -> ->]].
Qed.

(** On scopes that are not reversed the tests decide inclusion, intersection and
    equality of the sets of lines. *)
Theorem scope_tests s t :
  nonempty s -> nonempty t ->
  (includes s t = true <-> forall l, inside l t -> inside l s) /\
  (intersects s t = true <-> exists l, inside l s /\ inside l t) /\
  (equal s t = true <-> forall l, inside l s <-> inside l t).
Proof.
  unfold nonempty, inside. intros Hs Ht. rewrite includes_spec, intersects_spec, equal_spec. split; [|split].
  - split; [lia|]. intros H. pose proof (H (begin_ t)). pose proof (H (end_ t)). lia.
  - split; [intros H; exists (Z.max (begin_ s) (begin_ t)); lia|]. intros (l & H1 & H2). lia.
  - split; [by intros ->|]. intros H. destruct s as [b e], t as [b' e']. cbn in *.
    pose proof (H b). pose proof (H e). pose proof (H b'). pose proof (H e'). f_equal; lia.
Qed.

(** A reversed scope, such as that of a block whose last instruction comes from an
    earlier line, has no line but is said to intersect, and even to be included. *)
Example reversed_scope :
  intersects (MkScope 1 9) (MkScope 7 3) = true /\ includes (MkScope 5 5) (MkScope 7 3) = true.
Proof. split; vm_compute; reflexivity. Qed.

End Scope.
