(* ===== verification/Matcher.v ===== *)
(** * Matching source locations to instructions (analyzer/{include,lib}/Matcher)

    The matcher finds the instructions of a source line and picks the one whose
    text is a given string, if need be up to register numbers and debug
    annotations.  Functions and their debug information are LLVM's: they are
    records with the fields the code reads, and an instruction is an element of
    an abstract type with its debug line and its printed form. *)
From stdpp Require Import base list strings.
From Stdlib Require Import Ascii.
From S2P Require Import Prelude Strings Path AddrTrace Scope.
Import Strings.

Module Matcher.

(** ** Locations *)

Record FileLine := MkFileLine { file : chars; fl_line : Z }.

(** [atoi], for the GNU library: [strtol] cut to [int]. *)
Definition atoi (s : chars) : Z :=
  let t := drop_while isspace s in
  let '(neg, u) := match t with
                   | "-"%char :: t' => (true, t')
                   | "+"%char :: t' => (false, t')
                   | _ => (false, t)
                   end in
  let v := fst (read_digits false 0 false u) in
  s32 (if neg : bool then Z.max (- v) (- 2 ^ 63) else Z.min v (2 ^ 63 - 1)).

(** The line of a criterion is unsigned. *)
Definition fromCriterionStr (criterion : chars) : option FileLine :=
  '(parts, _) ← splitList criterion ":" [];
  match parts with
  | f :: l :: _ => Some (MkFileLine f (u32 (atoi l)))
  | _ => None
  end.

(** Several criteria; the results found before a malformed one are kept. *)
Fixpoint criteria_loop (criteriaList : list chars) (results : list FileLine) : list FileLine * bool :=
  match criteriaList with
  | [] => (results, true)
  | c :: rest => match fromCriterionStr c with
                 | Some fl => criteria_loop rest (results ++ [fl])
                 | None => (results, false)
                 end
  end.
Definition fromCriteriaStr (criteria : chars) (results : list FileLine) : list FileLine * bool :=
  match splitList criteria "," [] with
  | Some (criteriaList, _) => criteria_loop criteriaList results
  | None => (results, false)
  end.

(** ** Matching instruction strings *)

Definition is_num (c : ascii) : bool := bool_decide (is_Some (digit_val false c)).

(** The pieces of a string between registers, [%] and a number: what
    [sregex_token_iterator] with index [-1] delivers.  [cur] is the current piece
    backwards, [had] whether a register was seen, [in_reg] whether the digits of
    one are being read; an empty piece at the end is not delivered after a
    register. *)
Fixpoint tokens (in_reg had : bool) (cur s : chars) : list chars :=
  match s with
  | [] => if had && bool_decide (cur = []) then [] else [reverse cur]
  | c :: s' =>
    if in_reg && is_num c then tokens true had cur s'
    else if bool_decide (c = "%"%char) && from_option is_num false (head s')
    then reverse cur :: tokens true true [] s'
    else tokens false had (c :: cur) s'
  end.

Fixpoint same_tokens (l1 l2 : list chars) : bool :=
  match l1, l2 with
  | [], [] => true
  | a :: l1', b :: l2' => if bool_decide (a = b) then same_tokens l1' l2' else false
  | _, _ => false
  end.

Definition dbg : chars := lit "!dbg".

(** The part of an instruction string that is compared. *)
Definition compared (ignore_dbg : bool) (s : chars) : chars :=
  let substr := if ignore_dbg then match find_str dbg s 0 with Some p => take p s | None => [] end else [] in
  if bool_decide (substr = []) then s else substr.

Definition fuzzilyMatch (inst1_str inst2_str : chars) (ignore_dbg : bool) : bool :=
  same_tokens (tokens false false [] (compared ignore_dbg inst1_str))
              (tokens false false [] (compared ignore_dbg inst2_str)).

Definition matchWithoutDbg (inst1_str inst2_str : chars) : bool :=
  match find_str dbg inst1_str 0, find_str dbg inst2_str 0 with
  | Some p1, Some p2 => if decide (p1 = p2) then bool_decide (take p1 inst1_str = take p2 inst2_str) else false
  | _, _ => false
  end.

(** ** Modules *)

Record DISubprogram := MkSubprogram {
  sp_directory : chars;
  sp_filename : chars;
  sp_line : Z;
  sp_name : chars;
  sp_linkage : chars
}.

(** Lexicographic comparison of strings, [StringRef::compare]. *)
Fixpoint compare_str (a b : chars) : Z :=
  match a, b with
  | [], [] => 0
  | [], _ :: _ => -1
  | _ :: _, [] => 1
  | x :: a', y :: b' =>
    let m := Z.of_nat (nat_of_ascii x) in
    let n := Z.of_nat (nat_of_ascii y) in
    if decide (m < n) then -1 else if decide (n < m) then 1 else compare_str a' b'
  end.

(** Differences of unsigned lines are converted to [int]. *)
Definition cmpDISP (SP1 SP2 : DISubprogram) : bool :=
  let c1 := compare_str (sp_directory SP1) (sp_directory SP2) in
  let c2 := if decide (c1 = 0) then compare_str (sp_filename SP1) (sp_filename SP2) else c1 in
  let c3 := if decide (c2 = 0) then s32 (sp_line SP1 - sp_line SP2) else c2 in
  bool_decide (c3 < 0).

Definition getFunctionName (SP : DISubprogram) : chars :=
  if bool_decide (sp_linkage SP = []) then sp_name SP else sp_linkage SP.

Section Module_.
Context {Instr : Type} (debug_line : Instr -> option Z) (print : Instr -> chars).

Record Function_ := MkFunction {
  fn_name : chars;
  isDeclaration : bool;
  getSubprogram : option DISubprogram;
  blocks : list (list Instr)
}.

Definition instructions (F : Function_) : list Instr := concat (blocks F).

Definition skipFunction (F : Function_) : bool := isDeclaration F || starts (lit "llvm.dbg") (fn_name F).

Definition getInstLine (I : Instr) : Z := default 0 (debug_line I).

Definition getFirstLine (F : Function_) : Z :=
  match getSubprogram F with Some SP => sp_line SP | None => 0 end.

(** The last instruction of the last block; a block without instructions has no
    last one. *)
Definition getLastLine (F : Function_) : option Z :=
  match last (blocks F) with
  | None => Some 0
  | Some BB => I ← last BB; Some (default 0 (debug_line I))
  end.

(** The lines of the first and the last instruction of a block. *)
Definition getBlockScope (B : list Instr) : option Scope.Scope :=
  first ← head B;
  final ← last B;
  if decide (getInstLine first = 0 \/ getInstLine final = 0) then None
  else Some (Scope.MkScope (getInstLine first) (getInstLine final)).

(** Ordering instructions by source location; [None]: a function without debug
    information is dereferenced. *)
Definition source_line (SP : DISubprogram) (I : Instr) : Z := default (sp_line SP) (debug_line I).
Definition InstSourceLocComparator (reverse_order : bool) (f1 f2 : Function_) (inst1 inst2 : Instr)
  : option bool :=
  sp1 ← getSubprogram f1;
  sp2 ← getSubprogram f2;
  let c1 := compare_str (sp_directory sp1) (sp_directory sp2) in
  let c2 := if decide (c1 = 0) then compare_str (sp_filename sp1) (sp_filename sp2) else c1 in
  let c3 := if decide (c2 = 0) then s32 (source_line sp1 inst1 - source_line sp2 inst2) else c2 in
  Some (if reverse_order then bool_decide (c3 > 0) else bool_decide (c3 < 0)).

(** Whether the file of a function ends with a name; [None] is undefined. *)
Definition spMatchFilename (sp : DISubprogram) (filename : chars) : option bool :=
  let debugname := if Path.starts_slash (sp_filename sp) then sp_filename sp
                   else sp_directory sp ++ lit "/" ++ sp_filename sp in
  Path.pathendswith debugname filename.

(** [normalizePath]: [None] is undefined, an unusable name gives the empty string. *)
Definition normalizePath (strips : Z) (fname : chars) : option chars :=
  match Path.canonpath fname false with
  | Path.Undef => None
  | Path.Null => Some []
  | Path.Canon p => Some (if decide (strips > 0) then Path.stripname p strips else p)
  end.

Record MatchResult := MkResult {
  matched : bool;
  instrs : list Instr;
  func : option Function_
}.
Definition no_match : MatchResult := MkResult false [] None.

Definition at_line (line : Z) (F : Function_) : list Instr :=
  filter (fun I => getInstLine I = line) (instructions F).

(** The matched instructions are appended to the result. *)
Definition matchInstrsInFunction (line : Z) (F : Function_) (result : list Instr) : bool * list Instr :=
  foldl (fun '(m, r) I => if decide (getInstLine I = line) then (true, r ++ [I]) else (m, r))
    (false, result) (instructions F).

Fixpoint matchInstrsCriterion (fs : list Function_) (criterion : FileLine) (result : MatchResult)
  : option (bool * MatchResult) :=
  match fs with
  | [] => Some (false, result)
  | F :: fs' =>
    if skipFunction F then matchInstrsCriterion fs' criterion result
    else match getSubprogram F with
    | None => matchInstrsCriterion fs' criterion result
    | Some SP =>
      same ← spMatchFilename SP (file criterion);
      if (same : bool) then
        end_line ← getLastLine F;
        let '(m, l) := matchInstrsInFunction (fl_line criterion) F (instrs result) in
        if (m : bool) then Some (true, MkResult true l (Some F))
        else if decide (fl_line criterion >= sp_line SP /\ fl_line criterion <= end_line) then
          let '(m2, l2) := matchInstrsInFunction (fl_line criterion) F l in
          Some (true, MkResult m2 l2 (Some F))
        else matchInstrsCriterion fs' criterion (MkResult m l (func result))
      else matchInstrsCriterion fs' criterion result
    end
  end.

(** One function against all criteria that are still open; a function without
    debug information is dereferenced. *)
Fixpoint criteria_in (F : Function_) (criteria : list FileLine) (results : list MatchResult)
  : option (list MatchResult) :=
  match criteria, results with
  | c :: cs, r :: rs =>
    r' ← (if matched r then Some r
          else SP ← getSubprogram F;
               same ← spMatchFilename SP (file c);
               if (same : bool) then
                 end_line ← getLastLine F;
                 if decide (fl_line c >= sp_line SP /\ fl_line c <= end_line) then
                   let '(m, l) := matchInstrsInFunction (fl_line c) F (instrs r) in
                   Some (MkResult m l (Some F))
                 else Some r
               else Some r);
    rs' ← criteria_in F cs rs;
    Some (r' :: rs')
  | _, _ => Some []
  end.

Fixpoint criteria_functions (fs : list Function_) (criteria : list FileLine) (results : list MatchResult)
  : option (list MatchResult) :=
  match fs with
  | [] => Some results
  | F :: fs' =>
    if skipFunction F then criteria_functions fs' criteria results
    else results' ← criteria_in F criteria results;
         if forallb matched results' then Some results' else criteria_functions fs' criteria results'
  end.

Definition matchInstrsCriteria (fs : list Function_) (criteria : list FileLine) : option (list MatchResult) :=
  criteria_functions fs criteria (replicate (length criteria) no_match).

(** The instruction number [inst_no], from 1, of the first definition of that name. *)
Definition matchInstr_seq (fs : list Function_) (fname : chars) (inst_no : Z) : option Instr :=
  if bool_decide (fname = []) || bool_decide (inst_no = 0) then None
  else
    F ← head (filter (fun F => isDeclaration F = false /\ fn_name F = fname) fs);
    zget (instructions F) (inst_no - 1).

(** Picking a candidate by its text: the result and [*is_result_exact]. *)
Fixpoint pick (candidates : list Instr) (target : chars) (fuzzy ignore_dbg : bool) (fuzzy_instr : option Instr)
  : option Instr * bool :=
  match candidates with
  | [] => (fuzzy_instr, false)
  | instr :: rest =>
    let str_instr := trim (print instr) in
    if bool_decide (target = str_instr) then (Some instr, true)
    else pick rest target fuzzy ignore_dbg
           (if fuzzy && fuzzilyMatch str_instr target ignore_dbg then Some instr else fuzzy_instr)
  end.

Definition matchInstr_candidates (candidates : list Instr) (target : chars) (fuzzy ignore_dbg : bool)
  : option Instr * bool := pick candidates target fuzzy ignore_dbg None.

(** [matchInstr] on a module; the flag is only assigned when candidates were
    looked at.  The string argument is trimmed in place. *)
Definition matchInstr (fs : list Function_) (opt : FileLine) (instr_str : chars) (fuzzy ignore_dbg : bool)
  : option (option Instr * bool) :=
  if bool_decide (instr_str = []) then Some (None, false)
  else
    '(found, result) ← matchInstrsCriterion fs opt no_match;
    if (found : bool) then Some (matchInstr_candidates (instrs result) (trim instr_str) fuzzy ignore_dbg)
    else Some (None, false).

End Module_.
Arguments Function_ Instr : clear implicits.
Arguments MatchResult Instr : clear implicits.

(** ** Fuzzy matching ignores register numbers *)

(** A piece without a register inside. *)
Fixpoint plain (c : chars) : bool :=
  match c with
  | [] => true
  | x :: c' => negb (bool_decide (x = "%"%char) && from_option is_num false (head c')) && plain c'
  end.

(** An instruction string: a first piece, then registers, each with its digits and
    the piece that follows. *)
Definition reg_string (c0 : chars) (regs : list (chars * chars)) : chars :=
  c0 ++ concat ((fun r => "%"%char :: r.1 ++ r.2) <$> regs).

Definition no_digit (s : chars) : Prop := from_option is_num false (head s) = false.
Definition reg_ok (r : chars * chars) : Prop :=
  r.1 <> [] /\ Forall (fun d => is_num d = true) r.1 /\ plain r.2 = true /\ no_digit r.2.

#[export] Instance reg_ok_dec r : Decision (reg_ok r).
Proof. unfold reg_ok, no_digit. apply _. Defined.

(** The pieces as they are delivered. *)
Fixpoint delivered (had : bool) (c : chars) (cs : list chars) : list chars :=
  match cs with
  | [] => if had && bool_decide (c = []) then [] else [c]
  | c' :: cs' => c :: delivered true c' cs'
  end.

Lemma tokens_no_digit had cur s : no_digit s -> tokens true had cur s = tokens false had cur s.
Proof. destruct s as [|c s]; [done|]. intros H. cbn in H |- *. by rewrite H. Qed.

Lemma tokens_plain had cur c t :
  plain c = true -> no_digit t -> tokens false had cur (c ++ t) = tokens false had (reverse c ++ cur) t.
Proof.
  revert cur. induction c as [|x c IH]; intros cur Hp Ht; [done|].
  cbn [plain] in Hp. apply andb_true_iff in Hp as [Hx Hp]. cbn [app tokens andb].
  assert (bool_decide (x = "%"%char) && from_option is_num false (head (c ++ t)) = false) as ->.
  { destruct c as [|y c]; [|by apply negb_true_iff]. unfold no_digit in Ht. simpl. rewrite Ht. apply andb_false_r. }
  rewrite IH by done. by rewrite reverse_cons, <- app_assoc.
Qed.

Lemma tokens_digits had ds t :
  Forall (fun d => is_num d = true) ds -> tokens true had [] (ds ++ t) = tokens true had [] t.
Proof. induction 1 as [|d ds Hd Hds IH]; [done|]. cbn [app tokens]. by rewrite Hd. Qed.

Lemma tokens_register had cur (r : chars * chars) t :
  r.1 <> [] -> Forall (fun d => is_num d = true) r.1 -> no_digit t ->
  tokens false had cur ("%"%char :: r.1 ++ t) = reverse cur :: tokens false true [] t.
Proof.
  intros Hne Hd Ht. cbn [tokens andb].
  assert (from_option is_num false (head (r.1 ++ t)) = true) as ->.
  { destruct r.1 as [|d ds]; [done|]. by apply Forall_cons in Hd as [Hd _]. }
  rewrite bool_decide_eq_true_2 by done. cbn [andb]. rewrite tokens_digits by done. by rewrite tokens_no_digit.
Qed.

Lemma regs_no_digit regs : no_digit (concat ((fun r => "%"%char :: r.1 ++ r.2) <$> regs)).
Proof. by destruct regs. Qed.

Lemma tokens_reg_string had c0 regs :
  plain c0 = true -> Forall reg_ok regs ->
  tokens false had [] (reg_string c0 regs) = delivered had c0 regs.*2.
Proof.
  revert had c0. induction regs as [|r regs IH]; intros had c0 Hc Hr; unfold reg_string.
  - rewrite tokens_plain by done. rewrite app_nil_r. cbn [tokens fmap list_fmap concat delivered].
    rewrite reverse_involutive.
    assert (bool_decide (reverse c0 = []) = bool_decide (c0 = [])) as ->; [|done].
    apply bool_decide_ext. split; [|by intros ->]. intros H. apply (f_equal length) in H.
    rewrite length_reverse in H. by destruct c0.
  - apply Forall_cons in Hr as [(Hne & Hd & Hp & Hn) Hr]. rewrite !fmap_cons. cbn [concat delivered].
    rewrite tokens_plain; [|done|by rewrite <- app_comm_cons].
    rewrite <- app_comm_cons, <- app_assoc, app_nil_r.
    rewrite tokens_register; [rewrite reverse_involutive; by rewrite <- (IH true r.2)|done|done|].
    unfold no_digit in *. destruct r.2 as [|x w]; [apply regs_no_digit|done].
Qed.

Lemma same_tokens_refl l : same_tokens l l = true.
Proof. induction l; simpl; [done|]. by rewrite bool_decide_eq_true_2. Qed.

Lemma compared_dbg s x : s <> [] -> clean dbg s -> compared true (s ++ dbg ++ x) = s.
Proof.
  intros Hne Hc. unfold compared, find_str, from. rewrite decide_True by lia. rewrite drop_0.
  rewrite find_sub_clean by done. simpl. rewrite take_app_length. by rewrite bool_decide_eq_false_2.
Qed.

(** Fuzzy matching identifies instructions up to register numbers: two strings
    with the same pieces between registers match whatever the numbers, and with
    debug annotations ignored also whatever follows [!dbg]. *)
Theorem fuzzilyMatch_renumbered c0 regs1 regs2 x y :
  plain c0 = true -> Forall reg_ok regs1 -> Forall reg_ok regs2 -> regs1.*2 = regs2.*2 ->
  fuzzilyMatch (reg_string c0 regs1) (reg_string c0 regs2) false = true /\
  (reg_string c0 regs1 <> [] -> reg_string c0 regs2 <> [] ->
   clean dbg (reg_string c0 regs1) -> clean dbg (reg_string c0 regs2) ->
   fuzzilyMatch (reg_string c0 regs1 ++ dbg ++ x) (reg_string c0 regs2 ++ dbg ++ y) true = true).
Proof.
  intros Hc H1 H2 Heq.
  assert (same_tokens (tokens false false [] (reg_string c0 regs1))
            (tokens false false [] (reg_string c0 regs2)) = true) as Hs.
  { rewrite !tokens_reg_string by done. rewrite Heq. apply same_tokens_refl. }
  split; [exact Hs|]. intros Hn1 Hn2 Hc1 Hc2. unfold fuzzilyMatch. by rewrite !compared_dbg.
Qed.

Lemma fuzzilyMatch_renumbered_witness :
  let r1 := [(lit "38", lit " = load %struct.my_root* "); (lit "7", lit ", align 8, ")] in
  let r2 := [(lit "41", lit " = load %struct.my_root* "); (lit "9", lit ", align 8, ")] in
  r1.*2 = r2.*2 /\
  fuzzilyMatch (reg_string [] r1) (reg_string [] r2) false = true /\
  fuzzilyMatch (reg_string [] r1 ++ dbg ++ lit " !73") (reg_string [] r2 ++ dbg ++ lit " !80") true = true.
Proof.
  intros r1 r2. split; [reflexivity|].
  destruct (fuzzilyMatch_renumbered [] r1 r2 (lit " !73") (lit " !80")) as [H1 H2].
  - reflexivity.
  - by apply (bool_decide_unpack _).
  - by apply (bool_decide_unpack _).
  - reflexivity.
  - split; [exact H1|]. by apply H2.
Defined.

(** ** What fuzzy matching decides *)

(** [b] is [s] up to its first debug annotation, or all of it when there is none or
    nothing in front of it. *)
Definition without_dbg (s b : chars) : Prop :=
  (b <> [] /\ clean dbg b /\ exists x, s = b ++ dbg ++ x) \/
  (b = s /\ forall b' x, s = b' ++ dbg ++ x -> exists x', s = dbg ++ x').

(** [s] is made of a piece and of registers with the pieces behind them. *)
Definition spelled (s c0 : chars) (regs : list (chars * chars)) : Prop :=
  s = reg_string c0 regs /\ plain c0 = true /\ Forall reg_ok regs.

(** Two strings differ in the numbers of registers only, and maybe in a register at the
    very end. *)
Definition same_but_registers (a b : chars) : Prop :=
  exists c1 regs1 c2 regs2, spelled a c1 regs1 /\ spelled b c2 regs2 /\ delivered false c1 regs1.*2 = delivered false c2 regs2.*2.

Lemma compared_without s b : without_dbg s b <-> compared true s = b.
Proof.
  split.
  - intros [(Hne & Hc & x & ->)|[-> Hno]]; [by apply compared_dbg|]. unfold compared, find_str, from.
    rewrite decide_True by lia. rewrite drop_0. destruct (find_sub dbg s) as [[|i]|] eqn:Hf; [done| |done]. cbn [fmap option_fmap option_map Nat.add].
    apply find_sub_Some in Hf as Hs. destruct Hs as (_ & x & Hs). destruct (Hno _ _ Hs) as [x' Hx]. by rewrite Hx in Hf.
  - intros <-. unfold compared, find_str, from. rewrite decide_True by lia. rewrite drop_0.
    destruct (find_sub dbg s) as [i|] eqn:Hf; cbn [fmap option_fmap option_map Nat.add].
    + apply find_sub_Some in Hf as (Hc & x & Hs). case_bool_decide as Hnil; [|by left; eauto]. right. split; [done|].
      intros _ _ _. exists x. by rewrite Hnil in Hs.
    + rewrite bool_decide_eq_true_2 by done. right. split; [done|]. intros b' x ->. by apply find_sub_None in Hf.
Qed.

(** The digits at the front of a piece. *)
Lemma digits_split c :
  plain c = true -> exists ds w, c = ds ++ w /\ Forall (fun d => is_num d = true) ds /\ plain w = true /\ no_digit w.
Proof.
  induction c as [|x c IH]; intros Hp; [by exists [], []|]. cbn [plain] in Hp. destruct (is_num x) eqn:Hx.
  - apply andb_true_iff in Hp as [_ Hp]. destruct (IH Hp) as (ds & w & -> & Hd & Hw). exists (x :: ds), w. split; [done|].
    split; [by constructor|done].
  - by exists [], (x :: c).
Qed.

Lemma spelling s : exists c0 regs, spelled s c0 regs.
Proof.
  induction s as [|x s (c0 & regs & -> & Hc & Hr)]; [by exists [], []|].
  destruct (bool_decide (x = "%"%char) && from_option is_num false (head c0)) eqn:Hx.
  - apply andb_true_iff in Hx as [->%bool_decide_eq_true Hd]. destruct (digits_split c0 Hc) as (ds & w & -> & Hds & Hw & Hn).
    exists [], ((ds, w) :: regs). split; [by unfold reg_string; cbn; rewrite <- !app_assoc|]. split; [done|]. constructor; [|done].
    split; [|done]. intros E. cbn [fst] in E. subst ds. cbn [app] in Hd. unfold no_digit in Hn. congruence.
  - exists (x :: c0), regs. split; [done|]. split; [|done]. cbn [plain]. by rewrite Hx.
Qed.

Lemma same_tokens_eq l1 l2 : same_tokens l1 l2 = true <-> l1 = l2.
Proof.
  split; [|intros ->; apply same_tokens_refl]. revert l2. induction l1 as [|a l1 IH]; intros [|b l2]; simpl; [done..|].
  case_bool_decide; [|done]. intros ?%IH. congruence.
Qed.

Lemma fuzzilyMatch_iff s1 s2 :
  fuzzilyMatch s1 s2 true = true <-> exists a b, without_dbg s1 a /\ without_dbg s2 b /\ same_but_registers a b.
Proof.
  unfold fuzzilyMatch. rewrite same_tokens_eq. split.
  - intros Heq. eexists _, _. split; [by apply compared_without|]. split; [by apply compared_without|].
    destruct (spelling (compared true s1)) as (c1 & r1 & H1), (spelling (compared true s2)) as (c2 & r2 & H2).
    exists c1, r1, c2, r2. split; [done|]. split; [done|]. destruct H1 as (E1 & ? & ?), H2 as (E2 & ? & ?).
    rewrite E1, E2, !tokens_reg_string in Heq by done. exact Heq.
  - intros (a & b & ->%compared_without & ->%compared_without & c1 & r1 & c2 & r2 & (-> & ? & ?) & (-> & ? & ?) & Heq).
    by rewrite !tokens_reg_string.
Qed.

(** ** Picking an instruction *)
Section Pick.
Context {Instr : Type} (debug_line : Instr -> option Z) (print : Instr -> chars).

Lemma last_cons_default {A} (l : list A) x : last (x :: l) = Some (default x (last l)).
Proof. rewrite last_cons. by destruct (last l). Qed.

Lemma pick_fuzzy cands target fuzzy ign acc :
  Forall (fun i => trim (print i) <> target) cands ->
  pick print cands target fuzzy ign acc =
    (if fuzzy then match last (filter (fun i => fuzzilyMatch (trim (print i)) target ign = true) cands) with
                   | Some i => Some i | None => acc end else acc, false).
Proof.
  revert acc. induction cands as [|i cands IH]; intros acc Hall; [by destruct fuzzy|].
  apply Forall_cons in Hall as [Hi Hall]. cbn [pick]. rewrite bool_decide_eq_false_2 by congruence.
  rewrite IH by done. f_equal. destruct fuzzy; [|done]. cbn [andb]. rewrite filter_cons.
  destruct (fuzzilyMatch (trim (print i)) target ign) eqn:Hf.
  - rewrite decide_True by done. rewrite last_cons_default.
    by destruct (last (filter _ cands)).
  - by rewrite decide_False.
Qed.

Lemma pick_exact l1 i l2 target fuzzy ign acc :
  Forall (fun i => trim (print i) <> target) l1 -> trim (print i) = target ->
  pick print (l1 ++ i :: l2) target fuzzy ign acc = (Some i, true).
Proof.
  revert acc. induction l1 as [|j l1 IH]; intros acc Hall Hi; cbn [app pick].
  - by rewrite bool_decide_eq_true_2.
  - apply Forall_cons in Hall as [Hj Hall]. rewrite bool_decide_eq_false_2 by congruence. by apply IH.
Qed.

(** An exact match is preferred: the first candidate whose trimmed text is the
    target is returned as exact, and only when there is none a fuzzy match is
    returned, the last one among the candidates, if fuzzy matching is on. *)
Theorem matchInstr_prefers_exact cands target fuzzy ign :
  match list_find (fun i => trim (print i) = target) cands with
  | Some (_, i) => matchInstr_candidates print cands target fuzzy ign = (Some i, true)
  | None => matchInstr_candidates print cands target fuzzy ign =
      (if fuzzy then last (filter (fun i => fuzzilyMatch (trim (print i)) target ign = true) cands) else None, false)
  end.
Proof.
  unfold matchInstr_candidates. destruct (list_find _ cands) as [[n i]|] eqn:Hf.
  - apply list_find_Some in Hf as (Hn & Hi & Hall).
    rewrite <- (take_drop_middle _ _ _ Hn). apply pick_exact; [|done].
    apply Forall_forall. intros j Hj. apply list_elem_of_lookup in Hj as [k Hk].
    apply lookup_take_Some in Hk as [Hk Hlt]. by apply (Hall k).
  - apply list_find_None in Hf. rewrite pick_fuzzy by done. destruct fuzzy; [|done]. by destruct (last _).
Qed.

(** ** Matching a line *)

Lemma matchInstrsInFunction_ok line F acc :
  matchInstrsInFunction debug_line line F acc =
    (bool_decide (at_line debug_line line F <> []), acc ++ at_line debug_line line F).
Proof.
  unfold matchInstrsInFunction, at_line.
  assert (forall b r, foldl (fun '(m, r) I => if decide (getInstLine debug_line I = line) then (true, r ++ [I])
                                           else (m, r)) (b, r) (instructions F) =
    (b || bool_decide (filter (fun I => getInstLine debug_line I = line) (instructions F) <> []),
     r ++ filter (fun I => getInstLine debug_line I = line) (instructions F))) as H; [|by rewrite H].
  induction (instructions F) as [|I l IH]; intros b r; cbn [foldl].
  - rewrite app_nil_r, orb_false_r. done.
  - rewrite filter_cons. case_decide as Hd; rewrite IH; [|done].
    rewrite <- app_assoc. by rewrite orb_true_r.
Qed.

(** A function the matcher considers for a criterion. *)
Definition considered (criterion : FileLine) (F : Function_ Instr) (SP : DISubprogram) : Prop :=
  skipFunction F = false /\ getSubprogram F = Some SP /\ spMatchFilename SP (file criterion) = Some true.

(** The line lies in it: it has instructions there or its range contains it. *)
Definition hits (criterion : FileLine) (F : Function_ Instr) (SP : DISubprogram) : Prop :=
  at_line debug_line (fl_line criterion) F <> [] \/
  exists e, getLastLine debug_line F = Some e /\ sp_line SP <= fl_line criterion <= e.

Definition missed (criterion : FileLine) (F : Function_ Instr) : Prop :=
  forall SP, considered criterion F SP -> ~ hits criterion F SP.

(** What the matcher may answer for a criterion: the first function of the right
    file in which the line lies, with all its instructions of that line, or none. *)
Definition outcome (criterion : FileLine) (fs : list (Function_ Instr)) (found : bool) (r : MatchResult Instr) : Prop :=
  if found then exists before F SP after, fs = before ++ F :: after /\ Forall (missed criterion) before /\
    considered criterion F SP /\ hits criterion F SP /\
    r = MkResult (bool_decide (at_line debug_line (fl_line criterion) F <> []))
          (at_line debug_line (fl_line criterion) F) (Some F)
  else Forall (missed criterion) fs /\ r = no_match.

Lemma outcome_skip criterion F fs found r :
  missed criterion F -> outcome criterion fs found r -> outcome criterion (F :: fs) found r.
Proof.
  intros Hm. destruct found; cbn [outcome].
  - intros (before & F0 & SP & after & -> & Hb & Hrest).
    exists (F :: before), F0, SP, after. split; [done|]. split; [by constructor|done].
  - intros [IH ->]. split; [by constructor|done].
Qed.

Lemma outcome_here criterion F SP fs b l :
  considered criterion F SP -> hits criterion F SP ->
  b = bool_decide (at_line debug_line (fl_line criterion) F <> []) ->
  l = at_line debug_line (fl_line criterion) F -> outcome criterion (F :: fs) true (MkResult b l (Some F)).
Proof. intros Hc Hh -> ->. exists [], F, SP, fs. split; [done|]. by split; [constructor|]. Qed.

(** [matchInstrsCriterion] stops at the first function of the right file in
    which the line lies, and its result is all instructions of that line in that
    function, in order (none when the line only falls into its range); it fails
    when no function of the file has the line. *)
Theorem matchInstrsCriterion_first fs criterion found r :
  matchInstrsCriterion debug_line fs criterion no_match = Some (found, r) ->
  outcome criterion fs found r.
Proof.
  induction fs as [|F fs IH]; intros H; cbn [matchInstrsCriterion] in H; [by injection H as <- <-|].
  destruct (skipFunction F) eqn:Hsk; [apply outcome_skip; [intros SP (? & _); congruence|by apply IH]|].
  destruct (getSubprogram F) as [SP|] eqn:Hsp;
    [|apply outcome_skip; [intros SP (_ & ? & _); congruence|by apply IH]].
  apply bind_Some in H as (same & Hsame & H). destruct same;
    [|apply outcome_skip; [intros SP' (_ & Hsp' & Hs'); congruence|by apply IH]].
  apply bind_Some in H as (e & He & H). rewrite matchInstrsInFunction_ok in H. cbn [instrs no_match] in H.
  assert (considered criterion F SP) as Hcons by done.
  case_bool_decide as Hat; cbn [app] in H.
  - injection H as <- <-. apply (outcome_here _ _ SP); [done|by left| |done]. by rewrite bool_decide_eq_true_2.
  - rewrite Hat in H. case_decide as Hrange.
    + rewrite matchInstrsInFunction_ok, Hat in H. injection H as <- <-.
      apply (outcome_here _ _ SP); [done| |by rewrite Hat|by rewrite Hat]. right. exists e. split; [done|]. lia.
    + apply outcome_skip; [|by apply IH]. intros SP' (_ & Hsp' & _) [Hh|(e' & He' & Hr)]; [done|].
      rewrite Hsp in Hsp'. injection Hsp' as <-. rewrite He in He'. injection He' as <-. lia.
Qed.

(** ** What a description is resolved to *)

(** The text of an instruction is that of a description up to register numbers and what
    follows the debug annotation. *)
Definition alike (text : chars) (j : Instr) : Prop :=
  exists a b, without_dbg (trim (print j)) a /\ without_dbg (trim text) b /\ same_but_registers a b.

(** [j] is what a location and a text may stand for: an instruction of that line of the
    first function that matches, with that text. *)
Definition look_alike (fs : list (Function_ Instr)) (c : FileLine) (text : chars) (j : Instr) : Prop :=
  exists before F SP after, fs = before ++ F :: after /\ Forall (missed c) before /\ considered c F SP /\
    j ∈ at_line debug_line (fl_line c) F /\ alike text j.

(** A function that the matcher passes over, with defined behaviour. *)
Definition passed_over (c : FileLine) (F : Function_ Instr) : Prop :=
  skipFunction F = true \/ getSubprogram F = None \/
  exists SP, getSubprogram F = Some SP /\
    (spMatchFilename SP (file c) = Some false \/
     (spMatchFilename SP (file c) = Some true /\ at_line debug_line (fl_line c) F = [] /\
      exists e, getLastLine debug_line F = Some e /\ ~ (sp_line SP <= fl_line c <= e))).

(** The debug information leads from the location to [i]: the functions before its own
    are passed over, and its own has the file and has it on that line. *)
Definition locatable (fs : list (Function_ Instr)) (c : FileLine) (i : Instr) : Prop :=
  exists before F SP after, fs = before ++ F :: after /\ Forall (passed_over c) before /\ considered c F SP /\
    is_Some (getLastLine debug_line F) /\ i ∈ at_line debug_line (fl_line c) F.

Lemma passed_missed c F : passed_over c F -> missed c F.
Proof.
  intros Hp SP (Hsk & Hsp & Hf) Hh. destruct Hp as [?|[?|(SP' & Hsp' & [?|(_ & Hat & e & He & Hr)])]]; [congruence..|].
  rewrite Hsp in Hsp'. injection Hsp' as <-. destruct Hh as [?|(e' & He' & ?)]; [done|]. rewrite He in He'. by injection He' as <-.
Qed.

Lemma locatable_matched fs c i :
  locatable fs c i -> exists before F SP after, fs = before ++ F :: after /\ Forall (missed c) before /\ considered c F SP /\
    i ∈ at_line debug_line (fl_line c) F /\
    matchInstrsCriterion debug_line fs c no_match = Some (true, MkResult true (at_line debug_line (fl_line c) F) (Some F)).
Proof.
  intros (before & F & SP & after & -> & Hb & Hc & [e He] & Hi). exists before, F, SP, after. split; [done|].
  split; [eapply Forall_impl; [exact Hb|apply passed_missed]|]. split; [done|]. split; [done|].
  induction Hb as [|G before HG Hb IH]; cbn [app matchInstrsCriterion].
  - destruct Hc as (-> & -> & ->). simpl_bind. rewrite He. simpl_bind. rewrite matchInstrsInFunction_ok.
    rewrite bool_decide_eq_true_2; [done|]. intros Hnil. rewrite Hnil in Hi. by apply elem_of_nil in Hi.
  - destruct HG as [->|[Hsp|(SP' & Hsp & HG)]]; [done|rewrite Hsp; by destruct (skipFunction G)|].
    rewrite Hsp. destruct (skipFunction G); [done|]. destruct HG as [->|(-> & Hat & e' & -> & Hr)]; [exact IH|]. simpl_bind.
    rewrite matchInstrsInFunction_ok, Hat, bool_decide_eq_false_2 by tauto. cbn [app instrs func no_match].
    rewrite decide_False by lia. exact IH.
Qed.

Lemma fuzzilyMatch_refl s b : fuzzilyMatch s s b = true.
Proof. apply same_tokens_refl. Qed.

(** The candidate that is picked is alike, and one is picked if there is one. *)
Lemma pick_alike cands text :
  (forall j ex, matchInstr_candidates print cands (trim text) true true = (Some j, ex) -> j ∈ cands /\ alike text j) /\
  (forall i, i ∈ cands -> alike text i -> is_Some (matchInstr_candidates print cands (trim text) true true).1).
Proof.
  pose proof (matchInstr_prefers_exact cands (trim text) true true) as Hp. destruct (list_find _ cands) as [[n i]|] eqn:Hf.
  - apply list_find_Some in Hf as (Hn & Hi & _). rewrite Hp. split; [|by eexists]. intros j ex [= <- _].
    split; [by eapply list_elem_of_lookup_2|]. apply fuzzilyMatch_iff. rewrite Hi. apply fuzzilyMatch_refl.
  - rewrite Hp. split.
    + intros j ex [= Hl _]. apply last_Some_elem_of, list_elem_of_filter in Hl as [? ?]. split; [done|]. by apply fuzzilyMatch_iff.
    + intros i Hi Ha%fuzzilyMatch_iff. cbn. apply last_is_Some. intros Hnil.
      assert (i ∈ filter (fun i => fuzzilyMatch (trim (print i)) (trim text) true = true) cands) as Hin by (by apply list_elem_of_filter).
      rewrite Hnil in Hin. by apply elem_of_nil in Hin.
Qed.

(** What [matchInstr] answers looks like what was asked for. *)
Lemma matchInstr_sound fs c text j ex :
  matchInstr debug_line print fs c text true true = Some (Some j, ex) -> look_alike fs c text j.
Proof.
  unfold matchInstr. case_bool_decide; [done|]. intros ([found r] & Hr & Hm)%bind_Some. destruct found; [|done].
  apply matchInstrsCriterion_first in Hr as (before & F & SP & after & -> & Hb & Hc & _ & ->). cbn [instrs] in Hm.
  injection Hm as Hm. destruct (pick_alike (at_line debug_line (fl_line c) F) text) as [Hs _]. destruct (Hs j ex Hm) as [Hj Ha].
  by exists before, F, SP, after.
Qed.

(** It finds an instruction whose debug information and text are right. *)
Lemma matchInstr_finds fs c text i :
  text <> [] -> locatable fs c i -> alike text i ->
  exists j ex, matchInstr debug_line print fs c text true true = Some (Some j, ex).
Proof.
  intros Hne Hl Ha. destruct (locatable_matched _ _ _ Hl) as (before & F & SP & after & _ & _ & _ & Hi & Hm).
  unfold matchInstr. rewrite bool_decide_eq_false_2 by done. rewrite Hm. cbn [mbind option_bind instrs].
  destruct (pick_alike (at_line debug_line (fl_line c) F) text) as [_ Hc]. destruct (Hc i Hi Ha) as [j Hj].
  destruct (matchInstr_candidates _ _ _ _ _) as [r ex]. cbn in Hj. subst r. by exists j, ex.
Qed.

(** The matcher as the address trace sees it. *)
#[export] Instance module_matcher (fs : list (Function_ Instr)) : AddrTrace.Matcher Instr := {
  processed := true;
  matchInstr := fun f l s =>
    match matchInstr debug_line print fs (MkFileLine f l) s true true with
    | Some (Some i, exact) => Some (i, exact)
    | _ => None
    end
}.

End Pick.

(** A module with one function, instructions as lines with texts. *)
Definition ex_function : Function_ (Z * string) :=
  MkFunction (lit "main") false (Some (MkSubprogram (lit "/src") (lit "a/list.c") 10 (lit "main") []))
    [[(11, "%1 = alloca i32"%string); (12, "store i32 0, i32* %1"%string)]; [(14, "ret void"%string)]].

Lemma matchInstrsCriterion_first_witness :
  exists r, matchInstrsCriterion (fun i => Some i.1) [ex_function] (MkFileLine (lit "list.c") 12) no_match = Some (true, r) /\
  outcome (fun i => Some i.1) (MkFileLine (lit "list.c") 12) [ex_function] true r.
Proof.
  eexists. split; [vm_compute; reflexivity|]. apply matchInstrsCriterion_first. vm_compute. reflexivity.
Defined.

End Matcher.
