(* ===== verification/Slice.v ===== *)
(** * Slices (analyzer/include/Slicing/Slice.h, analyzer/lib/Slicing/Slice.cpp)

    A slice is a list of instructions that starts with its root; the driver of the
    reactor walks slices in order and reverts what their instructions wrote.
    Instructions are LLVM's: elements of a type with decidable equality.  Slices are
    allocated with [new] and shared by pointer; a pointer is an index into the list
    of allocated slices (the store). *)
From stdpp Require Import base list gmap sorting.
From S2P Require Import Prelude.

Module Slice.

Inductive SlicePersistence := NA | Persistent | Volatile | Mixed.
Inductive SliceDirection := Backward | Forward | Full.
Inductive SliceDependence :=
  Unknown | RegisterDefUse | MemoryDependence | ControlDependence | InterfereDependence.

#[export] Instance SlicePersistence_dec : EqDecision SlicePersistence.
Proof. solve_decision. Defined.
#[export] Instance SliceDirection_dec : EqDecision SliceDirection.
Proof. solve_decision. Defined.
#[export] Instance SliceDependence_dec : EqDecision SliceDependence.
Proof. solve_decision. Defined.

(** ** The comparators

    [SliceValueComparator] and [SliceEdgeComparator] are the same function of two
    distances. *)
Definition distance_less (dist1 dist2 : Z) : bool :=
  if decide (dist1 = 0 /\ dist2 = 0) then false
  else if decide (dist1 < 0) then
    if decide (dist2 > 0) then true else bool_decide (- dist1 < - dist2)
  else
    if decide (dist2 < 0) then false else bool_decide (dist1 < dist2).

Section Values.
Context {Instr : Type} `{Countable Instr}.

Record Slice := MkSlice {
  id : Z;
  root : Instr;
  direction : SliceDirection;
  persistence : SlicePersistence;
  dependence : SliceDependence;
  dep_vals : list (Instr * Z)
}.

(** The constructor: the root depends on itself. *)
Definition new_slice (slice_id : Z) (root_val : Instr) (dir : SliceDirection) (kind : SlicePersistence)
    (dep : SliceDependence) : Slice :=
  MkSlice slice_id root_val dir kind dep [(root_val, 0)].

Definition add (inst : Instr) (s : Slice) : Slice :=
  MkSlice (id s) (root s) (direction s) (persistence s) (dependence s) (dep_vals s ++ [(inst, 0)]).

Definition set_id (i : Z) (s : Slice) : Slice :=
  MkSlice i (root s) (direction s) (persistence s) (dependence s) (dep_vals s).
Definition set_dependence (d : SliceDependence) (s : Slice) : Slice :=
  MkSlice (id s) (root s) (direction s) (persistence s) d (dep_vals s).
Definition set_persistence (p : SlicePersistence) (s : Slice) : Slice :=
  MkSlice (id s) (root s) (direction s) p (dependence s) (dep_vals s).
Definition set_values (l : list (Instr * Z)) (s : Slice) : Slice :=
  MkSlice (id s) (root s) (direction s) (persistence s) (dependence s) l.

(** The copy adds every value that is not the root again; distances are lost. *)
Definition fork (s : Slice) : Slice :=
  foldl (fun copy val => if decide (val.1 = root s) then copy else add val.1 copy)
    (new_slice (id s) (root s) (direction s) (persistence s) (dependence s)) (dep_vals s).

(** The global counters of [setPersistence]. *)
Record counters := MkCounters { volatile_count : Z; persistent_count : Z; mixed_count : Z }.

(** The loop sets two flags. *)
Definition persistence_flags (s : Slice) (persist_vars : gset Instr) : bool * bool :=
  foldl (fun '(vol, persistent) val => if decide (val.1 ∈ persist_vars) then (vol, true) else (true, persistent))
    (false, false) (dep_vals s).

Definition setPersistence (persist_vars : gset Instr) (c : counters) (s : Slice) : counters * Slice :=
  match persistence_flags s persist_vars with
  | (true, true) => (MkCounters (volatile_count c) (persistent_count c) (s32 (mixed_count c + 1)), set_persistence Mixed s)
  | (true, false) => (MkCounters (s32 (volatile_count c + 1)) (persistent_count c) (mixed_count c), set_persistence Volatile s)
  | (false, true) => (MkCounters (volatile_count c) (s32 (persistent_count c + 1)) (mixed_count c), set_persistence Persistent s)
  | (false, false) => (c, s)
  end.

(** [std::sort] is a parameter. *)
Definition sort (std_sort : ((Instr * Z) -> (Instr * Z) -> bool) -> list (Instr * Z) -> list (Instr * Z)) (s : Slice) : Slice :=
  set_values (std_sort (fun v1 v2 => distance_less v1.2 v2.2) (dep_vals s)) s.

End Values.
Arguments Slice Instr : clear implicits.

(** The list of slices in the order they were added, and the map by id. *)
Record Slices := MkSlices { slices : list nat; sliceMap : gmap Z nat }.
Definition no_slices : Slices := MkSlices [] ∅.

Definition get (sl : Slices) (slice_id : Z) : option nat := sliceMap sl !! slice_id.
Definition has (sl : Slices) (slice_id : Z) : bool := bool_decide (is_Some (sliceMap sl !! slice_id)).

(** [insert] does not replace an entry; the list grows in any case. *)
Definition add_slice (sl : Slices) (slice_id : Z) (slice : nat) : Slices :=
  MkSlices (slices sl ++ [slice])
    (match sliceMap sl !! slice_id with Some _ => sliceMap sl | None => <[slice_id := slice]> (sliceMap sl) end).

(** ** The order of distances *)

(** Strict weak orderings, which [std::sort] requires of its comparator, on the
    elements of a list. *)
Record strict_weak {A} (less : A -> A -> bool) (P : A -> Prop) : Prop := MkStrictWeak {
  sw_irrefl x : P x -> less x x = false;
  sw_trans x y z : P x -> P y -> P z -> less x y = true -> less y z = true -> less x z = true;
  sw_incomp x y z : P x -> P y -> P z ->
    less x y = false -> less y x = false -> less y z = false -> less z y = false ->
    less x z = false /\ less z x = false
}.

(** What [std::sort] promises under this condition. *)
Definition sorts {A} (std_sort : (A -> A -> bool) -> list A -> list A) : Prop :=
  forall less l, strict_weak less (.∈ l) ->
    std_sort less l ≡ₚ l /\ StronglySorted (fun x y => less y x = false) (std_sort less l).

(** A distance that is not zero: first those behind by closeness, then those ahead. *)
Definition ordered (d1 d2 : Z) : Prop :=
  (d1 < 0 /\ 0 < d2) \/ (d1 < 0 /\ d2 < 0 /\ d2 < d1) \/ (0 < d1 /\ d1 < d2).

Lemma distance_less_ordered d1 d2 : d1 <> 0 -> d2 <> 0 -> distance_less d1 d2 = true <-> ordered d1 d2.
Proof.
  intros H1 H2. unfold distance_less, ordered. rewrite decide_False by lia.
  repeat case_decide; rewrite ?bool_decide_eq_true; try done; lia.
Qed.

Lemma distance_less_weak {A} (d : A -> Z) (P : A -> Prop) :
  (forall x, P x -> d x <> 0) -> strict_weak (fun x y => distance_less (d x) (d y)) P.
Proof.
  intros Hnz.
  assert (forall x y, P x -> P y -> distance_less (d x) (d y) = false <-> ~ ordered (d x) (d y)) as Hf.
  { intros x y Hx Hy. rewrite <- distance_less_ordered by auto. by destruct (distance_less _ _). }
  constructor.
  - intros x Hx. rewrite Hf by done. unfold ordered. lia.
  - intros x y z Hx Hy Hz. rewrite !distance_less_ordered by auto. unfold ordered. lia.
  - intros x y z Hx Hy Hz. rewrite !Hf by done. unfold ordered.
    pose proof (Hnz x Hx). pose proof (Hnz y Hy). pose proof (Hnz z Hz). lia.
Qed.

(** Without zero the comparators are strict weak orderings (negative
    distances by closeness, then positive ones); the order a comment gives,
    0, -1, -2, -3, -4, 1, 2, 3, is not theirs: 0 is equivalent to every negative
    distance although these differ, which [std::sort] does not admit. *)
Lemma distance_less_not_weak : ~ strict_weak distance_less (fun _ => True).
Proof.
  intros [_ _ Hinc]. specialize (Hinc (-1) 0 (-2) I I I). vm_compute in Hinc.
  destruct Hinc as [H' _]; try done.
Qed.

(** ** Persistence *)
Section Persistence.
Context {Instr : Type} `{Countable Instr}.
Implicit Types (s : Slice Instr) (pv : gset Instr).

Definition kind_of pv s : SlicePersistence :=
  if bool_decide (Exists (fun v => v.1 ∈ pv) (dep_vals s)) then
    if bool_decide (Exists (fun v => v.1 ∉ pv) (dep_vals s)) then Mixed else Persistent
  else if bool_decide (Exists (fun v => v.1 ∉ pv) (dep_vals s)) then Volatile else persistence s.

Lemma persistence_flags_ok pv s :
  persistence_flags s pv =
    (bool_decide (Exists (fun v => v.1 ∉ pv) (dep_vals s)), bool_decide (Exists (fun v => v.1 ∈ pv) (dep_vals s))).
Proof.
  unfold persistence_flags.
  enough (forall b1 b2, foldl (fun '(vol, persistent) val =>
      if decide (val.1 ∈ pv) then (vol, true) else (true, persistent)) (b1, b2) (dep_vals s) =
    (b1 || bool_decide (Exists (fun v => v.1 ∉ pv) (dep_vals s)),
     b2 || bool_decide (Exists (fun v => v.1 ∈ pv) (dep_vals s)))) as E by apply E.
  induction (dep_vals s) as [|v l IH]; intros b1 b2; cbn [foldl].
  - rewrite !(bool_decide_eq_false_2 (Exists _ [])) by (by intros ?%Exists_nil). by rewrite !orb_false_r.
  - case_decide as Hv; rewrite IH; f_equal; destruct b1, b2; simpl; try done;
      symmetry; first [apply bool_decide_eq_true_2; by left | apply bool_decide_ext; rewrite Exists_cons; naive_solver].
Qed.

Lemma setPersistence_kind pv c s : (setPersistence pv c s).2 = set_persistence (kind_of pv s) s.
Proof.
  unfold setPersistence, kind_of. rewrite persistence_flags_ok.
  repeat case_bool_decide; try done. by destruct s.
Qed.

(** Classifying all slices, as the drivers do. *)
Fixpoint set_all pv c ss : counters * list (Slice Instr) :=
  match ss with
  | [] => (c, [])
  | s :: ss' => let '(c1, s1) := setPersistence pv c s in let '(c2, ss2) := set_all pv c1 ss' in (c2, s1 :: ss2)
  end.

Lemma set_all_values pv c ss : (set_all pv c ss).2 = (fun s => set_persistence (kind_of pv s) s) <$> ss.
Proof.
  revert c. induction ss as [|s ss IH]; intros c; cbn [set_all]; [done|].
  pose proof (setPersistence_kind pv c s) as Hk. destruct (setPersistence pv c s) as [c1 s1]. cbn [snd] in Hk.
  specialize (IH c1). destruct (set_all pv c1 ss) as [c2 ss2]. cbn [snd] in IH |- *. by rewrite Hk, IH.
Qed.

Lemma kind_of_Volatile pv s : dep_vals s <> [] -> kind_of pv s = Volatile <-> Forall (fun v => v.1 ∉ pv) (dep_vals s).
Proof.
  intros Hne. unfold kind_of. case_bool_decide as H1.
  - split; [case_bool_decide; done|]. intros HF. apply Exists_exists in H1 as (v & Hv & Hin).
    rewrite Forall_forall in HF. by destruct (HF v Hv).
  - apply not_Exists_Forall in H1; [|intros v; apply _]. case_bool_decide as H2; [done|].
    destruct (dep_vals s) as [|v l]; [done|]. destruct H2. left. by apply Forall_cons in H1 as [? _].
Qed.

Lemma kind_of_Persistent pv s : dep_vals s <> [] -> kind_of pv s = Persistent <-> Forall (fun v => v.1 ∈ pv) (dep_vals s).
Proof.
  intros Hne. unfold kind_of. case_bool_decide as H1.
  - case_bool_decide as H2.
    + split; [done|]. intros HF. apply Exists_exists in H2 as (v & Hv & Hin). rewrite Forall_forall in HF. by destruct Hin; apply HF.
    + apply not_Exists_Forall in H2; [|intros v; apply _]. split; [|done]. intros _.
      eapply Forall_impl; [exact H2|]. intros v Hv. cbn in Hv. by apply dec_stable in Hv.
  - apply not_Exists_Forall in H1; [|intros v; apply _]. destruct (dep_vals s) as [|v l]; [done|].
    apply Forall_cons in H1 as [H1 _]. split.
    + case_bool_decide as H2; [done|]. destruct H2. by left.
    + intros HF. by apply Forall_cons in HF as [? _].
Qed.

Definition count (k : SlicePersistence) (ss : list (Slice Instr)) : Z :=
  Z.of_nat (length (filter (fun s => persistence s = k) ss)).

Definition in_range (c : counters) (n : Z) : Prop :=
  0 <= volatile_count c /\ 0 <= persistent_count c /\ 0 <= mixed_count c /\
  volatile_count c + n < 2 ^ 31 /\ persistent_count c + n < 2 ^ 31 /\ mixed_count c + n < 2 ^ 31.

Lemma count_cons k s ss : count k (s :: ss) = (if decide (persistence s = k) then 1 else 0) + count k ss.
Proof. unfold count. rewrite filter_cons. case_decide; cbn [length]; lia. Qed.

(** A slice is classified by its values (the root included, so that every
    slice gets a class): persistent when all of them are persistent variables,
    volatile when none is, else mixed; and the counters grow by the number of
    slices of each class. *)
Theorem set_all_classifies pv c ss :
  Forall (fun s => dep_vals s <> []) ss -> in_range c (Z.of_nat (length ss)) ->
  let '(c', ss') := set_all pv c ss in
  ss' = (fun s => set_persistence (kind_of pv s) s) <$> ss /\
  Forall (fun s => persistence s <> NA) ss' /\
  volatile_count c' = volatile_count c + count Volatile ss' /\
  persistent_count c' = persistent_count c + count Persistent ss' /\
  mixed_count c' = mixed_count c + count Mixed ss'.
Proof.
  revert c. induction ss as [|s ss IH]; intros c Hne Hr; cbn [set_all].
  { unfold count. simpl. split; [done|]. split; [constructor|]. lia. }
  apply Forall_cons in Hne as [Hs Hne].
  destruct (setPersistence pv c s) as [c1 s1] eqn:E.
  pose proof (setPersistence_kind pv c s) as Hk. rewrite E in Hk. cbn [snd] in Hk.
  unfold in_range in Hr. cbn [length] in Hr.
  assert (in_range c1 (Z.of_nat (length ss)) /\ persistence s1 <> NA /\
    volatile_count c1 = volatile_count c + (if decide (persistence s1 = Volatile) then 1 else 0) /\
    persistent_count c1 = persistent_count c + (if decide (persistence s1 = Persistent) then 1 else 0) /\
    mixed_count c1 = mixed_count c + (if decide (persistence s1 = Mixed) then 1 else 0)) as (Hr1 & Hna & Hv & Hp & Hm).
  { unfold setPersistence in E. rewrite persistence_flags_ok in E. unfold in_range.
    destruct (dep_vals s) as [|v l] eqn:Hd; [done|].
    assert (~ (~ Exists (fun v => v.1 ∉ pv) (v :: l) /\ ~ Exists (fun v => v.1 ∈ pv) (v :: l))) as Hone.
    { rewrite !Exists_cons. destruct (decide (v.1 ∈ pv)); tauto. }
    repeat case_bool_decide; try (by destruct Hone); injection E as <- <-;
      cbn [persistence set_persistence volatile_count persistent_count mixed_count] in *; rewrite s32_small by lia;
      repeat case_decide; try done; split_and!; try done; lia. }
  specialize (IH c1 Hne Hr1). destruct (set_all pv c1 ss) as [c2 ss2].
  destruct IH as (-> & HF & ? & ? & ?). rewrite !count_cons. split; [by rewrite Hk|].
  split; [by constructor|]. lia.
Qed.

End Persistence.

Lemma set_all_classifies_witness :
  let pv : gset Z := {[ 1; 2 ]} in
  let ss := [new_slice 1 1 Backward NA Unknown; add 3 (new_slice 2 1 Backward NA Unknown); new_slice 3 4 Backward NA Unknown] in
  let c' := (set_all pv (MkCounters 0 0 0) ss).1 in
  in_range (MkCounters 0 0 0) 3 /\ volatile_count c' = 0 + count Volatile (set_all pv (MkCounters 0 0 0) ss).2.
Proof.
  intros pv ss c'. split; [unfold in_range; simpl; lia|].
  pose proof (set_all_classifies pv (MkCounters 0 0 0) ss) as W. subst c'.
  destruct (set_all pv (MkCounters 0 0 0) ss) as [c2 ss2]. apply W.
  - by repeat constructor.
  - unfold in_range; simpl; lia.
Defined.

End Slice.
