(* ===== verification/SliceGraph.v ===== *)
(** * Slice graphs (analyzer/{include,lib}/Slicing/SliceGraph)

    The graph of the instructions a fault instruction depends on.  Nodes and edges
    are allocated with [new] and shared by pointer: a pointer is a number, and the
    heap maps it to the object until it is deleted.  [None] is undefined behaviour,
    the use of a deleted object.  The function an instruction belongs to and its
    list of instructions are LLVM's. *)
From stdpp Require Import base list gmap relations sorting.
From S2P Require Import Prelude Slice.
Import Slice.

Module SliceGraph.

Record SliceEdge := MkEdge {
  target_node : nat;
  kind : SliceDependence;
  distance : Z
}.

Inductive NodeKind := SingleInstruction | MultiInstruction.

Section Graph.
Context {Instr Fn : Type} `{Countable Instr} `{Countable Fn}.
Context (getFunction : Instr -> Fn) (insts : Fn -> list Instr).

Record SliceNode := MkNode {
  edges : list nat;
  value : Instr;
  depth : Z;
  node_kind : NodeKind;
  valueList : list Instr
}.

Record SliceGraph := MkGraph {
  hnode : gmap nat SliceNode;
  hedge : gmap nat SliceEdge;
  fresh : nat;
  nodes : list nat;
  gedges : list nat;
  groot : nat;
  gdirection : SliceDirection;
  node_map : gmap Instr nat;
  slice_id : Z
}.

(** Updates of single fields. *)
Definition set_hnode (m : gmap nat SliceNode) (g : SliceGraph) : SliceGraph :=
  MkGraph m (hedge g) (fresh g) (nodes g) (gedges g) (groot g) (gdirection g) (node_map g) (slice_id g).
Definition set_hedge (m : gmap nat SliceEdge) (g : SliceGraph) : SliceGraph :=
  MkGraph (hnode g) m (fresh g) (nodes g) (gedges g) (groot g) (gdirection g) (node_map g) (slice_id g).
Definition set_fresh (n : nat) (g : SliceGraph) : SliceGraph :=
  MkGraph (hnode g) (hedge g) n (nodes g) (gedges g) (groot g) (gdirection g) (node_map g) (slice_id g).
Definition set_nodes (l : list nat) (g : SliceGraph) : SliceGraph :=
  MkGraph (hnode g) (hedge g) (fresh g) l (gedges g) (groot g) (gdirection g) (node_map g) (slice_id g).
Definition set_gedges (l : list nat) (g : SliceGraph) : SliceGraph :=
  MkGraph (hnode g) (hedge g) (fresh g) (nodes g) l (groot g) (gdirection g) (node_map g) (slice_id g).
Definition set_node_map (m : gmap Instr nat) (g : SliceGraph) : SliceGraph :=
  MkGraph (hnode g) (hedge g) (fresh g) (nodes g) (gedges g) (groot g) (gdirection g) m (slice_id g).

Definition set_edges (l : list nat) (n : SliceNode) : SliceNode :=
  MkNode l (value n) (depth n) (node_kind n) (valueList n).

(** ** Nodes *)

Definition new_node (val : Instr) (dep : Z) : SliceNode := MkNode [] val dep SingleInstruction [val].

Definition appendValue (val : Instr) (n : SliceNode) : SliceNode :=
  MkNode (edges n) (value n) (depth n) MultiInstruction (valueList n ++ [val]).
Definition appendValues (l : list Instr) (n : SliceNode) : SliceNode :=
  MkNode (edges n) (value n) (depth n) MultiInstruction (valueList n ++ l).

Definition addEdge (e : nat) (n : SliceNode) : SliceNode := set_edges (edges n ++ [e]) n.

Definition target (g : SliceGraph) (e : nat) : option nat := target_node <$> hedge g !! e.

(** [findEdgesTo] appends to the list it is given. *)
Definition findEdgesTo (g : SliceGraph) (n : SliceNode) (node : nat) (el : list nat) : option (bool * list nat) :=
  el' ← mfold (fun el e => t ← target g e; Some (if decide (t = node) then el ++ [e] else el)) el (edges n);
  Some (negb (bool_decide (el' = [])), el').

Fixpoint has_edge_loop (g : SliceGraph) (es : list nat) (node : nat) : option bool :=
  match es with
  | [] => Some false
  | e :: es' => t ← target g e; if decide (t = node) then Some true else has_edge_loop g es' node
  end.
Definition hasEdgeTo (g : SliceGraph) (n : SliceNode) (node : nat) : option bool := has_edge_loop g (edges n) node.

(** Position of a pointer in a list. *)
Fixpoint find_pos (p : nat) (l : list nat) : option nat :=
  match l with
  | [] => None
  | q :: l' => if decide (q = p) then Some 0%nat else S <$> find_pos p l'
  end.

Definition removeEdge_node (e : nat) (n : SliceNode) : bool * SliceNode :=
  match find_pos e (edges n) with
  | Some i => (true, set_edges (delete i (edges n)) n)
  | None => (false, n)
  end.

Definition delete_edge (g : SliceGraph) (e : nat) : option SliceGraph :=
  _ ← hedge g !! e; Some (set_hedge (delete e (hedge g)) g).

(** Deleting the edges of a node. *)
Definition destroyEdges (g : SliceGraph) (n : nat) : option SliceGraph :=
  nd ← hnode g !! n;
  g' ← mfold delete_edge g (edges nd);
  Some (set_hnode (<[n := set_edges [] nd]> (hnode g')) g').

(** [delete node]: the destructor destroys the edges. *)
Definition delete_node (g : SliceGraph) (n : nat) : option SliceGraph :=
  g' ← destroyEdges g n; Some (set_hnode (delete n (hnode g')) g').

(** ** Graphs *)

(** [emplace] keeps an entry that is there. *)
Definition emplace {K V} `{Countable K} (k : K) (v : V) (m : gmap K V) : gmap K V :=
  match m !! k with Some _ => m | None => <[k := v]> m end.

Definition findNode (g : SliceGraph) (node : nat) : option nat := find_pos node (nodes g).

Definition addNode (g : SliceGraph) (node : nat) : option (bool * SliceGraph) :=
  match findNode g node with
  | Some _ => Some (false, g)
  | None => nd ← hnode g !! node;
            Some (true, set_node_map (emplace (value nd) node (node_map g)) (set_nodes (nodes g ++ [node]) g))
  end.

(** [new SliceNode] *)
Definition alloc_node (g : SliceGraph) (nd : SliceNode) : nat * SliceGraph :=
  (fresh g, set_fresh (S (fresh g)) (set_hnode (<[fresh g := nd]> (hnode g)) g)).

(** The graph of a new root node. *)
Definition new_graph (root_val : Instr) (dir : SliceDirection) (sid : Z) : option SliceGraph :=
  let '(r, g) := alloc_node (MkGraph ∅ ∅ 0 [] [] 0 dir ∅ sid) (new_node root_val 0) in
  '(_, g') ← addNode g r; Some g'.

Definition getOrCreateNode (g : SliceGraph) (val : Instr) : nat * SliceGraph :=
  match node_map g !! val with
  | Some node => (node, g)
  | None => let '(node, g1) := alloc_node g (new_node val 0) in
            (node, set_nodes (nodes g1 ++ [node]) (set_node_map (emplace val node (node_map g1)) g1))
  end.

(** One round of the loop of [removeNode]: the edges of [n] to [node] are erased
    and deleted; the list of edges of the graph and the node map keep them. *)
Definition remove_edges_to (node : nat) (g : SliceGraph) (n : nat) : option SliceGraph :=
  if decide (n = node) then Some g
  else
    nd ← hnode g !! n;
    '(g', kept) ← mfold (fun '(g, kept) e =>
        t ← target g e;
        if decide (t = node) then g' ← delete_edge g e; Some (g', kept) else Some (g, kept ++ [e]))
      (g, []) (edges nd);
    Some (set_hnode (<[n := set_edges kept nd]> (hnode g')) g').

Definition removeNode (g : SliceGraph) (node : nat) : option (bool * SliceGraph) :=
  match findNode g node with
  | None => Some (false, g)
  | Some ni =>
    g1 ← mfold (remove_edges_to node) g (nodes g);
    g2 ← destroyEdges g1 node;
    Some (true, set_nodes (delete ni (nodes g2)) g2)
  end.

Definition removeEdge (g : SliceGraph) (e : nat) : bool * SliceGraph :=
  match find_pos e (gedges g) with
  | Some i => (true, set_gedges (delete i (gedges g)) g)
  | None => (false, g)
  end.

(** Nodes with an edge between them, or with the same value, are not connected. *)
Definition connect (g : SliceGraph) (node1 node2 : nat) (k : SliceDependence) : option (bool * SliceGraph) :=
  if decide (node1 = node2) then Some (false, g)
  else
    nd1 ← hnode g !! node1;
    nd2 ← hnode g !! node2;
    if decide (value nd1 = value nd2) then Some (false, g)
    else
      has ← hasEdgeTo g nd1 node2;
      if (has : bool) then Some (false, g)
      else
        let e := fresh g in
        let g1 := set_fresh (S e) (set_hedge (<[e := MkEdge node2 k 0]> (hedge g)) g) in
        Some (true, set_gedges (gedges g1 ++ [e]) (set_hnode (<[node1 := addEdge e nd1]> (hnode g1)) g1)).

(** The first edge of a list with that target. *)
Fixpoint find_edge_to (g : SliceGraph) (es : list nat) (node : nat) : option (option nat) :=
  match es with
  | [] => Some None
  | e :: es' => t ← target g e; if decide (t = node) then Some (Some 0%nat) else
                r ← find_edge_to g es' node; Some (option_map S r)
  end.

(** What a slot of an array holds after an element at [i] was erased: the elements
    behind it have moved down, and the slot behind the new end keeps its content. *)
Definition slot_after_erase (l : list nat) (i : nat) : option nat :=
  match l !! S i with Some e => Some e | None => l !! i end.

(** [disconnect] uses the iterator after [erase]. *)
Definition disconnect (g : SliceGraph) (node1 node2 : nat) : option (bool * SliceGraph) :=
  nd1 ← hnode g !! node1;
  it ← find_edge_to g (edges nd1) node2;
  match it with
  | None => Some (false, g)
  | Some i =>
    let g1 := set_hnode (<[node1 := set_edges (delete i (edges nd1)) nd1]> (hnode g)) g in
    e ← slot_after_erase (edges nd1) i;
    g2 ← delete_edge (removeEdge g1 e).2 e;
    Some (true, g2)
  end.

(** [edgeToFold] is a reference to the last slot of the edges of [A]; [moved] says
    whether connecting the targets of [B] moved that array, after which the
    reference dangles. *)
Definition mergeNodes (moved : bool) (g : SliceGraph) (A B : nat) : option SliceGraph :=
  ndA ← hnode g !! A;
  fold ← last (edges ndA);
  t ← target g fold;
  if decide (t <> B) then Some g
  else
    ndB ← hnode g !! B;
    let g1 := set_hnode (<[A := appendValues (valueList ndB) ndA]> (hnode g)) g in
    g2 ← mfold (fun g e => ed ← hedge g !! e; r ← connect g A (target_node ed) (kind ed); Some r.2) g1 (edges ndB);
    if moved then None
    else
      ndA' ← hnode g2 !! A;
      let g3 := set_hnode (<[A := (removeEdge_node fold ndA').2]> (hnode g2)) g2 in
      fold' ← slot_after_erase (edges ndA') (pred (length (edges ndA)));
      g4 ← delete_edge (removeEdge g3 fold').2 fold';
      '(_, g5) ← removeNode g4 B;
      delete_node g5 B.

End Graph.
Arguments SliceNode Instr : clear implicits.
Arguments SliceGraph Instr {_ _}.

(** ** The graph as a map of adjacency lists

    What the graph built by [getOrCreateNode] and [connect] means: every
    instruction has one node, and a list of dependences, each with its kind, to
    other instructions, at most one for each. *)
Section Refinement.
Context {Instr : Type} `{Countable Instr}.
Implicit Types (g : SliceGraph Instr) (nd : SliceNode Instr) (v w : Instr).

Definition edge_view g e : option (Instr * SliceDependence) :=
  ed ← hedge g !! e; tn ← hnode g !! target_node ed; Some (value tn, kind ed).

Definition adjacency g v : option (list (Instr * SliceDependence)) :=
  n ← node_map g !! v; nd ← hnode g !! n; mapM (edge_view g) (edges nd).

Record wf g : Prop := MkWf {
  wf_nodes : NoDup (nodes g);
  wf_root : head (nodes g) = Some (groot g);
  wf_alloc n : n ∈ nodes g -> exists nd, hnode g !! n = Some nd /\ node_map g !! value nd = Some n;
  wf_map v n : node_map g !! v = Some n -> n ∈ nodes g /\ exists nd, hnode g !! n = Some nd /\ value nd = v;
  wf_edge n nd e : n ∈ nodes g -> hnode g !! n = Some nd -> e ∈ edges nd ->
    exists ed, hedge g !! e = Some ed /\ target_node ed ∈ nodes g /\ target_node ed <> n;
  wf_edges n nd : n ∈ nodes g -> hnode g !! n = Some nd -> NoDup (edges nd);
  wf_targets n nd i j e1 e2 : n ∈ nodes g -> hnode g !! n = Some nd ->
    edges nd !! i = Some e1 -> edges nd !! j = Some e2 -> target g e1 = target g e2 -> i = j;
  wf_owner n1 n2 nd1 nd2 e : n1 ∈ nodes g -> n2 ∈ nodes g -> hnode g !! n1 = Some nd1 -> hnode g !! n2 = Some nd2 ->
    e ∈ edges nd1 -> e ∈ edges nd2 -> n1 = n2;
  wf_gedges_nodup : NoDup (gedges g);
  wf_gedges e : e ∈ gedges g <-> exists n nd, n ∈ nodes g /\ hnode g !! n = Some nd /\ e ∈ edges nd;
  wf_fresh_node n : is_Some (hnode g !! n) -> (n < fresh g)%nat;
  wf_fresh_edge e : is_Some (hedge g !! e) -> (e < fresh g)%nat
}.

(** Objects keep their content as far as [edge_view] sees it. *)
Definition extends g g' : Prop :=
  (forall e ed, hedge g !! e = Some ed -> hedge g' !! e = Some ed) /\
  (forall n nd, hnode g !! n = Some nd -> exists nd', hnode g' !! n = Some nd' /\ value nd' = value nd).

Lemma edge_view_extends g g' e x : extends g g' -> edge_view g e = Some x -> edge_view g' e = Some x.
Proof.
  intros [He Hn] Hx. unfold edge_view in *. apply bind_Some in Hx as (ed & Hed & Hx).
  apply bind_Some in Hx as (tn & Htn & Hx). rewrite (He _ _ Hed). simpl_bind.
  destruct (Hn _ _ Htn) as (nd' & -> & Hv). simpl_bind. by rewrite Hv.
Qed.

Lemma edge_view_wf g n nd e :
  wf g -> n ∈ nodes g -> hnode g !! n = Some nd -> e ∈ edges nd -> is_Some (edge_view g e).
Proof.
  intros Hwf Hn Hnd He. destruct (wf_edge _ Hwf _ _ _ Hn Hnd He) as (ed & Hed & Ht & _).
  destruct (wf_alloc _ Hwf _ Ht) as (tn & Htn & _). unfold edge_view. rewrite Hed. simpl_bind.
  rewrite Htn. by eexists.
Qed.

Lemma mapM_extends g g' n nd :
  wf g -> extends g g' -> n ∈ nodes g -> hnode g !! n = Some nd ->
  mapM (edge_view g') (edges nd) = mapM (edge_view g) (edges nd).
Proof.
  intros Hwf Hext Hn Hnd.
  assert (forall es, es ⊆ edges nd -> mapM (edge_view g') es = mapM (edge_view g) es) as H'; [|by apply H'].
  induction es as [|e es IH]; intros Hsub; [done|]. cbn [mapM].
  destruct (edge_view_wf g n nd e) as [x Hx]; [done..|apply Hsub; by left|].
  rewrite Hx, (edge_view_extends _ _ _ _ Hext Hx). simpl_bind.
  rewrite IH; [done|]. intros e' He'. apply Hsub. by right.
Qed.

Lemma adjacency_Some g v : wf g -> is_Some (node_map g !! v) -> is_Some (adjacency g v).
Proof.
  intros Hwf [n Hn]. unfold adjacency. rewrite Hn. simpl_bind.
  destruct (wf_map _ Hwf _ _ Hn) as (Hin & nd & Hnd & _). rewrite Hnd. simpl_bind.
  apply mapM_is_Some, Forall_forall. intros e He. by eapply edge_view_wf.
Qed.

(** ** [getOrCreateNode] *)

Lemma fresh_nodes g n : wf g -> n ∈ nodes g -> (n < fresh g)%nat.
Proof. intros Hwf Hn. apply (wf_fresh_node _ Hwf). destruct (wf_alloc _ Hwf _ Hn) as (nd & -> & _). done. Qed.

Lemma fresh_hnode g : wf g -> hnode g !! fresh g = None.
Proof. intros Hwf. apply eq_None_not_Some. intros Hs%(wf_fresh_node _ Hwf). lia. Qed.

Lemma fresh_hedge g : wf g -> hedge g !! fresh g = None.
Proof. intros Hwf. apply eq_None_not_Some. intros Hs%(wf_fresh_edge _ Hwf). lia. Qed.

Lemma create_wf g v :
  wf g -> node_map g !! v = None ->
  wf (set_nodes (nodes g ++ [fresh g])
        (set_node_map (<[v := fresh g]> (node_map g))
           (set_fresh (S (fresh g)) (set_hnode (<[fresh g := new_node v 0]> (hnode g)) g)))).
Proof.
  intros Hwf Hnone.
  assert (forall n, n ∈ nodes g -> n <> fresh g) as Hne by (intros n Hn%(fresh_nodes _ _ Hwf); lia).
  assert (forall n nd, n ∈ nodes g ++ [fresh g] -> <[fresh g := new_node v 0]> (hnode g) !! n = Some nd ->
    (n ∈ nodes g /\ hnode g !! n = Some nd) \/ (n = fresh g /\ nd = new_node v 0)) as Hcase.
  { intros n nd [Hn| ->%list_elem_of_singleton]%elem_of_app.
    - rewrite lookup_insert_ne by (by apply not_eq_sym, Hne). by left.
    - rewrite lookup_insert_eq. intros [= <-]. by right. }
  constructor; cbn [nodes hnode hedge node_map gedges groot fresh set_nodes set_node_map set_fresh set_hnode].
  - apply NoDup_app. split; [apply (wf_nodes _ Hwf)|]. split; [|apply NoDup_singleton].
    intros n Hn Hn'%list_elem_of_singleton. by apply (Hne n).
  - pose proof (wf_root _ Hwf) as Hr. destruct (nodes g); [done|done].
  - intros n [Hn| ->%list_elem_of_singleton]%elem_of_app.
    + destruct (wf_alloc _ Hwf _ Hn) as (nd & Hnd & Hm). exists nd.
      rewrite lookup_insert_ne by (by apply not_eq_sym, Hne). split; [done|].
      rewrite lookup_insert_ne; [done|]. intros ->. by rewrite Hm in Hnone.
    + exists (new_node v 0). rewrite !lookup_insert_eq. done.
  - intros w n. destruct (decide (w = v)) as [->|Hw].
    + rewrite lookup_insert_eq. intros [= <-]. split; [apply elem_of_app; right; by left|].
      eexists. by rewrite lookup_insert_eq.
    + rewrite lookup_insert_ne by done. intros Hn. destruct (wf_map _ Hwf _ _ Hn) as (Hin & nd & Hnd & Hv).
      split; [apply elem_of_app; by left|]. exists nd. rewrite (lookup_insert_ne (hnode g)) by (by apply not_eq_sym, Hne). done.
  - intros n nd e Hn Hnd He. destruct (Hcase n nd Hn Hnd) as [[Hn' Hnd']|[-> ->]]; [|by apply elem_of_nil in He].
    destruct (wf_edge _ Hwf _ _ _ Hn' Hnd' He) as (ed & ? & ? & ?). exists ed. split; [done|].
    split; [apply elem_of_app; by left|done].
  - intros n nd Hn Hnd. destruct (Hcase n nd Hn Hnd) as [[Hn' Hnd']|[-> ->]]; [by eapply wf_edges|constructor].
  - intros n nd i j e1 e2 Hn Hnd. destruct (Hcase n nd Hn Hnd) as [[Hn' Hnd']|[-> ->]]; [|done].
    intros Hi Hj Ht. by eapply (wf_targets _ Hwf n nd i j e1 e2).
  - intros n1 n2 nd1 nd2 e Hn1 Hn2 Hd1 Hd2 He1 He2.
    destruct (Hcase n1 nd1 Hn1 Hd1) as [[? ?]|[-> ->]]; [|by apply elem_of_nil in He1].
    destruct (Hcase n2 nd2 Hn2 Hd2) as [[? ?]|[-> ->]]; [|by apply elem_of_nil in He2]. by eapply wf_owner.
  - apply (wf_gedges_nodup _ Hwf).
  - intros e. rewrite (wf_gedges _ Hwf). split.
    + intros (n & nd & Hn & Hnd & He). exists n, nd. rewrite lookup_insert_ne by (by apply not_eq_sym, Hne).
      split; [apply elem_of_app; by left|done].
    + intros (n & nd & Hn & Hnd & He). destruct (Hcase n nd Hn Hnd) as [[? ?]|[-> ->]]; [eauto|by apply elem_of_nil in He].
  - intros n. rewrite lookup_insert_is_Some. intros [<-|[_ Hs%(wf_fresh_node _ Hwf)]]; lia.
  - intros e Hs%(wf_fresh_edge _ Hwf). lia.
Qed.

Lemma getOrCreateNode_ok g v :
  wf g -> let '(n, g') := getOrCreateNode g v in
  wf g' /\ node_map g' !! v = Some n /\ groot g' = groot g /\ nodes g `prefix_of` nodes g' /\
  (forall w, adjacency g' w = if decide (w = v /\ adjacency g v = None) then Some [] else adjacency g w) /\
  (forall w n', node_map g !! w = Some n' -> node_map g' !! w = Some n').
Proof.
  intros Hwf. unfold getOrCreateNode. destruct (node_map g !! v) as [n|] eqn:Hv.
  - split; [done|]. split; [done|]. split; [done|]. split; [done|]. split; [|done]. intros w.
    destruct (adjacency_Some g v Hwf) as [l Hl]; [by eexists|]. by rewrite decide_False by (rewrite Hl; naive_solver).
  - pose proof (create_wf g v Hwf Hv) as Hwf'. unfold alloc_node, emplace. cbn [node_map set_fresh set_hnode].
    rewrite Hv. cbn [nodes set_fresh set_hnode set_node_map] in *. split; [done|].
    split; [cbn; by rewrite lookup_insert_eq|]. split; [done|]. split; [by eexists|]. split.
    + intros w. unfold adjacency at 1. cbn [node_map hnode set_nodes set_node_map set_fresh set_hnode].
      destruct (decide (w = v)) as [->|Hw].
      * rewrite !lookup_insert_eq. cbn. rewrite lookup_insert_eq. cbn. rewrite decide_True; [done|].
        split; [done|]. unfold adjacency. by rewrite Hv.
      * rewrite lookup_insert_ne by done. rewrite decide_False by tauto. unfold adjacency.
        destruct (node_map g !! w) as [n|] eqn:Hn; [|done]. simpl_bind.
        destruct (wf_map _ Hwf _ _ Hn) as (Hin & nd & Hnd & _).
        pose proof (fresh_nodes _ _ Hwf Hin). rewrite lookup_insert_ne by lia. rewrite Hnd. simpl_bind.
        eapply mapM_extends; [done| |done|done]. split; [done|]. intros m md Hm. cbn. exists md.
        rewrite lookup_insert_ne; [done|]. intros <-. rewrite fresh_hnode in Hm by done. done.
    + intros w n' Hw. cbn. rewrite lookup_insert_ne; [done|]. intros ->. congruence.
Qed.

(** ** [connect] *)

Lemma node_map_inj g v w n : wf g -> node_map g !! v = Some n -> node_map g !! w = Some n -> v = w.
Proof.
  intros Hwf Hv Hw. destruct (wf_map _ Hwf _ _ Hv) as (_ & nd & Hnd & <-).
  destruct (wf_map _ Hwf _ _ Hw) as (_ & nd' & Hnd' & <-). congruence.
Qed.

Lemma edge_target g n nd e x :
  wf g -> n ∈ nodes g -> hnode g !! n = Some nd -> e ∈ edges nd -> edge_view g e = Some x ->
  target g e = node_map g !! x.1.
Proof.
  intros Hwf Hn Hnd He Hx. destruct (wf_edge _ Hwf _ _ _ Hn Hnd He) as (ed & Hed & Ht & _).
  destruct (wf_alloc _ Hwf _ Ht) as (tn & Htn & Hm). unfold edge_view in Hx. unfold target.
  rewrite Hed in Hx |- *. cbn [mbind option_bind] in Hx. rewrite Htn in Hx. by injection Hx as <-.
Qed.

Lemma edge_targets g n nd l :
  wf g -> n ∈ nodes g -> hnode g !! n = Some nd -> mapM (edge_view g) (edges nd) = Some l ->
  target g <$> edges nd = (fun x => node_map g !! x.1) <$> l.
Proof.
  intros Hwf Hn Hnd Hl. apply mapM_Some in Hl.
  assert (forall es, es ⊆ edges nd -> Forall2 (fun e x => edge_view g e = Some x) es l ->
    target g <$> es = (fun x => node_map g !! x.1) <$> l) as H'; [|by apply H'].
  clear Hl. induction l as [|x l IH]; intros es Hsub HF; inversion HF as [|e x' es' l' Hx HF']; subst; [done|].
  rewrite !fmap_cons. f_equal; [eapply edge_target; eauto; apply Hsub; by left|].
  apply IH; [|done]. intros e' He'. apply Hsub. by right.
Qed.

Lemma has_edge_loop_ok g es node :
  (forall e, e ∈ es -> is_Some (target g e)) ->
  has_edge_loop g es node = Some (bool_decide (Some node ∈ target g <$> es)).
Proof.
  induction es as [|e es IH]; intros Hes; cbn [has_edge_loop]; [done|].
  destruct (Hes e) as [t Ht]; [by left|]. rewrite Ht. simpl_bind. rewrite fmap_cons, Ht.
  destruct (decide (t = node)) as [->|Hd]; [by rewrite bool_decide_eq_true_2 by left|].
  rewrite IH by (intros e' He'; apply Hes; by right). f_equal. apply bool_decide_ext.
  rewrite elem_of_cons. naive_solver.
Qed.

Lemma has_edge_adjacency g n nd v2 n2 l :
  wf g -> n ∈ nodes g -> hnode g !! n = Some nd -> mapM (edge_view g) (edges nd) = Some l ->
  node_map g !! v2 = Some n2 -> hasEdgeTo g nd n2 = Some (bool_decide (v2 ∈ l.*1)).
Proof.
  intros Hwf Hn Hnd Hl Hv2. unfold hasEdgeTo. rewrite has_edge_loop_ok.
  2:{ intros e He. destruct (wf_edge _ Hwf _ _ _ Hn Hnd He) as (ed & Hed & _). unfold target. by rewrite Hed. }
  f_equal. apply bool_decide_ext. rewrite (edge_targets _ _ _ _ Hwf Hn Hnd Hl), !list_elem_of_fmap. split.
  - intros (x & Hx & Hin). exists x. split; [|done]. eapply node_map_inj; [done..|]. by rewrite <- Hx.
  - intros (x & -> & Hin). by exists x.
Qed.

(** The graph after a new edge. *)
Definition with_edge g n1 nd1 n2 k : SliceGraph Instr :=
  set_gedges (gedges g ++ [fresh g])
    (set_hnode (<[n1 := addEdge (fresh g) nd1]> (hnode g))
      (set_fresh (S (fresh g)) (set_hedge (<[fresh g := MkEdge n2 k 0]> (hedge g)) g))).

Section With_edge.
Context (g : SliceGraph Instr) (n1 n2 : nat) (nd1 : SliceNode Instr) (k : SliceDependence).
Hypothesis (Hwf : wf g) (Hn1 : n1 ∈ nodes g) (Hn2 : n2 ∈ nodes g) (Hne : n2 <> n1).
Hypothesis (Hnd1 : hnode g !! n1 = Some nd1).
Hypothesis (Hnew : Some n2 ∉ target g <$> edges nd1).
Let g' := with_edge g n1 nd1 n2 k.

Lemma old_edge e n nd : n ∈ nodes g -> hnode g !! n = Some nd -> e ∈ edges nd -> e <> fresh g.
Proof.
  intros Hn Hnd He ->. destruct (wf_edge _ Hwf _ _ _ Hn Hnd He) as (ed & Hed & _).
  by rewrite fresh_hedge in Hed.
Qed.

Lemma with_edge_target e n nd :
  n ∈ nodes g -> hnode g !! n = Some nd -> e ∈ edges nd -> hedge g' !! e = hedge g !! e.
Proof. intros Hn Hnd He. cbn. rewrite lookup_insert_ne; [done|]. apply not_eq_sym. by eapply old_edge. Qed.

Lemma with_edge_node n nd :
  hnode g' !! n = Some nd -> exists nd0, hnode g !! n = Some nd0 /\ value nd = value nd0 /\
    edges nd = edges nd0 ++ (if decide (n = n1) then [fresh g] else []).
Proof.
  cbn. destruct (decide (n = n1)) as [->|Hn].
  - rewrite lookup_insert_eq. intros [= <-]. by exists nd1.
  - rewrite lookup_insert_ne by done. intros Hnd. exists nd. by rewrite app_nil_r.
Qed.

Lemma with_edge_node_2 n nd0 :
  hnode g !! n = Some nd0 -> exists nd, hnode g' !! n = Some nd /\ value nd = value nd0 /\
    edges nd = edges nd0 ++ (if decide (n = n1) then [fresh g] else []).
Proof.
  cbn. intros Hnd. destruct (decide (n = n1)) as [->|Hn].
  - rewrite lookup_insert_eq. exists (addEdge (fresh g) nd1). by replace nd0 with nd1 by congruence.
  - rewrite lookup_insert_ne by done. exists nd0. by rewrite app_nil_r.
Qed.

Lemma with_edge_extends : extends g g'.
Proof.
  split.
  - intros e ed Hed. cbn. rewrite lookup_insert_ne; [done|]. intros <-. by rewrite fresh_hedge in Hed.
  - intros n nd Hnd. destruct (with_edge_node_2 n nd Hnd) as (nd' & ? & ? & _). by exists nd'.
Qed.

Lemma new_edge_elem e n (l : list nat) :
  e ∈ l ++ (if decide (n = n1) then [fresh g] else []) <-> e ∈ l \/ (n = n1 /\ e = fresh g).
Proof. rewrite elem_of_app. case_decide; rewrite ?list_elem_of_singleton, ?elem_of_nil; naive_solver. Qed.

Lemma with_edge_targets_inj n nd i j e1 e2 :
  n ∈ nodes g' -> hnode g' !! n = Some nd -> edges nd !! i = Some e1 -> edges nd !! j = Some e2 ->
  target g' e1 = target g' e2 -> i = j.
Proof.
  intros Hn Hnd Hi Hj Ht. destruct (with_edge_node _ _ Hnd) as (nd0 & Hnd0 & _ & He). rewrite He in Hi, Hj.
  assert (forall e, e ∈ edges nd0 -> target g' e = target g e) as Hold.
  { intros e Hin. unfold target. by rewrite (with_edge_target e n nd0). }
  assert (target g' (fresh g) = Some n2) as Hfresh by (unfold target; cbn; by rewrite lookup_insert_eq).
  assert (forall e, n = n1 -> e ∈ edges nd0 -> target g' e <> Some n2) as Hno.
  { intros e -> Hin Ht2. apply Hnew. apply list_elem_of_fmap. exists e. rewrite <- Hold by done.
    split; [done|]. by replace nd1 with nd0 by congruence. }
  apply lookup_app_Some in Hi, Hj. repeat case_decide; subst;
    destruct Hi as [Hi|[Hi1 Hi2]], Hj as [Hj|[Hj1 Hj2]]; try done;
    repeat match goal with
           | H' : [_] !! _ = Some _ |- _ => apply list_lookup_singleton_Some in H' as [? <-]
           end; try lia.
  all: try (apply list_elem_of_lookup_2 in Hi as Hi'); try (apply list_elem_of_lookup_2 in Hj as Hj').
  - rewrite !Hold in Ht by done. by eapply (wf_targets _ Hwf n1 nd0).
  - rewrite Hfresh in Ht. by destruct (Hno e1 eq_refl Hi').
  - rewrite Hfresh in Ht. by destruct (Hno e2 eq_refl Hj').
  - rewrite !Hold in Ht by done. by eapply (wf_targets _ Hwf n nd0).
Qed.

Lemma with_edge_wf : wf g'.
Proof.
  constructor; try apply Hwf.
  - intros n Hn. destruct (wf_alloc _ Hwf _ Hn) as (nd0 & Hnd0 & Hm).
    destruct (with_edge_node_2 _ _ Hnd0) as (nd & Hnd & Hv & _). exists nd. by rewrite Hv.
  - intros v n Hv. destruct (wf_map _ Hwf _ _ Hv) as (Hn & nd0 & Hnd0 & Hval). split; [done|].
    destruct (with_edge_node_2 _ _ Hnd0) as (nd & Hnd & Hv' & _). exists nd. by rewrite Hv'.
  - intros n nd e Hn Hnd. destruct (with_edge_node _ _ Hnd) as (nd0 & Hnd0 & _ & ->).
    rewrite new_edge_elem. intros [He|[-> ->]].
    + rewrite (with_edge_target e n nd0) by done. by apply (wf_edge _ Hwf n nd0).
    + exists (MkEdge n2 k 0). cbn. rewrite lookup_insert_eq. done.
  - intros n nd Hn Hnd. destruct (with_edge_node _ _ Hnd) as (nd0 & Hnd0 & _ & ->). apply NoDup_app.
    split; [by apply (wf_edges _ Hwf n nd0)|]. case_decide; [|split; [by intros e _ ?%elem_of_nil|constructor]].
    split; [|apply NoDup_singleton]. intros e He ->%list_elem_of_singleton. by eapply old_edge.
  - apply with_edge_targets_inj.
  - intros m1 m2 d1 d2 e Hm1 Hm2 Hd1 Hd2. destruct (with_edge_node _ _ Hd1) as (d1' & Hd1' & _ & ->).
    destruct (with_edge_node _ _ Hd2) as (d2' & Hd2' & _ & ->). rewrite !new_edge_elem.
    intros [He1|[-> ->]] [He2|[-> He2]]; [by eapply (wf_owner _ Hwf)| | |done].
    + by destruct (old_edge e _ _ Hm1 Hd1' He1).
    + by destruct (old_edge _ _ _ Hm2 Hd2' He2).
  - cbn. apply NoDup_app. split; [apply (wf_gedges_nodup _ Hwf)|]. split; [|apply NoDup_singleton].
    intros e (n & nd & Hn & Hnd & He)%(wf_gedges _ Hwf) ->%list_elem_of_singleton. by eapply old_edge.
  - intros e. cbn [gedges g' with_edge set_gedges]. rewrite elem_of_app, list_elem_of_singleton, (wf_gedges _ Hwf). split.
    + intros [(n & nd0 & Hn & Hnd0 & He)| ->].
      * destruct (with_edge_node_2 _ _ Hnd0) as (nd & Hnd & _ & Hes). exists n, nd.
        rewrite Hes, new_edge_elem. by split_and!; [| |left].
      * destruct (with_edge_node_2 _ _ Hnd1) as (nd & Hnd & _ & Hes). exists n1, nd.
        rewrite Hes, new_edge_elem. by split_and!; [| |right].
    + intros (n & nd & Hn & Hnd & He). destruct (with_edge_node _ _ Hnd) as (nd0 & Hnd0 & _ & Hes).
      rewrite Hes, new_edge_elem in He. destruct He as [He|[_ ->]]; [left|by right]. eauto.
  - cbn. intros n. rewrite lookup_insert_is_Some. intros [<-|[_ Hs%(wf_fresh_node _ Hwf)]]; [|lia].
    pose proof (fresh_nodes _ _ Hwf Hn1). lia.
  - cbn. intros e. rewrite lookup_insert_is_Some. intros [<-|[_ Hs%(wf_fresh_edge _ Hwf)]]; lia.
Qed.

Lemma with_edge_adjacency v1 v2 l w :
  node_map g !! v1 = Some n1 -> node_map g !! v2 = Some n2 -> adjacency g v1 = Some l ->
  adjacency g' w = if decide (w = v1) then Some (l ++ [(v2, k)]) else adjacency g w.
Proof.
  intros Hv1 Hv2 Hl. unfold adjacency. change (node_map g') with (node_map g).
  destruct (node_map g !! w) as [n|] eqn:Hw; [|rewrite decide_False by congruence; done]. simpl_bind.
  destruct (wf_map _ Hwf _ _ Hw) as (Hn & nd0 & Hnd0 & _).
  destruct (with_edge_node_2 _ _ Hnd0) as (nd & Hnd & _ & Hes). rewrite Hnd, Hnd0.
  simpl_bind. rewrite Hes, mapM_app_option.
  rewrite (mapM_extends g g' n nd0 Hwf with_edge_extends Hn Hnd0).
  unfold adjacency in Hl. rewrite Hv1 in Hl. cbn [mbind option_bind] in Hl. rewrite Hnd1 in Hl. cbn [mbind option_bind] in Hl.
  destruct (decide (w = v1)) as [->|Hne'].
  - assert (n = n1) as -> by congruence. rewrite decide_True by done. assert (nd0 = nd1) as -> by congruence.
    rewrite Hl. cbn [mbind option_bind mapM].
    assert (edge_view g' (fresh g) = Some (v2, k)) as ->; [|done].
    unfold edge_view. cbn. rewrite lookup_insert_eq. cbn.
    destruct (wf_map _ Hwf _ _ Hv2) as (_ & nd2 & Hnd2 & <-). rewrite lookup_insert_ne by done. by rewrite Hnd2.
  - rewrite decide_False by (intros ->; apply Hne'; by eapply node_map_inj). cbn [mapM].
    destruct (mapM (edge_view g) (edges nd0)) as [l'|]; [|done]. cbn. by rewrite app_nil_r.
Qed.

End With_edge.

Lemma connect_ok g v1 v2 n1 n2 k :
  wf g -> node_map g !! v1 = Some n1 -> node_map g !! v2 = Some n2 ->
  exists l g', adjacency g v1 = Some l /\
    connect g n1 n2 k = Some (bool_decide (v1 <> v2 /\ v2 ∉ l.*1), g') /\
    wf g' /\ groot g' = groot g /\ nodes g' = nodes g /\ node_map g' = node_map g /\
    forall w, adjacency g' w =
      if decide (w = v1 /\ v1 <> v2 /\ v2 ∉ l.*1) then Some (l ++ [(v2, k)]) else adjacency g w.
Proof.
  intros Hwf Hv1 Hv2. destruct (adjacency_Some g v1 Hwf) as [l Hl]; [by eexists|]. exists l.
  destruct (wf_map _ Hwf _ _ Hv1) as (Hn1 & nd1 & Hnd1 & Hval1).
  destruct (wf_map _ Hwf _ _ Hv2) as (Hn2 & nd2 & Hnd2 & Hval2).
  pose proof Hl as Hl'. unfold adjacency in Hl'. rewrite Hv1 in Hl'. cbn [mbind option_bind] in Hl'.
  rewrite Hnd1 in Hl'. cbn [mbind option_bind] in Hl'. unfold connect.
  assert (~ (v1 <> v2 /\ v2 ∉ l.*1) -> exists g', adjacency g v1 = Some l /\ Some (false, g) = Some (bool_decide (v1 <> v2 /\ v2 ∉ l.*1), g') /\
      wf g' /\ groot g' = groot g /\ nodes g' = nodes g /\ node_map g' = node_map g /\
      forall w, adjacency g' w = if decide (w = v1 /\ v1 <> v2 /\ v2 ∉ l.*1) then Some (l ++ [(v2, k)])
                                 else adjacency g w) as Hsame.
  { intros Hno. exists g. rewrite bool_decide_eq_false_2 by done. split_and!; try done.
    intros w. by rewrite decide_False by tauto. }
  destruct (decide (n1 = n2)) as [->|Hne].
  { apply Hsame. intros [Hvv _]. apply Hvv. by eapply node_map_inj. }
  rewrite Hnd1, Hnd2. simpl_bind. rewrite Hval1, Hval2.
  destruct (decide (v1 = v2)) as [->|Hvv]; [apply Hsame; tauto|].
  rewrite (has_edge_adjacency g n1 nd1 v2 n2 l) by done. simpl_bind.
  destruct (bool_decide (v2 ∈ l.*1)) eqn:Hb.
  { apply bool_decide_eq_true in Hb. apply Hsame; tauto. }
  apply bool_decide_eq_false in Hb. exists (with_edge g n1 nd1 n2 k). split; [done|].
  rewrite bool_decide_eq_true_2 by done. split; [done|].
  assert (Some n2 ∉ target g <$> edges nd1) as Hnew.
  { rewrite (edge_targets _ _ _ _ Hwf Hn1 Hnd1 Hl'). intros (x & Hx & Hin)%list_elem_of_fmap.
    apply Hb. apply list_elem_of_fmap. exists x. split; [|done]. eapply node_map_inj; [done..|]. by rewrite <- Hx. }
  split; [by apply with_edge_wf|]. split_and!; try done. intros w.
  rewrite (with_edge_adjacency g n1 n2 nd1 k Hwf (not_eq_sym Hne) Hnd1 v1 v2 l) by done.
  repeat case_decide; try done; tauto.
Qed.

(** ** Refinement *)

Definition repr g (A : gmap Instr (list (Instr * SliceDependence))) : Prop :=
  wf g /\ forall w, adjacency g w = A !! w.

(** The abstract operations. *)
Definition spec_create v (A : gmap Instr (list (Instr * SliceDependence))) :=
  match A !! v with Some _ => A | None => <[v := []]> A end.
Definition spec_connect v w (k : SliceDependence) (A : gmap Instr (list (Instr * SliceDependence))) :=
  match A !! v with
  | Some l => if decide (v <> w /\ w ∉ l.*1) then <[v := l ++ [(w, k)]]> A else A
  | None => A
  end.

Lemma create_repr g A v :
  repr g A -> let '(n, g') := getOrCreateNode g v in
  repr g' (spec_create v A) /\ node_map g' !! v = Some n /\ groot g' = groot g /\ nodes g `prefix_of` nodes g' /\
  (forall w n', node_map g !! w = Some n' -> node_map g' !! w = Some n').
Proof.
  intros [Hwf HA]. pose proof (getOrCreateNode_ok g v Hwf) as Hok. destruct (getOrCreateNode g v) as [n g'].
  destruct Hok as (Hwf' & Hn & Hr & Hp & Hadj & Hm). split_and!; try done. split; [done|]. intros w. rewrite Hadj. unfold spec_create.
  rewrite !HA. destruct (A !! v) as [l|] eqn:Hv.
  - rewrite decide_False by naive_solver. done.
  - destruct (decide (w = v)) as [->|Hw]; [by rewrite decide_True, lookup_insert_eq|].
    by rewrite decide_False, lookup_insert_ne by naive_solver.
Qed.

Lemma connect_repr g A v w n1 n2 k :
  repr g A -> node_map g !! v = Some n1 -> node_map g !! w = Some n2 ->
  exists b g', connect g n1 n2 k = Some (b, g') /\ repr g' (spec_connect v w k A) /\
    groot g' = groot g /\ nodes g' = nodes g /\ node_map g' = node_map g.
Proof.
  intros [Hwf HA] Hv Hw. destruct (connect_ok g v w n1 n2 k Hwf Hv Hw) as (l & g' & Hl & -> & Hwf' & Hr & Hn & Hm & Hadj).
  eexists _, g'. split; [done|]. split_and!; try done. split; [done|]. intros u. rewrite Hadj. unfold spec_connect.
  rewrite HA in Hl. rewrite Hl. destruct (decide (v <> w /\ w ∉ l.*1)) as [Hc|Hc].
  - destruct (decide (u = v)) as [->|Hu]; [by rewrite decide_True, lookup_insert_eq|].
    rewrite decide_False by naive_solver. by rewrite lookup_insert_ne, HA.
  - rewrite decide_False by tauto. by rewrite HA.
Qed.

Lemma new_graph_repr v dir sid :
  exists g, new_graph v dir sid = Some g /\ repr g {[ v := [] ]} /\ node_map g !! v = Some (groot g) /\ gdirection g = dir.
Proof.
  unfold new_graph, addNode, findNode, alloc_node. cbn. rewrite lookup_insert_eq. cbn. eexists. split; [done|].
  split.
  2:{ split; [|done]. cbn. unfold emplace. by rewrite lookup_empty, lookup_insert_eq. }
  split.
  - constructor; cbn [nodes hnode hedge node_map gedges groot fresh set_nodes set_node_map set_fresh set_hnode app].
    + apply NoDup_singleton.
    + done.
    + intros n ->%list_elem_of_singleton. exists (new_node v 0). unfold emplace. rewrite lookup_empty.
      by rewrite !lookup_insert_eq.
    + unfold emplace. rewrite lookup_empty. intros w n [<- <-]%lookup_singleton_Some. split; [by left|].
      eexists. by rewrite lookup_insert_eq.
    + intros n nd e ->%list_elem_of_singleton. rewrite lookup_insert_eq. intros [= <-] []%elem_of_nil.
    + intros n nd ->%list_elem_of_singleton. rewrite lookup_insert_eq. intros [= <-]. constructor.
    + intros n nd i j e1 e2 ->%list_elem_of_singleton. rewrite lookup_insert_eq. by intros [= <-].
    + intros n1 n2 nd1 nd2 e ->%list_elem_of_singleton ->%list_elem_of_singleton. done.
    + constructor.
    + intros e. split; [intros []%elem_of_nil|]. intros (n & nd & ->%list_elem_of_singleton & Hnd & He).
      rewrite lookup_insert_eq in Hnd. injection Hnd as <-. by apply elem_of_nil in He.
    + intros n. rewrite lookup_insert_is_Some, lookup_empty. intros [<-|[_ [? ?]]]; [lia|done].
    + intros e. rewrite lookup_empty. by intros [? ?].
  - intros w. unfold adjacency. cbn. unfold emplace. rewrite lookup_empty.
    destruct (decide (w = v)) as [->|Hw]; [rewrite lookup_insert_eq; cbn; rewrite lookup_insert_eq; cbn; by rewrite lookup_singleton_eq|].
    rewrite lookup_insert_ne, lookup_empty by congruence. by rewrite lookup_singleton_ne by congruence.
Qed.

(** A dependence as the walk over the dependence graph reports it: both ends are
    looked up or created, then connected. *)
Definition link (g : SliceGraph Instr) (r : Instr * Instr * SliceDependence) : option (SliceGraph Instr) :=
  let '(v, w, k) := r in
  let '(n1, g1) := getOrCreateNode g v in
  let '(n2, g2) := getOrCreateNode g1 w in
  '(_, g3) ← connect g2 n1 n2 k; Some g3.

Definition spec_link (A : gmap Instr (list (Instr * SliceDependence))) (r : Instr * Instr * SliceDependence) :=
  let '(v, w, k) := r in spec_connect v w k (spec_create w (spec_create v A)).

Lemma link_repr g A r : repr g A -> exists g', link g r = Some g' /\ repr g' (spec_link A r) /\ groot g' = groot g.
Proof.
  intros HA. destruct r as [[v w] k]. cbn [link spec_link].
  pose proof (create_repr g A v HA) as H1. destruct (getOrCreateNode g v) as [n1 g1].
  destruct H1 as (HA1 & Hn1 & Hr1 & _ & _).
  pose proof (create_repr g1 _ w HA1) as H2. destruct (getOrCreateNode g1 w) as [n2 g2].
  destruct H2 as (HA2 & Hn2 & Hr2 & _ & Hm).
  destruct (connect_repr g2 _ v w n1 n2 k HA2 (Hm _ _ Hn1) Hn2) as (b & g3 & Hc & HA3 & Hr3 & _ & _).
  exists g3. rewrite Hc. split; [done|]. split; [done|]. congruence.
Qed.

Lemma graph_refines_ok v dir sid rs :
  exists g0 g, new_graph v dir sid = Some g0 /\ mfold link g0 rs = Some g /\
    repr g (foldl spec_link {[ v := [] ]} rs) /\ groot g = groot g0 /\ node_map g0 !! v = Some (groot g0).
Proof.
  destruct (new_graph_repr v dir sid) as (g0 & Hg0 & HA & Hr & _). exists g0.
  assert (exists g, mfold link g0 rs = Some g /\ repr g (foldl spec_link {[ v := [] ]} rs) /\ groot g = groot g0)
    as (g & ? & ? & ?); [|by exists g].
  revert HA. generalize ({[ v := [] ]} : gmap Instr (list (Instr * SliceDependence))). clear Hg0 Hr. revert g0.
  induction rs as [|r rs IH]; intros g0 A HA; cbn [mfold foldl]; [by exists g0|].
  destruct (link_repr g0 A r HA) as (g1 & -> & HA1 & Hr). simpl_bind. rewrite <- Hr. by apply IH.
Qed.

(** C14. The pointer structure implements a map of adjacency lists: from the graph of
    a root, any sequence of dependences is entered without undefined behaviour, one
    node for each instruction, edges in the order of entry, none to itself and
    none twice whatever the kind; and the graph stays well formed (nodes, map and
    edge lists agree, every edge has one owner and is in the list of the graph
    once, no pointer dangles). *)
Theorem graph_refines_adjacency v dir sid rs :
  exists g0 g, new_graph v dir sid = Some g0 /\ mfold link g0 rs = Some g /\
    repr g (foldl spec_link {[ v := [] ]} rs) /\ groot g = groot g0.
Proof. destruct (graph_refines_ok v dir sid rs) as (g0 & g & ? & ? & ? & ? & _). by exists g0, g. Qed.

End Refinement.

End SliceGraph.
