(* ===== verification/Dump.v ===== *)
(** * Printing slices and slice graphs (analyzer/lib/Slicing/{Slice,SliceGraph}.cpp)

    [Slice::dump], which writes the slice files of the tools, and the printing
    operators of slices and slice graphs. *)
From stdpp Require Import base list gmap strings.
From Stdlib Require Import Ascii.
From S2P Require Import Prelude Strings GuidMap Slice SliceGraph.
Import Strings Slice SliceGraph.

Module Dump.

Definition print_persistence (p : SlicePersistence) : chars :=
  match p with
  | NA => lit "n/a"
  | Persistent => lit "persistent"
  | Volatile => lit "volatile"
  | Mixed => lit "mixed"
  end.

Definition print_direction (d : SliceDirection) : chars :=
  match d with
  | Backward => lit "backward"
  | Forward => lit "forward"
  | Full => lit "backward+forward"
  end.

Definition print_kind (k : SliceDependence) : chars :=
  match k with
  | Unknown => lit "n/a"
  | RegisterDefUse => lit "reg-def-use"
  | MemoryDependence => lit "memory-dep"
  | ControlDependence => lit "control-dep"
  | InterfereDependence => lit "interfere-dep"
  end.

(** [operator<<] of a signed number. *)
Definition print_int (n : Z) : chars := if decide (n < 0) then lit "-" ++ print_dec (- n) else print_dec n.

Section Dump.
Context {Instr : Type} `{Countable Instr} (function_name text : Instr -> chars).
Abbreviation newline := GuidMap.newline.

Definition header (s : Slice Instr) : chars :=
  lit "Slice " ++ print_dec (id s) ++ lit " (" ++ print_persistence (persistence s) ++ lit "):".
Definition value_line (i : Instr) : chars := lit "~" ++ function_name i ++ lit "()=>" ++ text i.

(** [Slice::dump]; the values of a slice are instructions. *)
Definition dump (s : Slice Instr) : chars :=
  header s ++ [newline] ++ concat ((fun v => value_line v.1 ++ [newline]) <$> dep_vals s).

(** [operator<<] of edges, nodes and graphs; [None] is the use of a deleted node or edge. *)
Definition print_edge (g : SliceGraph Instr) (e : nat) : option chars :=
  ed ← hedge g !! e;
  nd ← hnode g !! target_node ed;
  Some (lit "----[" ++ print_kind (kind ed) ++ lit "] to distance " ++ print_int (distance ed) ++ lit " " ++
        function_name (value nd) ++ lit "(): " ++ text (value nd) ++ [newline]).

Definition print_node (g : SliceGraph Instr) (n : nat) : option chars :=
  nd ← hnode g !! n;
  es ← mapM (print_edge g) (edges nd);
  Some (lit "* node: " ++ text (value nd) ++ [newline] ++ concat es).

Definition print_graph (g : SliceGraph Instr) : option chars :=
  ns ← mapM (print_node g) (nodes g); Some (concat ns).

(** Printing a well-formed graph uses no deleted node or edge, and a node is printed
    with one line per edge. *)
Theorem print_graph_total g : wf g -> is_Some (print_graph g).
Proof.
  intros Hwf. unfold print_graph. destruct (mapM_is_Some_2 (print_node g) (nodes g)) as [ns ->]; [|by eexists].
  apply Forall_forall. intros n Hn. cbn. unfold print_node. destruct (wf_alloc _ Hwf n Hn) as (nd & Hnd & _). rewrite Hnd. simpl_bind.
  destruct (mapM_is_Some_2 (print_edge g) (edges nd)) as [es ->]; [|by eexists].
  apply Forall_forall. intros e He. destruct (wf_edge _ Hwf _ _ _ Hn Hnd He) as (ed & Hed & Hin & _).
  cbn. unfold print_edge. rewrite Hed. simpl_bind. destruct (wf_alloc _ Hwf _ Hin) as (nd2 & -> & _). by eexists.
Qed.

(** A dump is the header and a line per value, in the order of the slice: the lines
    can be read back when no name and no text has a newline. *)
Theorem dump_lines s :
  0 <= id s < 2 ^ 64 -> Forall (fun v => newline ∉ value_line v.1) (dep_vals s) ->
  GuidMap.getlines (dump s) = header s :: ((fun v => value_line v.1) <$> dep_vals s).
Proof.
  intros Hid Hv. rewrite <- (GuidMap.getlines_lines (header s :: _)).
  - unfold dump. rewrite fmap_cons. cbn [concat]. rewrite <- list_fmap_compose, <- app_assoc. done.
  - apply Forall_cons. split; [|by apply Forall_fmap]. unfold header. rewrite !not_elem_of_app.
    destruct (GuidMap.print_dec_free (id s) Hid) as [Hn _].
    split; [apply (bool_decide_unpack _); reflexivity|]. split; [done|]. split; [apply (bool_decide_unpack _); reflexivity|].
    split; [destruct (persistence s)|]; apply (bool_decide_unpack _); reflexivity.
Qed.

End Dump.

End Dump.
