(* ===== verification/ComputeSlices.v ===== *)
(** * Slices of a slice graph (analyzer/lib/Slicing/SliceGraph.cpp, computeSlices)

    A depth-first walk from the root that spreads the nodes it visits over slices: a
    node with several unexplored edges forks the current slice, a node with none
    ends it, and the walk goes on in the slice with the next id. *)
From stdpp Require Import base list gmap relations.
From S2P Require Import Prelude Slice SliceGraph.
Import Slice SliceGraph.

Module ComputeSlices.
Section Walk.
Context {Instr Fn : Type} `{Countable Instr} `{EqDecision Fn}.
Context (getFunction : Instr -> Fn).
Implicit Types (g : SliceGraph Instr).

(** The local variables of the walk: [store] holds the slices allocated so far,
    [curr] is the current one. *)
Record walk := MkWalk {
  visited : gset nat;
  vstack : list nat;
  store : list (Slice Instr);
  added : Slices;
  curr : nat;
  curr_slice_id : Z
}.

Definition mark (n : nat) (w : walk) : walk :=
  MkWalk ({[ n ]} ∪ visited w) (vstack w) (store w) (added w) (curr w) (curr_slice_id w).
Definition push (n : nat) (w : walk) : walk :=
  MkWalk (visited w) (n :: vstack w) (store w) (added w) (curr w) (curr_slice_id w).
Definition pop (st : list nat) (w : walk) : walk :=
  MkWalk (visited w) st (store w) (added w) (curr w) (curr_slice_id w).
Definition set_curr (c : nat) (w : walk) : walk :=
  MkWalk (visited w) (vstack w) (store w) (added w) c (curr_slice_id w).
Definition set_store (s : list (Slice Instr)) (w : walk) : walk :=
  MkWalk (visited w) (vstack w) s (added w) (curr w) (curr_slice_id w).

(** A new slice with the next id, added to the slices. *)
Definition add_fork (s : Slice Instr) (w : walk) : walk :=
  let i := u64 (curr_slice_id w + 1) in
  MkWalk (visited w) (vstack w) (store w ++ [set_id i s]) (add_slice (added w) i (length (store w))) (curr w) i.

(** One edge of the node that was popped; the counter is [unexplored_edges].
    With [separate_dependence] an edge is skipped when its kind is the one of the
    slice. *)
Definition explore (inter_procedural separate_dependence : bool) g (current_dependence_unknown : bool)
    (acc : walk * nat) (e : nat) : option (walk * nat) :=
  let '(w, unexplored_edges) := acc in
  ed ← hedge g !! e;
  c ← store w !! curr w;
  if separate_dependence && negb current_dependence_unknown && bool_decide (kind ed = dependence c) then Some acc
  else
    skip ← (if inter_procedural then Some false
            else tn ← hnode g !! target_node ed;
                 first ← head (dep_vals c);
                 Some (negb (bool_decide (getFunction (value tn) = getFunction first.1))));
    if (skip : bool) then Some acc
    else if decide (target_node ed ∈ visited w) then Some acc
    else
      let w1 := mark (target_node ed) w in
      let c1 := if separate_dependence && bool_decide (dependence c = Unknown) then set_dependence (kind ed) c else c in
      let w2 := push (target_node ed) (set_store (<[curr w := c1]> (store w1)) w1) in
      if decide (1 < unexplored_edges + 1)%nat then
        let f := fork c1 in
        let f1 := if separate_dependence && current_dependence_unknown then set_dependence (kind ed) f else f in
        Some (add_fork f1 w2, unexplored_edges + 1)%nat
      else Some (w2, unexplored_edges + 1)%nat.

(** The current slice is added unless a slice with its id is there. *)
Definition add_current (w : walk) : option walk :=
  c ← store w !! curr w;
  Some (if has (added w) (id c) then w
        else MkWalk (visited w) (vstack w) (store w) (add_slice (added w) (id c) (curr w)) (curr w) (curr_slice_id w)).

(** One round of the loop with [elem] on top of the stack: the new state, and
    whether the loop was left. *)
Definition walk_node (inter_procedural separate_dependence : bool) g (w : walk) (elem : nat) (st : list nat)
  : option (walk * bool) :=
  let w0 := mark elem (pop st w) in
  nd ← hnode g !! elem;
  c ← store w0 !! curr w0;
  let c0 := if decide (elem = groot g) then c else add (value nd) c in
  let w1 := set_store (<[curr w0 := c0]> (store w0)) w0 in
  '(w2, unexplored_edges) ← mfold (explore inter_procedural separate_dependence g (bool_decide (dependence c0 = Unknown)))
      (w1, 0%nat) (reverse (edges nd));
  if decide (unexplored_edges = 0%nat) then
    w3 ← add_current w2;
    c3 ← store w3 !! curr w3;
    match get (added w3) (u64 (id c3 + 1)) with
    | None => Some (w3, true)
    | Some next_slice => Some (set_curr next_slice w3, false)
    end
  else Some (w2, false).

(** The loop; [None] is undefined behaviour, [Some None] running out of fuel. *)
Fixpoint walk_loop (fuel : nat) (inter_procedural separate_dependence : bool) g (w : walk) : option (option walk) :=
  match vstack w with
  | [] => Some (Some w)
  | elem :: st =>
    match fuel with
    | 0%nat => Some None
    | S fuel' =>
      '(w', stop) ← walk_node inter_procedural separate_dependence g w elem st;
      if (stop : bool) then Some (Some w') else walk_loop fuel' inter_procedural separate_dependence g w'
    end
  end.

(** The first slice: [new Slice] with id 1, added to [slices]. *)
Definition initial g (sl : Slices) (root_val : Instr) : walk :=
  MkWalk ∅ [groot g] [new_slice 1 root_val (gdirection g) NA Unknown] (add_slice sl 1 0) 0 1.

(** [computeSlices] always returns true; the result is the slices. *)
Definition computeSlices (fuel : nat) g (sl : Slices) (inter_procedural separate_dependence : bool)
  : option (option walk) :=
  rd ← hnode g !! groot g;
  r ← walk_loop fuel inter_procedural separate_dependence g (initial g sl (value rd));
  match r with
  | None => Some None
  | Some w => Some <$> add_current w
  end.

End Walk.
Arguments walk Instr : clear implicits.

(** ** The walk covers what is reachable *)
Section Coverage.
Context {Instr Fn : Type} `{Countable Instr} `{EqDecision Fn}.
Context (getFunction : Instr -> Fn).
Context (g : SliceGraph Instr).
Context (root_val : Instr).
Implicit Types (w : walk Instr) (n m : nat).

(** What the walk needs of the graph. *)
Record walkable : Prop := MkWalkable {
  wk_root : groot g ∈ nodes g;
  wk_root_val : exists rd, hnode g !! groot g = Some rd /\ value rd = root_val;
  wk_node n : n ∈ nodes g -> is_Some (hnode g !! n);
  wk_edge n nd e : n ∈ nodes g -> hnode g !! n = Some nd -> e ∈ edges nd ->
    exists ed, hedge g !! e = Some ed /\ target_node ed ∈ nodes g
}.

Definition succ n m : Prop :=
  exists nd e ed, hnode g !! n = Some nd /\ e ∈ edges nd /\ hedge g !! e = Some ed /\ target_node ed = m.

Definition reachable : nat -> Prop := rtc succ (groot g).

Definition node_value n (v : Instr) : Prop := exists nd, hnode g !! n = Some nd /\ value nd = v.

(** A slice the walk builds: it starts with the root and holds reachable values. *)
Definition good_slice (i : nat) (s : Slice Instr) : Prop :=
  id s = Z.of_nat i + 1 /\ root s = root_val /\ (exists l, dep_vals s = (root_val, 0) :: l) /\
  Forall (fun x => x.2 = 0 /\ exists n, reachable n /\ node_value n x.1) (dep_vals s).

Definition in_slices w (v : Instr) : Prop := exists s, s ∈ store w /\ v ∈ (dep_vals s).*1.

(** The slices are numbered in the order of creation. *)
Record numbered w : Prop := MkNumbered {
  nb_slices : slices (added w) = seq 0 (length (store w));
  nb_map i : sliceMap (added w) !! i =
    (if decide (1 <= i <= Z.of_nat (length (store w))) then Some (Z.to_nat (i - 1)) else None);
  nb_id : curr_slice_id w = Z.of_nat (length (store w));
  nb_curr : (curr w < length (store w))%nat;
  nb_good i s : store w !! i = Some s -> good_slice i s
}.

Lemma fork_values (s : Slice Instr) l :
  dep_vals s = (root s, 0) :: l -> root (fork s) = root s /\ id (fork s) = id s /\
  dep_vals (fork s) = (root s, 0) :: ((fun x => (x.1, 0)) <$> filter (fun x => x.1 <> root s) l).
Proof.
  intros Hd. unfold fork. rewrite Hd. cbn [foldl fst]. rewrite decide_True by done.
  enough (forall c, root c = root s -> id c = id s ->
    let r := foldl (fun copy val => if decide (val.1 = root s) then copy else add val.1 copy) c l in
    root r = root s /\ id r = id s /\ dep_vals r = dep_vals c ++ ((fun x => (x.1, 0)) <$> filter (fun x => x.1 <> root s) l)) as E.
  { by apply E. }
  clear Hd. induction l as [|x l IH]; intros c Hr Hi; cbn [foldl]; [by rewrite app_nil_r|].
  rewrite filter_cons. case_decide as Hx.
  - rewrite decide_False by tauto. by apply IH.
  - rewrite decide_True by done. destruct (IH (add x.1 c)) as (? & ? & HE); [done..|].
    split_and!; [done..|]. rewrite HE. cbn. by rewrite <- app_assoc.
Qed.

Lemma good_fork i s : good_slice i s -> good_slice i (fork s).
Proof.
  intros (Hid & Hr & (l & Hl) & Hall). rewrite <- Hr in Hl. destruct (fork_values s l Hl) as (Hr' & Hi' & Hd').
  split; [congruence|]. split; [congruence|]. rewrite Hd', Hr. split; [by eexists|].
  rewrite Hl, Hr in Hall. apply Forall_cons in Hall as [H0 Hall]. apply Forall_cons. split; [done|].
  apply Forall_fmap, Forall_forall. intros x [_ Hx]%list_elem_of_filter.
  rewrite Forall_forall in Hall. destruct (Hall x Hx) as [_ Hn]. done.
Qed.

Lemma good_id i j s : good_slice i s -> good_slice j (set_id (Z.of_nat j + 1) s).
Proof. by intros (Hid & Hr & Hl & Hall). Qed.

Lemma good_dependence i d s : good_slice i s -> good_slice i (set_dependence d s).
Proof. done. Qed.

Lemma good_add i n v s : good_slice i s -> reachable n -> node_value n v -> good_slice i (add v s).
Proof.
  intros (Hid & Hr & (l & Hl) & Hall) Hn Hv. split; [done|]. split; [done|]. cbn [dep_vals add]. split.
  - rewrite Hl. by eexists.
  - apply Forall_app. split; [done|]. apply Forall_singleton. split; [done|]. by exists n.
Qed.

(** Updates of the current slice and new slices keep the numbering. *)
Lemma numbered_update w c :
  numbered w -> good_slice (curr w) c -> numbered (set_store (<[curr w := c]> (store w)) w).
Proof.
  intros Hw Hc. constructor; cbn [store added curr curr_slice_id set_store]; rewrite ?length_insert; try apply Hw.
  intros i s. rewrite list_lookup_insert_Some. intros [(<- & <- & _)|[_ Hs]]; [done|by eapply nb_good].
Qed.

Lemma numbered_fork w s i :
  numbered w -> good_slice i s -> Z.of_nat (length (store w)) + 1 < 2 ^ 64 -> numbered (add_fork s w).
Proof.
  intros Hw Hs Hlt. unfold add_fork. rewrite (nb_id _ Hw), u64_small by lia.
  constructor; cbn [store added curr curr_slice_id slices sliceMap add_slice]; rewrite ?length_app; cbn [length].
  - rewrite (nb_slices _ Hw), Nat.add_1_r, seq_S. done.
  - intros j. rewrite (nb_map _ Hw). rewrite decide_False by lia.
    destruct (decide (j = Z.of_nat (length (store w)) + 1)) as [->|Hj].
    + rewrite lookup_insert_eq, decide_True by lia. f_equal. lia.
    + rewrite lookup_insert_ne by done. rewrite (nb_map _ Hw). repeat case_decide; try done; lia.
  - lia.
  - pose proof (nb_curr _ Hw). lia.
  - intros j t [Hj|[Hj Ht]]%lookup_app_Some; [by eapply nb_good|].
    apply list_lookup_singleton_Some in Ht as [Hj' <-]. replace j with (length (store w)) by lia. by eapply good_id.
Qed.

Lemma in_slices_update w c v :
  numbered w -> (forall c0, store w !! curr w = Some c0 -> (dep_vals c0).*1 ⊆ (dep_vals c).*1) ->
  in_slices w v -> in_slices (set_store (<[curr w := c]> (store w)) w) v.
Proof.
  intros Hw Hsub (s & Hs & Hv). apply list_elem_of_lookup in Hs as [i Hi].
  destruct (decide (i = curr w)) as [->|Hne].
  - exists c. split; [|by eapply Hsub]. cbn. apply list_elem_of_lookup. exists (curr w).
    apply list_lookup_insert_eq. apply Hw.
  - exists s. split; [|done]. cbn. apply list_elem_of_lookup. exists i. by rewrite list_lookup_insert_ne.
Qed.

(** ** One edge *)

Definition N : nat := size (list_to_set (nodes g) : gset nat).

Record stepped (w1 w : walk Instr) (k : nat) : Prop := MkStepped {
  si_num : numbered w;
  si_curr : curr w = curr w1;
  si_nodup : NoDup (vstack w);
  si_vis n : n ∈ vstack w -> n ∈ visited w;
  si_reach n : n ∈ visited w -> n ∈ nodes g /\ reachable n;
  si_len : length (vstack w) = (length (vstack w1) + k)%nat;
  si_store : length (store w) = (length (store w1) + pred k)%nat;
  si_size : size (visited w) = (size (visited w1) + k)%nat;
  si_old n : n ∈ visited w1 -> n ∉ vstack w1 -> n ∉ vstack w;
  si_new n : n ∈ visited w -> n ∈ visited w1 \/ n ∈ vstack w;
  si_mono : visited w1 ⊆ visited w;
  si_keep n : n ∈ vstack w1 -> n ∈ vstack w;
  si_vals v : in_slices w1 v -> in_slices w v
}.

Lemma visited_bound (X : gset nat) : (forall n, n ∈ X -> n ∈ nodes g) -> (size X <= N)%nat.
Proof. intros HX. apply subseteq_size. intros n Hn. apply elem_of_list_to_set. by apply HX. Qed.

Context (Hg : walkable) (Hsmall : Z.of_nat N + 1 < 2 ^ 64).

(** After a push and before the fork: as [stepped], but for the number of slices. *)
Definition pushed (w1 w2 : walk Instr) (k : nat) : Prop :=
  numbered w2 /\ curr w2 = curr w1 /\ NoDup (vstack w2) /\
  (forall n, n ∈ vstack w2 -> n ∈ visited w2) /\ (forall n, n ∈ visited w2 -> n ∈ nodes g /\ reachable n) /\
  length (vstack w2) = (length (vstack w1) + S k)%nat /\ length (store w2) = (length (store w1) + pred k)%nat /\
  size (visited w2) = (size (visited w1) + S k)%nat /\
  (forall n, n ∈ visited w1 -> n ∉ vstack w1 -> n ∉ vstack w2) /\
  (forall n, n ∈ visited w2 -> n ∈ visited w1 \/ n ∈ vstack w2) /\ visited w1 ⊆ visited w2 /\
  (forall n, n ∈ vstack w1 -> n ∈ vstack w2) /\
  (forall v, in_slices w1 v -> in_slices w2 v).

Lemma push_walk_ok w1 w k t c c1 :
  stepped w1 w k -> store w !! curr w = Some c -> good_slice (curr w) c1 -> dep_vals c1 = dep_vals c ->
  t ∈ nodes g -> reachable t -> t ∉ visited w ->
  let w2 := push t (set_store (<[curr w := c1]> (store (mark t w))) (mark t w)) in
  pushed w1 w2 k /\ visited w ⊆ visited w2.
Proof.
  intros Hst Hc Hc1 Hd1 Ht Hrt Hvis w2. split; [|cbn; set_solver]. unfold pushed.
  split.
  { pose proof (numbered_update w c1 (si_num _ _ _ Hst) Hc1) as Hn. constructor; apply Hn. }
  split; [apply (si_curr _ _ _ Hst)|]. cbn [w2 vstack visited store push set_store mark].
  split. { constructor; [|apply Hst]. intros Hin. apply Hvis. by apply (si_vis _ _ _ Hst). }
  split. { intros n [->|Hn%(si_vis _ _ _ Hst)]%elem_of_cons; set_solver. }
  split. { intros n [->%elem_of_singleton|Hn]%elem_of_union; [done|by apply (si_reach _ _ _ Hst)]. }
  split. { cbn [length]. rewrite (si_len _ _ _ Hst). lia. }
  split. { rewrite length_insert. apply Hst. }
  split. { rewrite size_union by set_solver. rewrite size_singleton, (si_size _ _ _ Hst). lia. }
  split. { intros n Hn1 Hn2. rewrite not_elem_of_cons. split; [|by apply (si_old _ _ _ Hst)].
    intros ->. apply Hvis. by apply (si_mono _ _ _ Hst). }
  split. { intros n [->%elem_of_singleton|Hn]%elem_of_union; [right; by left|].
    destruct (si_new _ _ _ Hst n Hn); [by left|right; by right]. }
  split. { pose proof (si_mono _ _ _ Hst). set_solver. }
  split. { intros n Hn. right. by apply (si_keep _ _ _ Hst). }
  intros v Hv. apply (si_vals _ _ _ Hst) in Hv. apply (in_slices_update w c1); [apply Hst| |done].
  intros c0 Hc0. rewrite Hc in Hc0. injection Hc0 as <-. by rewrite Hd1.
Qed.

Lemma pushed_stepped_0 w1 w2 : pushed w1 w2 0 -> stepped w1 w2 1.
Proof. intros (? & ? & ? & ? & ? & ? & ? & ? & ? & ? & ? & ? & ?). by constructor. Qed.

Lemma fork_ok w1 w2 k i f :
  pushed w1 w2 k -> (0 < k)%nat -> (length (store w1) <= size (visited w1))%nat -> good_slice i f ->
  stepped w1 (add_fork f w2) (k + 1).
Proof.
  intros (Hn & Hc & Hnd & Hv & Hr & Hlen & Hst & Hsz & Ho & Hnew & Hm & Hkp & Hin) Hk Hcount Hf.
  assert (size (visited w2) <= N)%nat as Hb by (apply visited_bound; intros n Hn'; by apply Hr).
  constructor; try done.
  - eapply numbered_fork; [done..|]. lia.
  - cbn. lia.
  - cbn. rewrite length_app. cbn. lia.
  - cbn. lia.
  - intros v Hv1. destruct (Hin v Hv1) as (s & Hs & Hsv). exists s. split; [|done]. cbn. apply elem_of_app. by left.
Qed.

Lemma explore_ok inter sep unknown w1 elem nd w k e :
  elem ∈ nodes g -> reachable elem -> hnode g !! elem = Some nd -> e ∈ edges nd ->
  (length (store w1) <= size (visited w1))%nat -> stepped w1 w k ->
  exists w' k', explore getFunction inter sep g unknown (w, k) e = Some (w', k') /\ stepped w1 w' k' /\
    visited w ⊆ visited w' /\
    (inter = true -> sep = false -> forall t, target g e = Some t -> t ∈ visited w').
Proof.
  intros Hel Hre Hnd He Hcount Hst. destruct (wk_edge Hg _ _ _ Hel Hnd He) as (ed & Hed & Ht).
  destruct (lookup_lt_is_Some_2 (store w) (curr w)) as [c Hc]; [apply (si_num _ _ _ Hst)|].
  pose proof (nb_good _ (si_num _ _ _ Hst) _ _ Hc) as Hgood. pose proof Hgood as (_ & _ & [l Hcl] & _).
  unfold explore. rewrite Hed. simpl_bind. rewrite Hc. simpl_bind.
  destruct (sep && negb unknown && bool_decide (kind ed = dependence c)) eqn:Hsep.
  { exists w, k. split; [done|]. split; [done|]. split; [done|]. intros _ ->. done. }
  destruct (wk_node Hg _ Ht) as [tn Htn]. rewrite Htn. simpl_bind. rewrite Hcl. cbn [head mbind option_bind].
  assert (exists b, (if inter then Some false else
    Some (negb (bool_decide (getFunction (value tn) = getFunction (root_val, 0).1)))) = Some b /\
    (inter = true -> b = false)) as (b & Hb & Hbi) by (destruct inter; by eexists).
  rewrite Hb. simpl_bind. destruct b.
  { exists w, k. split; [done|]. split; [done|]. split; [done|]. intros Hi. by specialize (Hbi Hi). }
  destruct (decide (target_node ed ∈ visited w)) as [Hvis|Hvis].
  { exists w, k. split; [done|]. split; [done|]. split; [done|]. intros _ _ t. unfold target. rewrite Hed.
    by intros [= <-]. }
  set (t := target_node ed) in *.
  assert (reachable t) as Hrt.
  { eapply rtc_r; [exact Hre|]. exists nd, e, ed. done. }
  clear Hb Hbi.
  set (c1 := if sep && bool_decide (dependence c = Unknown) then set_dependence (kind ed) c else c).
  assert (good_slice (curr w) c1) as Hc1 by (subst c1; destruct (sep && bool_decide (dependence c = Unknown)); [by apply good_dependence|done]).
  assert (dep_vals c1 = dep_vals c) as Hd1 by (subst c1; by destruct (sep && bool_decide (dependence c = Unknown))).
  destruct (push_walk_ok w1 w k t c c1 Hst Hc Hc1 Hd1 Ht Hrt Hvis) as [Hpush Hsub].
  assert (target g e = Some t) as Hte by (unfold target; by rewrite Hed).
  destruct (decide (1 < k + 1)%nat) as [Hk|Hk].
  - eexists _, _. split; [done|]. split.
    + apply (fork_ok w1 _ k (curr w)); [done|lia|done|]. destruct (sep && unknown); [apply good_dependence|]; by apply good_fork.
    + split; [done|]. intros _ _ t' Ht'. rewrite Hte in Ht'. injection Ht' as <-. cbn. set_solver.
  - eexists _, _. split; [done|]. replace k with 0%nat in * by lia. split; [|split; [done|]].
    + apply pushed_stepped_0. exact Hpush.
    + intros _ _ t' Ht'. rewrite Hte in Ht'. injection Ht' as <-. cbn. set_solver.
Qed.

(** ** One node *)

Lemma explore_all_ok inter sep unknown w1 elem nd :
  elem ∈ nodes g -> reachable elem -> hnode g !! elem = Some nd ->
  (length (store w1) <= size (visited w1))%nat -> stepped w1 w1 0 ->
  exists w k, mfold (explore getFunction inter sep g unknown) (w1, 0%nat) (reverse (edges nd)) = Some (w, k) /\
    stepped w1 w k /\ (inter = true -> sep = false -> forall m, succ elem m -> m ∈ visited w).
Proof.
  intros Hel Hre Hnd Hcount H0.
  destruct (mfold_total (explore getFunction inter sep g unknown)
    (fun l acc => stepped w1 acc.1 acc.2 /\
       (inter = true -> sep = false -> forall e t, e ∈ l -> target g e = Some t -> t ∈ visited acc.1))
    (reverse (edges nd)) (w1, 0%nat)) as ([w k] & Hf & Hst & Hall).
  - split; [done|]. intros _ _ e t []%elem_of_nil.
  - intros l1 e l2 [w k] Hl [Hst Hall]. cbn [fst snd] in *.
    assert (e ∈ edges nd) as He by (apply elem_of_reverse; rewrite Hl; set_solver).
    destruct (explore_ok inter sep unknown w1 elem nd w k e Hel Hre Hnd He Hcount Hst)
      as (w' & k' & Hx & Hst' & Hsub & Hte).
    exists (w', k'). split; [done|]. split; [done|]. cbn [fst]. intros Hi Hs e' t [He'|He']%elem_of_app Ht.
    + apply Hsub. by apply (Hall Hi Hs e' t).
    + apply list_elem_of_singleton in He' as ->. by apply Hte.
  - exists w, k. split; [done|]. split; [done|]. intros Hi Hs m (nd' & e & ed & Hnd' & He & Hed & <-).
    rewrite Hnd in Hnd'. injection Hnd' as <-. apply (Hall Hi Hs e); [by apply elem_of_reverse|].
    unfold target. by rewrite Hed.
Qed.

(** The invariant of the loop. *)
Record explored (inter sep : bool) w : Prop := MkExplored {
  ex_num : numbered w;
  ex_nodup : NoDup (vstack w);
  ex_vis n : n ∈ vstack w -> n ∈ visited w \/ vstack w = [n];
  ex_reach n : n ∈ visited w \/ n ∈ vstack w -> n ∈ nodes g /\ reachable n;
  ex_count : (length (store w) <= size (visited w ∪ list_to_set (vstack w)))%nat;
  ex_done n : n ∈ visited w -> n ∉ vstack w ->
    (forall v, node_value n v -> in_slices w v) /\
    (inter = true -> sep = false -> forall m, succ n m -> m ∈ visited w);
  ex_root : groot g ∈ visited w \/ groot g ∈ vstack w
}.

Definition measure w : nat := (N - size (visited w ∪ list_to_set (vstack w)) + length (vstack w))%nat.

(** The state after the node was popped, marked and added to the current slice. *)
Definition popped w elem st c0 : walk Instr :=
  set_store (<[curr (mark elem (pop st w)) := c0]> (store (mark elem (pop st w)))) (mark elem (pop st w)).

Lemma popped_visited inter sep w elem st :
  explored inter sep w -> vstack w = elem :: st ->
  (forall n, n ∈ st -> n ∈ visited w) /\ {[ elem ]} ∪ visited w = visited w ∪ list_to_set (vstack w) /\ elem ∉ st.
Proof.
  intros Hex Hst. pose proof (ex_nodup _ _ _ Hex) as Hnd. rewrite Hst in Hnd. apply NoDup_cons in Hnd as [Hni _].
  assert (forall n, n ∈ st -> n ∈ visited w) as Hsub.
  { intros n Hn. destruct (ex_vis _ _ _ Hex n) as [Hv|Hv]; [rewrite Hst; by right|done|].
    rewrite Hst in Hv. injection Hv as -> ->. by apply elem_of_nil in Hn. }
  split; [done|]. split; [|done]. rewrite Hst. apply set_eq. intros n. rewrite !elem_of_union, elem_of_list_to_set.
  rewrite elem_of_singleton, elem_of_cons. naive_solver.
Qed.

Lemma popped_stepped inter sep w elem st c0 :
  explored inter sep w -> vstack w = elem :: st -> good_slice (curr w) c0 ->
  stepped (popped w elem st c0) (popped w elem st c0) 0.
Proof.
  intros Hex Hst Hc0. destruct (popped_visited _ _ _ _ _ Hex Hst) as (Hsub & Hset & Hni).
  pose proof (numbered_update w c0 (ex_num _ _ _ Hex) Hc0) as Hn.
  assert (forall n, n ∈ {[elem]} ∪ visited w -> n ∈ nodes g /\ reachable n) as Hre.
  { intros n Hn'. rewrite Hset in Hn'. apply (ex_reach _ _ _ Hex).
    apply elem_of_union in Hn' as [?|?%elem_of_list_to_set]; [by left|by right]. }
  constructor; try done; cbn [popped vstack visited store curr set_store mark pop]; try lia; try tauto.
  - constructor; apply Hn.
  - pose proof (ex_nodup _ _ _ Hex) as Hnd. rewrite Hst in Hnd. by apply NoDup_cons in Hnd as [_ ?].
  - intros n Hn'. apply elem_of_union. right. by apply Hsub.
Qed.

Lemma popped_values w elem st c c0 v :
  numbered w -> store w !! curr w = Some c -> dep_vals c ⊆ dep_vals c0 -> in_slices w v ->
  in_slices (popped w elem st c0) v.
Proof.
  intros Hn Hc Hsub Hv. destruct (in_slices_update w c0 v Hn) as (s & Hs & Hsv); [|done|by exists s].
  intros c' Hc'. rewrite Hc in Hc'. injection Hc' as <-. intros x (y & -> & Hy)%list_elem_of_fmap.
  apply list_elem_of_fmap. exists y. split; [done|]. by apply Hsub.
Qed.

(** What was done before a node is popped stays done. *)
Lemma done_kept inter sep w elem st c c0 w2 k :
  explored inter sep w -> vstack w = elem :: st -> store w !! curr w = Some c -> dep_vals c ⊆ dep_vals c0 ->
  (forall v, node_value elem v -> in_slices (popped w elem st c0) v) ->
  (inter = true -> sep = false -> forall m, succ elem m -> m ∈ visited w2) ->
  stepped (popped w elem st c0) w2 k ->
  forall n, n ∈ visited w2 -> n ∉ vstack w2 ->
    (forall v, node_value n v -> in_slices w2 v) /\
    (inter = true -> sep = false -> forall m, succ n m -> m ∈ visited w2).
Proof.
  intros Hex Hst Hc Hsub Hval Hsucc Hstep n Hn Hns.
  destruct (si_new _ _ _ Hstep n Hn) as [Hv|Hv]; [|done].
  destruct (decide (n = elem)) as [->|Hne].
  { split; [|done]. intros v Hv'. apply (si_vals _ _ _ Hstep). by apply Hval. }
  assert (n ∈ visited w) as Hvw by (cbn in Hv; set_solver).
  assert (n ∉ vstack w) as Hnw.
  { rewrite Hst, not_elem_of_cons. split; [done|]. intros Hin. by apply Hns, (si_keep _ _ _ Hstep). }
  destruct (ex_done _ _ _ Hex n Hvw Hnw) as [Hd1 Hd2]. split.
  - intros v Hv'. apply (si_vals _ _ _ Hstep). eapply popped_values; eauto. apply Hex.
  - intros Hi Hs m Hm. apply (si_mono _ _ _ Hstep). cbn. apply elem_of_union. right. by apply (Hd2 Hi Hs).
Qed.

Lemma stepped_explored inter sep w elem st c c0 w2 k :
  explored inter sep w -> vstack w = elem :: st -> store w !! curr w = Some c -> dep_vals c ⊆ dep_vals c0 ->
  (forall v, node_value elem v -> in_slices (popped w elem st c0) v) ->
  (inter = true -> sep = false -> forall m, succ elem m -> m ∈ visited w2) ->
  stepped (popped w elem st c0) w2 k -> explored inter sep w2 /\ S (measure w2) = measure w.
Proof.
  intros Hex Hst Hc Hsub Hval Hsucc Hstep.
  destruct (popped_visited _ _ _ _ _ Hex Hst) as (Hsub' & Hset & Hni).
  assert (visited w2 ∪ list_to_set (vstack w2) = visited w2) as Hset2.
  { apply set_eq. intros n. rewrite elem_of_union, elem_of_list_to_set. pose proof (si_vis _ _ _ Hstep n). naive_solver. }
  pose proof (si_size _ _ _ Hstep) as Hsize. cbn [popped visited set_store mark pop] in Hsize. rewrite Hset in Hsize.
  pose proof (si_store _ _ _ Hstep) as Hstore. cbn [popped store set_store mark pop] in Hstore. rewrite length_insert in Hstore.
  pose proof (si_len _ _ _ Hstep) as Hlen. cbn [popped vstack set_store mark pop] in Hlen.
  assert (size (visited w2) <= N)%nat as Hb by (apply visited_bound; intros n Hn; by apply (si_reach _ _ _ Hstep)).
  pose proof (ex_count _ _ _ Hex) as Hcount. split.
  - constructor.
    + apply Hstep.
    + apply Hstep.
    + intros n Hn. left. by apply (si_vis _ _ _ Hstep).
    + intros n [Hn|Hn]; apply (si_reach _ _ _ Hstep); [done|by apply (si_vis _ _ _ Hstep)].
    + rewrite Hset2. lia.
    + by eapply done_kept.
    + left. apply (si_mono _ _ _ Hstep). cbn.
      destruct (ex_root _ _ _ Hex) as [Hr|Hr]; [set_solver|]. rewrite Hst in Hr.
      apply elem_of_cons in Hr as [->|Hr]; [set_solver|]. apply elem_of_union. right. by apply Hsub'.
  - unfold measure. rewrite Hset2, Hlen, Hsize. rewrite Hsize in Hb. rewrite Hst in *. cbn [length]. lia.
Qed.

Lemma add_current_ok w : numbered w -> add_current w = Some w.
Proof.
  intros Hw. unfold add_current. destruct (lookup_lt_is_Some_2 (store w) (curr w)) as [c Hc]; [apply Hw|].
  rewrite Hc. simpl_bind. destruct (nb_good _ Hw _ _ Hc) as (Hid & _).
  pose proof (nb_curr _ Hw). unfold has. rewrite (nb_map _ Hw), Hid, decide_True by lia. by rewrite bool_decide_eq_true_2.
Qed.

Lemma numbered_next w c :
  numbered w -> store w !! curr w = Some c -> Z.of_nat (length (store w)) + 1 < 2 ^ 64 ->
  get (added w) (u64 (id c + 1)) =
    if decide (S (curr w) < length (store w))%nat then Some (S (curr w)) else None.
Proof.
  intros Hw Hc Hlt. destruct (nb_good _ Hw _ _ Hc) as (Hid & _). pose proof (nb_curr _ Hw).
  unfold get. rewrite Hid, u64_small, (nb_map _ Hw) by lia.
  destruct (decide (S (curr w) < length (store w))%nat).
  - rewrite decide_True by lia. f_equal. lia.
  - by rewrite decide_False by lia.
Qed.

Lemma explored_curr inter sep w i :
  explored inter sep w -> (i < length (store w))%nat -> explored inter sep (set_curr i w).
Proof.
  intros Hex Hi. pose proof (ex_num _ _ _ Hex) as Hn.
  constructor; try apply Hex. constructor; try apply Hn. done.
Qed.

(** One round: either the walk ends with an empty stack, or it goes on with one node
    less to do.  The stack holds one node for the current slice and each slice
    after it. *)
Lemma walk_node_ok inter sep w elem st :
  explored inter sep w -> vstack w = elem :: st -> (length (vstack w) + curr w = length (store w))%nat ->
  exists w' stop, walk_node getFunction inter sep g w elem st = Some (w', stop) /\ explored inter sep w' /\
    if (stop : bool) then vstack w' = []
    else (length (vstack w') + curr w' = length (store w'))%nat /\ S (measure w') = measure w.
Proof.
  intros Hex Hst Hslack. pose proof (ex_num _ _ _ Hex) as Hn.
  destruct (ex_reach _ _ _ Hex elem) as [Hel Hre]; [right; rewrite Hst; by left|].
  destruct (wk_node Hg _ Hel) as [nd Hnd].
  destruct (lookup_lt_is_Some_2 (store w) (curr w)) as [c Hc]; [apply Hn|].
  pose proof (nb_good _ Hn _ _ Hc) as Hgood. set (c0 := if decide (elem = groot g) then c else add (value nd) c).
  assert (good_slice (curr w) c0 /\ dep_vals c ⊆ dep_vals c0 /\ value nd ∈ (dep_vals c0).*1) as (Hg0 & Hsub & Hv0).
  { subst c0. destruct (decide (elem = groot g)) as [->|Hne].
    - split; [done|]. split; [done|]. destruct (wk_root_val Hg) as (rd & Hrd & Hrv). rewrite Hnd in Hrd.
      injection Hrd as <-. destruct Hgood as (_ & _ & (l & ->) & _). rewrite Hrv. by left.
    - split; [eapply good_add; [done..|by exists nd]|]. cbn [dep_vals add]. split; [set_solver|].
      rewrite fmap_app. apply elem_of_app. right. by left. }
  assert (forall v, node_value elem v -> in_slices (popped w elem st c0) v) as Hval.
  { intros v (nd' & Hnd' & <-). rewrite Hnd in Hnd'. injection Hnd' as <-. exists c0. split; [|done].
    cbn. apply list_elem_of_lookup. exists (curr w). apply list_lookup_insert_eq. apply Hn. }
  pose proof (popped_stepped _ _ _ _ _ c0 Hex Hst Hg0) as H0.
  assert (length (store (popped w elem st c0)) <= size (visited (popped w elem st c0)))%nat as Hcount.
  { cbn. rewrite length_insert. destruct (popped_visited _ _ _ _ _ Hex Hst) as (_ & -> & _). apply (ex_count _ _ _ Hex). }
  destruct (explore_all_ok inter sep (bool_decide (dependence c0 = Unknown)) _ elem nd Hel Hre Hnd Hcount H0)
    as (w2 & k & Hf & Hstep & Hsucc).
  destruct (stepped_explored _ _ _ _ _ _ _ _ _ Hex Hst Hc Hsub Hval Hsucc Hstep) as [Hex2 Hm].
  pose proof (si_store _ _ _ Hstep) as Hlen. cbn in Hlen. rewrite length_insert in Hlen.
  pose proof (si_len _ _ _ Hstep) as Hvl. cbn in Hvl. pose proof (si_curr _ _ _ Hstep) as Hcu. cbn in Hcu.
  unfold walk_node. rewrite Hnd. cbn [mbind option_bind store curr mark pop]. rewrite Hc. simpl_bind.
  fold c0. change (set_store _ _) with (popped w elem st c0). rewrite Hf. simpl_bind.
  destruct (decide (k = 0%nat)) as [->|Hk].
  2:{ exists w2, false. split; [done|]. split; [done|]. split; [|done]. rewrite Hst in Hslack. cbn in Hslack. lia. }
  rewrite add_current_ok by apply Hstep. simpl_bind.
  destruct (lookup_lt_is_Some_2 (store w2) (curr w2)) as [c3 Hc3]; [apply Hstep|]. rewrite Hc3. simpl_bind.
  assert (size (visited w2) <= N)%nat as Hb by (apply visited_bound; intros n Hn'; by apply (si_reach _ _ _ Hstep)).
  pose proof (si_size _ _ _ Hstep) as Hsz. rewrite Hst in Hslack. cbn [length] in Hslack.
  assert (Z.of_nat (length (store w2)) + 1 < 2 ^ 64) as Hlt.
  { cbn [popped store set_store mark pop] in Hcount. rewrite length_insert in Hcount. lia. }
  rewrite (numbered_next w2 c3) by (try done; apply Hstep).
  destruct (decide (S (curr w2) < length (store w2))%nat) as [Hnext|Hnext].
  - eexists _, false. split; [done|]. split; [by apply explored_curr|]. split; [cbn; lia|done].
  - exists w2, true. split; [done|]. split; [done|]. apply nil_length_inv. lia.
Qed.

(** ** The loop *)

Lemma walk_loop_ok inter sep fuel w :
  explored inter sep w -> (length (vstack w) + curr w = length (store w))%nat -> (measure w <= fuel)%nat ->
  exists w', walk_loop getFunction fuel inter sep g w = Some (Some w') /\ explored inter sep w' /\ vstack w' = [].
Proof.
  revert w. induction fuel as [|fuel IH]; intros w Hex Hslack Hm; cbn [walk_loop].
  - pose proof (nb_curr _ (ex_num _ _ _ Hex)). unfold measure in Hm.
    destruct (vstack w) eqn:Hst; cbn [length] in *; lia.
  - destruct (vstack w) as [|elem st] eqn:Hst; [by exists w|].
    destruct (walk_node_ok inter sep w elem st Hex Hst) as (w' & stop & Hw & Hex' & Hend); [by rewrite Hst|].
    rewrite Hw. simpl_bind. destruct stop; [by exists w'|]. destruct Hend as [Hs' Hm'].
    apply IH; [done|done|lia].
Qed.

Lemma initial_ok inter sep :
  explored inter sep (initial g no_slices root_val) /\ measure (initial g no_slices root_val) = N.
Proof.
  assert (visited (initial g no_slices root_val) ∪ list_to_set (vstack (initial g no_slices root_val)) = {[ groot g ]}) as Hset.
  { cbn. set_solver. }
  assert (1 <= N)%nat as HN.
  { rewrite <- (size_singleton (C := gset nat) (groot g)). apply visited_bound. intros n ->%elem_of_singleton. apply Hg. }
  split; [|unfold measure; rewrite Hset, size_singleton; cbn [length vstack initial]; lia].
  destruct (wk_root_val Hg) as (rd & Hrd & Hrv).
  constructor.
  - constructor; cbn; try done; [|lia|].
    + intros i. rewrite lookup_empty. destruct (decide (i = 1)) as [->|Hi].
      * by rewrite lookup_insert_eq.
      * rewrite lookup_insert_ne, lookup_empty by done. by rewrite decide_False by lia.
    + intros i s [-> <-]%list_lookup_singleton_Some. split; [done|]. split; [done|]. split; [by exists []|].
      apply Forall_singleton. split; [done|]. exists (groot g). split; [constructor|by exists rd].
  - apply NoDup_singleton.
  - cbn. intros n ->%list_elem_of_singleton. by right.
  - cbn. intros n [[]%elem_of_empty| ->%list_elem_of_singleton]. split; [apply Hg|constructor].
  - rewrite Hset, size_singleton. cbn. lia.
  - cbn. intros n []%elem_of_empty.
  - cbn. right. by left.
Qed.

Lemma explored_reachable w n : explored true false w -> vstack w = [] -> reachable n -> n ∈ visited w.
Proof.
  intros Hex Hst Hn. revert n Hn. refine (rtc_ind_r _ (groot g) _ _).
  - destruct (ex_root _ _ _ Hex) as [?|Hr]; [done|]. rewrite Hst in Hr. by apply elem_of_nil in Hr.
  - intros m n _ Hmn IH. destruct (ex_done _ _ _ Hex m IH) as [_ Hd]; [rewrite Hst; by apply not_elem_of_nil|]. by apply Hd.
Qed.

Lemma in_slices_reachable w v : numbered w -> in_slices w v -> exists n, reachable n /\ node_value n v.
Proof.
  intros Hn (s & Hs & Hv). apply list_elem_of_lookup in Hs as [i Hi].
  destruct (nb_good _ Hn _ _ Hi) as (_ & _ & _ & Hall). apply list_elem_of_fmap in Hv as (x & -> & Hx).
  rewrite Forall_forall in Hall. by destruct (Hall x Hx) as [_ ?].
Qed.

(** The result of [computeSlices] from an empty list of slices, whatever the flags. *)
Lemma computeSlices_ok fuel inter sep :
  (N <= fuel)%nat -> exists w, computeSlices getFunction fuel g no_slices inter sep = Some (Some w) /\
    explored inter sep w /\ vstack w = [].
Proof.
  intros Hfuel. destruct (wk_root_val Hg) as (rd & Hrd & Hrv).
  destruct (initial_ok inter sep) as [Hex Hm].
  destruct (walk_loop_ok inter sep fuel _ Hex) as (w & Hw & Hexw & Hst); [done|lia|].
  exists w. split; [|done]. unfold computeSlices. rewrite Hrd. simpl_bind. rewrite Hrv, Hw. simpl_bind.
  by rewrite add_current_ok by apply Hexw.
Qed.

(** C16. The walk terminates without undefined behaviour on a graph whose pointers
    are valid, one round for each node being enough; the slices are numbered from
    1 in the order of the list, at most one for each node, each starts with the
    root and holds instructions that are reachable from it; and with the default
    flags every reachable instruction is in some slice. *)
Theorem computeSlices_covers fuel inter sep :
  (N <= fuel)%nat -> exists w, computeSlices getFunction fuel g no_slices inter sep = Some (Some w) /\
    slices (added w) = seq 0 (length (store w)) /\ (1 <= length (store w) <= N)%nat /\
    (forall i s, store w !! i = Some s -> good_slice i s) /\
    (inter = true -> sep = false -> forall v, in_slices w v <-> exists n, reachable n /\ node_value n v).
Proof.
  intros Hfuel. destruct (computeSlices_ok fuel inter sep Hfuel) as (w & Hw & Hex & Hst). exists w.
  pose proof (ex_num _ _ _ Hex) as Hn. split; [done|]. split; [apply Hn|]. split; [|split; [apply Hn|]].
  - pose proof (nb_curr _ Hn). pose proof (ex_count _ _ _ Hex) as Hc.
    assert (size (visited w ∪ list_to_set (vstack w)) <= N)%nat; [|lia]. apply visited_bound.
    intros n Hin. apply (ex_reach _ _ _ Hex). by rewrite elem_of_union, elem_of_list_to_set in Hin.
  - intros -> -> v. split; [by apply in_slices_reachable|]. intros (n & Hr & Hv).
    pose proof (explored_reachable w n Hex Hst Hr) as Hvis.
    apply (ex_done _ _ _ Hex n Hvis); [rewrite Hst; by apply not_elem_of_nil|done].
Qed.

End Coverage.

(** Graphs built from dependences can be walked. *)
Lemma wf_walkable {Instr} `{Countable Instr} (g : SliceGraph Instr) v :
  wf g -> node_map g !! v = Some (groot g) -> walkable g v.
Proof.
  intros Hwf Hv. destruct (wf_map _ Hwf _ _ Hv) as (Hn & nd & Hnd & Hval). constructor.
  - done.
  - by exists nd.
  - intros n Hin. destruct (wf_alloc _ Hwf _ Hin) as (nd' & -> & _). done.
  - intros n nd' e Hin Hnd' He. destruct (wf_edge _ Hwf _ _ _ Hin Hnd' He) as (ed & Hed & Ht & _). by exists ed.
Qed.

(** ** Slices are not paths *)

(** Dependences of instruction 0 on 1 and 2, and of 1 on 3 and 4. *)
Definition ex_links : list (Z * Z * SliceDependence) :=
  [(0, 1, RegisterDefUse); (0, 2, RegisterDefUse); (1, 3, RegisterDefUse); (1, 4, MemoryDependence)].
Definition ex_graph : option (SliceGraph Z) := g0 ← new_graph 0 Backward 1; mfold link g0 ex_links.

Definition slice_values (r : option (option (walk Z))) : list (list Z) :=
  match r with Some (Some w) => (fun s => (dep_vals s).*1) <$> store w | _ => [] end.

(** A slice is a path when consecutive values are connected. *)
Fixpoint path_in (A : gmap Z (list (Z * SliceDependence))) (l : list Z) : bool :=
  match l with
  | v :: ((w :: _) as l') => match A !! v with Some es => bool_decide (w ∈ es.*1) | None => false end && path_in A l'
  | _ => true
  end.

(** A slice does not represent one path in the slice graph: after the first leaf the walk
    takes up the slice with the next id, the oldest fork, but the node on top of
    the stack, which belongs to the youngest.  With nested forks the values are
    attributed to the wrong slices. *)
Theorem slices_not_paths :
  exists g, ex_graph = Some g /\
    slice_values (computeSlices (fun _ => tt) 5 g no_slices true false) = [[0; 1; 3]; [0; 4]; [0; 1; 2]] /\
    path_in (foldl spec_link {[ 0 := [] ]} ex_links) <$> [[0; 1; 3]; [0; 4]; [0; 1; 2]] = [true; false; false].
Proof. eexists. split; [vm_compute; reflexivity|]. split; vm_compute; reflexivity. Qed.

(** With [separate_dependence] a slice is meant to follow dependences of one kind; the
    test skips the edges of that kind instead, so that the slice of a chain of
    register dependences stops after the first. *)
Theorem separate_dependence_inverted :
  slice_values (g0 ← new_graph 0 Backward 1;
    g ← mfold link g0 [(0, 1, RegisterDefUse); (1, 2, RegisterDefUse)];
    computeSlices (fun _ => tt) 5 g no_slices true true) = [[0; 1]] /\
  slice_values (g0 ← new_graph 0 Backward 1;
    g ← mfold link g0 [(0, 1, RegisterDefUse); (1, 2, MemoryDependence)];
    computeSlices (fun _ => tt) 5 g no_slices true true) = [[0; 1; 2]].
Proof. split; vm_compute; reflexivity. Qed.

Lemma computeSlices_covers_witness :
  exists g, ex_graph = Some g /\ walkable g 0 /\ N g = 5%nat /\
    exists w, computeSlices (fun _ => tt) 5 g no_slices true false = Some (Some w) /\ in_slices w 4.
Proof.
  assert (exists g, ex_graph = Some g /\ wf g /\ node_map g !! 0 = Some (groot g) /\ N g = 5%nat) as (g & He & Hwf & Hr & HN).
  { destruct (graph_refines_ok 0 Backward 1 ex_links) as (g0 & g & Hg0 & Hm & (Hwf & _) & Hr & _).
    exists g. unfold ex_graph. rewrite Hg0. split; [done|]. split; [done|].
    vm_compute in Hg0. injection Hg0 as <-. vm_compute in Hm. injection Hm as <-. split; reflexivity. }
  exists g. split; [done|]. pose proof (wf_walkable g 0 Hwf Hr) as Hw. split; [done|]. split; [done|].
  destruct (computeSlices_covers (fun _ => tt) g 0 Hw) with (fuel := 5%nat) (inter := true) (sep := false)
    as (w & Hc & _ & _ & _ & Hall); [rewrite HN; lia|lia|].
  exists w. split; [done|]. apply (Hall eq_refl eq_refl).
  unfold ex_graph in He. vm_compute in He. injection He as <-.
  exists 7%nat. split.
  - eapply rtc_l; [|eapply rtc_l; [|apply rtc_refl]].
    + eexists _, _, _. split; [reflexivity|]. split; [by left|]. split; reflexivity.
    + eexists _, _, _. split; [reflexivity|]. split; [right; by left|]. split; reflexivity.
  - eexists. split; reflexivity.
Defined.

End ComputeSlices.
