(* ===== verification/SliceOrder.v ===== *)
(** * Ordering the edges of a slice graph (analyzer/lib/Slicing/SliceGraph.cpp)

    [computeDistances] gives each edge a distance, from positions of instructions in
    their functions, and [sort] orders the edges of every node by them.  The
    functions' lists of instructions are LLVM's, [std::sort] is a parameter. *)
From stdpp Require Import base list gmap sorting.
From S2P Require Import Prelude Slice SliceGraph.
Import Slice SliceGraph.

Module SliceOrder.

(** Conversion to [int64_t]. *)
Definition s64 (z : Z) : Z := (z + 2 ^ 63) mod 2 ^ 64 - 2 ^ 63.

Lemma s64_u64_small z : - 2 ^ 63 <= z < 2 ^ 63 -> s64 (u64 z) = z.
Proof.
  intros Hz. unfold s64, u64. rewrite Z.add_mod_idemp_l by lia. rewrite Z.mod_small; lia.
Qed.

Section Order.
Context {Instr Fn : Type} `{Countable Instr} `{Countable Fn}.
Context (getFunction : Instr -> Fn) (insts : Fn -> list Instr).
Implicit Types (g : SliceGraph Instr).

(** [funcInsts], the instructions of interest by function. *)
Definition add_inst (m : gmap Fn (gset Instr)) (i : Instr) : gmap Fn (gset Instr) :=
  match m !! getFunction i with
  | None => <[getFunction i := {[ i ]}]> m
  | Some s => <[getFunction i := {[ i ]} ∪ s]> m
  end.

Definition collect_edges g (m : gmap Fn (gset Instr)) (es : list nat) : option (gmap Fn (gset Instr)) :=
  mfold (fun m e => ed ← hedge g !! e; tn ← hnode g !! target_node ed; Some (add_inst m (value tn))) m es.

Definition collect g : option (gmap Fn (gset Instr)) :=
  mfold (fun m n => nd ← hnode g !! n; collect_edges g (add_inst m (value nd)) (edges nd)) ∅ (nodes g).

(** [instPosMap]: the instructions of a function are counted from 1. *)
Definition scan_inst (inst_set : gset Instr) (acc : gmap Instr Z * Z) (inst : Instr) : gmap Instr Z * Z :=
  let position := u64 (acc.2 + 1) in
  (if decide (inst ∈ inst_set) then emplace inst position acc.1 else acc.1, position).

Definition scan_func (m : gmap Instr Z) (entry : Fn * gset Instr) : gmap Instr Z :=
  (foldl (scan_inst entry.2) (m, 0) (insts entry.1)).1.

Definition instPosMap (funcInsts : gmap Fn (gset Instr)) : gmap Instr Z :=
  foldl scan_func ∅ (map_to_list funcInsts).

Definition set_distance (d : Z) (e : nat) (ed : SliceEdge) g : SliceGraph Instr :=
  set_hedge (<[e := MkEdge (target_node ed) (kind ed) d]> (hedge g)) g.

(** The edges of one node; [refPosMap] remembers a reference position for each
    function.  When a position is missing, the function returns false with the
    distances set so far. *)
Fixpoint edge_loop (posMap : gmap Instr Z) (es : list nat) (refPosMap : gmap Fn Z) (external_funcs : Z) g
  : option (bool * SliceGraph Instr) :=
  match es with
  | [] => Some (true, g)
  | e :: es' =>
    ed ← hedge g !! e;
    tn ← hnode g !! target_node ed;
    match posMap !! value tn with
    | None => Some (false, g)
    | Some p =>
      let target_func := getFunction (value tn) in
      let '(ref_position, refPosMap', external_funcs') :=
        match refPosMap !! target_func with
        | None =>
          if decide (gdirection g = Backward)
          then (u64 (100000 * external_funcs), <[target_func := u64 (100000 * external_funcs)]> refPosMap, external_funcs + 1)
          else (0, <[target_func := 0]> refPosMap, external_funcs)
        | Some r => (r, refPosMap, external_funcs)
        end in
      edge_loop posMap es' refPosMap' external_funcs' (set_distance (s64 (u64 (p - ref_position))) e ed g)
    end
  end.

Fixpoint node_loop (posMap : gmap Instr Z) (ns : list nat) g : option (bool * SliceGraph Instr) :=
  match ns with
  | [] => Some (true, g)
  | n :: ns' =>
    nd ← hnode g !! n;
    match posMap !! value nd with
    | None => Some (false, g)
    | Some p =>
      '(ok, g') ← edge_loop posMap (edges nd) {[ getFunction (value nd) := p ]} 1 g;
      if (ok : bool) then node_loop posMap ns' g' else Some (false, g')
    end
  end.

Definition computeDistances g : option (bool * SliceGraph Instr) :=
  funcInsts ← collect g; node_loop (instPosMap funcInsts) (nodes g) g.

(** [SliceEdgeComparator] on pointers to edges. *)
Definition edge_distance g (e : nat) : Z := match hedge g !! e with Some ed => distance ed | None => 0 end.
Definition edge_less g (e1 e2 : nat) : bool := distance_less (edge_distance g e1) (edge_distance g e2).

Context (std_sort : (nat -> nat -> bool) -> list nat -> list nat).

Definition sort_node g (n : nat) : option (SliceGraph Instr) :=
  nd ← hnode g !! n;
  _ ← mapM (fun e => hedge g !! e) (edges nd);
  Some (set_hnode (<[n := set_edges (std_sort (edge_less g) (edges nd)) nd]> (hnode g)) g).

Definition sort g : option (bool * SliceGraph Instr) :=
  '(ok, g1) ← computeDistances g;
  if (ok : bool) then g2 ← mfold sort_node g1 (nodes g1); Some (true, g2) else Some (false, g1).

(** ** Positions *)

(** The position of an instruction in its function, from 1. *)
Definition position (i : Instr) : option Z :=
  (fun p => Z.of_nat p.1 + 1) <$> list_find (eq i) (insts (getFunction i)).

Lemma scan_insts_ok s l m p j :
  (0 <= p)%Z -> p + Z.of_nat (length l) < 2 ^ 64 ->
  (foldl (scan_inst s) (m, p) l).1 !! j =
    match m !! j with
    | Some v => Some v
    | None => if decide (j ∈ s) then (fun q => p + Z.of_nat q.1 + 1) <$> list_find (eq j) l else None
    end.
Proof.
  revert m p. induction l as [|i l IH]; intros m p Hp Hlen; cbn [foldl].
  { cbn. by destruct (m !! j), (decide (j ∈ s)). }
  cbn [length] in Hlen. unfold scan_inst at 2. cbn [fst snd]. small. rewrite IH by lia.
  cbn [list_find]. destruct (decide (j = i)) as [->|Hji].
  - destruct (m !! i) as [v|] eqn:Hm.
    + destruct (decide (i ∈ s)); [unfold emplace; by rewrite Hm, Hm|by rewrite Hm].
    + destruct (decide (i ∈ s)); [unfold emplace; rewrite Hm, lookup_insert_eq; cbn; f_equal; lia|by rewrite Hm].
  - assert ((if decide (i ∈ s) then emplace i (p + 1) m else m) !! j = m !! j) as ->.
    { destruct (decide (i ∈ s)); [|done]. unfold emplace. destruct (m !! i); [done|]. by rewrite lookup_insert_ne. }
    destruct (m !! j); [done|]. destruct (decide (j ∈ s)); [|done].
    destruct (list_find (eq j) l) as [[n y]|]; [cbn -[Z.of_nat]; f_equal; lia|done].
Qed.

(** Functions are shorter than the machine can count. *)
Context (Hlen : forall f, Z.of_nat (length (insts f)) < 2 ^ 63).

Lemma scan_func_ok m f s j :
  (forall i, i ∈ s -> getFunction i = f) -> m !! j = None \/ getFunction j <> f ->
  scan_func m (f, s) !! j = if decide (j ∈ s) then position j else m !! j.
Proof.
  intros Hs Hj. unfold scan_func. cbn [fst snd]. specialize (Hlen f). rewrite scan_insts_ok by lia.
  destruct (decide (j ∈ s)) as [Hin|Hin].
  - destruct Hj as [->|Hj]; [|by destruct Hj; apply Hs]. unfold position. rewrite (Hs j Hin).
    destruct (list_find (eq j) (insts f)); [cbn; f_equal; lia|done].
  - by destruct (m !! j).
Qed.

Lemma instPosMap_ok fm j s :
  (forall f s i, fm !! f = Some s -> i ∈ s -> getFunction i = f) ->
  fm !! getFunction j = Some s -> j ∈ s -> instPosMap fm !! j = position j.
Proof.
  intros Hfm Hs Hj. unfold instPosMap.
  assert (forall l m, NoDup l.*1 -> (forall f s, (f, s) ∈ l -> fm !! f = Some s) ->
    (m !! j = None \/ getFunction j ∉ l.*1) ->
    foldl scan_func m l !! j = if decide (getFunction j ∈ l.*1) then position j else m !! j) as Hgen.
  { induction l as [|[f t] l IH]; intros m Hnd Hl Hm; cbn [foldl]; [done|].
    rewrite fmap_cons in Hnd, Hm |- *. cbn [fst] in *. apply NoDup_cons in Hnd as [Hni Hnd].
    assert (fm !! f = Some t) as Hft by (apply Hl; by left).
    rewrite elem_of_cons in Hm. pose proof (scan_func_ok m f t j) as Hscan.
    destruct (decide (getFunction j = f)) as [<-|Hne].
    - rewrite IH; [|done|by intros; apply Hl; right|by right]. rewrite decide_False by done.
      rewrite decide_True by (by left). rewrite Hs in Hft. injection Hft as <-.
      rewrite Hscan; [by rewrite decide_True|by intros; eapply Hfm|tauto].
    - assert (j ∉ t) as Hjt by (intros Hin; apply Hne; by eapply Hfm).
      rewrite IH; [|done|by intros; apply Hl; right|].
      + rewrite Hscan; [|by intros; eapply Hfm|by right]. rewrite (decide_False (P := j ∈ t)) by done.
        apply decide_ext. rewrite elem_of_cons. naive_solver.
      + rewrite Hscan; [|by intros; eapply Hfm|by right]. rewrite (decide_False (P := j ∈ t)) by done. tauto. }
  rewrite Hgen.
  - rewrite decide_True; [done|]. apply list_elem_of_fmap. exists (getFunction j, s). split; [done|].
    by apply elem_of_map_to_list.
  - apply NoDup_fst_map_to_list.
  - intros f t Hin. by apply elem_of_map_to_list in Hin.
  - left. apply lookup_empty.
Qed.

(** ** Collecting the instructions *)

Definition by_function (fm : gmap Fn (gset Instr)) : Prop :=
  forall f s i, fm !! f = Some s -> i ∈ s -> getFunction i = f.

Definition collected (fm : gmap Fn (gset Instr)) (i : Instr) : Prop :=
  exists s, fm !! getFunction i = Some s /\ i ∈ s.

Lemma add_inst_by_function fm i : by_function fm -> by_function (add_inst fm i).
Proof.
  intros Hfm f s j. unfold add_inst. destruct (fm !! getFunction i) as [t|] eqn:Ht;
    (destruct (decide (f = getFunction i)) as [->|Hf];
      [rewrite lookup_insert_eq; intros [= <-]|rewrite lookup_insert_ne by done; by apply Hfm]).
  - intros [->%elem_of_singleton|Hj]%elem_of_union; [done|by eapply Hfm].
  - by intros ->%elem_of_singleton.
Qed.

Lemma add_inst_collected fm i j : collected fm j \/ j = i -> collected (add_inst fm i) j.
Proof.
  unfold collected, add_inst. intros Hj.
  destruct (decide (getFunction j = getFunction i)) as [Hf|Hf].
  - rewrite Hf. destruct (fm !! getFunction i) as [t|] eqn:Ht; rewrite lookup_insert_eq; eexists; (split; [done|]).
    + destruct Hj as [(s & Hs & Hj)| ->]; [|set_solver]. rewrite Hf, Ht in Hs. injection Hs as <-. set_solver.
    + destruct Hj as [(s & Hs & Hj)| ->]; [|set_solver]. rewrite Hf, Ht in Hs. done.
  - destruct Hj as [Hj| ->]; [|done]. destruct (fm !! getFunction i); by rewrite lookup_insert_ne.
Qed.

Lemma collect_edges_ok g fm n nd :
  wf g -> n ∈ nodes g -> hnode g !! n = Some nd -> by_function fm ->
  exists fm', collect_edges g fm (edges nd) = Some fm' /\ by_function fm' /\ forall j, collected fm j -> collected fm' j.
Proof.
  intros Hwf Hn Hnd Hfm. unfold collect_edges.
  destruct (mfold_total (fun m e => ed ← hedge g !! e; tn ← hnode g !! target_node ed; Some (add_inst m (value tn)))
    (fun _ m => by_function m /\ forall j, collected fm j -> collected m j) (edges nd) fm) as (fm' & Hm & Hok).
  - done.
  - intros l1 e l2 m Hl [Hm1 Hm2].
    destruct (wf_edge _ Hwf _ _ e Hn Hnd) as (ed & Hed & Ht & _); [rewrite Hl; set_solver|].
    destruct (wf_alloc _ Hwf _ Ht) as (tn & Htn & _). rewrite Hed. simpl_bind. rewrite Htn.
    eexists. split; [done|]. split; [by apply add_inst_by_function|]. intros j Hj. apply add_inst_collected. auto.
  - by exists fm'.
Qed.

Lemma collect_ok g :
  wf g -> exists fm, collect g = Some fm /\ by_function fm /\
    forall n nd, n ∈ nodes g -> hnode g !! n = Some nd -> collected fm (value nd).
Proof.
  intros Hwf. unfold collect.
  destruct (mfold_total (fun m n => nd ← hnode g !! n; collect_edges g (add_inst m (value nd)) (edges nd))
    (fun l m => by_function m /\ forall n nd, n ∈ l -> hnode g !! n = Some nd -> collected m (value nd)) (nodes g) ∅)
    as (fm & Hm & Hfm & Hall).
  - split; [by intros f s i; rewrite lookup_empty|]. by intros n nd []%elem_of_nil.
  - intros l1 n l2 m Hl [Hm1 Hm2]. assert (n ∈ nodes g) as Hn by (rewrite Hl; set_solver).
    destruct (wf_alloc _ Hwf _ Hn) as (nd & Hnd & _). rewrite Hnd. simpl_bind.
    destruct (collect_edges_ok g (add_inst m (value nd)) n nd Hwf Hn Hnd) as (m' & -> & Hm' & Hmono);
      [by apply add_inst_by_function|].
    exists m'. split; [done|]. split; [done|]. intros n' nd' [Hn'|Hn']%elem_of_app Hnd'; apply Hmono, add_inst_collected.
    + left. by eapply Hm2.
    + right. apply list_elem_of_singleton in Hn' as ->. congruence.
  - by exists fm.
Qed.

(** ** Distances *)

(** Only distances differ. *)
Definition same_shape g g' : Prop :=
  exists h, g' = set_hedge h g /\
    forall e, (fun ed => (target_node ed, kind ed)) <$> h !! e = (fun ed => (target_node ed, kind ed)) <$> hedge g !! e.

Lemma same_shape_refl g : same_shape g g.
Proof. exists (hedge g). by destruct g. Qed.

Lemma same_shape_trans g1 g2 g3 : same_shape g1 g2 -> same_shape g2 g3 -> same_shape g1 g3.
Proof.
  intros (h & -> & Hh) (h' & -> & Hh'). exists h'. split; [done|]. intros e. by rewrite Hh', <- Hh.
Qed.

Lemma same_shape_edge g g' e ed :
  same_shape g g' -> hedge g !! e = Some ed ->
  exists ed', hedge g' !! e = Some ed' /\ target_node ed' = target_node ed /\ kind ed' = kind ed.
Proof.
  intros (h & -> & Hh) Hed. specialize (Hh e). rewrite Hed in Hh. cbn. destruct (h !! e) as [ed'|]; [|done].
  injection Hh as ? ?. by exists ed'.
Qed.

Lemma set_distance_shape d e ed g : hedge g !! e = Some ed -> same_shape g (set_distance d e ed g).
Proof.
  intros Hed. eexists. split; [done|]. intros e'. destruct (decide (e' = e)) as [->|Hne].
  - by rewrite lookup_insert_eq, Hed.
  - by rewrite lookup_insert_ne.
Qed.

(** The meaning of the distances of a node's edges: inside the function of the node
    the difference of the positions; in another function the position there, for a
    backward graph less 100000 times the number of that function among the other
    functions in the order they first occur. *)
Definition pos (i : Instr) : Z := default 0 (position i).

Definition ref_of (dir : SliceDirection) (k : nat) : Z :=
  if decide (dir = Backward) then 100000 * (Z.of_nat k + 1) else 0.

Definition func_index (f : Fn) (seen : list Fn) : option nat := fst <$> list_find (eq f) seen.

Fixpoint spec_distances (dir : SliceDirection) (rf : Fn) (rp : Z) (seen : list Fn) (ts : list Instr) : list Z :=
  match ts with
  | [] => []
  | t :: ts' =>
    let f := getFunction t in
    if decide (f = rf) then (pos t - rp) :: spec_distances dir rf rp seen ts'
    else match func_index f seen with
         | Some k => (pos t - ref_of dir k) :: spec_distances dir rf rp seen ts'
         | None => (pos t - ref_of dir (length seen)) :: spec_distances dir rf rp (seen ++ [f]) ts'
         end
  end.

Lemma position_range i p : position i = Some p -> 1 <= p <= Z.of_nat (length (insts (getFunction i))).
Proof.
  unfold position. destruct (list_find (eq i) (insts (getFunction i))) as [[n j]|] eqn:Hf; [|done].
  intros [= <-]. apply list_find_Some in Hf as (Hn%lookup_lt_Some & _). cbn [fst]. lia.
Qed.

Lemma func_index_app f seen f' :
  func_index f (seen ++ [f']) =
    match func_index f seen with Some k => Some k | None => if decide (f = f') then Some (length seen) else None end.
Proof.
  unfold func_index. destruct (list_find (eq f) seen) as [[k x]|] eqn:Hf.
  - by rewrite (list_find_app_l _ _ _ _ _ Hf).
  - rewrite list_find_app_r by done. cbn [list_find]. destruct (decide (f = f')); cbn; [f_equal; lia|done].
Qed.

Lemma func_index_lt f seen k : func_index f seen = Some k -> (k < length seen)%nat.
Proof.
  unfold func_index. destruct (list_find (eq f) seen) as [[k' x]|] eqn:Hf; [|done]. intros [= <-].
  by apply list_find_Some in Hf as (Hn%lookup_lt_Some & _).
Qed.

(** What the map of reference positions and the counter say. *)
Definition refs_ok (dir : SliceDirection) (rf : Fn) (rp : Z) (seen : list Fn) (m : gmap Fn Z) (c : Z) : Prop :=
  (forall f, m !! f = if decide (f = rf) then Some rp else ref_of dir <$> func_index f seen) /\
  (dir = Backward -> c = Z.of_nat (length seen) + 1).

(** A function that was not seen gets the next reference. *)
Lemma refs_ok_app dir rf rp seen m c f :
  refs_ok dir rf rp seen m c -> f <> rf -> func_index f seen = None ->
  refs_ok dir rf rp (seen ++ [f]) (<[f := ref_of dir (length seen)]> m) (if decide (dir = Backward) then c + 1 else c).
Proof.
  intros [Href Hc] Hf Hk. split.
  - intros f'. rewrite func_index_app. destruct (decide (f' = f)) as [->|Hf'].
    + rewrite lookup_insert_eq, decide_False, Hk by done. done.
    + rewrite lookup_insert_ne by done. rewrite Href. destruct (decide (f' = rf)); [done|]. by destruct (func_index f' seen).
  - intros Hb. rewrite decide_True by done. rewrite (Hc Hb), length_app. cbn [length]. lia.
Qed.

Lemma edge_loop_ok pm rf rp es ts seen m c g :
  0 <= rp < 2 ^ 63 -> refs_ok (gdirection g) rf rp seen m c -> NoDup es ->
  100000 * Z.of_nat (length seen + length es + 1) < 2 ^ 63 ->
  Forall2 (fun e t => fst <$> edge_view g e = Some t /\ pm !! t = position t /\ is_Some (position t)) es ts ->
  exists g', edge_loop pm es m c g = Some (true, g') /\ same_shape g g' /\
    (forall e, e ∉ es -> hedge g' !! e = hedge g !! e) /\
    edge_distance g' <$> es = spec_distances (gdirection g) rf rp seen ts.
Proof.
  intros Hrp. revert ts seen m c g. induction es as [|e es IH]; intros ts seen m c g Href Hnd Hsz HF;
    inversion HF as [|e' t es' ts' (Hv & Hpm & [p Hp]) HF']; subst; cbn [edge_loop].
  { exists g. split; [done|]. split; [apply same_shape_refl|done]. }
  apply NoDup_cons in Hnd as [Hni Hnd]. cbn [length] in Hsz.
  unfold edge_view in Hv. destruct (hedge g !! e) as [ed|] eqn:Hed; [|done]. cbn [mbind option_bind] in Hv |- *.
  destruct (hnode g !! target_node ed) as [tn|] eqn:Htn; [|done]. cbn in Hv. injection Hv as <-.
  simpl_bind. rewrite Hpm, Hp. set (f := getFunction (value tn)).
  pose proof (position_range _ _ Hp) as Hpr. fold f in Hpr. specialize (Hlen f) as Hlf.
  assert (forall m' c' seen' r, refs_ok (gdirection g) rf rp seen' m' c' -> 0 <= r < 2 ^ 63 ->
    (length seen' <= S (length seen))%nat ->
    exists g', edge_loop pm es m' c' (set_distance (s64 (u64 (p - r))) e ed g) = Some (true, g') /\ same_shape g g' /\
      (forall e', e' ∉ e :: es -> hedge g' !! e' = hedge g !! e') /\
      edge_distance g' <$> e :: es = (p - r) :: spec_distances (gdirection g) rf rp seen' ts') as Hnext.
  { intros m' c' seen' r Href' Hr Hsl. rewrite s64_u64_small by lia.
    pose proof (set_distance_shape (p - r) e ed g Hed) as Hsh.
    destruct (IH ts' seen' m' c' (set_distance (p - r) e ed g)) as (g' & Hg' & Hsh' & Hout & Hd); [done|done|lia| |].
    - eapply Forall2_impl; [exact HF'|]. intros e0 t (Hv & Hrest). split; [|exact Hrest].
      unfold edge_view in *. destruct (hedge g !! e0) as [ed0|] eqn:He0; [|done].
      destruct (same_shape_edge _ _ _ _ Hsh He0) as (ed0' & -> & Ht & _). cbn. rewrite Ht.
      cbn in Hv. by destruct (hnode g !! target_node ed0).
    - exists g'. split; [done|]. split; [by eapply same_shape_trans|]. split.
      + intros e0 [He0 Hes]%not_elem_of_cons. rewrite Hout by done. cbn. by rewrite lookup_insert_ne.
      + rewrite fmap_cons. f_equal; [|exact Hd]. unfold edge_distance. rewrite Hout by done. cbn.
        by rewrite lookup_insert_eq. }
  destruct Href as [Href Hc]. cbn [spec_distances]. fold f. rewrite (Href f). unfold pos at 1 2 3. rewrite Hp. cbn [default].
  destruct (decide (f = rf)) as [Hf|Hf].
  { apply (Hnext m c seen rp); [done|done|lia]. }
  destruct (func_index f seen) as [k|] eqn:Hk; cbn [fmap option_fmap option_map].
  { apply (Hnext m c seen (ref_of (gdirection g) k)); [done| |lia].
    apply func_index_lt in Hk. unfold ref_of. case_decide; lia. }
  pose proof (refs_ok_app _ _ _ _ _ _ f (conj Href Hc) Hf Hk) as Href'.
  revert Href'. unfold ref_of at 1 2. case_decide as Hb.
  - rewrite (Hc Hb), u64_small by lia. intros Href'.
    apply (Hnext _ _ (seen ++ [f])); [done|lia|rewrite length_app; cbn; lia].
  - intros Href'. apply (Hnext _ _ (seen ++ [f])); [done|lia|rewrite length_app; cbn; lia].
Qed.

Lemma Forall2_elem_l {A B} (P : A -> B -> Prop) l k : Forall2 P l k -> Forall2 (fun x y => x ∈ l /\ P x y) l k.
Proof.
  intros HF. apply Forall2_same_length_lookup_2; [by eapply Forall2_length|]. intros i x y Hx Hy.
  split; [by eapply list_elem_of_lookup_2|]. by eapply Forall2_lookup_lr.
Qed.

(** The graph keeps its structure. *)
Lemma same_shape_wf g g' : wf g -> same_shape g g' -> wf g'.
Proof.
  intros Hwf Hsh. pose proof Hsh as (h & Hg' & Hh). subst g'.
  assert (forall e, target (set_hedge h g) e = target g e) as Ht.
  { intros e. unfold target. specialize (Hh e). cbn. destruct (h !! e), (hedge g !! e); simplify_eq/=; congruence. }
  constructor; try apply Hwf.
  - intros n nd e Hn Hnd He. destruct (wf_edge _ Hwf _ _ _ Hn Hnd He) as (ed & Hed & Hin & Hne).
    destruct (same_shape_edge _ _ _ _ Hsh Hed) as (ed' & Hed' & Heq & _). exists ed'. rewrite Heq. done.
  - intros n nd i j e1 e2 Hn Hnd H1 H2. rewrite !Ht. by eapply (wf_targets _ Hwf).
  - intros e [ed Hed]. specialize (Hh e). cbn in Hed. rewrite Hed in Hh. apply (wf_fresh_edge _ Hwf).
    by destruct (hedge g !! e).
Qed.

Lemma same_shape_view g g' e : same_shape g g' -> edge_view g' e = edge_view g e.
Proof.
  intros (h & -> & Hh). unfold edge_view. specialize (Hh e). cbn.
  destruct (h !! e) as [a|], (hedge g !! e) as [b|]; try done. injection Hh as H1 H2. cbn. by rewrite H1, H2.
Qed.

(** Every instruction of the graph is in the list of its function, and the lists
    and the graph are far from the range of the counters. *)
Record measurable g : Prop := MkMeasurable {
  me_wf : wf g;
  me_in n nd : n ∈ nodes g -> hnode g !! n = Some nd -> value nd ∈ insts (getFunction (value nd));
  me_few n nd : n ∈ nodes g -> hnode g !! n = Some nd -> 100000 * Z.of_nat (length (edges nd) + 1) < 2 ^ 63
}.

Lemma position_Some i : i ∈ insts (getFunction i) -> is_Some (position i).
Proof.
  intros Hin. unfold position. rewrite fmap_is_Some. destruct (list_find (eq i) (insts (getFunction i))) eqn:Hf; [done|].
  apply list_find_None in Hf. rewrite Forall_forall in Hf. by destruct (Hf i Hin).
Qed.

(** The distances a node's edges get. *)
Definition measured g g' nd : Prop :=
  forall l, mapM (edge_view g) (edges nd) = Some l ->
    edge_distance g' <$> edges nd =
      spec_distances (gdirection g) (getFunction (value nd)) (pos (value nd)) [] l.*1.

Lemma node_edges_ok g g1 pm n nd :
  measurable g -> same_shape g g1 -> n ∈ nodes g -> hnode g !! n = Some nd ->
  (forall n nd, n ∈ nodes g -> hnode g !! n = Some nd -> pm !! value nd = position (value nd)) ->
  exists g2, edge_loop pm (edges nd) {[ getFunction (value nd) := pos (value nd) ]} 1 g1 = Some (true, g2) /\
    same_shape g1 g2 /\ (forall e, e ∉ edges nd -> hedge g2 !! e = hedge g1 !! e) /\ measured g g2 nd.
Proof.
  intros Hme Hsh Hn Hnd Hpm. pose proof (me_wf _ Hme) as Hwf.
  assert (is_Some (mapM (edge_view g) (edges nd))) as [l Hl].
  { apply mapM_is_Some, Forall_forall. intros e He. by eapply edge_view_wf. }
  destruct (position_Some _ (me_in _ Hme _ _ Hn Hnd)) as [rp Hrp]. pose proof (position_range _ _ Hrp).
  specialize (Hlen (getFunction (value nd))) as Hlf. pose proof (me_few _ Hme _ _ Hn Hnd) as Hfew.
  assert (gdirection g1 = gdirection g) as Hdir by (by destruct Hsh as (h & -> & _)).
  destruct (edge_loop_ok pm (getFunction (value nd)) (pos (value nd)) (edges nd) l.*1 [] {[ getFunction (value nd) := pos (value nd) ]} 1 g1)
    as (g2 & Hg2 & Hsh2 & Hout & Hd).
  - unfold pos. rewrite Hrp. cbn -[Z.pow Z.of_nat]. lia.
  - split; [|done]. intros f. destruct (decide (f = getFunction (value nd))) as [->|Hf].
    + by rewrite lookup_singleton_eq.
    + by rewrite lookup_singleton_ne.
  - by eapply wf_edges.
  - cbn [length]. lia.
  - apply mapM_Some, Forall2_elem_l in Hl. apply Forall2_fmap_r. eapply Forall2_impl; [exact Hl|].
    intros e x [He Hx]. cbn. rewrite (same_shape_view _ _ _ Hsh), Hx. split; [done|].
    destruct (wf_edge _ Hwf _ _ _ Hn Hnd He) as (ed & Hed & Hin & _).
    destruct (wf_alloc _ Hwf _ Hin) as (tn & Htn & _). unfold edge_view in Hx. rewrite Hed in Hx. cbn in Hx.
    rewrite Htn in Hx. injection Hx as <-. cbn. split; [by eapply Hpm|]. apply position_Some. by eapply me_in.
  - exists g2. split; [done|]. split; [done|]. split; [done|]. intros l' Hl'. rewrite Hl in Hl'. injection Hl' as <-.
    by rewrite <- Hdir.
Qed.

Lemma node_loop_ok g pm :
  measurable g ->
  (forall n nd, n ∈ nodes g -> hnode g !! n = Some nd -> pm !! value nd = position (value nd)) ->
  exists g', node_loop pm (nodes g) g = Some (true, g') /\ same_shape g g' /\
    forall n nd, n ∈ nodes g -> hnode g !! n = Some nd -> measured g g' nd.
Proof.
  intros Hme Hpm. pose proof (me_wf _ Hme) as Hwf.
  assert (forall ns g1, same_shape g g1 -> ns ⊆ nodes g -> NoDup ns ->
    exists g', node_loop pm ns g1 = Some (true, g') /\ same_shape g1 g' /\
      (forall e, (forall n nd, n ∈ ns -> hnode g !! n = Some nd -> e ∉ edges nd) -> hedge g' !! e = hedge g1 !! e) /\
      forall n nd, n ∈ ns -> hnode g !! n = Some nd -> measured g g' nd) as Hgen.
  { induction ns as [|n ns IH]; intros g1 Hsh Hsub Hnd; cbn [node_loop].
    { exists g1. split; [done|]. split; [apply same_shape_refl|]. split; [done|]. by intros n nd []%elem_of_nil. }
    apply NoDup_cons in Hnd as [Hni Hnd]. assert (n ∈ nodes g) as Hn by (apply Hsub; by left).
    destruct (wf_alloc _ Hwf _ Hn) as (nd & Hndn & _).
    assert (hnode g1 !! n = Some nd) as Hnd1 by (by destruct Hsh as (h & -> & _)). rewrite Hnd1. simpl_bind.
    rewrite (Hpm n nd) by done. destruct (position_Some _ (me_in _ Hme _ _ Hn Hndn)) as [rp Hrp]. rewrite Hrp.
    replace rp with (pos (value nd)) by (unfold pos; by rewrite Hrp).
    destruct (node_edges_ok g g1 pm n nd Hme Hsh Hn Hndn Hpm) as (g2 & -> & Hsh2 & Hout2 & Hm2). simpl_bind.
    destruct (IH g2) as (g' & Hg' & Hsh' & Hout' & Hm'); [by eapply same_shape_trans| |done|].
    { intros m Hm. apply Hsub. by right. }
    exists g'. split; [done|]. split; [by eapply same_shape_trans|]. split.
    - intros e He. rewrite Hout'; [apply Hout2, (He n nd); [by left|done]|]. intros m md Hm. apply (He m md). by right.
    - intros m md [->|Hm]%elem_of_cons Hmd; [|by apply (Hm' m)]. rewrite Hndn in Hmd. injection Hmd as <-.
      intros l Hl. rewrite <- (Hm2 l Hl). apply list_fmap_ext. intros i e He. apply list_elem_of_lookup_2 in He.
      unfold edge_distance. rewrite Hout'; [done|]. intros m md Hm Hmd Hin.
      apply Hni. by rewrite (wf_owner _ Hwf n m nd md e Hn (Hsub m (list_elem_of_further _ _ _ Hm)) Hndn Hmd He Hin). }
  destruct (Hgen (nodes g) g) as (g' & ? & ? & _ & ?); [apply same_shape_refl|done|apply Hwf|]. by exists g'.
Qed.

Lemma computeDistances_ok g :
  measurable g -> exists g', computeDistances g = Some (true, g') /\ same_shape g g' /\
    forall n nd, n ∈ nodes g -> hnode g !! n = Some nd -> measured g g' nd.
Proof.
  intros Hme. destruct (collect_ok g (me_wf _ Hme)) as (fm & Hfm & Hby & Hall). unfold computeDistances. rewrite Hfm.
  simpl_bind. apply (node_loop_ok g (instPosMap fm) Hme). intros n nd Hn Hnd.
  destruct (Hall n nd Hn Hnd) as (s & Hs & Hin). by apply (instPosMap_ok fm (value nd) s).
Qed.

(** ** Sorting *)

Lemma sort_nodes_ok g ns :
  NoDup ns -> (forall n, n ∈ ns -> exists nd, hnode g !! n = Some nd /\ Forall (fun e => is_Some (hedge g !! e)) (edges nd)) ->
  exists g', mfold sort_node g ns = Some g' /\ hedge g' = hedge g /\ nodes g' = nodes g /\ groot g' = groot g /\
    forall n, hnode g' !! n =
      if decide (n ∈ ns) then (fun nd => set_edges (std_sort (edge_less g) (edges nd)) nd) <$> hnode g !! n else hnode g !! n.
Proof.
  revert g. induction ns as [|n ns IH]; intros g Hnd Hok; cbn [mfold].
  { exists g. split_and!; [done..|]. intros n. by rewrite decide_False by (by apply not_elem_of_nil). }
  apply NoDup_cons in Hnd as [Hni Hnd]. destruct (Hok n) as (nd & Hndn & Hes); [by left|].
  destruct (proj2 (mapM_is_Some (fun e => hedge g !! e) (edges nd)) Hes) as [eds Heds].
  set (g1 := set_hnode (<[n := set_edges (std_sort (edge_less g) (edges nd)) nd]> (hnode g)) g).
  assert (sort_node g n = Some g1) as ->.
  { unfold sort_node. rewrite Hndn. simpl_bind. by rewrite Heds. }
  simpl_bind.
  destruct (IH g1) as (g' & Hg' & Hhe & Hns & Hr & Hall); [done| |].
  { intros m Hm. destruct (Hok m) as (md & Hmd & Hmes); [by right|]. exists md. split; [|done].
    cbn. rewrite lookup_insert_ne; [done|]. intros <-. done. }
  exists g'. split; [done|]. split; [done|]. split; [done|]. split; [done|]. intros m. rewrite Hall.
  destruct (decide (m = n)) as [->|Hne].
  - rewrite decide_False by done. rewrite decide_True by (by left). cbn. by rewrite lookup_insert_eq, Hndn.
  - replace (hnode g1 !! m) with (hnode g !! m) by (cbn; by rewrite lookup_insert_ne).
    apply decide_ext. rewrite elem_of_cons. naive_solver.
Qed.

(** Functions shorter than the 100000 the code assumes. *)
Definition short : Prop := forall f, Z.of_nat (length (insts f)) < 100000.

Lemma position_inj i j p : getFunction i = getFunction j -> position i = Some p -> position j = Some p -> i = j.
Proof.
  unfold position. intros ->. destruct (list_find (eq i) _) as [[n x]|] eqn:Hi; [|done].
  destruct (list_find (eq j) _) as [[m y]|] eqn:Hj; [|done]. cbn. intros Hn Hm.
  apply list_find_Some in Hi as (Hi & <- & _). apply list_find_Some in Hj as (Hj & <- & _).
  assert (n = m) as -> by (simplify_eq; lia). congruence.
Qed.

Lemma spec_distances_nonzero dir rf rp seen ts :
  short -> Forall (fun t => is_Some (position t) /\ (getFunction t = rf -> pos t <> rp)) ts ->
  Forall (fun d => d <> 0) (spec_distances dir rf rp seen ts).
Proof.
  intros Hshort HF. revert seen. induction HF as [|t ts ([p Hp] & Hne) HF IH]; intros seen; cbn [spec_distances]; [constructor|].
  assert (forall k, pos t - ref_of dir k <> 0) as Hext.
  { intros k. pose proof (position_range _ _ Hp). specialize (Hshort (getFunction t)). unfold pos. rewrite Hp.
    unfold ref_of. cbn -[Z.mul Z.of_nat]. case_decide; lia. }
  case_decide as Hf; [|destruct (func_index _ _)]; constructor; try apply IH; try apply Hext. specialize (Hne Hf). lia.
Qed.

Lemma distances_nonzero g g' n nd e :
  measurable g -> short -> measured g g' nd -> n ∈ nodes g -> hnode g !! n = Some nd -> e ∈ edges nd ->
  edge_distance g' e <> 0.
Proof.
  intros Hme Hshort Hm Hn Hnd He. pose proof (me_wf _ Hme) as Hwf.
  assert (is_Some (mapM (edge_view g) (edges nd))) as [l Hl].
  { apply mapM_is_Some, Forall_forall. intros e' He'. by eapply edge_view_wf. }
  specialize (Hm l Hl). assert (edge_distance g' e ∈ edge_distance g' <$> edges nd) as Hin by (by apply list_elem_of_fmap_2).
  rewrite Hm in Hin. assert (Forall (fun d => d <> 0) (spec_distances (gdirection g) (getFunction (value nd))
    (pos (value nd)) [] l.*1)) as HF; [|rewrite Forall_forall in HF; by apply HF].
  apply spec_distances_nonzero; [done|]. clear Hin.
  apply Forall_fmap. apply mapM_Some, Forall2_elem_l in Hl. apply Forall_forall. intros x Hx.
  apply list_elem_of_lookup in Hx as [i Hi]. destruct (Forall2_lookup_r _ _ _ _ _ Hl Hi) as (e' & _ & He' & Hv).
  destruct (wf_edge _ Hwf _ _ _ Hn Hnd He') as (ed & Hed & Hin & Hne).
  destruct (wf_alloc _ Hwf _ Hin) as (tn & Htn & Hmap). unfold edge_view in Hv. rewrite Hed in Hv. cbn in Hv.
  rewrite Htn in Hv. injection Hv as <-. cbn. destruct (position_Some _ (me_in _ Hme _ _ Hin Htn)) as [p Hp].
  split; [by exists p|]. intros Hf Heq. destruct (position_Some _ (me_in _ Hme _ _ Hn Hnd)) as [q Hq].
  unfold pos in Heq. rewrite Hp, Hq in Heq. cbn in Heq. subst q.
  pose proof (position_inj _ _ _ Hf Hp Hq) as Hval. destruct (wf_alloc _ Hwf _ Hn) as (nd' & Hnd' & Hmap').
  rewrite Hnd in Hnd'. injection Hnd' as <-. rewrite Hval, Hmap' in Hmap.
  apply Hne. by injection Hmap.
Qed.

Lemma sort_ok g :
  measurable g -> short -> sorts std_sort ->
  exists g', sort g = Some (true, g') /\ nodes g' = nodes g /\ groot g' = groot g /\
    (forall e, (fun ed => (target_node ed, kind ed)) <$> hedge g' !! e =
               (fun ed => (target_node ed, kind ed)) <$> hedge g !! e) /\
    (forall n, n ∉ nodes g -> hnode g' !! n = hnode g !! n) /\
    forall n nd, n ∈ nodes g -> hnode g !! n = Some nd -> measured g g' nd /\
      exists es, hnode g' !! n = Some (set_edges es nd) /\ es ≡ₚ edges nd /\
        StronglySorted (fun e1 e2 => ~ ordered (edge_distance g' e2) (edge_distance g' e1)) es.
Proof.
  intros Hme Hshort Hsort. destruct (computeDistances_ok g Hme) as (g1 & Hg1 & Hsh & Hm).
  pose proof (same_shape_wf _ _ (me_wf _ Hme) Hsh) as Hwf1. pose proof Hsh as (h & Heq & Hh).
  assert (nodes g1 = nodes g /\ hnode g1 = hnode g /\ groot g1 = groot g) as (Hn1 & Hh1 & Hr1) by (by rewrite Heq).
  destruct (sort_nodes_ok g1 (nodes g1)) as (g2 & Hg2 & Hhe & Hns & Hr2 & Hall).
  { apply Hwf1. }
  { intros n Hn. destruct (wf_alloc _ Hwf1 _ Hn) as (nd & Hnd & _). exists nd. split; [done|]. apply Forall_forall.
    intros e He. destruct (wf_edge _ Hwf1 _ _ _ Hn Hnd He) as (ed & Hed & _). by exists ed. }
  exists g2. unfold sort. rewrite Hg1. simpl_bind. rewrite Hg2. split; [done|].
  split; [congruence|]. split; [congruence|].
  split. { intros e. rewrite Hhe, <- Hh. by rewrite Heq. }
  split.
  - intros n Hn. rewrite Hall, decide_False, Hh1 by (by rewrite Hn1). done.
  - intros n nd Hn Hnd. pose proof (Hm n nd Hn Hnd) as Hmn.
    assert (forall e, edge_distance g2 e = edge_distance g1 e) as Hd by (intros e; unfold edge_distance; by rewrite Hhe).
    split. { intros l Hl. rewrite <- (Hmn l Hl). apply list_fmap_ext. intros; apply Hd. }
    exists (std_sort (edge_less g1) (edges nd)).
    destruct (Hsort (edge_less g1) (edges nd)) as [Hperm Hsorted].
    { apply (distance_less_weak (edge_distance g1)). intros e He. by eapply distances_nonzero. }
    split; [by rewrite Hall, decide_True, Hh1, Hnd by (by rewrite Hn1)|]. split; [done|].
    assert (Forall (fun e => edge_distance g1 e <> 0) (std_sort (edge_less g1) (edges nd))) as Hnz.
    { rewrite Hperm. apply Forall_forall. intros e He. by eapply distances_nonzero. }
    clear Hperm. induction Hsorted as [|e es HF IH Hs]; [constructor|].
    apply Forall_cons in Hnz as [Hz Hnz]. constructor; [by apply IH|].
    rewrite Forall_forall in Hs, Hnz |- *. intros e' He'. rewrite !Hd. intros Hord%distance_less_ordered; [|auto..].
    specialize (Hs e' He'). unfold edge_less in Hs. congruence.
Qed.

(** [computeDistances] measures every edge of a graph whose instructions are in
    their functions: in the function of its node the difference of positions; in
    another function the position there, less 100000 times the number of that
    function, counted from 1 in the order the node's edges reach it, when the
    direction is backward.  Nothing else of the graph changes. *)
Theorem computeDistances_measures g :
  measurable g -> exists g', computeDistances g = Some (true, g') /\ same_shape g g' /\ wf g' /\
    forall n nd l, n ∈ nodes g -> hnode g !! n = Some nd -> mapM (edge_view g) (edges nd) = Some l ->
      edge_distance g' <$> edges nd =
        spec_distances (gdirection g) (getFunction (value nd)) (pos (value nd)) [] l.*1.
Proof.
  intros Hme. destruct (computeDistances_ok g Hme) as (g' & Hg' & Hsh & Hm). exists g'.
  split; [done|]. split; [done|]. split; [by eapply same_shape_wf; [apply Hme|]|].
  intros n nd l Hn Hnd. by apply (Hm n nd).
Qed.

(** C17. When functions have fewer than 100000 instructions no distance is zero, the comparator
    is a strict weak ordering on the edges of a node as [std::sort] demands, and
    after [sort] the edges of each node are those of before, in the order: edges
    to what lies behind, the closest first, then those to what lies ahead. *)
Theorem sort_orders_edges g :
  measurable g -> short -> sorts std_sort ->
  exists g', sort g = Some (true, g') /\ nodes g' = nodes g /\
    forall n nd, n ∈ nodes g -> hnode g !! n = Some nd ->
      strict_weak (edge_less g') (.∈ edges nd) /\
      exists es, hnode g' !! n = Some (set_edges es nd) /\ es ≡ₚ edges nd /\
        StronglySorted (fun e1 e2 => ~ ordered (edge_distance g' e2) (edge_distance g' e1)) es.
Proof.
  intros Hme Hshort Hsort. destruct (sort_ok g Hme Hshort Hsort) as (g' & Hg' & Hns & _ & _ & _ & Hall).
  exists g'. split; [done|]. split; [done|]. intros n nd Hn Hnd. destruct (Hall n nd Hn Hnd) as (Hm & Hes).
  split; [|done]. apply (distance_less_weak (edge_distance g')). intros e He. by eapply distances_nonzero.
Qed.

End Order.

(** ** A concrete graph

    Instructions of two functions: 1 to 13 in one, 101 to 113 in the other; the
    example of the comment in [computeDistances]. *)
Definition ex_function (i : Z) : Z := if decide (i < 100) then 0 else 1.
Definition ex_insts (f : Z) : list Z := if decide (f = 0) then seqZ 1 13 else if decide (f = 1) then seqZ 101 13 else [].

Definition ex_links : list (Z * Z * SliceDependence) :=
  (fun w => (7, w, RegisterDefUse)) <$> [3; 5; 110; 108; 113].

Definition ex_graph : option (SliceGraph Z) := g0 ← new_graph 7 Backward 1; mfold link g0 ex_links.

(** Insertion sort, a sorting function by comparisons. *)
Fixpoint insert_by {A} (less : A -> A -> bool) (x : A) (l : list A) : list A :=
  match l with
  | [] => [x]
  | y :: l' => if less y x then y :: insert_by less x l' else x :: l
  end.
Definition insertion_sort {A} (less : A -> A -> bool) (l : list A) : list A := foldr (insert_by less) [] l.

Lemma insert_by_perm {A} (less : A -> A -> bool) x l : insert_by less x l ≡ₚ x :: l.
Proof. induction l as [|y l IH]; cbn; [done|]. destruct (less y x); [|done]. rewrite IH. constructor. Qed.

Lemma insertion_sort_perm {A} (less : A -> A -> bool) l : insertion_sort less l ≡ₚ l.
Proof. induction l as [|x l IH]; cbn; [done|]. by rewrite insert_by_perm, IH. Qed.

(** An element not after [y], which is not after [z], is not after [z]. *)
Lemma strict_weak_not_less {A} (less : A -> A -> bool) (P : A -> Prop) x y z :
  strict_weak less P -> P x -> P y -> P z -> less y x = false -> less z y = false -> less z x = false.
Proof.
  intros Hw Hx Hy Hz Hyx Hzy. destruct (less z x) eqn:Hzx; [|done].
  destruct (less x y) eqn:Hxy; [by rewrite (sw_trans _ _ Hw z x y) in Hzy|].
  destruct (less y z) eqn:Hyz; [by rewrite (sw_trans _ _ Hw y z x) in Hyx|].
  destruct (sw_incomp _ _ Hw z y x) as [Hc _]; congruence.
Qed.

Lemma insert_by_sorted {A} (less : A -> A -> bool) (P : A -> Prop) x l :
  strict_weak less P -> P x -> Forall P l -> StronglySorted (fun x y => less y x = false) l ->
  StronglySorted (fun x y => less y x = false) (insert_by less x l).
Proof.
  intros Hw Hx HP Hl. induction Hl as [|y l Hl IH Hy]; cbn [insert_by]; [repeat constructor|].
  apply Forall_cons in HP as [HPy HPl]. destruct (less y x) eqn:Hyx.
  - constructor; [by apply IH|]. rewrite insert_by_perm. constructor; [|done].
    destruct (less x y) eqn:Hxy; [|done]. pose proof (sw_trans _ _ Hw x y x Hx HPy Hx Hxy Hyx) as Hc.
    by rewrite (sw_irrefl _ _ Hw x Hx) in Hc.
  - constructor; [by constructor|]. constructor; [done|]. rewrite Forall_forall in Hy, HPl |- *. intros z Hz.
    apply (strict_weak_not_less less P x y z); auto.
Qed.

Lemma insertion_sort_sorts {A} : sorts (@insertion_sort A).
Proof.
  intros less l Hw. split; [apply insertion_sort_perm|].
  enough (forall k, Forall (.∈ l) k -> StronglySorted (fun x y => less y x = false) (insertion_sort less k)) as Hk
    by (apply Hk; by apply Forall_forall).
  induction k as [|x k IH]; intros HP; [constructor|]. apply Forall_cons in HP as [Hx HP].
  change (insertion_sort less (x :: k)) with (insert_by less x (insertion_sort less k)).
  eapply insert_by_sorted; [done|done| |by apply IH]. by rewrite insertion_sort_perm.
Qed.

Lemma ex_insts_short f : Z.of_nat (length (ex_insts f)) < 100000.
Proof. unfold ex_insts. repeat case_decide; rewrite ?length_seqZ; cbn; lia. Qed.

Lemma ex_measurable : exists g, ex_graph = Some g /\ measurable ex_function ex_insts g.
Proof.
  destruct (graph_refines_ok 7 Backward 1 ex_links) as (g0 & g & Hg0 & Hm & (Hwf & _) & _).
  exists g. unfold ex_graph. rewrite Hg0. split; [done|]. vm_compute in Hg0. injection Hg0 as <-.
  vm_compute in Hm. injection Hm as <-. constructor; [done| |];
    intros n nd Hn Hnd; repeat (apply elem_of_cons in Hn as [->|Hn]); try (by apply elem_of_nil in Hn);
    vm_compute in Hnd; injection Hnd as <-; [by apply (bool_decide_unpack _) ..|cbn; lia|cbn; lia|cbn; lia|cbn; lia|cbn; lia|cbn; lia].
Qed.

Lemma ex_insts_length f : Z.of_nat (length (ex_insts f)) < 2 ^ 63.
Proof. pose proof (ex_insts_short f). lia. Qed.

Lemma computeDistances_measures_witness :
  exists g g', ex_graph = Some g /\ measurable ex_function ex_insts g /\
    computeDistances ex_function ex_insts g = Some (true, g').
Proof.
  destruct ex_measurable as (g & Hg & Hme).
  destruct (computeDistances_measures ex_function ex_insts ex_insts_length g Hme) as (g' & Hg' & _).
  exists g, g'. exact (conj Hg (conj Hme Hg')).
Defined.

Lemma sort_orders_edges_witness :
  exists g g', ex_graph = Some g /\ measurable ex_function ex_insts g /\
    sort ex_function ex_insts insertion_sort g = Some (true, g').
Proof.
  destruct ex_measurable as (g & Hg & Hme).
  destruct (sort_orders_edges ex_function ex_insts insertion_sort ex_insts_length g Hme ex_insts_short insertion_sort_sorts)
    as (g' & Hg' & _).
  exists g, g'. exact (conj Hg (conj Hme Hg')).
Defined.

(** On the example of the comment the sorted edges are e2, e1, e5, e3, e4, not e2,
    e1, e5, e4, e3 as it says: e3 is closer to the end of its function than e4. *)
Lemma ex_sorted :
  (g ← ex_graph; '(_, g') ← sort ex_function ex_insts insertion_sort g; nd ← hnode g' !! groot g';
   l ← mapM (edge_view g') (edges nd); Some (l.*1, edge_distance g' <$> edges nd)) =
  Some ([5; 3; 113; 110; 108], [-2; -4; -99987; -99990; -99992]).
Proof. vm_compute. reflexivity. Qed.

End SliceOrder.
