(* ===== verification/DgWalk.v ===== *)
(** * Building a slice graph (analyzer/{include,lib}/Slicing/DgWalk)

    The walk over the dependence graph that collects what a fault instruction depends
    on.  The dependence graph is the dg library's: a record of the lists of
    neighbours of a node, in the order of iteration.  The queue and the marks of
    visited nodes are those of its NodesWalk (third-party/dg, legacy/NodesWalk.h). *)
From stdpp Require Import base list gmap relations.
From S2P Require Import Prelude Slice SliceGraph.
Import Slice SliceGraph.

Module DgWalk.

(** ** Flags *)

Definition DEF_USE : Z := Z.shiftl 1 0.
Definition MEMORY : Z := Z.shiftl 1 1.
Definition CONTROL : Z := Z.shiftl 1 2.
Definition INTERFERENCE : Z := Z.shiftl 1 3.
Definition DEFAULT_DEPENDENCY_FLAGS : Z := Z.lor DEF_USE MEMORY.
Definition FULL_DEPENDENCY_FLAGS : Z := Z.lor (Z.lor (Z.lor DEF_USE MEMORY) CONTROL) INTERFERENCE.

Definition NODES_WALK_CD : Z := Z.shiftl 1 1.
Definition NODES_WALK_DD : Z := Z.shiftl 1 2.
Definition NODES_WALK_REV_CD : Z := Z.shiftl 1 3.
Definition NODES_WALK_REV_DD : Z := Z.shiftl 1 4.
Definition NODES_WALK_USE : Z := Z.shiftl 1 5.
Definition NODES_WALK_USER : Z := Z.shiftl 1 6.
Definition NODES_WALK_ID : Z := Z.shiftl 1 7.
Definition NODES_WALK_REV_ID : Z := Z.shiftl 1 8.

(** A test of flags, [flags & mask]. *)
Definition has_flag (flags mask : Z) : bool := negb (bool_decide (Z.land flags mask = 0)).

Definition add_flag (slice_dep_flags dep walk flags : Z) : Z :=
  if has_flag slice_dep_flags dep then Z.lor flags walk else flags.

Definition sliceRelationOpts (dir : SliceDirection) (slice_dep_flags : Z) : Z :=
  let add := add_flag slice_dep_flags in
  match dir with
  | Backward => add INTERFERENCE NODES_WALK_REV_ID (add CONTROL NODES_WALK_REV_CD
                  (add MEMORY NODES_WALK_REV_DD (add DEF_USE NODES_WALK_USER 0)))
  | Forward => add INTERFERENCE NODES_WALK_ID (add CONTROL NODES_WALK_CD
                  (add MEMORY NODES_WALK_DD (add DEF_USE NODES_WALK_USE 0)))
  | Full => add INTERFERENCE (Z.lor NODES_WALK_ID NODES_WALK_REV_ID) (add CONTROL (Z.lor NODES_WALK_CD NODES_WALK_REV_CD)
                  (add MEMORY (Z.lor NODES_WALK_DD NODES_WALK_REV_DD) (add DEF_USE (Z.lor NODES_WALK_USE NODES_WALK_USER) 0)))
  end.

(** The opcodes [shouldSliceInst] looks at; a return instruction may have a value. *)
Inductive opcode := Unreachable | Ret (getReturnValue : bool) | OtherOpcode.

Definition shouldSliceOp (op : opcode) : bool :=
  match op with
  | Unreachable => false
  | Ret v => v
  | OtherOpcode => true
  end.

Section Walk.
Context {Instr Node Block Graph : Type} `{Countable Instr} `{Countable Node} `{Countable Block} `{Countable Graph}.

(** The dependence graph. *)
Record dependence_graph := MkDg {
  getValue : Node -> option Instr;
  getOpcode : Instr -> opcode;
  uses : Node -> list Node;
  users : Node -> list Node;
  data : Node -> list Node;
  rev_data : Node -> list Node;
  control : Node -> list Node;
  rev_control : Node -> list Node;
  interference : Node -> list Node;
  rev_interference : Node -> list Node;
  getBBlock : Node -> option Block;
  block_control : Block -> list Block;
  block_rev_control : Block -> list Block;
  getLastNode : Block -> option Node;
  getDG : Node -> option Graph
}.

Context (dg : dependence_graph).

Definition shouldSliceInst (i : Instr) : bool := shouldSliceOp (getOpcode dg i).

(** The slice ids set on nodes, blocks and graphs. *)
Record marks := MkMarks { node_slice : gmap Node Z; block_slice : gmap Block Z; graph_slice : gmap Graph Z }.

Definition mark (n : Node) (slice_id : Z) (m : marks) : marks :=
  MkMarks (<[n := slice_id]> (node_slice m))
    (match getBBlock dg n with Some B => <[B := slice_id]> (block_slice m) | None => block_slice m end)
    (match getDG dg n with Some G => <[G := slice_id]> (graph_slice m) | None => graph_slice m end).

Record state := MkState {
  sg : SliceGraph Instr;
  queue : list Node;
  lastwalkid : gmap Node Z;
  dfs_order : Z;
  slice_marks : marks
}.

Definition set_sg (g : SliceGraph Instr) (s : state) : state :=
  MkState g (queue s) (lastwalkid s) (dfs_order s) (slice_marks s).
Definition set_queue (q : list Node) (s : state) : state :=
  MkState (sg s) q (lastwalkid s) (dfs_order s) (slice_marks s).

Section Run.
Context (run_id slice_id : Z) (options : Z).

(** The queue is a stack.  A node that was never walked has no entry; in the code it has
    the number 0, which a run has only after the counter wrapped around. *)
Definition enqueue (n : Node) (s : state) : state :=
  if decide (lastwalkid s !! n = Some run_id) then s
  else MkState (sg s) (n :: queue s) (<[n := run_id]> (lastwalkid s)) (dfs_order s) (slice_marks s).

(** One dependence of the current node. *)
Definition process (sn_curr : nat) (kind : SliceDependence) (s : state) (dn_next : Node) : option state :=
  match getValue dg dn_next with
  | Some inst =>
    if shouldSliceInst inst then
      let '(sn_next, g1) := getOrCreateNode (sg s) inst in
      '(_, g2) ← connect g1 sn_curr sn_next kind;
      Some (enqueue dn_next (set_sg g2 s))
    else Some s
  | None => Some s
  end.

Definition processSliceEdges (sn_curr : nat) (kind : SliceDependence) (ns : list Node) (s : state) : option state :=
  mfold (process sn_curr kind) s ns.

Definition processControlBlocks (sn_curr : nat) (bs : list Block) (s : state) : option state :=
  mfold (fun s dep_block =>
    match getLastNode dg dep_block with
    | None => Some s
    | Some last_node => process sn_curr ControlDependence s last_node
    end) s bs.

(** Lists are walked backwards in a backward graph. *)
Definition in_order {A} (s : state) (l : list A) : list A :=
  if decide (gdirection (sg s) = Backward) then reverse l else l.

Definition when (mask : Z) (f : state -> option state) (s : state) : option state :=
  if has_flag options mask then f s else Some s.

(** The control dependences of a node are those of its basic block, which is
    dereferenced. *)
Definition control_edges (sn_curr : nat) (dn_curr : Node) (of_node : Node -> list Node) (of_block : Block -> list Block)
    (s : state) : option state :=
  s1 ← processSliceEdges sn_curr ControlDependence (in_order s (of_node dn_curr)) s;
  match of_block <$> getBBlock dg dn_curr with
  | Some bs => processControlBlocks sn_curr (in_order s bs) s1
  | None => None
  end.

Definition plain_edges (sn_curr : nat) (kind : SliceDependence) (ns : list Node) (s : state) : option state :=
  processSliceEdges sn_curr kind (in_order s ns) s.

(** All edges of a node, in the order of the code. *)
Definition process_node (sn_curr : nat) (dn_curr : Node) (s0 : state) : option state :=
  s1 ← when NODES_WALK_USE (plain_edges sn_curr RegisterDefUse (uses dg dn_curr)) s0;
  s2 ← when NODES_WALK_USER (plain_edges sn_curr RegisterDefUse (users dg dn_curr)) s1;
  s3 ← when NODES_WALK_DD (plain_edges sn_curr MemoryDependence (data dg dn_curr)) s2;
  s4 ← when NODES_WALK_REV_DD (plain_edges sn_curr MemoryDependence (rev_data dg dn_curr)) s3;
  s5 ← when NODES_WALK_CD (control_edges sn_curr dn_curr (control dg) (block_control dg)) s4;
  s6 ← when NODES_WALK_REV_CD (control_edges sn_curr dn_curr (rev_control dg) (block_rev_control dg)) s5;
  s7 ← when NODES_WALK_ID (plain_edges sn_curr InterfereDependence (interference dg dn_curr)) s6;
  when NODES_WALK_REV_ID (plain_edges sn_curr InterfereDependence (rev_interference dg dn_curr)) s7.

(** One round of the loop. *)
Definition build_step (dn_curr : Node) (s : state) : option state :=
  let s := MkState (sg s) (queue s) (lastwalkid s) (u32 (dfs_order s + 1)) (slice_marks s) in
  if decide (options = 0) then Some s
  else match getValue dg dn_curr with
  | Some inst =>
    if shouldSliceInst inst then
      let s1 := MkState (sg s) (queue s) (lastwalkid s) (dfs_order s) (mark dn_curr slice_id (slice_marks s)) in
      let '(sn_curr, g) := getOrCreateNode (sg s1) inst in
      process_node sn_curr dn_curr (set_sg g s1)
    else Some s
  | None => Some s
  end.

Fixpoint build_loop (fuel : nat) (s : state) : option (option state) :=
  match queue s with
  | [] => Some (Some s)
  | dn_curr :: q =>
    match fuel with
    | 0%nat => Some None
    | S fuel' => s' ← build_step dn_curr (set_queue q s); build_loop fuel' s'
    end
  end.

End Run.

(** [build]: null when the start has no instruction; [walk_run_counter] is a global. *)
Definition build (fuel : nat) (dir : SliceDirection) (slice_dep_flags : Z) (start : Node) (slice_id : Z)
    (walk_run_counter : Z) (lastwalk : gmap Node Z) (m : marks) : option (option (option state)) :=
  match getValue dg start with
  | None => Some (Some None)
  | Some root_val =>
    g ← new_graph root_val dir slice_id;
    let run_id := u32 (walk_run_counter + 1) in
    let s := enqueue run_id start (MkState g [] lastwalk 0 m) in
    r ← build_loop run_id slice_id (sliceRelationOpts dir slice_dep_flags) fuel s;
    Some (option_map Some r)
  end.

End Walk.
Arguments dependence_graph : clear implicits.
Arguments marks Node Block Graph {_ _ _ _ _ _}.
Arguments state Instr Node Block Graph {_ _ _ _ _ _ _ _}.

(** ** What the walk builds *)
Section Correct.
Context {Instr Node Block Graph : Type} `{Countable Instr} `{Countable Node} `{Countable Block} `{Countable Graph}.
Context (dg : dependence_graph Instr Node Block Graph).
Context (dir : SliceDirection) (options run_id slice_id : Z).
Implicit Types (s : state Instr Node Block Graph) (n m : Node) (v w : Instr).

Definition ordered_list {A} (l : list A) : list A := if decide (dir = Backward) then reverse l else l.

Definition selected (mask : Z) (k : SliceDependence) (l : list Node) : list (Node * SliceDependence) :=
  if has_flag options mask then (fun m => (m, k)) <$> ordered_list l else [].

Definition selected_blocks (mask : Z) n (of_block : Block -> list Block) : list (Node * SliceDependence) :=
  if has_flag options mask then
    (fun m => (m, ControlDependence)) <$>
      omap (getLastNode dg) (ordered_list (match getBBlock dg n with Some B => of_block B | None => [] end))
  else [].

(** The dependences of a node that the walk looks at, in its order. *)
Definition deps n : list (Node * SliceDependence) :=
  selected NODES_WALK_USE RegisterDefUse (uses dg n) ++
  selected NODES_WALK_USER RegisterDefUse (users dg n) ++
  selected NODES_WALK_DD MemoryDependence (data dg n) ++
  selected NODES_WALK_REV_DD MemoryDependence (rev_data dg n) ++
  selected NODES_WALK_CD ControlDependence (control dg n) ++
  selected_blocks NODES_WALK_CD n (block_control dg) ++
  selected NODES_WALK_REV_CD ControlDependence (rev_control dg n) ++
  selected_blocks NODES_WALK_REV_CD n (block_rev_control dg) ++
  selected NODES_WALK_ID InterfereDependence (interference dg n) ++
  selected NODES_WALK_REV_ID InterfereDependence (rev_interference dg n).

(** The instruction of a node that may be in a slice. *)
Definition sliced n : option Instr :=
  match getValue dg n with Some v => if shouldSliceInst dg v then Some v else None | None => None end.

Definition process_dep (sn : nat) s (d : Node * SliceDependence) : option (state Instr Node Block Graph) :=
  process dg run_id sn d.2 s d.1.

(** Basic blocks are there when control dependences are walked. *)
Definition has_blocks n : Prop :=
  has_flag options NODES_WALK_CD || has_flag options NODES_WALK_REV_CD = true -> is_Some (getBBlock dg n).

Lemma getOrCreateNode_direction (g : SliceGraph Instr) v : gdirection (getOrCreateNode g v).2 = gdirection g.
Proof. unfold getOrCreateNode. by destruct (node_map g !! v). Qed.

Lemma connect_direction (g g' : SliceGraph Instr) p1 p2 k b : connect g p1 p2 k = Some (b, g') -> gdirection g' = gdirection g.
Proof.
  unfold connect. case_decide; [by intros [= _ <-]|]. destruct (hnode g !! p1); [|done]. simpl_bind.
  destruct (hnode g !! p2); [|done]. simpl_bind. case_decide; [by intros [= _ <-]|].
  destruct (hasEdgeTo _ _ _) as [[]|]; [by intros [= _ <-]|by intros [= _ <-]|done].
Qed.

Lemma process_direction sn k s m s' : process dg run_id sn k s m = Some s' -> gdirection (sg s') = gdirection (sg s).
Proof.
  unfold process. destruct (getValue dg m) as [v|]; [|by intros [= <-]]. destruct (shouldSliceInst dg v); [|by intros [= <-]].
  pose proof (getOrCreateNode_direction (sg s) v) as Hd. destruct (getOrCreateNode (sg s) v) as [n2 g1].
  intros ([b g2] & Hc & [= <-])%bind_Some. apply connect_direction in Hc. unfold enqueue.
  case_decide; cbn in *; congruence.
Qed.

Lemma process_all_direction sn ds s s' :
  mfold (process_dep sn) s ds = Some s' -> gdirection (sg s') = gdirection (sg s).
Proof.
  apply (mfold_inv _ (fun _ s' => gdirection (sg s') = gdirection (sg s))); [done|].
  intros l1 [m k] l2 s1 s2 _ Hs1 Hs2. apply process_direction in Hs2. congruence.
Qed.

Lemma mfold_fmap {A B C} (f : B -> C -> option B) (h : A -> C) b l :
  mfold f b (h <$> l) = mfold (fun b x => f b (h x)) b l.
Proof. revert b. induction l as [|x l IH]; intros b; cbn; [done|]. destruct (f b (h x)); cbn; [apply IH|done]. Qed.

Lemma in_order_dir {A} s (l : list A) : gdirection (sg s) = dir -> in_order s l = ordered_list l.
Proof. intros Hd. unfold in_order, ordered_list. by rewrite Hd. Qed.

Lemma plain_edges_deps sn k l mask s :
  gdirection (sg s) = dir ->
  when options mask (plain_edges dg run_id sn k l) s = mfold (process_dep sn) s (selected mask k l).
Proof.
  intros Hd. unfold when, selected. destruct (has_flag options mask); [|done].
  unfold plain_edges, processSliceEdges. by rewrite in_order_dir, mfold_fmap.
Qed.

Lemma control_blocks_deps sn bs s :
  processControlBlocks dg run_id sn bs s =
  mfold (process_dep sn) s ((fun m => (m, ControlDependence)) <$> omap (getLastNode dg) bs).
Proof.
  revert s. induction bs as [|b bs IH]; intros s; cbn; [done|]. destruct (getLastNode dg b) as [m|]; cbn; [|apply IH].
  unfold process_dep. cbn. destruct (process _ _ _ _ _ _); cbn; [apply IH|done].
Qed.

Lemma control_edges_deps sn n mask of_node of_block s :
  gdirection (sg s) = dir -> (has_flag options mask = true -> is_Some (getBBlock dg n)) ->
  when options mask (control_edges dg run_id sn n of_node of_block) s =
  mfold (process_dep sn) s (selected mask ControlDependence (of_node n) ++ selected_blocks mask n of_block).
Proof.
  intros Hd Hb. unfold when, selected, selected_blocks. destruct (has_flag options mask); [|done].
  destruct (Hb eq_refl) as [B HB]. rewrite mfold_app, mfold_fmap. unfold control_edges, processSliceEdges.
  rewrite !in_order_dir by done. unfold process_dep at 1. cbn [fst snd].
  destruct (mfold _ s _) as [s1|]; [|done]. simpl_bind. rewrite HB. cbn [fmap option_fmap option_map].
  by rewrite in_order_dir, control_blocks_deps.
Qed.

(** Processing a node is processing its dependences one by one. *)
Lemma process_node_deps sn n s :
  gdirection (sg s) = dir -> has_blocks n ->
  process_node dg run_id options sn n s = mfold (process_dep sn) s (deps n).
Proof.
  intros Hd Hb. unfold process_node, deps. rewrite (plain_edges_deps sn _ _ _ s Hd).
  assert (forall l1 l2 s (f : state Instr Node Block Graph -> option (state Instr Node Block Graph)),
    gdirection (sg s) = dir ->
    (forall s1, gdirection (sg s1) = dir -> f s1 = mfold (process_dep sn) s1 l2) ->
    (s1 ← mfold (process_dep sn) s l1; f s1) = mfold (process_dep sn) s (l1 ++ l2)) as Hseq.
  { intros l1 l2 s0 f Hs0 Hf. rewrite mfold_app. destruct (mfold _ s0 l1) as [s1|] eqn:Hs1; [|done]. simpl_bind.
    apply Hf. apply process_all_direction in Hs1. congruence. }
  unfold has_blocks in Hb. rewrite orb_true_iff in Hb.
  apply Hseq; [done|]. intros s1 Hd1. rewrite (plain_edges_deps sn _ _ _ s1 Hd1).
  apply Hseq; [done|]. intros s2 Hd2'. rewrite (plain_edges_deps sn _ _ _ s2 Hd2').
  apply Hseq; [done|]. intros s3 Hd3. rewrite (plain_edges_deps sn _ _ _ s3 Hd3).
  apply Hseq; [done|]. intros s4 Hd4. rewrite (control_edges_deps sn n _ _ _ s4 Hd4) by auto. rewrite (app_assoc (selected NODES_WALK_CD _ _)).
  apply Hseq; [done|]. intros s5 Hd5. rewrite (control_edges_deps sn n _ _ _ s5 Hd5) by auto. rewrite (app_assoc (selected NODES_WALK_REV_CD _ _)).
  apply Hseq; [done|]. intros s6 Hd6. rewrite (plain_edges_deps sn _ _ _ s6 Hd6).
  apply Hseq; [done|]. intros s7 Hd7. by rewrite (plain_edges_deps sn _ _ _ s7 Hd7).
Qed.

(** ** Adjacency lists under the abstract operations *)

Implicit Types (A : gmap Instr (list (Instr * SliceDependence))).

Definition edge A v w (k : SliceDependence) : Prop := exists l, A !! v = Some l /\ (w, k) ∈ l.

Lemma create_keys A v w : is_Some (spec_create w A !! v) <-> is_Some (A !! v) \/ v = w.
Proof.
  unfold spec_create. destruct (A !! w) as [l|] eqn:Hw.
  - split; [by left|]. intros [?| ->]; [done|by rewrite Hw].
  - rewrite lookup_insert_is_Some. destruct (decide (v = w)); naive_solver.
Qed.

Lemma create_edges A v w k u : edge (spec_create u A) v w k <-> edge A v w k.
Proof.
  unfold edge, spec_create. destruct (A !! u) as [l|] eqn:Hu; [done|].
  destruct (decide (v = u)) as [->|Hv]; [|by rewrite lookup_insert_ne].
  rewrite lookup_insert_eq, Hu. split; [|by intros (l & ? & _)].
  intros (l & [= <-] & []%elem_of_nil).
Qed.

Lemma connect_keys A v w k u : is_Some (spec_connect v w k A !! u) <-> is_Some (A !! u).
Proof.
  unfold spec_connect. destruct (A !! v) as [l|] eqn:Hv; [|done]. case_decide; [|done].
  rewrite lookup_insert_is_Some. destruct (decide (u = v)) as [->|]; naive_solver.
Qed.

Lemma connect_edges A v w k x y k' :
  edge (spec_connect v w k A) x y k' -> edge A x y k' \/ (x = v /\ y = w /\ k' = k /\ v <> w).
Proof.
  unfold edge, spec_connect. destruct (A !! v) as [l|] eqn:Hv; [|by left]. case_decide as Hc; [|by left].
  destruct (decide (x = v)) as [->|Hx]; [|rewrite lookup_insert_ne by done; by left].
  rewrite lookup_insert_eq. intros (l' & [= <-] & [Hin|Hin]%elem_of_app); [left; by exists l|].
  apply list_elem_of_singleton in Hin as [= -> ->]. naive_solver.
Qed.

Lemma connect_edges_mono A v w k x y k' : edge A x y k' -> edge (spec_connect v w k A) x y k'.
Proof.
  unfold edge, spec_connect. intros (l & Hl & Hin). destruct (A !! v) as [lv|] eqn:Hv; [|by exists l].
  case_decide; [|by exists l]. destruct (decide (x = v)) as [->|Hx].
  - rewrite lookup_insert_eq. eexists. split; [done|]. apply elem_of_app. left. congruence.
  - rewrite lookup_insert_ne by done. by exists l.
Qed.

Lemma connect_edge_new A v w k : is_Some (A !! v) -> v <> w -> exists k', edge (spec_connect v w k A) v w k'.
Proof.
  intros [l Hl] Hne. unfold edge, spec_connect. rewrite Hl. case_decide as Hc.
  - exists k. rewrite lookup_insert_eq. eexists. split; [done|]. apply elem_of_app. right. by left.
  - assert (w ∈ l.*1) as Hin by (destruct (decide (w ∈ l.*1)); tauto).
    apply list_elem_of_fmap in Hin as ([w' k'] & -> & Hin). exists k', l. done.
Qed.

(** ** The invariant *)

Context (start : Node) (root_val : Instr).
Context (all : gset Node).

Definition dep_step n m : Prop := is_Some (sliced n) /\ is_Some (sliced m) /\ exists k, (m, k) ∈ deps n.
Definition visited : Node -> Prop := rtc dep_step start.

(** The dependence graph is finite. *)
Context (Hall : forall n, visited n -> n ∈ all).
Context (Hblocks : forall n, visited n -> has_blocks n).

Definition walked s n : Prop := lastwalkid s !! n = Some run_id.
#[local] Instance walked_dec s n : Decision (walked s n).
Proof. unfold walked. apply _. Defined.

Definition walked_set s : gset Node := dom (filter (fun x => x.2 = run_id) (lastwalkid s)).

Lemma elem_of_walked_set s n : n ∈ walked_set s <-> walked s n.
Proof.
  unfold walked_set, walked. rewrite elem_of_dom. split.
  - intros [r Hr]. apply map_lookup_filter_Some in Hr as [Hr Hrr]. cbn in Hrr. congruence.
  - intros Hr. exists run_id. by apply map_lookup_filter_Some.
Qed.

Definition measure s : nat := (size all - size (walked_set s) + length (queue s))%nat.

(** What the graph holds: [handled p d] says that the dependence [d] of the node
    [p], which has left the queue, has been processed. *)
Record graph_ok (handled : Node -> Node * SliceDependence -> Prop) s A : Prop := MkGraphOk {
  go_repr : repr (sg s) A;
  go_root : node_map (sg s) !! root_val = Some (groot (sg s));
  go_keys v : is_Some (A !! v) <-> v = root_val \/ exists n, walked s n /\ sliced n = Some v;
  go_sound v w k : edge A v w k -> v <> w /\
    exists n m, visited n /\ sliced n = Some v /\ (m, k) ∈ deps n /\ sliced m = Some w;
  go_complete p m k v w : walked s p -> p ∉ queue s -> handled p (m, k) -> sliced p = Some v -> sliced m = Some w ->
    walked s m /\ (v <> w -> exists k', edge A v w k')
}.

Record inv (handled : Node -> Node * SliceDependence -> Prop) s : Prop := MkInv {
  in_dir : gdirection (sg s) = dir;
  in_nodup : NoDup (queue s);
  in_queue n : n ∈ queue s -> walked s n;
  in_visited n : walked s n -> visited n;
  in_start : walked s start;
  in_graph : exists A, graph_ok handled s A
}.

(** ** One dependence *)

Lemma enqueue_walked n s m : walked (enqueue run_id n s) m <-> walked s m \/ m = n.
Proof.
  unfold enqueue, walked. case_decide as Hn; [naive_solver|]. cbn.
  destruct (decide (m = n)) as [->|Hm]; [rewrite lookup_insert_eq; naive_solver|].
  rewrite lookup_insert_ne by done. naive_solver.
Qed.

Lemma enqueue_queue n s m : m ∈ queue (enqueue run_id n s) -> m ∈ queue s \/ (m = n /\ ~ walked s n).
Proof. unfold enqueue, walked. case_decide; [by left|]. cbn. rewrite elem_of_cons. naive_solver. Qed.

Lemma enqueue_queue_2 n s m : m ∈ queue s \/ (m = n /\ ~ walked s n) -> m ∈ queue (enqueue run_id n s).
Proof. unfold enqueue, walked. case_decide; [naive_solver|]. cbn. rewrite elem_of_cons. naive_solver. Qed.

Lemma enqueue_measure n s : (forall m, walked s m \/ m = n -> m ∈ all) -> measure (enqueue run_id n s) = measure s.
Proof.
  intros Hin. destruct (decide (walked s n)) as [Hw|Hw].
  { unfold enqueue. by rewrite decide_True by done. }
  assert (walked_set (enqueue run_id n s) = {[ n ]} ∪ walked_set s) as Hset.
  { apply set_eq. intros m. rewrite elem_of_union, elem_of_singleton, !elem_of_walked_set, enqueue_walked. tauto. }
  assert (size ({[ n ]} ∪ walked_set s) = S (size (walked_set s))) as Hsz.
  { rewrite size_union, size_singleton; [lia|]. rewrite disjoint_singleton_l. by rewrite elem_of_walked_set. }
  assert (size ({[ n ]} ∪ walked_set s) <= size all)%nat as Hle.
  { apply subseteq_size. intros m. rewrite elem_of_union, elem_of_singleton, elem_of_walked_set. intros Hm. apply Hin. tauto. }
  unfold measure. rewrite Hset, Hsz. unfold enqueue at 1. rewrite decide_False by done. cbn. lia.
Qed.

Lemma sliced_Some n v : sliced n = Some v -> getValue dg n = Some v /\ shouldSliceInst dg v = true.
Proof.
  unfold sliced. destruct (getValue dg n) as [u|]; [|done].
  destruct (shouldSliceInst dg u) eqn:?; [|done]. by intros [= ->].
Qed.

(** A dependence on a node without an instruction of the slice changes nothing. *)
Lemma skip_dep_inv n l1 m k s :
  inv (fun p d => d ∈ (if decide (p = n) then l1 else deps p)) s -> sliced m = None ->
  inv (fun p d => d ∈ (if decide (p = n) then l1 ++ [(m, k)] else deps p)) s.
Proof.
  intros [? ? ? ? ? [A HA]] Hm. constructor; try done. exists A. destruct HA as [? ? ? ? Hc].
  constructor; try done. intros p m' k' v' w' Hp Hpq Hh Hv' Hw'. apply (Hc p m' k'); try done.
  case_decide; [|done]. apply elem_of_app in Hh as [Hh|[= -> ->]%list_elem_of_singleton]; [done|congruence].
Qed.

(** Adding the edge of a dependence and queueing its node keeps the edges of the
    dependences processed so far, and adds the one of the new dependence. *)
Lemma enqueue_complete n v w l1 m k s A s' :
  graph_ok (fun p d => d ∈ (if decide (p = n) then l1 else deps p)) s A ->
  walked s n -> n ∉ queue s -> sliced n = Some v -> sliced m = Some w -> lastwalkid s' = lastwalkid s -> queue s' = queue s ->
  forall p m' k' v' w', walked (enqueue run_id m s') p -> p ∉ queue (enqueue run_id m s') ->
    (m', k') ∈ (if decide (p = n) then l1 ++ [(m, k)] else deps p) -> sliced p = Some v' -> sliced m' = Some w' ->
    walked (enqueue run_id m s') m' /\ (v' <> w' -> exists k2, edge (spec_connect v w k (spec_create w A)) v' w' k2).
Proof.
  intros HA Hn Hnq Hsn Hw Hlw Hqs p m' k' v' w' Hp Hpq Hh Hv' Hw'.
  assert (forall q, walked s' q <-> walked s q) as Hws by (intros q; unfold walked; by rewrite Hlw).
  assert (walked s p /\ p ∉ queue s) as [Hps Hpqs].
  { rewrite <- Hws, <- Hqs. apply enqueue_walked in Hp. destruct Hp as [Hp| ->].
    - split; [done|]. intros Hq. apply Hpq, enqueue_queue_2. by left.
    - destruct (decide (walked s' m)) as [Hwm|Hwm].
      + split; [done|]. intros Hq. apply Hpq, enqueue_queue_2. by left.
      + destruct Hpq. apply enqueue_queue_2. by right. }
  assert (p = n /\ (m', k') = (m, k) \/ (m', k') ∈ (if decide (p = n) then l1 else deps p)) as [[-> [= -> ->]]|Hold].
  { destruct (decide (p = n)); [|by right]. apply elem_of_app in Hh as [Hh|Hh%list_elem_of_singleton]; tauto. }
  { split; [apply enqueue_walked; by right|]. intros Hne.
    assert (v' = v) as -> by congruence. assert (w' = w) as -> by congruence.
    apply connect_edge_new; [|done]. apply create_keys. left. apply (go_keys _ _ _ HA). right. by exists n. }
  destruct (go_complete _ _ _ HA p m' k' v' w' Hps Hpqs Hold Hv' Hw') as [Hwm He].
  split; [apply enqueue_walked; left; by apply Hws|]. intros Hne. destruct (He Hne) as [k2 Hk2]. exists k2.
  apply connect_edges_mono. by apply create_edges.
Qed.

(** The graph after the edge and the node of a dependence were entered. *)
Lemma enqueue_graph n v w l1 m k s A s1 :
  graph_ok (fun p d => d ∈ (if decide (p = n) then l1 else deps p)) s A -> walked s n -> visited n -> n ∉ queue s ->
  sliced n = Some v -> sliced m = Some w -> (m, k) ∈ deps n -> lastwalkid s1 = lastwalkid s -> queue s1 = queue s ->
  repr (sg s1) (spec_connect v w k (spec_create w A)) -> node_map (sg s1) !! root_val = Some (groot (sg s1)) ->
  graph_ok (fun p d => d ∈ (if decide (p = n) then l1 ++ [(m, k)] else deps p)) (enqueue run_id m s1) (spec_connect v w k (spec_create w A)).
Proof.
  intros HA Hn Hvn Hnq Hv Hw Hd Hlw Hqs Hr Hroot.
  assert (sg (enqueue run_id m s1) = sg s1) as Hsg by (unfold enqueue; by case_decide).
  assert (forall p, walked s1 p <-> walked s p) as Hws by (intros p; unfold walked; by rewrite Hlw). constructor.
  - by rewrite Hsg.
  - by rewrite Hsg.
  - intros u. rewrite connect_keys, create_keys, (go_keys _ _ _ HA). setoid_rewrite enqueue_walked. setoid_rewrite Hws. split.
    + intros [[->|(p & Hp & Hu)]| ->]; [by left|right; exists p; by split; [left|]|right; exists m; by split; [right|]].
    + intros [->|(p & [Hp| ->] & Hu)]; [left; by left|left; right; by exists p|right; congruence].
  - intros x y k' [He|(-> & -> & -> & Hne)]%connect_edges.
    { apply create_edges in He. by apply (go_sound _ _ _ HA). }
    split; [done|]. by exists n, m.
  - by apply (enqueue_complete n v w l1 m k s A s1 HA).
Qed.

Lemma process_dep_ok n v sn l1 m k s :
  inv (fun p d => d ∈ (if decide (p = n) then l1 else deps p)) s ->
  walked s n -> n ∉ queue s -> sliced n = Some v -> node_map (sg s) !! v = Some sn -> (m, k) ∈ deps n ->
  exists s', process_dep sn s (m, k) = Some s' /\
    inv (fun p d => d ∈ (if decide (p = n) then l1 ++ [(m, k)] else deps p)) s' /\
    walked s' n /\ n ∉ queue s' /\ node_map (sg s') !! v = Some sn /\ measure s' = measure s.
Proof.
  intros Hinv Hn Hnq Hv Hsn Hd. pose proof (in_graph _ _ Hinv) as [A HA].
  destruct (sliced m) as [w|] eqn:Hw.
  2:{ exists s. split.
      { unfold process_dep, process, sliced in *. cbn [fst snd]. destruct (getValue dg m) as [u|]; [|done].
        by destruct (shouldSliceInst dg u). }
      split; [|done]. by apply skip_dep_inv. }
  destruct (sliced_Some _ _ Hw) as [Hgv Hsh].
  pose proof (create_repr (sg s) A w (go_repr _ _ _ HA)) as Hc1. unfold process_dep, process. cbn [fst snd].
  rewrite Hgv, Hsh. pose proof (getOrCreateNode_direction (sg s) w) as Hdir.
  destruct (getOrCreateNode (sg s) w) as [sn2 g1]. destruct Hc1 as (HA1 & Hsn2 & Hr1 & _ & Hm1). cbn [snd] in Hdir.
  destruct (connect_repr g1 _ v w sn sn2 k HA1 (Hm1 _ _ Hsn) Hsn2) as (b & g2 & Hc2 & HA2 & Hr2 & _ & Hm2).
  rewrite Hc2. simpl_bind. eexists. split; [done|]. set (s1 := set_sg g2 s).
  assert (visited m) as Hvm.
  { eapply rtc_r; [by apply (in_visited _ _ Hinv)|]. split; [by eexists|]. split; [by eexists|]. by exists k. }
  assert (forall p, walked s p \/ p = m -> visited p) as Hvis.
  { intros p [Hp| ->]; [by apply (in_visited _ _ Hinv)|done]. }
  split; [|split; [|split; [|split]]].
  - constructor.
    + unfold enqueue. apply connect_direction in Hc2. pose proof (in_dir _ _ Hinv). case_decide; cbn; congruence.
    + unfold enqueue. pose proof (in_nodup _ _ Hinv). case_decide as Hwm; [done|]. cbn. constructor; [|done].
      intros Hq. by apply Hwm, (in_queue _ _ Hinv).
    + intros p Hp. apply enqueue_walked. apply enqueue_queue in Hp as [Hp|[-> _]]; [|by right].
      left. by apply (in_queue _ _ Hinv).
    + intros p Hp. apply enqueue_walked in Hp. by apply Hvis.
    + apply enqueue_walked. left. apply (in_start _ _ Hinv).
    + exists (spec_connect v w k (spec_create w A)). apply (enqueue_graph n v w l1 m k s A s1 HA Hn); try done.
      * by apply (in_visited _ _ Hinv).
      * cbn. rewrite Hm2, (Hm1 _ _ (go_root _ _ _ HA)). congruence.
  - apply enqueue_walked. by left.
  - intros Hq. apply enqueue_queue in Hq as [Hq|[-> Hnw]]; done.
  - assert (sg (enqueue run_id m s1) = g2) as -> by (unfold enqueue; by case_decide). rewrite Hm2. by apply Hm1.
  - apply (enqueue_measure m s1). intros p Hp. apply Hall. by apply Hvis.
Qed.

(** ** One node *)

Definition all_but n p (d : Node * SliceDependence) : Prop := d ∈ (if decide (p = n) then [] else deps p).
Definition everything p (d : Node * SliceDependence) : Prop := d ∈ deps p.

Lemma process_all_ok n v sn s :
  inv (all_but n) s -> walked s n -> n ∉ queue s -> sliced n = Some v -> node_map (sg s) !! v = Some sn ->
  exists s', mfold (process_dep sn) s (deps n) = Some s' /\ inv everything s' /\ measure s' = measure s.
Proof.
  intros Hinv Hn Hnq Hv Hsn.
  destruct (mfold_total (process_dep sn) (fun l1 s' =>
    inv (fun p d => d ∈ (if decide (p = n) then l1 else deps p)) s' /\
    walked s' n /\ n ∉ queue s' /\ node_map (sg s') !! v = Some sn /\ measure s' = measure s) (deps n) s)
    as (s' & Hf & Hinv' & _ & _ & _ & Hm).
  - done.
  - intros l1 [m k] l2 s1 Hl (Hi & Hn1 & Hnq1 & Hsn1 & Hm1).
    destruct (process_dep_ok n v sn l1 m k s1 Hi Hn1 Hnq1 Hv Hsn1) as (s2 & Hs2 & Hi2 & Hn2 & Hnq2 & Hsn2 & Hm2);
      [rewrite Hl; set_solver|]. exists s2. split_and!; try done. congruence.
  - exists s'. split; [done|]. split; [|done]. destruct Hinv' as [? ? ? ? ? (A & [? ? ? ? Hc])]. constructor; try done.
    exists A. constructor; try done. intros p m k v' w' Hp Hpq Hh. apply (Hc p m k); try done.
    destruct (decide (p = n)) as [->|]; done.
Qed.

(** The invariant does not depend on the marks and the counter. *)
Lemma inv_ext handled s s' :
  sg s' = sg s -> queue s' = queue s -> lastwalkid s' = lastwalkid s -> inv handled s -> inv handled s'.
Proof.
  intros Hg Hq Hl [Hd Hnd Hqu Hvi Hst (A & HA)].
  assert (forall n, walked s' n <-> walked s n) as Hw by (intros n; unfold walked; by rewrite Hl).
  constructor; rewrite ?Hg, ?Hq; try done; try (intros n; rewrite Hw; auto).
  - by apply Hw.
  - exists A. destruct HA as [Hr Hro Hk Hs Hc]. constructor; rewrite ?Hg, ?Hq; try done.
    + intros v. rewrite Hk. by setoid_rewrite Hw.
    + intros p m k v w. rewrite !Hw. apply Hc.
Qed.

Lemma pop_ok n q s :
  inv everything s -> queue s = n :: q ->
  inv (all_but n) (set_queue q s) /\ walked (set_queue q s) n /\ n ∉ q /\ S (measure (set_queue q s)) = measure s.
Proof.
  intros [Hd Hnd Hqu Hvi Hst (A & HA)] Hq. rewrite Hq in Hnd. apply NoDup_cons in Hnd as [Hni Hnd].
  assert (walked s n) as Hn by (apply Hqu; rewrite Hq; by left).
  split; [|split; [done|split; [done|]]].
  - constructor; try done. { intros p Hp. apply Hqu. rewrite Hq. by right. }
    exists A. destruct HA as [Hr Hro Hk Hs Hc]. constructor; try done. intros p m k v w Hp Hpq Hh. unfold all_but in Hh.
    destruct (decide (p = n)) as [->|Hne]; [by apply elem_of_nil in Hh|]. apply (Hc p m k); try done.
    rewrite Hq, not_elem_of_cons. done.
  - unfold measure. rewrite Hq. cbn. change (walked_set (set_queue q s)) with (walked_set s). lia.
Qed.

Lemma inv_nothing n s :
  inv (all_but n) s -> deps n = [] \/ sliced n = None -> inv everything s.
Proof.
  intros [Hd Hnd Hqu Hvi Hst (A & HA)] Hno. constructor; try done. exists A. destruct HA as [Hr Hro Hk Hs Hc].
  constructor; try done. intros p m k v w Hp Hpq Hh Hv. apply (Hc p m k); try done. unfold all_but.
  destruct (decide (p = n)) as [->|Hne]; [|done]. unfold everything in Hh. destruct Hno as [Hno|Hno]; [by rewrite Hno in Hh|congruence].
Qed.

Lemma deps_no_options n : options = 0 -> deps n = [].
Proof. intros Ho. unfold deps, selected, selected_blocks. rewrite !Ho. reflexivity. Qed.

Lemma build_step_ok n q s :
  inv everything s -> queue s = n :: q ->
  exists s', build_step dg run_id slice_id options n (set_queue q s) = Some s' /\ inv everything s' /\
    S (measure s') = measure s.
Proof.
  intros Hinv Hq. destruct (pop_ok n q s Hinv Hq) as (Hpop & Hn & Hnq & Hm). unfold build_step.
  set (s0 := MkState _ _ _ _ _).
  assert (inv (all_but n) s0) as Hs0 by (by eapply inv_ext; [..|exact Hpop]).
  destruct (decide (options = 0)) as [Ho|Ho].
  { exists s0. split; [done|]. split; [|done]. apply (inv_nothing n); [done|]. left. by apply deps_no_options. }
  destruct (sliced n) as [v|] eqn:Hv.
  2:{ exists s0. split; [|split; [apply (inv_nothing n); [done|by right]|done]]. unfold sliced in Hv.
      destruct (getValue dg n) as [u|]; [|done]. by destruct (shouldSliceInst dg u). }
  destruct (sliced_Some _ _ Hv) as [Hgv Hsh].
  rewrite Hgv, Hsh. pose proof (in_graph _ _ Hs0) as (A & HA). destruct (go_repr _ _ _ HA) as [Hwf HAr].
  assert (exists sn, node_map (sg s0) !! v = Some sn) as [sn Hsn].
  { assert (is_Some (A !! v)) as [l Hl] by (apply (go_keys _ _ _ HA); right; by exists n).
    rewrite <- HAr in Hl. unfold adjacency in Hl. apply bind_Some in Hl as (sn & Hsn & _). by exists sn. }
  set (s1 := MkState _ _ _ _ (mark _ _ _ _)). change (node_map (sg s1) !! v = Some sn) in Hsn.
  unfold getOrCreateNode. rewrite Hsn. change (set_sg (sg s1) s1) with s1.
  assert (inv (all_but n) s1) as Hs1 by (by eapply inv_ext; [..|exact Hs0]).
  assert (has_blocks n) as Hb by (apply Hblocks; by apply (in_visited _ _ Hs1)).
  rewrite (process_node_deps sn n s1 (in_dir _ _ Hs1) Hb).
  destruct (process_all_ok n v sn s1 Hs1 Hn Hnq Hv Hsn) as (s' & Hf & Hi & Hms).
  exists s'. split; [done|]. split; [done|]. rewrite Hms. done.
Qed.

Lemma build_loop_ok fuel s :
  inv everything s -> (measure s <= fuel)%nat ->
  exists s', build_loop dg run_id slice_id options fuel s = Some (Some s') /\ inv everything s' /\ queue s' = [].
Proof.
  revert s. induction fuel as [|fuel IH]; intros s Hinv Hm; cbn [build_loop];
    (destruct (queue s) as [|n q] eqn:Hq; [by exists s|]).
  - unfold measure in Hm. rewrite Hq in Hm. cbn in Hm. lia.
  - destruct (build_step_ok n q s Hinv Hq) as (s1 & -> & Hi & Hm1). simpl_bind. apply IH; [done|lia].
Qed.

Lemma finished_walked s n : inv everything s -> queue s = [] -> visited n <-> walked s n.
Proof.
  intros Hinv Hq. split; [|apply (in_visited _ _ Hinv)]. revert n. refine (rtc_ind_r _ start _ _).
  - apply (in_start _ _ Hinv).
  - intros n m _ ([v Hv] & [w Hw] & k & Hd) Hn. destruct (in_graph _ _ Hinv) as [A HA].
    apply (go_complete _ _ _ HA n m k v w); try done. rewrite Hq. apply not_elem_of_nil.
Qed.

(** ** Marks *)

(** Processing dependences does not mark, and what it finds is still in the queue. *)
Lemma process_frame sn s d s' :
  process_dep sn s d = Some s' ->
  slice_marks s' = slice_marks s /\ forall p, walked s' p /\ p ∉ queue s' <-> walked s p /\ p ∉ queue s.
Proof.
  unfold process_dep, process. destruct (getValue dg d.1) as [w|]; [|by intros [= <-]].
  destruct (shouldSliceInst dg w); [|by intros [= <-]]. destruct (getOrCreateNode (sg s) w) as [sn2 g1].
  intros ([b g2] & _ & [= <-])%bind_Some. split; [unfold enqueue; by case_decide|].
  intros p. rewrite enqueue_walked. split.
  - intros [Hp Hq]. assert (~ (p ∈ queue s \/ (p = d.1 /\ ~ walked s d.1))) as Hn
      by (intros Hc; by apply Hq, enqueue_queue_2). destruct Hp as [Hp| ->]; [tauto|].
    destruct (decide (walked s d.1)); tauto.
  - intros [Hp Hq]. split; [by left|]. intros Hc. apply enqueue_queue in Hc as [Hc|[-> Hnw]]; done.
Qed.

(** The marked nodes are the sliced ones that have left the queue. *)
Definition marked_ok s : Prop :=
  forall n, node_slice (slice_marks s) !! n = Some slice_id <-> options <> 0 /\ walked s n /\ n ∉ queue s /\ is_Some (sliced n).

Lemma build_step_marks n q s s' :
  inv everything s -> queue s = n :: q -> marked_ok s ->
  build_step dg run_id slice_id options n (set_queue q s) = Some s' -> marked_ok s'.
Proof.
  intros Hinv Hq Hmk. destruct (pop_ok n q s Hinv Hq) as (Hpop & Hn & Hnq & _). unfold build_step.
  set (s0 := MkState _ _ _ _ _).
  assert (forall s1, (forall p, node_slice (slice_marks s1) !! p = Some slice_id <->
      node_slice (slice_marks s) !! p = Some slice_id \/ (options <> 0 /\ p = n /\ is_Some (sliced n))) ->
    (forall p, walked s1 p /\ p ∉ queue s1 <-> walked s0 p /\ p ∉ queue s0) -> marked_ok s1) as Hok.
  { intros s1 Hm Hw p. rewrite Hm, (Hmk p). pose proof (Hw p) as Hwp. cbn in Hwp. rewrite Hq, not_elem_of_cons.
    change (walked s0 p) with (walked s p) in Hwp. change (walked s n) in Hn.
    destruct (decide (p = n)) as [->|Hne]; tauto. }
  destruct (decide (options = 0)) as [Ho|Ho].
  { intros [= <-]. apply Hok; [|done]. intros p. cbn. tauto. }
  destruct (sliced n) as [v|] eqn:Hv.
  2:{ intros Hs'. assert (s' = s0) as ->.
      { unfold sliced in Hv. destruct (getValue dg n) as [u|]; [|by injection Hs'].
        destruct (shouldSliceInst dg u); [done|by injection Hs']. }
      apply Hok; [|done]. intros p. cbn. split; [by left|]. intros [?|(_ & _ & [? ?])]; done. }
  destruct (sliced_Some _ _ Hv) as [Hgv Hsh].
  rewrite Hgv, Hsh. set (s1 := MkState _ _ _ _ (mark _ _ _ _)).
  assert (inv (all_but n) s1) as Hs1 by (by eapply inv_ext; [..|exact Hpop]).
  destruct (in_graph _ _ Hs1) as (A & HA). destruct (go_repr _ _ _ HA) as [Hwf HAr].
  assert (exists sn, node_map (sg s1) !! v = Some sn) as [sn Hsn].
  { assert (is_Some (A !! v)) as [l Hl] by (apply (go_keys _ _ _ HA); right; by exists n).
    rewrite <- HAr in Hl. unfold adjacency in Hl. apply bind_Some in Hl as (sn & Hsn & _). by exists sn. }
  unfold getOrCreateNode. rewrite Hsn. change (set_sg (sg s1) s1) with s1.
  rewrite (process_node_deps sn n s1 (in_dir _ _ Hs1)) by (apply Hblocks; by apply (in_visited _ _ Hs1)).
  intros Hf. assert (slice_marks s' = slice_marks s1 /\ forall p, walked s' p /\ p ∉ queue s' <-> walked s1 p /\ p ∉ queue s1) as [Hms Hws].
  { revert Hf. apply (mfold_inv _ (fun _ s' => slice_marks s' = slice_marks s1 /\
      forall p, walked s' p /\ p ∉ queue s' <-> walked s1 p /\ p ∉ queue s1)); [done|].
    intros l1 d l2 s2 s3 _ [Hm2 Hw2] [Hm3 Hw3]%process_frame. split; [congruence|]. intros p. by rewrite Hw3. }
  apply Hok; [|done]. intros p. rewrite Hms. cbn. destruct (decide (p = n)) as [->|Hne].
  - rewrite lookup_insert_eq. split; [|done]. intros _. right. split; [done|]. split; [done|by eexists].
  - rewrite lookup_insert_ne by done. split; [by left|]. intros [?|(_ & ? & _)]; done.
Qed.

Lemma build_loop_marks fuel s s' :
  inv everything s -> marked_ok s -> build_loop dg run_id slice_id options fuel s = Some (Some s') -> marked_ok s'.
Proof.
  revert s. induction fuel as [|fuel IH]; intros s Hinv Hm; cbn [build_loop];
    (destruct (queue s) as [|n q] eqn:Hq; [by intros [= <-]|]); [done|].
  destruct (build_step_ok n q s Hinv Hq) as (s1 & Hs1 & Hi & _). rewrite Hs1. simpl_bind.
  intros Hl. eapply IH; [exact Hi| |exact Hl]. by apply (build_step_marks n q s).
Qed.

End Correct.

Section Build.
Context {Instr Node Block Graph : Type} `{Countable Instr} `{Countable Node} `{Countable Block} `{Countable Graph}.
Context (dg : dependence_graph Instr Node Block Graph) (dir : SliceDirection) (slice_dep_flags : Z) (start : Node).

Definition chosen : Z := sliceRelationOpts dir slice_dep_flags.

(** The dependence relation on instructions that a slice graph stands for. *)
Definition depends (v w : Instr) : Prop :=
  v <> w /\ exists n m k, visited dg dir chosen start n /\ sliced dg n = Some v /\ (m, k) ∈ deps dg dir chosen n /\
    sliced dg m = Some w.

Definition visited_instr (v : Instr) : Prop := exists n, visited dg dir chosen start n /\ sliced dg n = Some v.

Lemma start_ok root_val slice_id run_id lastwalk m g :
  getValue dg start = Some root_val -> (forall n, lastwalk !! n <> Some run_id) ->
  new_graph root_val dir slice_id = Some g ->
  inv dg dir chosen run_id start root_val (everything dg dir chosen) (enqueue run_id start (MkState g [] lastwalk 0 m)).
Proof.
  intros Hroot Hlw Hg. destruct (new_graph_repr root_val dir slice_id) as (g' & Hg' & HA & Hr & Hd).
  rewrite Hg in Hg'. injection Hg' as <-.
  unfold enqueue. rewrite decide_False by apply Hlw. cbn.
  assert (forall n, <[start := run_id]> lastwalk !! n = Some run_id <-> n = start) as Hw.
  { intros n. destruct (decide (n = start)) as [->|Hn]; [by rewrite lookup_insert_eq|].
    rewrite lookup_insert_ne by done. split; [|done]. intros Hc. by destruct (Hlw n). }
  constructor; cbn; unfold walked; cbn.
  - done.
  - apply NoDup_singleton.
  - intros n ->%list_elem_of_singleton. by apply Hw.
  - intros n ->%Hw. constructor.
  - by apply Hw.
  - exists {[ root_val := [] ]}. constructor; unfold walked; cbn; try done.
    + intros v. split.
      * intros [l [<- _]%lookup_singleton_Some]. by left.
      * intros [->|(n & ->%Hw & Hv)]; [by rewrite lookup_singleton_eq|]. unfold sliced in Hv. rewrite Hroot in Hv.
        destruct (shouldSliceInst dg root_val); [|done]. injection Hv as <-. by rewrite lookup_singleton_eq.
    + intros v w k (l & [<- <-]%lookup_singleton_Some & []%elem_of_nil).
    + intros p q k v w Hp Hpq. apply Hw in Hp as ->. destruct Hpq. by left.
Qed.

(** The state [build] ends in. *)
Lemma build_ok fuel root_val slice_id counter lastwalk m (all : gset Node) :
  getValue dg start = Some root_val -> (forall n, lastwalk !! n <> Some (u32 (counter + 1))) ->
  (forall n, visited dg dir chosen start n -> n ∈ all) ->
  (forall n, visited dg dir chosen start n -> has_blocks dg chosen n) -> (size all <= fuel)%nat ->
  exists s A, build dg fuel dir slice_dep_flags start slice_id counter lastwalk m = Some (Some (Some s)) /\
    repr (sg s) A /\ node_map (sg s) !! root_val = Some (groot (sg s)) /\ gdirection (sg s) = dir /\
    (forall v, is_Some (A !! v) <-> v = root_val \/ visited_instr v) /\
    (forall v w, (exists k, edge A v w k) <-> depends v w) /\
    ((forall n, node_slice m !! n <> Some slice_id) -> forall n, node_slice (slice_marks s) !! n = Some slice_id <->
       chosen <> 0 /\ visited dg dir chosen start n /\ is_Some (sliced dg n)).
Proof.
  intros Hroot Hlw Hall Hblocks Hfuel.
  destruct (new_graph_repr root_val dir slice_id) as (g & Hg & _).
  pose proof (start_ok root_val slice_id _ lastwalk m g Hroot Hlw Hg) as Hinv0.
  set (s0 := enqueue _ _ _) in *.
  assert (measure (u32 (counter + 1)) all s0 <= fuel)%nat as Hm0.
  { assert (walked_set (u32 (counter + 1)) s0 = {[ start ]} /\ queue s0 = [start]) as [Hws Hq].
    { subst s0. unfold enqueue. rewrite decide_False by apply Hlw. split; [|done]. apply set_eq. intros n.
      rewrite elem_of_walked_set. unfold walked. cbn. rewrite elem_of_singleton.
      destruct (decide (n = start)) as [->|Hn]; [by rewrite lookup_insert_eq|]. rewrite lookup_insert_ne by done.
      split; [|done]. intros Hc. by destruct (Hlw n). }
    unfold measure. rewrite Hws, Hq, size_singleton. cbn.
    assert (start ∈ all) as Hin by (apply Hall; constructor).
    assert (size ({[ start ]} : gset Node) <= size all)%nat as Hle by (apply subseteq_size; set_solver).
    rewrite size_singleton in Hle. lia. }
  destruct (build_loop_ok dg dir chosen (u32 (counter + 1)) slice_id start root_val all Hall Hblocks fuel s0 Hinv0 Hm0)
    as (s & Hs & Hinv & Hq).
  pose proof (fun n => finished_walked dg dir chosen _ start root_val s n Hinv Hq) as Hw.
  destruct (in_graph _ _ _ _ _ _ _ _ Hinv) as [A HA]. exists s, A.
  split. { unfold build. rewrite Hroot, Hg. simpl_bind. fold s0. fold chosen. by rewrite Hs. }
  split; [apply HA|]. split; [apply HA|]. split; [apply (in_dir _ _ _ _ _ _ _ _ Hinv)|]. split.
  { intros v. rewrite (go_keys _ _ _ _ _ _ _ _ _ HA). unfold visited_instr. by setoid_rewrite Hw. }
  split.
  2:{ intros Hm n. rewrite Hw.
      assert (marked_ok dg chosen (u32 (counter + 1)) slice_id s) as Hmk.
      { refine (build_loop_marks dg dir chosen _ slice_id start root_val all Hall Hblocks fuel s0 s Hinv0 _ Hs).
        intros p. split; [intros Hc; exfalso; apply (Hm p); revert Hc; subst s0; unfold enqueue; by case_decide|].
        intros (_ & Hp & Hpq & _). exfalso. apply Hpq. subst s0. apply enqueue_walked in Hp. apply enqueue_queue_2.
        destruct Hp as [Hp| ->]; [by destruct (Hlw p)|right; split; [done|]]. apply Hlw. }
      rewrite (Hmk n), Hq. pose proof (not_elem_of_nil n). tauto. }
  - intros v w. split.
    + intros [k Hk]. destruct (go_sound _ _ _ _ _ _ _ _ _ HA v w k Hk) as (Hne & n & q & ? & ? & ? & ?).
      split; [done|]. by exists n, q, k.
    + intros (Hne & n & q & k & Hv & Hsv & Hd & Hsw).
      apply (go_complete _ _ _ _ _ _ _ _ _ HA n q k v w); try done; [by apply Hw|]. rewrite Hq. apply not_elem_of_nil.
Qed.

(** C15. [build] terminates on a finite dependence graph, and the slice graph it returns
    is well formed and stands for the dependence relation of the flags: its nodes
    are the root and the instructions of the nodes reached from the start, its
    edges the dependences between different ones of them, without regard to how
    often or in how many kinds they occur. *)
Theorem build_correct fuel root_val slice_id counter lastwalk m (all : gset Node) :
  getValue dg start = Some root_val -> (forall n, lastwalk !! n <> Some (u32 (counter + 1))) ->
  (forall n, visited dg dir chosen start n -> n ∈ all) ->
  (forall n, visited dg dir chosen start n -> has_blocks dg chosen n) -> (size all <= fuel)%nat ->
  exists s, build dg fuel dir slice_dep_flags start slice_id counter lastwalk m = Some (Some (Some s)) /\
    wf (sg s) /\ node_map (sg s) !! root_val = Some (groot (sg s)) /\ gdirection (sg s) = dir /\
    (forall v, is_Some (adjacency (sg s) v) <-> v = root_val \/ visited_instr v) /\
    (forall v w, (exists l, adjacency (sg s) v = Some l /\ w ∈ l.*1) <-> depends v w).
Proof.
  intros Hroot Hlw Hall Hblocks Hfuel.
  destruct (build_ok fuel root_val slice_id counter lastwalk m all Hroot Hlw Hall Hblocks Hfuel)
    as (s & A & Hs & [Hwf HA] & Hr & Hd & Hk & He & _).
  exists s. split; [done|]. split; [done|]. split; [done|]. split; [done|]. split.
  - intros v. by rewrite HA.
  - intros v w. rewrite <- He. unfold edge. setoid_rewrite HA. split.
    + intros (l & Hl & ([w' k] & -> & Hin)%list_elem_of_fmap). by exists k, l.
    + intros (k & l & Hl & Hin). exists l. split; [done|]. apply list_elem_of_fmap. by exists (w, k).
Qed.

End Build.

(** ** A concrete dependence graph

    Instruction 0 uses 1 and 2, 1 uses 3 and its memory is defined by 4 and 5; 5 is
    an unreachable instruction. *)
Definition ex_dg : dependence_graph Z Z Z Z := {|
  getValue n := Some n;
  getOpcode i := if decide (i = 5) then Unreachable else OtherOpcode;
  uses _ := [];
  users n := if decide (n = 0) then [1; 2] else if decide (n = 1) then [3] else [];
  data _ := [];
  rev_data n := if decide (n = 1) then [4; 5] else [];
  control _ := [];
  rev_control _ := [];
  interference _ := [];
  rev_interference _ := [];
  getBBlock _ := Some 0;
  block_control _ := [];
  block_rev_control _ := [];
  getLastNode _ := None;
  getDG _ := Some 0
|}.

Definition ex_nodes : gset Z := {[ 0; 1; 2; 3; 4 ]}.

Definition ex_chosen : Z := chosen Backward DEFAULT_DEPENDENCY_FLAGS.

Lemma ex_closed n m :
  n ∈ ex_nodes -> dep_step ex_dg Backward ex_chosen n m -> m ∈ ex_nodes.
Proof.
  intros Hn ([v Hv] & [w Hw] & k & Hd).
  assert (n = 0 \/ n = 1 \/ n = 2 \/ n = 3 \/ n = 4) as Hcases by (unfold ex_nodes in Hn; set_solver).
  repeat destruct Hcases as [->|Hcases]; [| | | |subst n]; vm_compute in Hd;
    repeat (apply elem_of_cons in Hd as [Hd|Hd]; [injection Hd as -> ->; first [done|by apply (bool_decide_unpack _)]|]);
    by apply elem_of_nil in Hd.
Qed.

Lemma ex_visited n : visited ex_dg Backward ex_chosen 0 n -> n ∈ ex_nodes.
Proof.
  revert n. refine (rtc_ind_r _ 0 _ _); [by apply (bool_decide_unpack _)|].
  intros n m _ Hstep Hn. by eapply ex_closed.
Qed.

Lemma ex_blocks n : has_blocks ex_dg ex_chosen n.
Proof. intros _. by eexists. Qed.

Definition ex_marks : marks Z Z Z := MkMarks ∅ ∅ ∅.

Lemma build_correct_witness :
  (forall n, visited ex_dg Backward ex_chosen 0 n -> n ∈ ex_nodes) /\
  exists s, build ex_dg 5 Backward DEFAULT_DEPENDENCY_FLAGS 0 1 0 ∅ ex_marks = Some (Some (Some s)) /\ wf (sg s).
Proof.
  split; [exact ex_visited|].
  destruct (build_correct ex_dg Backward DEFAULT_DEPENDENCY_FLAGS 0 5 0 1 0 ∅ ex_marks ex_nodes) as (s & Hs & Hwf & _).
  - reflexivity.
  - intros n. by rewrite lookup_empty.
  - exact ex_visited.
  - intros n _. apply ex_blocks.
  - vm_compute. lia.
  - exists s. exact (conj Hs Hwf).
Defined.

End DgWalk.
