(* ===== verification/Slicer.v ===== *)
(** * The slicer (analyzer/{include,lib}/Slicing/Slicer, reactor/lib/core.cpp)

    [DgSlicer] holds the dependence graphs of the functions and slices from an
    instruction; [slice_fault_instr] of the reactor has it build the slice graph of
    the fault instruction, sorts the graph, computes the slices and classifies
    them.  Building dependence graphs is the dg library's. *)
From stdpp Require Import base list gmap relations.
From S2P Require Import Prelude Options Slice SliceGraph ComputeSlices SliceOrder DgWalk.
Import Slice SliceGraph.

Module Slicer.

(** ** Options of the dependence graph *)

Definition ENTRY_ONLY : Z := Z.shiftl 1 0.
Definition INTRA_PROCEDURAL : Z := Z.shiftl 1 1.
Definition INTER_PROCEDURAL : Z := Z.shiftl 1 2.
Definition ENABLE_PTA : Z := Z.shiftl 1 3.
Definition ENABLE_CONTROL_DEP : Z := Z.shiftl 1 4.
Definition SUPPORT_THREADS : Z := Z.shiftl 1 5.

(** [if (b) flags |= f] *)
Definition set_if (b : bool) (f flags : Z) : Z := if b then Z.lor flags f else flags.

(** The reactor's flags (core.cpp). *)
Definition createDgFlags (o : Options.dg_options) : Z :=
  set_if (Options.inter_procedural o) INTER_PROCEDURAL
    (set_if (Options.intra_procedural o) INTRA_PROCEDURAL
      (set_if (Options.support_thread o) SUPPORT_THREADS
        (set_if (Options.enable_ctrl o || Options.slice_ctrl o) ENABLE_CONTROL_DEP
          (set_if (Options.enable_pta o) ENABLE_PTA
            (set_if (Options.entry_only o) ENTRY_ONLY 0))))).

Inductive analysis_type := FlowSensitive | DataFlow.

Record analysis_options := MkAnalysis {
  an_threads : bool;
  an_intraProcedural : bool;
  an_entryOnly : bool;
  an_type : analysis_type;
  an_fixedPointThreshold : Z;
  an_timeout : Z
}.

Record llvm_dg_options {Fn : Type} := MkDgOptions {
  entryFunction : option Fn;
  intraProcedural : bool;
  entryOnly : bool;
  pointerAnalysis : bool;
  controlDependency : bool;
  threads : bool;
  verifyGraph : bool;
  PTAOptions : analysis_options;
  RDAOptions : analysis_options
}.
Arguments llvm_dg_options Fn : clear implicits.

Definition createDgOptions {Fn} (dg_flags : Z) (entry : option Fn) : llvm_dg_options Fn :=
  let has := DgWalk.has_flag dg_flags in
  let intra := has INTRA_PROCEDURAL || negb (has INTER_PROCEDURAL) in
  {| entryFunction := entry;
     intraProcedural := intra;
     entryOnly := has ENTRY_ONLY;
     pointerAnalysis := has ENABLE_PTA;
     controlDependency := has ENABLE_CONTROL_DEP;
     threads := has SUPPORT_THREADS;
     verifyGraph := false;
     PTAOptions := MkAnalysis (has SUPPORT_THREADS) intra (has ENTRY_ONLY) FlowSensitive 500000 (30 * 60 * 1000);
     RDAOptions := MkAnalysis (has SUPPORT_THREADS) intra (has ENTRY_ONLY) DataFlow 100000 (15 * 60 * 1000) |}.

(** ** The slicer *)

Inductive SlicingApproachKind := Storing | Marking.

Record statistics := MkStatistics {
  nodesTotal : Z; nodesRemoved : Z; blocksTotal : Z; blocksRemoved : Z; funcsTotal : Z; funcsRemoved : Z
}.
Definition no_statistics : statistics := MkStatistics 0 0 0 0 0 0.

Section Slicer.
Context {Instr Fn Node Block Graph : Type}.
Context `{Countable Instr} `{Countable Fn} `{Countable Node} `{Countable Block} `{Countable Graph}.
Context (dg : DgWalk.dependence_graph Instr Node Block Graph).
Context (getFunction : Instr -> Fn) (insts : Fn -> list Instr).

(** What the slicer reads of the dependence graph of a function. *)
Record graph_view := MkView {
  graph_nodes : Graph -> list Node;
  getExit : Graph -> option Node;
  getBlocks : Graph -> list Block;
  findNode : Graph -> Instr -> option Node
}.
Context (gv : graph_view).

(** The walk of the dg library, in the order in which it visits. *)
Context (walk : Z -> Node -> list Node).

Record DgSlicer := MkSlicer {
  direction : SliceDirection;
  last_slice_id : Z;
  dependency_computed : bool;
  funcDgMap : option (gmap Fn Graph);
  stats : statistics
}.

Definition new_slicer (d : SliceDirection) : DgSlicer := MkSlicer d 0 false None no_statistics.

(** [built] is what the builder gives; [None] when it fails. *)
Definition computeDependencies (built : option (gmap Fn Graph)) (s : DgSlicer) : bool * DgSlicer :=
  if dependency_computed s then (true, s)
  else match built with
       | None => (false, s)
       | Some m => (true, MkSlicer (direction s) (last_slice_id s) true (Some m) (stats s))
       end.

(** [None] is the use of the end iterator for a function that has no graph. *)
Definition getDependenceGraph (s : DgSlicer) (f : Fn) : option (option Graph) :=
  match funcDgMap s with
  | None => Some None
  | Some m => match m !! f with Some G => Some (Some G) | None => None end
  end.

(** Statistics. *)
Definition getSlice (m : DgWalk.marks Node Block Graph) (n : Node) : Z := default 0 (DgWalk.node_slice m !! n).
Definition block_getSlice (m : DgWalk.marks Node Block Graph) (b : Block) : Z := default 0 (DgWalk.block_slice m !! b).
Definition graph_getSlice (m : DgWalk.marks Node Block Graph) (G : Graph) : Z := default 0 (DgWalk.graph_slice m !! G).

Definition count_node (m : DgWalk.marks Node Block Graph) (G : Graph) (slice_id : Z) (st : statistics) (n : Node) : statistics :=
  if decide (Some n = getExit gv G) then st
  else MkStatistics (u64 (nodesTotal st + 1))
         (if decide (getSlice m n = slice_id) then nodesRemoved st else u64 (nodesRemoved st + 1))
         (blocksTotal st) (blocksRemoved st) (funcsTotal st) (funcsRemoved st).

Definition count_block (m : DgWalk.marks Node Block Graph) (slice_id : Z) (st : statistics) (b : Block) : statistics :=
  MkStatistics (nodesTotal st) (nodesRemoved st) (u32 (blocksTotal st + 1))
    (if decide (block_getSlice m b = slice_id) then blocksRemoved st else u32 (blocksRemoved st + 1))
    (funcsTotal st) (funcsRemoved st).

Definition updateStatsSliceId (m : DgWalk.marks Node Block Graph) (slice_id : Z) (st : statistics) (G : Graph) : statistics :=
  let st1 := foldl (count_node m G slice_id) st (graph_nodes gv G) in
  let st2 := foldl (count_block m slice_id) st1 (getBlocks gv G) in
  MkStatistics (nodesTotal st2) (nodesRemoved st2) (blocksTotal st2) (blocksRemoved st2) (u32 (funcsTotal st2 + 1))
    (if decide (graph_getSlice m G = slice_id) then funcsRemoved st2 else u32 (funcsRemoved st2 + 1)).

(** Marking: [DgWalkAndMark] calls [markSlice] on every node of the walk; the
    blocks are collected unless the direction is backward. *)
Definition markSlice (slice_id : Z) (collect : bool) (acc : DgWalk.marks Node Block Graph * gset Block) (n : Node)
  : DgWalk.marks Node Block Graph * gset Block :=
  (DgWalk.mark dg n slice_id acc.1,
   match DgWalk.getBBlock dg n with Some B => if collect then {[ B ]} ∪ acc.2 else acc.2 | None => acc.2 end).

Definition markSliceId (s : DgSlicer) (start : Node) (slice_id slice_dep_flags : Z) (m : DgWalk.marks Node Block Graph)
  : DgWalk.marks Node Block Graph :=
  (foldl (markSlice slice_id (negb (bool_decide (direction s = Backward)))) (m, ∅)
     (walk (DgWalk.sliceRelationOpts (direction s) slice_dep_flags) start)).1.

(** The state of the dg library the walks share: the counter of runs and the run in
    which each node was last enqueued, and the marks. *)
Record dg_state := MkDgState {
  walk_run_counter : Z;
  lastwalk : gmap Node Z;
  dg_marks : DgWalk.marks Node Block Graph
}.

(** [slice] from a node: the slice graph (null for marking), the slice id and the
    new states; [Some None] is running out of fuel. *)
Definition slice_node (fuel : nat) (s : DgSlicer) (d : dg_state) (start : Node) (slice_id : Z) (kind : SlicingApproachKind)
    (slice_dep_flags : Z) : option (option (option (SliceGraph Instr) * Z * DgSlicer * dg_state)) :=
  let '(slice_id, last) := if decide (slice_id = 0) then (u32 (last_slice_id s + 1), u32 (last_slice_id s + 1))
                           else (slice_id, last_slice_id s) in
  r ← match kind with
      | Storing =>
        r ← DgWalk.build dg fuel (direction s) slice_dep_flags start slice_id (walk_run_counter d) (lastwalk d) (dg_marks d);
        Some (match r with
              | None => None
              | Some None => Some (None, d)
              | Some (Some b) => Some (Some (DgWalk.sg b), MkDgState (u32 (walk_run_counter d + 1)) (DgWalk.lastwalkid b) (DgWalk.slice_marks b))
              end)
      | Marking => Some (Some (None, MkDgState (walk_run_counter d) (lastwalk d) (markSliceId s start slice_id slice_dep_flags (dg_marks d))))
      end;
  match r with
  | None => Some None
  | Some (result, d') =>
    m ← funcDgMap s;
    let st := foldl (updateStatsSliceId (dg_marks d') slice_id) (stats s) (map_to_list m).*2 in
    Some (Some (result, slice_id, MkSlicer (direction s) last (dependency_computed s) (funcDgMap s) st, d'))
  end.

(** [slice] from an instruction: null when its function has no graph or its graph no
    node for it. *)
Definition slice (fuel : nat) (s : DgSlicer) (d : dg_state) (start : Instr) (slice_id : Z) (kind : SlicingApproachKind)
    (slice_dep_flags : Z) : option (option (option (SliceGraph Instr) * Z * DgSlicer * dg_state)) :=
  subdg ← getDependenceGraph s (getFunction start);
  match subdg with
  | None => Some (Some (None, slice_id, s, d))
  | Some G =>
    match findNode gv G start with
    | None => Some (Some (None, slice_id, s, d))
    | Some node => slice_node fuel s d node slice_id kind slice_dep_flags
    end
  end.

(** Walking marked elements, [walkSliceId]: what the callbacks are applied to. *)
Definition walkNodeSliceId (m : DgWalk.marks Node Block Graph) (slice_id : Z) (G : Graph) : list Node :=
  filter (fun n => Some n <> getExit gv G /\ getSlice m n = slice_id) (graph_nodes gv G).
Definition walkBasicBlockSliceId (m : DgWalk.marks Node Block Graph) (slice_id : Z) (G : Graph) : list Block :=
  filter (fun b => block_getSlice m b = slice_id) (getBlocks gv G).
Definition walkFunctionSliceId (m : DgWalk.marks Node Block Graph) (slice_id : Z) (G : Graph) : list Graph :=
  if decide (graph_getSlice m G = slice_id) then [G] else [].
Definition walkSliceId (s : DgSlicer) (m : DgWalk.marks Node Block Graph) (slice_id : Z) (graph : option Graph)
  : option (list (list Node * list Block * list Graph)) :=
  let visit G := (walkNodeSliceId m slice_id G, walkBasicBlockSliceId m slice_id G, walkFunctionSliceId m slice_id G) in
  match graph with
  | Some G => Some [visit G]
  | None => fm ← funcDgMap s; Some (visit <$> (map_to_list fm).*2)
  end.

(** ** Slicing the fault instruction (core.cpp) *)

Context (std_sort : (nat -> nat -> bool) -> list nat -> list nat).

(** [computed] is the result of [compute_dependencies]; the list of slices is empty
    at first.  The result of [sort] is not looked at.  The persistent variables and
    the counters are globals. *)
Definition slice_fault_instr (fuel : nat) (computed : bool) (slice_ctrl : bool) (s : DgSlicer) (d : dg_state)
    (fault_inst : Instr) (pmem_vars : gset Instr) (c : counters)
  : option (option (bool * list (Slice Instr) * counters)) :=
  if negb computed then Some (Some (false, [], c))
  else
    let dep_flags := if slice_ctrl then Z.lor DgWalk.DEFAULT_DEPENDENCY_FLAGS DgWalk.CONTROL
                     else DgWalk.DEFAULT_DEPENDENCY_FLAGS in
    r ← slice fuel s d fault_inst 0 Storing dep_flags;
    match r with
    | None => Some None
    | Some (None, _, _, _) => Some (Some (false, [], c))
    | Some (Some g, _, _, _) =>
      '(_, g') ← SliceOrder.sort getFunction insts std_sort g;
      w ← ComputeSlices.computeSlices getFunction fuel g' no_slices true false;
      match w with
      | None => Some None
      | Some w =>
        let slices := omap (fun i => ComputeSlices.store w !! i) (slices (ComputeSlices.added w)) in
        let '(c', ss) := set_all pmem_vars c slices in Some (Some (true, ss, c'))
      end
    end.

End Slicer.

End Slicer.
