(* ===== verification/SliceFault.v ===== *)
(** * Slicing a fault instruction, end to end (reactor/lib/core.cpp, slice_fault_instr)

    The composition of the walk over the dependence graph, the sorting of the slice
    graph and the computation of slices: together the slices hold exactly the
    instructions the fault instruction depends on. *)
From stdpp Require Import base list gmap relations sorting.
From S2P Require Import Prelude Slice SliceGraph ComputeSlices SliceOrder DgWalk Slicer.
Import Slice SliceGraph.

Module SliceFault.

(** ** Sizes *)
Section Sizes.
Context {Instr : Type} `{Countable Instr}.
Implicit Types (g : SliceGraph Instr).

Lemma edges_bound g n nd :
  wf g -> n ∈ nodes g -> hnode g !! n = Some nd -> (length (edges nd) <= length (nodes g))%nat.
Proof.
  intros Hwf Hn Hnd. rewrite <- (length_fmap (target g) (edges nd)), <- (length_fmap Some (nodes g)).
  apply submseteq_length, NoDup_submseteq.
  - apply NoDup_alt. intros i j x Hi Hj. apply list_lookup_fmap_Some in Hi as (e1 & -> & H1), Hj as (e2 & Ht & H2). by eapply (wf_targets _ Hwf n nd i j).
  - intros t (e & -> & He)%list_elem_of_fmap. destruct (wf_edge _ Hwf _ _ _ Hn Hnd He) as (ed & Hed & Hin & _).
    unfold target. rewrite Hed. change (Some (target_node ed) ∈ Some <$> nodes g). by apply list_elem_of_fmap_2.
Qed.

Lemma nodes_bound g (X : gset Instr) :
  wf g -> (forall v, is_Some (node_map g !! v) -> v ∈ X) -> (length (nodes g) <= size X)%nat.
Proof.
  intros Hwf HX. assert (exists vs, Forall2 (fun n v => node_map g !! v = Some n) (nodes g) vs) as [vs Hvs].
  { assert (forall ns, ns ⊆ nodes g -> exists vs, Forall2 (fun n v => node_map g !! v = Some n) ns vs) as Hex; [|by apply Hex].
    induction ns as [|n ns IH]; intros Hsub; [by exists []|].
    destruct IH as [vs Hvs]; [intros m Hm; apply Hsub; by right|].
    destruct (wf_alloc _ Hwf n) as (nd & _ & Hm); [apply Hsub; by left|]. exists (value nd :: vs). by constructor. }
  rewrite (Forall2_length _ _ _ Hvs), <- (size_list_to_set (C := gset Instr) vs).
  - apply subseteq_size. intros v Hv. apply elem_of_list_to_set in Hv. apply list_elem_of_lookup in Hv as [i Hi].
    destruct (Forall2_lookup_r _ _ _ _ _ Hvs Hi) as (n & _ & Hn). apply HX. by exists n.
  - apply NoDup_alt. intros i j v Hi Hj. destruct (Forall2_lookup_r _ _ _ _ _ Hvs Hi) as (n & Hni & Hn).
    destruct (Forall2_lookup_r _ _ _ _ _ Hvs Hj) as (m & Hmj & Hm). rewrite Hn in Hm. injection Hm as <-.
    eapply NoDup_lookup; [apply (wf_nodes _ Hwf)|done..].
Qed.

End Sizes.

(** ** The sorted graph *)
Section Sorted.
Context {Instr : Type} `{Countable Instr}.
Implicit Types (g : SliceGraph Instr).

(** The same graph with the edges of each node in another order. *)
Definition permuted g g' : Prop :=
  nodes g' = nodes g /\ groot g' = groot g /\
  (forall e, (fun ed => (target_node ed, kind ed)) <$> hedge g' !! e = (fun ed => (target_node ed, kind ed)) <$> hedge g !! e) /\
  forall n nd, n ∈ nodes g -> hnode g !! n = Some nd -> exists es, hnode g' !! n = Some (set_edges es nd) /\ es ≡ₚ edges nd.

Lemma permuted_edge g g' e ed :
  permuted g g' -> hedge g !! e = Some ed -> exists ed', hedge g' !! e = Some ed' /\ target_node ed' = target_node ed.
Proof.
  intros (_ & _ & He & _) Hed. specialize (He e). rewrite Hed in He. destruct (hedge g' !! e) as [ed'|]; [|done].
  injection He as ? ?. by exists ed'.
Qed.

Lemma permuted_walkable g g' v :
  wf g -> node_map g !! v = Some (groot g) -> permuted g g' -> ComputeSlices.walkable g' v.
Proof.
  intros Hwf Hv Hp. pose proof Hp as (Hn & Hr & _ & Hnodes). destruct (wf_map _ Hwf _ _ Hv) as (Hroot & rd & Hrd & Hval).
  assert (forall n nd', n ∈ nodes g' -> hnode g' !! n = Some nd' -> exists nd, n ∈ nodes g /\ hnode g !! n = Some nd /\
    exists es, nd' = set_edges es nd /\ es ≡ₚ edges nd) as Hback.
  { intros n nd' Hin Hnd'. rewrite Hn in Hin. destruct (wf_alloc _ Hwf _ Hin) as (nd & Hnd & _). exists nd. split; [done|].
    split; [done|]. destruct (Hnodes n nd Hin Hnd) as (es & Hes & Hperm). exists es. split; [congruence|done]. }
  constructor.
  - by rewrite Hr, Hn.
  - rewrite Hr. destruct (Hnodes _ _ Hroot Hrd) as (es & Hes & _). eexists. split; [done|]. done.
  - intros n Hin. rewrite Hn in Hin. destruct (wf_alloc _ Hwf _ Hin) as (nd & Hnd & _).
    destruct (Hnodes n nd Hin Hnd) as (es & -> & _). done.
  - intros n nd' e Hin Hnd' He. destruct (Hback n nd' Hin Hnd') as (nd & Hin' & Hnd & es & -> & Hperm). cbn in He.
    rewrite Hperm in He. destruct (wf_edge _ Hwf _ _ _ Hin' Hnd He) as (ed & Hed & Ht & _).
    destruct (permuted_edge _ _ _ _ Hp Hed) as (ed' & Hed' & Hteq). exists ed'. split; [done|]. by rewrite Hn, Hteq.
Qed.

Lemma permuted_succ g g' n m :
  wf g -> permuted g g' -> n ∈ nodes g ->
  ComputeSlices.succ g' n m <-> exists v w l, node_map g !! v = Some n /\ node_map g !! w = Some m /\
    adjacency g v = Some l /\ w ∈ l.*1.
Proof.
  intros Hwf Hp Hin. pose proof Hp as (_ & _ & _ & Hnodes). destruct (wf_alloc _ Hwf _ Hin) as (nd & Hnd & Hmap).
  destruct (Hnodes n nd Hin Hnd) as (es & Hes & Hperm).
  destruct (adjacency_Some g (value nd) Hwf) as [l Hl]; [by eexists|].
  pose proof Hl as Hl'. unfold adjacency in Hl'. rewrite Hmap in Hl'. cbn in Hl'. rewrite Hnd in Hl'. cbn in Hl'.
  pose proof (edge_targets g n nd l Hwf Hin Hnd Hl') as Htg.
  split.
  - intros (nd' & e & ed' & Hnd' & He & Hed' & Ht). rewrite Hes in Hnd'. injection Hnd' as <-. cbn in He. rewrite Hperm in He.
    destruct (wf_edge _ Hwf _ _ _ Hin Hnd He) as (ed & Hed & _ & _).
    destruct (permuted_edge _ _ _ _ Hp Hed) as (ed2 & Hed2 & Hteq). rewrite Hed' in Hed2. injection Hed2 as <-.
    assert (target g e ∈ target g <$> edges nd) as Hte by (by apply list_elem_of_fmap_2). rewrite Htg in Hte.
    apply list_elem_of_fmap in Hte as (x & Hx & Hxl). unfold target in Hx. rewrite Hed in Hx. cbn in Hx.
    exists (value nd), x.1, l. split; [done|]. split; [rewrite <- Hx; congruence|]. split; [done|]. by apply list_elem_of_fmap_2.
  - intros (v & w & l2 & Hv & Hw & Hl2 & Hwl). assert (v = value nd) as -> by (by eapply node_map_inj).
    rewrite Hl in Hl2. injection Hl2 as <-. apply list_elem_of_fmap in Hwl as (x & -> & Hx).
    assert (node_map g !! x.1 ∈ (fun x => node_map g !! x.1) <$> l) as Hxt by (apply list_elem_of_fmap; by exists x).
    rewrite <- Htg, Hw in Hxt. apply list_elem_of_fmap in Hxt as (e & Hte & He).
    unfold target in Hte. destruct (hedge g !! e) as [ed|] eqn:Hed; [|done]. injection Hte as Hte.
    destruct (permuted_edge _ _ _ _ Hp Hed) as (ed' & Hed' & Hteq).
    exists (set_edges es nd), e, ed'. split; [done|]. split; [cbn; by rewrite Hperm|]. split; [done|]. congruence.
Qed.

(** Reachability of nodes is reachability of instructions. *)
Lemma permuted_reachable g g' (R : Instr -> Instr -> Prop) root_val v :
  wf g -> permuted g g' -> node_map g !! root_val = Some (groot g) ->
  (forall v w, (exists l, adjacency g v = Some l /\ w ∈ l.*1) <-> R v w) ->
  (exists n, ComputeSlices.reachable g' n /\ ComputeSlices.node_value g' n v) <-> rtc R root_val v.
Proof.
  intros Hwf Hp Hroot HR. pose proof Hp as (_ & Hr & _ & Hnodes).
  assert (forall n u, node_map g !! u = Some n -> ComputeSlices.node_value g' n u) as Hval.
  { intros n u Hu. destruct (wf_map _ Hwf _ _ Hu) as (Hin & nd & Hnd & <-). destruct (Hnodes n nd Hin Hnd) as (es & Hes & _).
    eexists. split; [done|]. done. }
  assert (forall n, ComputeSlices.reachable g' n -> exists u, node_map g !! u = Some n /\ rtc R root_val u) as Hfwd.
  { unfold ComputeSlices.reachable. rewrite Hr. refine (rtc_ind_r _ (groot g) _ _); [exists root_val; by split; [|constructor]|].
    intros n m _ Hs (u & Hu & Hru). destruct (wf_map _ Hwf _ _ Hu) as (Hin & _).
    apply (permuted_succ g g' n m Hwf Hp Hin) in Hs as (v' & w & l & Hv' & Hw & Hl & Hwl).
    assert (v' = u) as -> by (by eapply node_map_inj). exists w. split; [done|]. eapply rtc_r; [done|]. apply HR. by exists l. }
  split.
  - intros (n & Hn & Hnv). destruct (Hfwd n Hn) as (u & Hu & Hru). destruct (Hval n u Hu) as (nd & Hnd & <-).
    destruct Hnv as (nd' & Hnd' & <-). by replace nd' with nd by congruence.
  - intros Hv. assert (exists n, node_map g !! v = Some n /\ ComputeSlices.reachable g' n) as (n & Hn & Hrn).
    { revert v Hv. refine (rtc_ind_r _ root_val _ _).
      - exists (groot g). split; [done|]. unfold ComputeSlices.reachable. rewrite Hr. constructor.
      - intros u w _ Huw (n & Hn & Hrn). apply HR in Huw as (l & Hl & Hwl).
        destruct (wf_map _ Hwf _ _ Hn) as (Hin & nd & Hnd & Hnv).
        assert (exists m, node_map g !! w = Some m) as [m Hm].
        { unfold adjacency in Hl. rewrite Hn in Hl. cbn in Hl. rewrite Hnd in Hl. cbn in Hl.
          pose proof (edge_targets g n nd l Hwf Hin Hnd Hl) as Htg. apply list_elem_of_fmap in Hwl as (x & -> & Hx).
          assert (node_map g !! x.1 ∈ target g <$> edges nd) as Hin2 by (rewrite Htg; apply list_elem_of_fmap; by exists x).
          apply list_elem_of_fmap in Hin2 as (e & -> & He).
          destruct (wf_edge _ Hwf _ _ _ Hin Hnd He) as (ed & Hed & _). exists (target_node ed). unfold target. by rewrite Hed. }
        exists m. split; [done|]. eapply rtc_r; [exact Hrn|]. apply (permuted_succ g g' n m Hwf Hp Hin).
        by exists u, w, l. }
    exists n. split; [done|]. by apply Hval.
Qed.

End Sorted.

(** ** The whole *)
Section Fault.
Context {Instr Fn Node Block Graph : Type}.
Context `{Countable Instr} `{Countable Fn} `{Countable Node} `{Countable Block} `{Countable Graph}.
Context (dg : DgWalk.dependence_graph Instr Node Block Graph).
Context (getFunction : Instr -> Fn) (insts : Fn -> list Instr).
Context (gv : Slicer.graph_view (Instr := Instr) (Node := Node) (Block := Block) (Graph := Graph)).
Context (walk : Z -> Node -> list Node) (std_sort : (nat -> nat -> bool) -> list nat -> list nat).

(** What holds of LLVM's functions and of the sorting function. *)
Context (Hinsts : forall i, i ∈ insts (getFunction i)) (Hshort : SliceOrder.short insts) (Hsort : sorts std_sort).

Context (dir : SliceDirection) (flags : Z) (start : Node) (fault_inst : Instr) (all : gset Node).
Context (Hstart : DgWalk.getValue dg start = Some fault_inst).
Context (Hall : forall n, DgWalk.visited dg dir (DgWalk.chosen dir flags) start n -> n ∈ all).
Context (Hblocks : forall n, DgWalk.visited dg dir (DgWalk.chosen dir flags) start n ->
  DgWalk.has_blocks dg (DgWalk.chosen dir flags) n).
Context (Hsize : 100000 * Z.of_nat (size all + 2) < 2 ^ 63).

Let depends := DgWalk.depends dg dir flags start.
Let visited_instr := DgWalk.visited_instr dg dir flags start.

(** Instructions reached along dependences are those of the nodes the walk visits. *)
Lemma depends_visited v : rtc depends fault_inst v <-> v = fault_inst \/ visited_instr v.
Proof.
  split.
  - revert v. refine (rtc_ind_r _ fault_inst _ _); [by left|].
    intros v w _ (_ & n & m & k & Hn & Hv & Hd & Hw) _. right. exists m. split; [|done].
    eapply rtc_r; [exact Hn|]. split; [by eexists|]. split; [by eexists|]. by exists k.
  - intros [->|(n & Hn & Hv)]; [constructor|]. revert n Hn v Hv. refine (rtc_ind_r _ start _ _).
    + intros v Hv. unfold DgWalk.sliced in Hv. rewrite Hstart in Hv.
      destruct (DgWalk.shouldSliceInst dg fault_inst); [|done]. injection Hv as <-. constructor.
    + intros n m Hn ([v Hv] & _ & k & Hd) IH w Hw. specialize (IH v Hv).
      destruct (decide (v = w)) as [->|Hne]; [done|]. eapply rtc_r; [done|]. split; [done|]. by exists n, m, k.
Qed.

Lemma node_values_bound (g : SliceGraph Instr) :
  wf g -> (forall v, is_Some (adjacency g v) <-> v = fault_inst \/ visited_instr v) ->
  (length (nodes g) <= size all + 1)%nat.
Proof.
  intros Hwf Hk. set (X := {[ fault_inst ]} ∪ list_to_set (omap (DgWalk.sliced dg) (elements all)) : gset Instr).
  transitivity (size X).
  - apply (nodes_bound g X Hwf). intros v Hv. apply (adjacency_Some g v Hwf), Hk in Hv as [->|(n & Hn & Hv)].
    + apply elem_of_union. left. by apply elem_of_singleton.
    + apply elem_of_union. right. apply elem_of_list_to_set, list_elem_of_omap. exists n.
      split; [|done]. apply elem_of_elements. by apply Hall.
  - subst X. rewrite size_union_alt, size_singleton.
    assert (size (list_to_set (omap (DgWalk.sliced dg) (elements all)) ∖ {[ fault_inst ]} : gset Instr) <= size all)%nat; [|lia].
    etrans; [apply subseteq_size, subseteq_difference_l; reflexivity|].
    etrans; [apply size_list_to_set_le|]. etrans; [apply length_omap_le|]. done.
Qed.

(** The slice graph of the fault instruction, before it is sorted. *)
Definition graph_of_fault (g : SliceGraph Instr) : Prop :=
  wf g /\ node_map g !! fault_inst = Some (groot g) /\
  (forall v, is_Some (adjacency g v) <-> v = fault_inst \/ visited_instr v) /\
  (forall v w, (exists l, adjacency g v = Some l /\ w ∈ l.*1) <-> depends v w).

Lemma fault_graph_ok fuel s d fm G :
  Slicer.direction s = dir -> Slicer.funcDgMap s = Some fm -> fm !! getFunction fault_inst = Some G ->
  Slicer.findNode gv G fault_inst = Some start ->
  (forall n, Slicer.lastwalk d !! n <> Some (u32 (Slicer.walk_run_counter d + 1))) -> (size all + 1 <= fuel)%nat ->
  exists g sid s' d',
    Slicer.slice dg getFunction gv walk fuel s d fault_inst 0 Slicer.Storing flags = Some (Some (Some g, sid, s', d')) /\ graph_of_fault g.
Proof.
  intros Hdir Hfm HG Hnode Hlw Hfuel.
  destruct (DgWalk.build_ok dg dir flags start fuel fault_inst (u32 (Slicer.last_slice_id s + 1)) (Slicer.walk_run_counter d)
    (Slicer.lastwalk d) (Slicer.dg_marks d) all Hstart Hlw Hall Hblocks) as (b & A & Hb & [Hwf HA] & Hroot & Hgd & Hk & He & _); [lia|].
  eexists (DgWalk.sg b), _, _, _. split.
  - unfold Slicer.slice, Slicer.getDependenceGraph. rewrite Hfm, HG. simpl_bind. rewrite Hnode.
    unfold Slicer.slice_node. rewrite decide_True by done. rewrite Hdir, Hb. simpl_bind. rewrite Hfm. done.
  - split; [done|]. split; [done|]. split; [intros v; by rewrite HA|].
    intros v w. unfold depends. rewrite <- He. unfold DgWalk.edge. setoid_rewrite HA. split.
    + intros (l & Hl & ([w' k] & -> & Hin)%list_elem_of_fmap). by exists k, l.
    + intros (k & l & Hl & Hin). exists l. split; [done|]. apply list_elem_of_fmap. by exists (w, k).
Qed.

(** Computing the slices of that graph, whatever the order of the edges. *)
Lemma fault_slices_ok fuel g g' :
  graph_of_fault g -> permuted g g' -> (size all + 1 <= fuel)%nat ->
  exists w, ComputeSlices.computeSlices getFunction fuel g' no_slices true false = Some (Some w) /\
    slices (ComputeSlices.added w) = seq 0 (length (ComputeSlices.store w)) /\
    (forall i sl, ComputeSlices.store w !! i = Some sl -> ComputeSlices.good_slice g' fault_inst i sl) /\
    (forall v, (exists sl, sl ∈ ComputeSlices.store w /\ v ∈ (dep_vals sl).*1) <-> v = fault_inst \/ visited_instr v).
Proof.
  intros (Hwf & Hroot & Hk & He) Hp Hfuel. pose proof (permuted_walkable _ g' fault_inst Hwf Hroot Hp) as Hwalk.
  pose proof (node_values_bound g Hwf Hk) as Hns.
  assert (ComputeSlices.N g' <= size all + 1)%nat as HN.
  { unfold ComputeSlices.N. rewrite (proj1 Hp). etrans; [apply size_list_to_set_le|done]. }
  destruct (ComputeSlices.computeSlices_ok getFunction g' fault_inst Hwalk) with (fuel := fuel) (inter := true) (sep := false)
    as (w & Hw & Hex & Hst); [lia|lia|].
  pose proof (ComputeSlices.ex_num _ _ _ _ _ Hex) as Hnum.
  exists w. split; [done|]. split; [apply Hnum|]. split; [apply Hnum|].
  intros v. rewrite <- depends_visited, <- (permuted_reachable g g' depends fault_inst v Hwf Hp Hroot He). split.
  - intros Hin. by apply (ComputeSlices.in_slices_reachable g' fault_inst w v Hnum).
  - intros (n & Hn & Hv). pose proof (ComputeSlices.explored_reachable g' fault_inst w n Hex Hst Hn) as Hvis.
    apply (ComputeSlices.ex_done _ _ _ _ _ Hex n Hvis); [rewrite Hst; apply not_elem_of_nil|done].
Qed.

(** Sorting succeeds and reorders the edges only. *)
Lemma fault_sort_ok g :
  graph_of_fault g -> exists b g', SliceOrder.sort getFunction insts std_sort g = Some (b, g') /\ permuted g g'.
Proof.
  intros (Hwf & _ & Hk & _). pose proof (node_values_bound g Hwf Hk) as Hns.
  assert (SliceOrder.measurable getFunction insts g) as Hme.
  { constructor; [done|by intros; apply Hinsts|]. intros n nd Hn Hnd. pose proof (edges_bound g n nd Hwf Hn Hnd). lia. }
  destruct (SliceOrder.sort_ok getFunction insts std_sort) with (g := g) as (g' & Hg' & Hns' & Hr' & Hh' & _ & Hnodes);
    [intros f; specialize (Hshort f); lia|done..|].
  eexists _, g'. split; [exact Hg'|]. split; [done|]. split; [done|]. split; [done|].
  intros n nd Hn Hnd. destruct (Hnodes n nd Hn Hnd) as (_ & es & Hes & Hperm & _). by exists es.
Qed.

Lemma slice_fault_instr_ok fuel slice_ctrl s d fm G pmem_vars c :
  Slicer.direction s = dir ->
  flags = (if slice_ctrl : bool then Z.lor DgWalk.DEFAULT_DEPENDENCY_FLAGS DgWalk.CONTROL else DgWalk.DEFAULT_DEPENDENCY_FLAGS) ->
  Slicer.funcDgMap s = Some fm -> fm !! getFunction fault_inst = Some G -> Slicer.findNode gv G fault_inst = Some start ->
  (forall n, Slicer.lastwalk d !! n <> Some (u32 (Slicer.walk_run_counter d + 1))) -> (size all + 1 <= fuel)%nat ->
  exists ss c', Slicer.slice_fault_instr dg getFunction insts gv walk std_sort fuel true slice_ctrl s d fault_inst pmem_vars c =
      Some (Some (true, ss, c')) /\
    (forall v, (exists sl, sl ∈ ss /\ v ∈ (dep_vals sl).*1) <-> v = fault_inst \/ visited_instr v) /\
    (forall i sl, ss !! i = Some sl -> id sl = Z.of_nat i + 1 /\ (exists l, dep_vals sl = (fault_inst, 0) :: l) /\
       (persistence sl = Volatile <-> Forall (fun v => v.1 ∉ pmem_vars) (dep_vals sl)) /\
       (persistence sl = Persistent <-> Forall (fun v => v.1 ∈ pmem_vars) (dep_vals sl))).
Proof.
  intros Hdir Hflags Hfm HG Hnode Hlw Hfuel.
  destruct (fault_graph_ok fuel s d fm G) as (g & sid & s' & d' & Hsl & Hg); [done..|].
  destruct (fault_sort_ok g Hg) as (b & g' & Hso & Hp).
  destruct (fault_slices_ok fuel g g' Hg Hp) as (w & Hw & Hsls & Hgood & Hcov); [done|].
  unfold Slicer.slice_fault_instr. cbn [negb]. rewrite <- Hflags, Hsl. simpl_bind. rewrite Hso. simpl_bind.
  rewrite Hw. simpl_bind. rewrite Hsls, omap_seq.
  pose proof (set_all_values pmem_vars c (ComputeSlices.store w)) as Hv.
  destruct (set_all pmem_vars c (ComputeSlices.store w)) as [c' ss]. cbn [snd] in Hv. exists ss, c'. split; [done|]. subst ss. split.
  - intros v. rewrite <- Hcov. split.
    + intros (sl & (sl0 & -> & Hsl0)%list_elem_of_fmap & Hvs). by exists sl0.
    + intros (sl & Hin & Hvs). exists (set_persistence (kind_of pmem_vars sl) sl). split; [|done].
      by apply (list_elem_of_fmap_2 (fun s => set_persistence (kind_of pmem_vars s) s)).
  - intros i sl Hi. apply list_lookup_fmap_Some in Hi as (sl0 & -> & Hi). destruct (Hgood i sl0 Hi) as (Hid & _ & (l & Hl) & _).
    assert (dep_vals sl0 <> []) as Hne by (by rewrite Hl). cbn [id dep_vals persistence set_persistence].
    split; [done|]. split; [by exists l|]. split; [exact (kind_of_Volatile pmem_vars sl0 Hne)|exact (kind_of_Persistent pmem_vars sl0 Hne)].
Qed.

(** C4. From a fault instruction that has a node in the dependence graph of its
    function, [slice_fault_instr] succeeds, and the slices together hold exactly
    the fault instruction and what it depends on, directly or not, through the
    dependences of the flags; each slice starts with the fault instruction, has its
    position as id, and is volatile when it holds no persistent variable and
    persistent when it holds nothing else. *)
Theorem slice_fault_instr_covers fuel slice_ctrl s d fm G pmem_vars c :
  Slicer.direction s = dir ->
  flags = (if slice_ctrl : bool then Z.lor DgWalk.DEFAULT_DEPENDENCY_FLAGS DgWalk.CONTROL else DgWalk.DEFAULT_DEPENDENCY_FLAGS) ->
  Slicer.funcDgMap s = Some fm -> fm !! getFunction fault_inst = Some G -> Slicer.findNode gv G fault_inst = Some start ->
  (forall n, Slicer.lastwalk d !! n <> Some (u32 (Slicer.walk_run_counter d + 1))) -> (size all + 1 <= fuel)%nat ->
  exists ss c', Slicer.slice_fault_instr dg getFunction insts gv walk std_sort fuel true slice_ctrl s d fault_inst pmem_vars c =
      Some (Some (true, ss, c')) /\
    (forall v, (exists sl, sl ∈ ss /\ v ∈ (dep_vals sl).*1) <-> v = fault_inst \/ visited_instr v) /\
    (forall i sl, ss !! i = Some sl -> id sl = Z.of_nat i + 1 /\ (exists l, dep_vals sl = (fault_inst, 0) :: l) /\
       (persistence sl = Volatile <-> Forall (fun v => v.1 ∉ pmem_vars) (dep_vals sl)) /\
       (persistence sl = Persistent <-> Forall (fun v => v.1 ∈ pmem_vars) (dep_vals sl))).
Proof. apply slice_fault_instr_ok. Qed.

End Fault.

(** ** The concrete dependence graph of DgWalk *)

Definition ex_view : Slicer.graph_view (Instr := Z) (Node := Z) (Block := Z) (Graph := Z) :=
  {| Slicer.graph_nodes _ := seqZ 0 6; Slicer.getExit _ := None; Slicer.getBlocks _ := [0]; Slicer.findNode _ i := Some i |}.

Definition ex_slicer : Slicer.DgSlicer (Fn := Z) (Graph := Z) :=
  Slicer.MkSlicer Backward 0 true (Some {[ 0 := 0 ]}) Slicer.no_statistics.

Definition ex_state : Slicer.dg_state (Node := Z) (Block := Z) (Graph := Z) := Slicer.MkDgState 0 ∅ DgWalk.ex_marks.

Lemma slice_fault_instr_covers_witness :
  exists ss c', Slicer.slice_fault_instr DgWalk.ex_dg (fun i => i) (fun f => [f]) ex_view (fun _ n => [n])
      SliceOrder.insertion_sort 6 true false ex_slicer ex_state 0 {[ 3 ]} (MkCounters 0 0 0) = Some (Some (true, ss, c')) /\
    (exists sl, sl ∈ ss /\ 0 ∈ (dep_vals sl).*1).
Proof.
  destruct (slice_fault_instr_covers DgWalk.ex_dg (fun i => i) (fun f => [f]) ex_view (fun _ n => [n]) SliceOrder.insertion_sort)
    with (dir := Backward) (flags := DgWalk.DEFAULT_DEPENDENCY_FLAGS) (start := 0) (fault_inst := 0) (all := DgWalk.ex_nodes)
         (fuel := 6%nat) (slice_ctrl := false) (s := ex_slicer) (d := ex_state) (fm := {[ 0 := 0 ]} : gmap Z Z) (G := 0)
         (pmem_vars := {[ 3 ]} : gset Z) (c := MkCounters 0 0 0) as (ss & c' & Hs & Hcov & _).
  - intros i. by left.
  - intros f. cbn. lia.
  - apply SliceOrder.insertion_sort_sorts.
  - reflexivity.
  - exact DgWalk.ex_visited.
  - intros n _. apply DgWalk.ex_blocks.
  - vm_compute. reflexivity.
  - reflexivity.
  - reflexivity.
  - reflexivity.
  - reflexivity.
  - reflexivity.
  - intros n. cbn. by rewrite lookup_empty.
  - vm_compute. lia.
  - exists ss, c'. split; [exact Hs|]. apply Hcov. by left.
Defined.

End SliceFault.
