(* ===== verification/DefUse.v ===== *)
(** * The users of a value (analyzer/include/DefUse/DefUse.h)

    [UserGraph] collects what uses a value, directly or through other users.  LLVM's
    values are elements of a type with decidable equality; what the walk reads of
    them is a record of functions. *)
From stdpp Require Import base list gmap relations.
From S2P Require Import Prelude.

Module DefUse.

Inductive UserGraphWalkType := BFS | DFS.

(** LLVM's answers: the users of a value, [isa<Instruction>], [isa<AllocaInst>],
    and the pointer operand of a store. *)
Record use_view {Value : Type} := MkUses {
  users : Value -> list Value;
  is_instruction : Value -> bool;
  is_alloca : Value -> bool;
  store_operand : Value -> option Value
}.
Arguments use_view : clear implicits.

Section UserGraph.
Context {Value : Type} `{Countable Value}.
Context (uv : use_view Value) (root : Value) (maxDepth : Z).

(** [visit_queue] holds [None] as the mark of the end of a level. *)
Record user_graph := MkUserGraph {
  userList : list (Value * Z);
  visited : gset Value;
  visit_queue : list (option Value);
  visit_stack : list Value
}.

(** The value to visit for a user: the target of a store, the user itself else. *)
Definition next (u : Value) : option Value :=
  if is_instruction uv u then
    match store_operand uv u with
    | Some op => if is_instruction uv op then Some op else None
    | None => Some u
    end
  else None.

Definition visit (walk : UserGraphWalkType) (s : user_graph) (v : Value) : user_graph :=
  if decide (v ∈ visited s) then s
  else match walk with
       | DFS => MkUserGraph (userList s) ({[ v ]} ∪ visited s) (visit_queue s) (v :: visit_stack s)
       | BFS => MkUserGraph (userList s) ({[ v ]} ∪ visited s) (visit_queue s ++ [Some v]) (visit_stack s)
       end.

Definition processUser (walk : UserGraphWalkType) (s : user_graph) (elem : Value) : user_graph :=
  foldl (fun s u => match next u with Some v => visit walk s v | None => s end) s (users uv elem).

(** The list of users skips the root and [alloca] instructions. *)
Definition listed (elem : Value) : bool := bool_decide (elem <> root) && negb (is_alloca uv elem).

Definition list_user (elem : Value) (level : Z) (s : user_graph) : user_graph :=
  MkUserGraph (if listed elem then userList s ++ [(elem, level)] else userList s) (visited s) (visit_queue s) (visit_stack s).

Definition set_stack (st : list Value) (s : user_graph) : user_graph :=
  MkUserGraph (userList s) (visited s) (visit_queue s) st.
Definition set_queue (q : list (option Value)) (s : user_graph) : user_graph :=
  MkUserGraph (userList s) (visited s) q (visit_stack s).

(** The loops; [None] is running out of fuel. *)
Fixpoint dfs_loop (fuel : nat) (s : user_graph) : option user_graph :=
  match visit_stack s with
  | [] => Some s
  | elem :: st =>
    match fuel with
    | 0%nat => None
    | S fuel' => dfs_loop fuel' (processUser DFS (set_stack st (list_user elem 1 s)) elem)
    end
  end.

Definition doDFS (fuel : nat) : option user_graph :=
  dfs_loop fuel (MkUserGraph [] {[ root ]} [] [root]).

(** One round, with [head] at the front of the queue. *)
Definition bfs_front (level : Z) (head : option Value) (s : user_graph) : user_graph :=
  let s' := match head with
            | Some elem => processUser BFS (list_user elem level s) elem
            | None => s
            end in
  set_queue (tail (visit_queue s')) s'.

Fixpoint bfs_loop (fuel : nat) (level : Z) (s : user_graph) : option user_graph :=
  match visit_queue s with
  | [] => Some s
  | head :: _ =>
    match fuel with
    | 0%nat => None
    | S fuel' =>
      let s1 := bfs_front level head s in
      match visit_queue s1 with
      | [] => bfs_loop fuel' level s1
      | Some _ :: _ => bfs_loop fuel' level s1
      | None :: q =>
        let level' := s32 (level + 1) in
        if decide (maxDepth > 0 /\ level' > maxDepth) then Some (set_queue q s1)
        else bfs_loop fuel' level' (set_queue (if decide (q = []) then [] else q ++ [None]) s1)
      end
    end
  end.

Definition doBFS (fuel : nat) : option user_graph :=
  bfs_loop fuel 0 (MkUserGraph [] {[ root ]} [Some root; None] []).

Definition UserGraph (t : UserGraphWalkType) (fuel : nat) : option (list (Value * Z)) :=
  userList <$> match t with DFS => doDFS fuel | BFS => doBFS fuel end.

(** ** One step of the walks *)

Definition uses_of (v : Value) : list Value := omap next (users uv v).
Definition step (v w : Value) : Prop := w ∈ uses_of v.

(** What visiting a list of values appends. *)
Definition unvisited (vs : gset Value) (l new : list Value) : Prop :=
  NoDup new /\ forall v, v ∈ new <-> v ∈ l /\ v ∉ vs.

Definition visited_by (walk : UserGraphWalkType) (s : user_graph) (new : list Value) : user_graph :=
  MkUserGraph (userList s) (visited s ∪ list_to_set new)
    (match walk with BFS => visit_queue s ++ (Some <$> new) | DFS => visit_queue s end)
    (match walk with BFS => visit_stack s | DFS => reverse new ++ visit_stack s end).

Lemma processUser_uses walk s elem : processUser walk s elem = foldl (visit walk) s (uses_of elem).
Proof.
  unfold processUser, uses_of. revert s. induction (users uv elem) as [|u l IH]; intros s; [done|].
  cbn [foldl omap list_omap]. destruct (next u); apply IH.
Qed.

Lemma visit_all walk s l :
  exists new, foldl (visit walk) s l = visited_by walk s new /\ unvisited (visited s) l new.
Proof.
  revert s. induction l as [|v l IH]; intros s; cbn [foldl].
  { exists []. split; [|split; [constructor|intros v; rewrite !elem_of_nil; tauto]].
    destruct s, walk; unfold visited_by; cbn; f_equal; rewrite ?app_nil_r; try done; by rewrite union_empty_r_L. }
  unfold visit at 2. case_decide as Hv.
  - destruct (IH s) as (new & -> & Hnd & Hnew). exists new. split; [done|]. split; [done|].
    intros w. rewrite Hnew, elem_of_cons. split; [tauto|]. intros [[->|?] ?]; [done|by split].
  - assert (forall new : list Value, unvisited ({[ v ]} ∪ visited s) l new -> unvisited (visited s) (v :: l) (v :: new)) as Hun.
    { intros new [Hnd Hnew]. split.
      - constructor; [|done]. rewrite Hnew, elem_of_union, elem_of_singleton. tauto.
      - intros w. rewrite !elem_of_cons, Hnew, elem_of_union, elem_of_singleton.
        destruct (decide (w = v)) as [->|]; tauto. }
    destruct walk; match goal with |- context [foldl _ ?s1 l] => destruct (IH s1) as (new & -> & Hnew) end;
      exists (v :: new); (split; [|by apply Hun]); unfold visited_by; cbn [userList visited visit_queue visit_stack list_to_set]; f_equal.
    all: try (by rewrite (union_comm_L {[ v ]} (visited s)), <- union_assoc_L).
    + by rewrite <- app_assoc, fmap_cons.
    + by rewrite reverse_cons, <- app_assoc.
Qed.

Lemma processUser_ok walk s elem :
  exists new, processUser walk s elem = visited_by walk s new /\ unvisited (visited s) (uses_of elem) new.
Proof. rewrite processUser_uses. apply visit_all. Qed.

(** Values left to visit. *)
Lemma left_to_visit (all vs : gset Value) l new :
  unvisited vs l new -> (forall v, v ∈ l -> v ∈ all) ->
  (size (all ∖ (vs ∪ list_to_set new)) + length new = size (all ∖ vs))%nat.
Proof.
  intros [Hnd Hnew] Hall. rewrite <- (size_list_to_set (C := gset Value) new Hnd).
  assert (all ∖ (vs ∪ list_to_set new) = (all ∖ vs) ∖ list_to_set new) as -> by (by rewrite difference_difference_l_L).
  rewrite size_difference; [|intros v Hv%elem_of_list_to_set%Hnew; apply elem_of_difference; split; [apply Hall|]; apply Hv].
  assert (size (list_to_set new : gset Value) <= size (all ∖ vs))%nat; [|lia].
  apply subseteq_size. intros v Hv%elem_of_list_to_set%Hnew. apply elem_of_difference. split; [apply Hall|]; apply Hv.
Qed.

(** ** The depth-first walk *)

Definition reachable (v : Value) : Prop := rtc step root v.

Record dfs_inv (s : user_graph) : Prop := MkDfsInv {
  di_reach v : v ∈ visited s -> reachable v;
  di_root : root ∈ visited s;
  di_stack v : v ∈ visit_stack s -> v ∈ visited s;
  di_nodup : NoDup (visit_stack s);
  di_listed v d : (v, d) ∈ userList s <-> d = 1 /\ listed v = true /\ v ∈ visited s /\ v ∉ visit_stack s;
  di_list : NoDup (userList s).*1;
  di_done v w : v ∈ visited s -> v ∉ visit_stack s -> step v w -> w ∈ visited s
}.

Lemma list_user_visited elem d s : visited (list_user elem d s) = visited s.
Proof. done. Qed.

Lemma listed_elem elem d s v k :
  (v, k) ∈ userList (list_user elem d s) <-> (v, k) ∈ userList s \/ (v = elem /\ k = d /\ listed elem = true).
Proof.
  unfold list_user. cbn [userList]. destruct (listed elem).
  - rewrite elem_of_app, list_elem_of_singleton. split; [intros [?|[=]]; naive_solver|intros [?|(-> & -> & _)]; auto].
  - naive_solver.
Qed.

Lemma listed_nodup elem d s :
  NoDup (userList s).*1 -> (forall k, (elem, k) ∉ userList s) -> NoDup (userList (list_user elem d s)).*1.
Proof.
  intros Hnd Hel. unfold list_user. cbn [userList]. destruct (listed elem); [|done].
  rewrite fmap_app. apply NoDup_app. split; [done|]. split; [|apply NoDup_singleton].
  intros v Hv. cbn. intros ->%list_elem_of_singleton. apply list_elem_of_fmap in Hv as ([v k] & -> & Hv). by apply (Hel k).
Qed.

Lemma dfs_step_inv s elem st :
  dfs_inv s -> visit_stack s = elem :: st ->
  exists new, dfs_inv (processUser DFS (set_stack st (list_user elem 1 s)) elem) /\
    unvisited (visited s) (uses_of elem) new /\
    visited (processUser DFS (set_stack st (list_user elem 1 s)) elem) = visited s ∪ list_to_set new /\
    visit_stack (processUser DFS (set_stack st (list_user elem 1 s)) elem) = reverse new ++ st.
Proof.
  intros Hi Hst. destruct (processUser_ok DFS (set_stack st (list_user elem 1 s)) elem) as (new & -> & Hun).
  exists new. cbn [visited visited_by visit_stack set_stack list_user] in *. split; [|done].
  pose proof (di_stack _ Hi) as Hsub. pose proof (di_nodup _ Hi) as Hnd. rewrite Hst in Hsub, Hnd.
  apply NoDup_cons in Hnd as [Hel Hnd]. destruct Hun as [Hnnd Hnew].
  assert (elem ∈ visited s) as Hev by (apply Hsub; left).
  constructor; cbn [visited visited_by visit_stack set_stack].
  - intros v [Hv|Hv%elem_of_list_to_set%Hnew]%elem_of_union; [by apply (di_reach _ Hi)|].
    apply (rtc_r _ elem); [by apply (di_reach _ Hi)|apply Hv].
  - apply elem_of_union. left. apply (di_root _ Hi).
  - intros v Hv%elem_of_app. apply elem_of_union. destruct Hv as [Hv|Hv]; [right|left; apply Hsub; by right]. apply elem_of_list_to_set. rewrite elem_of_reverse in Hv. exact Hv.
  - apply NoDup_app. split; [by rewrite reverse_Permutation|]. split; [|done].
    intros v Hv%elem_of_reverse%Hnew Hv2. apply Hv, Hsub. by right.
  - intros v d. change (userList (visited_by _ _ _)) with (userList (list_user elem 1 s)).
    rewrite listed_elem, (di_listed _ Hi), Hst, elem_of_union, elem_of_list_to_set, elem_of_app, elem_of_reverse, not_elem_of_cons.
    split.
    + intros [(-> & Hl & Hv & Hne & Hv2)|(-> & -> & Hl)]; (split; [done|]; split; [done|]).
      * split; [by left|]. intros [Hn%Hnew|?]; [|done]. by apply Hn.
      * split; [by left|]. intros [Hn%Hnew|?]; [|done]. by apply Hn.
    + intros (-> & Hl & [Hv|Hv] & Hns); [|by destruct Hns; left].
      destruct (decide (v = elem)) as [->|Hne]; [by right|left]. split; [done|]. split; [done|]. split; [done|].
      split; [done|]. intros ?. apply Hns. by right.
  - apply listed_nodup; [apply (di_list _ Hi)|]. intros k (_ & _ & _ & Hk)%(di_listed _ Hi). apply Hk. rewrite Hst. by left.
  - intros v w [Hv|Hv]%elem_of_union Hns Hvw; [|destruct Hns; apply elem_of_app; left; by apply elem_of_reverse, (elem_of_list_to_set (C := gset Value))].
    apply elem_of_union. destruct (decide (v = elem)) as [->|Hne].
    + destruct (decide (w ∈ visited s)); [by left|right]. apply elem_of_list_to_set, Hnew. by split.
    + left. apply (di_done _ Hi v); [done| |done]. rewrite Hst. intros [?|Hv2]%elem_of_cons; [done|].
      apply Hns, elem_of_app. by right.
Qed.

Lemma dfs_loop_ok (all : gset Value) fuel s :
  dfs_inv s -> (forall v, reachable v -> v ∈ all) ->
  (size (all ∖ visited s) + length (visit_stack s) <= fuel)%nat ->
  exists s', dfs_loop fuel s = Some s' /\ dfs_inv s' /\ visit_stack s' = [].
Proof.
  intros Hi Hall. revert s Hi. induction fuel as [|fuel IH]; intros s Hi Hf.
  - destruct (visit_stack s) as [|elem st] eqn:Hst; [|simpl in Hf; lia]. exists s. unfold dfs_loop. by rewrite Hst.
  - destruct (visit_stack s) as [|elem st] eqn:Hst.
    { exists s. unfold dfs_loop. by rewrite Hst. }
    destruct (dfs_step_inv s elem st Hi Hst) as (new & Hi' & Hun & Hvis & Hstk).
    cbn [dfs_loop]. rewrite Hst. apply IH; [done|]. rewrite Hvis, Hstk, length_app, length_reverse.
    assert (Hm := left_to_visit all (visited s) (uses_of elem) new Hun). cbn [length] in Hf.
    rewrite <- Hm in Hf; [lia|]. intros v Hv. apply Hall. eapply rtc_r; [|exact Hv].
    apply (di_reach _ Hi), (di_stack _ Hi). rewrite Hst. by left.
Qed.

(** The depth-first walk: every user once, with the level 1. *)
Lemma doDFS_ok (all : gset Value) fuel :
  (forall v, reachable v -> v ∈ all) -> (size all <= fuel)%nat ->
  exists l, UserGraph DFS fuel = Some l /\ NoDup l.*1 /\
    forall v d, (v, d) ∈ l <-> d = 1 /\ listed v = true /\ reachable v.
Proof.
  intros Hall Hf. unfold UserGraph, doDFS.
  destruct (dfs_loop_ok all fuel (MkUserGraph [] {[ root ]} [] [root])) as (s & -> & Hi & Hst); [|done| |].
  - constructor; cbn.
    + intros v ->%elem_of_singleton. apply rtc_refl.
    + by apply elem_of_singleton.
    + intros v ->%list_elem_of_singleton. by apply elem_of_singleton.
    + apply NoDup_singleton.
    + intros v d. rewrite elem_of_nil, list_elem_of_singleton, elem_of_singleton. tauto.
    + constructor.
    + intros v w ->%elem_of_singleton Hv. destruct Hv. by left.
  - cbn [visited visit_stack length]. assert (root ∈ all) as Hr by (apply Hall, rtc_refl).
    rewrite size_difference by set_solver. rewrite size_singleton.
    assert (size all <> 0%nat); [|lia]. intros Hs%size_empty_inv. set_solver.
  - exists (userList s). split; [done|]. split; [apply (di_list _ Hi)|]. intros v d.
    rewrite (di_listed _ Hi), Hst. assert (v ∈ visited s <-> reachable v) as ->.
    + split; [apply (di_reach _ Hi)|]. revert v. apply (rtc_ind_r (fun v => v ∈ visited s)); [apply (di_root _ Hi)|]. intros x y _ Hxy Hx.
      apply (di_done _ Hi x); [exact Hx| |exact Hxy]. rewrite Hst. apply not_elem_of_nil.
    + pose proof (not_elem_of_nil v). tauto.
Qed.

(** ** The breadth-first walk *)

(** The values at distance [k] from the root. *)
Definition layer (k : nat) (v : Value) : Prop :=
  nsteps step k root v /\ forall j, nsteps step j root v -> (k <= j)%nat.

Lemma layer_inj k j v : layer k v -> layer j v -> k = j.
Proof. intros [Hk Hk'] [Hj Hj']. apply Hk' in Hj. apply Hj' in Hk. lia. Qed.

Lemma layer_reachable k v : layer k v -> reachable v.
Proof. intros [Hk _]. apply rtc_nsteps. by exists k. Qed.

(** While level [l] is walked, [cur] is what is left of it, [nxt] is what has been
    found of the next one. *)
Record bfs_inv (l : nat) (cur nxt : list Value) (s : user_graph) : Prop := MkBfsInv {
  bi_visited v : v ∈ visited s -> (exists k, (k <= l)%nat /\ layer k v) \/ v ∈ nxt;
  bi_complete k v : (k <= l)%nat -> nsteps step k root v -> v ∈ visited s;
  bi_cur v : v ∈ cur -> layer l v;
  bi_nxt v : v ∈ nxt -> layer (S l) v;
  bi_queue v : v ∈ cur ++ nxt -> v ∈ visited s;
  bi_nodup : NoDup (cur ++ nxt);
  bi_listed v d : (v, d) ∈ userList s <->
    listed v = true /\ v ∈ visited s /\ v ∉ cur ++ nxt /\ exists k, d = Z.of_nat k /\ layer k v;
  bi_list : NoDup (userList s).*1;
  bi_done v w : v ∈ visited s -> v ∉ cur ++ nxt -> step v w -> w ∈ visited s
}.

Definition level_queue (cur nxt : list Value) : list (option Value) := (Some <$> cur) ++ None :: (Some <$> nxt).

Lemma bfs_front_inv l elem cur nxt s :
  bfs_inv l (elem :: cur) nxt s -> visit_queue s = level_queue (elem :: cur) nxt ->
  exists new, let s1 := bfs_front (Z.of_nat l) (Some elem) s in
    bfs_inv l cur (nxt ++ new) s1 /\ visit_queue s1 = level_queue cur (nxt ++ new) /\
    unvisited (visited s) (uses_of elem) new /\ visited s1 = visited s ∪ list_to_set new.
Proof.
  intros Hi Hq. unfold bfs_front.
  destruct (processUser_ok BFS (list_user elem (Z.of_nat l) s) elem) as (new & -> & Hun). exists new.
  cbn [visited visited_by visit_queue set_queue list_user] in *. split; [|split; [|done]].
  2: { rewrite Hq. unfold level_queue. cbn. by rewrite fmap_app, <- app_assoc. }
  destruct Hun as [Hnnd Hnew]. pose proof (bi_queue _ _ _ _ Hi) as Hsub. pose proof (bi_nodup _ _ _ _ Hi) as Hnd.
  cbn [app] in Hsub, Hnd. apply NoDup_cons in Hnd as [Hel Hnd].
  assert (elem ∈ visited s) as Hev by (apply Hsub; left). pose proof (bi_cur _ _ _ _ Hi elem ltac:(by left)) as Hlay.
  assert (forall v, v ∈ cur ++ nxt ++ new <-> v ∈ cur ++ nxt \/ v ∈ new) as Hin by (intros v; rewrite !elem_of_app; tauto).
  assert (forall v, v ∈ visited s ∪ list_to_set new <-> v ∈ visited s \/ v ∈ new) as Hvis
    by (intros v; by rewrite elem_of_union, elem_of_list_to_set).
  constructor; cbn [visited visited_by set_queue].
  - intros v. rewrite Hvis, elem_of_app. intros [Hv|Hv]; [|tauto]. destruct (bi_visited _ _ _ _ Hi v Hv); tauto.
  - intros k v Hk Hv. rewrite Hvis. left. by eapply bi_complete.
  - intros v Hv. apply (bi_cur _ _ _ _ Hi). by right.
  - intros v [Hv|Hv]%elem_of_app; [by apply (bi_nxt _ _ _ _ Hi)|]. apply Hnew in Hv as [Hv Hnv]. split.
    + eapply nsteps_r; [apply Hlay|exact Hv].
    + intros j Hj. destruct (decide (j <= l)%nat) as [Hle|]; [|lia]. destruct Hnv. by eapply bi_complete.
  - intros v. rewrite Hin, Hvis. intros [Hv|Hv]; [left; apply Hsub; by right|by right].
  - rewrite (assoc_L (++)). apply NoDup_app. split; [done|]. split; [|done]. intros v Hv Hvn. apply Hnew in Hvn. apply Hvn, Hsub. by right.
  - intros v d. change (userList _) with (userList (list_user elem (Z.of_nat l) s)).
    rewrite listed_elem, (bi_listed _ _ _ _ Hi), Hvis, Hin. cbn [app]. rewrite not_elem_of_cons. split.
    + intros [(Hl & Hv & [Hne Hns] & Hk)|(-> & -> & Hl)]; (split; [done|]); (split; [by left|]); (split; [|by eauto]).
      * intros [?|Hn]; [done|]. apply Hnew in Hn. by apply Hn.
      * intros [?|Hn]; [done|]. apply Hnew in Hn. by apply Hn.
    + intros (Hl & [Hv|Hv] & Hns & k & -> & Hk); [|by destruct Hns; right].
      destruct (decide (v = elem)) as [->|Hne]; [right|left; split_and!; eauto].
      split; [done|]. split; [f_equal; by eapply layer_inj|done].
  - apply listed_nodup; [apply (bi_list _ _ _ _ Hi)|]. intros k (_ & _ & Hk & _)%(bi_listed _ _ _ _ Hi). apply Hk. by left.
  - intros v w. rewrite !Hvis, Hin. intros [Hv|Hv] Hns Hvw; [|by destruct Hns; right].
    destruct (decide (v = elem)) as [->|Hne].
    + destruct (decide (w ∈ visited s)); [by left|right]. apply Hnew. by split.
    + left. apply (bi_done _ _ _ _ Hi v); [done| |done]. cbn [app]. rewrite not_elem_of_cons. tauto.
Qed.

Lemma bfs_next_level l nxt s q : bfs_inv l [] nxt s -> bfs_inv (S l) nxt [] (set_queue q s).
Proof.
  intros Hi. constructor; cbn [visited set_queue userList]; rewrite ?app_nil_r; try apply Hi.
  - intros v Hv. left. destruct (bi_visited _ _ _ _ Hi v Hv) as [(k & ? & ?)|Hn].
    + exists k. split; [lia|done].
    + exists (S l). split; [lia|]. by apply (bi_nxt _ _ _ _ Hi).
  - intros k v Hk Hv. destruct (decide (k = S l)) as [->|]; [|eapply (bi_complete _ _ _ _ Hi); [|exact Hv]; lia].
    apply nsteps_inv_r in Hv as (u & Hu & Huv). apply (bi_done _ _ _ _ Hi u); [by eapply (bi_complete _ _ _ _ Hi)| |done].
    cbn [app]. intros Hn%(bi_nxt _ _ _ _ Hi). apply Hn in Hu. lia.
  - intros v Hv. by apply elem_of_nil in Hv.
Qed.

(** The result once level [l] has been walked and nothing follows that is wanted. *)
Definition measured (l : list (Value * Z)) : Prop :=
  NoDup l.*1 /\ forall v d, (v, d) ∈ l <-> listed v = true /\ (maxDepth <= 0 \/ d <= maxDepth) /\
    exists k, d = Z.of_nat k /\ layer k v.

Lemma bfs_end l nxt s :
  bfs_inv l [] nxt s -> (maxDepth <= 0 \/ Z.of_nat l <= maxDepth) ->
  nxt = [] \/ (0 < maxDepth < Z.of_nat l + 1) -> measured (userList s).
Proof.
  intros Hi Hl Hend. split; [apply (bi_list _ _ _ _ Hi)|]. intros v d. rewrite (bi_listed _ _ _ _ Hi). cbn [app]. split.
  - intros (Hv & Hvis & Hn & k & -> & Hk). split; [done|]. split; [|by eauto].
    destruct (bi_visited _ _ _ _ Hi v Hvis) as [(j & Hj & Hlay)|]; [|done]. rewrite (layer_inj _ _ _ Hk Hlay). lia.
  - intros (Hv & Hd & k & -> & Hk). split; [done|]. split.
    + destruct Hend as [->|Hend]; [|apply (bi_complete _ _ _ _ Hi k); [lia|apply Hk]].
      pose proof (layer_reachable _ _ Hk) as Hr. clear Hd Hk Hv. revert v Hr. apply (rtc_ind_r (fun v => v ∈ visited s)).
      * apply (bi_complete _ _ _ _ Hi 0); [lia|constructor].
      * intros x y _ Hxy Hx. apply (bi_done _ _ _ _ Hi x); [done|apply not_elem_of_nil|done].
    + split; [|by eauto]. destruct Hend as [->|Hend]; [apply not_elem_of_nil|].
      intros Hn%(bi_nxt _ _ _ _ Hi). pose proof (layer_inj _ _ _ Hk Hn). lia.
Qed.

Lemma bfs_loop_ok (all : gset Value) fuel l elem cur nxt s :
  (forall v, reachable v -> v ∈ all) -> Z.of_nat (size all) < 2 ^ 31 ->
  bfs_inv l (elem :: cur) nxt s -> visit_queue s = level_queue (elem :: cur) nxt ->
  (maxDepth <= 0 \/ Z.of_nat l <= maxDepth) ->
  (l + size (all ∖ visited s) + length (elem :: cur) + length nxt <= size all)%nat ->
  (size (all ∖ visited s) + length (elem :: cur) + length nxt <= fuel)%nat ->
  exists s', bfs_loop fuel (Z.of_nat l) s = Some s' /\ measured (userList s').
Proof.
  intros Hall Hsize. revert l elem cur nxt s. induction fuel as [|fuel IH]; intros l elem cur nxt s Hi Hq Hd Hm Hf; [simpl in Hf; lia|].
  destruct (bfs_front_inv l elem cur nxt s Hi Hq) as (new & Hi' & Hq' & Hun & Hvis).
  pose proof (left_to_visit all (visited s) (uses_of elem) new Hun) as Hleft.
  rewrite <- Hleft in Hm, Hf by (intros v Hv; apply Hall; apply (rtc_r _ elem); [eapply layer_reachable, (bi_cur _ _ _ _ Hi); by left|done]).
  rewrite <- Hvis in Hm, Hf. cbn [length] in Hm, Hf.
  cbn [bfs_loop]. rewrite Hq. cbn [level_queue fmap list_fmap app]. rewrite Hq'.
  set (s1 := bfs_front (Z.of_nat l) (Some elem) s) in *.
  destruct cur as [|elem2 cur]; cbn [level_queue fmap list_fmap app].
  - small. case_decide as Hstop.
    { exists (set_queue (Some <$> nxt ++ new) s1). split; [done|]. apply (bfs_end l (nxt ++ new) s1); [done|done|right; lia]. }
    destruct (nxt ++ new) as [|elem2 cur2] eqn:Hn.
    { exists (set_queue [] s1). split; [by destruct fuel|]. apply (bfs_end l [] s1); [done|done|by left]. }
    cbn [fmap list_fmap]. rewrite decide_False by done. assert (Z.of_nat l + 1 = Z.of_nat (S l)) as -> by lia.
    assert (length (elem2 :: cur2) = length nxt + length new)%nat as Hlen by (by rewrite <- Hn, length_app). simpl in Hlen.
    apply (IH (S l) elem2 cur2 []); [by apply bfs_next_level|done|lia|cbn [length visited set_queue]; lia..].
  - apply (IH l elem2 cur (nxt ++ new)); [done|done|done|rewrite length_app; cbn [length] in *; lia..].
Qed.

(** The breadth-first walk: every user once, with its distance from the root, up to
    the depth that is asked for. *)
Lemma doBFS_ok (all : gset Value) fuel :
  (forall v, reachable v -> v ∈ all) -> Z.of_nat (size all) < 2 ^ 31 -> (size all <= fuel)%nat ->
  exists l, UserGraph BFS fuel = Some l /\ measured l.
Proof.
  intros Hall Hsize Hf. assert (root ∈ all) as Hr by (apply Hall, rtc_refl).
  assert (size (all ∖ {[ root ]}) + 1 = size all)%nat as Hs.
  { rewrite size_difference by set_solver. rewrite size_singleton. assert (size all <> 0%nat); [|lia]. intros ?%size_empty_inv. set_solver. }
  destruct (bfs_loop_ok all fuel 0 root [] [] (MkUserGraph [] {[ root ]} [Some root; None] [])) as (s & Hs' & Hm);
    try done; cbn [visited length app]; try lia.
  2: { exists (userList s). split; [|done]. unfold UserGraph, doBFS. change 0 with (Z.of_nat 0). by rewrite Hs'. }
  assert (layer 0 root) as H0 by (split; [constructor|lia]).
  constructor; cbn [visited userList app].
  - intros v ->%elem_of_singleton. left. exists 0%nat. by split.
  - intros k v Hk Hv. assert (k = 0%nat) as -> by lia. inversion Hv. by apply elem_of_singleton.
  - by intros v ->%list_elem_of_singleton.
  - intros v Hv. by apply elem_of_nil in Hv.
  - intros v ->%list_elem_of_singleton. by apply elem_of_singleton.
  - apply NoDup_singleton.
  - intros v d. rewrite elem_of_nil, elem_of_singleton, list_elem_of_singleton. tauto.
  - constructor.
  - intros v w ->%elem_of_singleton Hn. destruct Hn. by left.
Qed.

(** C19. Both walks end, and list exactly the users of a value, direct or through
    others, the value itself and [alloca] instructions apart, each once: the
    depth-first walk all of them, with the level 1; the breadth-first walk those at
    a distance of at most the depth asked for (all, when it is not positive), with
    their distance, the length of a shortest chain of uses. *)
Theorem user_graph_walks (all : gset Value) fuel :
  (forall v, reachable v -> v ∈ all) -> Z.of_nat (size all) < 2 ^ 31 -> (size all <= fuel)%nat ->
  exists dl bl, UserGraph DFS fuel = Some dl /\ UserGraph BFS fuel = Some bl /\ NoDup dl.*1 /\ NoDup bl.*1 /\
    (forall v d, (v, d) ∈ dl <-> d = 1 /\ v <> root /\ is_alloca uv v = false /\ reachable v) /\
    (forall v d, (v, d) ∈ bl <-> v <> root /\ is_alloca uv v = false /\ (maxDepth <= 0 \/ d <= maxDepth) /\
       exists k, d = Z.of_nat k /\ nsteps step k root v /\ forall j, nsteps step j root v -> (k <= j)%nat).
Proof.
  intros Hall Hsize Hf. destruct (doDFS_ok all fuel Hall Hf) as (dl & Hdl & Hnd & Hd).
  destruct (doBFS_ok all fuel Hall Hsize Hf) as (bl & Hbl & Hnb & Hb). exists dl, bl. do 4 (split; [done|]).
  assert (forall v, listed v = true <-> v <> root /\ is_alloca uv v = false) as Hl.
  { intros v. unfold listed. by rewrite andb_true_iff, bool_decide_eq_true, negb_true_iff. }
  split.
  - intros v d. rewrite Hd, Hl. tauto.
  - intros v d. rewrite Hb, Hl. unfold layer. tauto.
Qed.

End UserGraph.

(** Value 0 has the users 1 and 2; 2 stores to 3, which is used by 1 and 4. *)
Definition ex_uses : use_view nat :=
  {| users v := match v with 0 => [1; 2] | 1 => [4] | 3 => [1; 5] | 4 => [5] | _ => [] end%nat;
     is_instruction _ := true;
     is_alloca v := bool_decide (v = 4%nat);
     store_operand v := if decide (v = 2%nat) then Some 3%nat else None |}.

Lemma user_graph_walks_witness :
  (exists bl, UserGraph ex_uses 0%nat 0 BFS 6 = Some bl /\ (5%nat, 2) ∈ bl /\ (4%nat, 2) ∉ bl) /\
  UserGraph ex_uses 0%nat 1 BFS 6 = Some [(1%nat, 1); (3%nat, 1)] /\
  UserGraph ex_uses 0%nat 0 DFS 6 = Some [(3%nat, 1); (5%nat, 1); (1%nat, 1)].
Proof.
  assert (forall v, reachable ex_uses 0%nat v -> v ∈ (list_to_set (seq 0 6) : gset nat)) as Hall.
  { intros v Hv. apply elem_of_list_to_set, elem_of_seq. revert v Hv.
    apply (rtc_ind_r (fun v => 0 <= v < 0 + 6)%nat); [lia|]. intros x y _ Hxy Hx. unfold step, uses_of in Hxy.
    do 6 (destruct x as [|x]; [cbn in Hxy; set_unfold; lia|]). lia. }
  assert (size (list_to_set (seq 0 6) : gset nat) = 6%nat) as Hs by (rewrite size_list_to_set by apply NoDup_seq; done).
  destruct (user_graph_walks ex_uses 0%nat 0 (list_to_set (seq 0 6)) 6 Hall) as (dl & bl & Hdl & Hbl & _ & _ & _ & Hb).
  { rewrite Hs. done. }
  { rewrite Hs. done. }
  split; [exists bl; split; [done|]|split; vm_compute; reflexivity].
  vm_compute in Hbl. injection Hbl as <-. split; [set_solver|]. intros (_ & ? & _)%Hb. done.
Defined.

End DefUse.
