(* ===== verification/Extractor.v ===== *)
(** * Locating persistent variables (analyzer/{include,lib}/PMem/Extractor)

    [PMemVariableLocator] goes through the instructions of functions, takes the
    values that PMDK and memkind calls make persistent together with all their users,
    and records for every instruction the persistent variables it may use. *)
From stdpp Require Import base list gmap relations.
From Stdlib Require Import Ascii.
From S2P Require Import Prelude Strings DefUse.
Import Strings DefUse.

Module Extractor.

(** ** The names of the libraries *)

Definition pmdkApiSet : list chars :=
  [lit "pmem_persist"; lit "pmem_msync"; lit "pmemobj_create"; lit "pmemobj_direct_inline"; lit "pmemobj_open"; lit "pmem_map_file"].
Definition pmdkPMEMVariableReturnSet : list chars := [lit "pmemobj_direct_inline"; lit "pmem_map_file"].
Definition memkindApiSet : list chars := [lit "memkind_create_pmem"; lit "memkind_create_kind"].

Definition pmdkRegionSizeArgMapping : list (chars * nat) := [(lit "pmem_map_file", 1%nat); (lit "pmemobj_create", 2%nat)].
Definition memkindCreationPMEMMapping : list (chars * nat) := [(lit "memkind_create_pmem", 3%nat)].
Definition memkindCreationGeneralMapping : list (chars * nat) := [(lit "memkind_create_kind", 4%nat)].

Definition mapped (name : chars) (m : list (chars * nat)) : option nat :=
  snd <$> List.find (fun e => bool_decide (e.1 = name)) m.

Definition callReturnsPmemVar (func_name : chars) : bool := bool_decide (func_name ∈ pmdkPMEMVariableReturnSet).

Definition pmem_direct : chars := lit "pmemobj_direct_inline".

(** [getline(iss, token, '.')] *)
Definition first_token (name : chars) : chars := List.hd [] (pieces "."%char name).

Definition contains (s p : chars) : bool := bool_decide (is_Some (find_str p s 0)).

Section Locator.
Context {Value : Type} `{Countable Value}.

(** What the locator reads of an instruction: the kinds of call, with the name of
    the function called, unless the call is indirect, and the arguments. *)
Inductive inst_kind :=
  | InvokeInst (callee : option chars) (args : list Value)
  | CallInst (callee : option chars) (args : list Value)
  | OtherInst.

Record function := MkFunction { isDeclaration : bool; insts : list Value }.

Context (uv : use_view Value) (kind : Value -> inst_kind) (getName : Value -> chars).

(** A set that keeps the order of insertion, and the multimap of the regions. *)
Record PMemVariableLocator := MkLocator {
  callList : list Value;
  varList : list Value;
  regionList : gmap Value (list Value);
  useDefMap : gmap Value (gset Value);
  processedUses : gset Value
}.

Definition new_locator : PMemVariableLocator := MkLocator [] [] ∅ ∅ ∅.

Definition insert_vec (v : Value) (l : list Value) : list Value := if decide (v ∈ l) then l else l ++ [v].

Definition add_call (v : Value) (s : PMemVariableLocator) : PMemVariableLocator :=
  MkLocator (insert_vec v (callList s)) (varList s) (regionList s) (useDefMap s) (processedUses s).
Definition add_var (v : Value) (s : PMemVariableLocator) : PMemVariableLocator :=
  MkLocator (callList s) (insert_vec v (varList s)) (regionList s) (useDefMap s) (processedUses s).
Definition add_region (v size : Value) (s : PMemVariableLocator) : PMemVariableLocator :=
  MkLocator (callList s) (varList s) (<[v := default [] (regionList s !! v) ++ [size]]> (regionList s)) (useDefMap s) (processedUses s).
Definition add_def (def : Value) (s : PMemVariableLocator) (inst : Value) : PMemVariableLocator :=
  MkLocator (callList s) (varList s) (regionList s)
    (<[inst := match useDefMap s !! inst with None => {[ def ]} | Some ds => {[ def ]} ∪ ds end]> (useDefMap s)) (processedUses s).
Definition set_processed (def : Value) (s : PMemVariableLocator) : PMemVariableLocator :=
  MkLocator (callList s) (varList s) (regionList s) (useDefMap s) ({[ def ]} ∪ processedUses s).

(** A variable and the users of its graph. *)
Definition track_users (fuel : nat) (v : Value) (s : PMemVariableLocator) : option PMemVariableLocator :=
  g ← UserGraph uv v (-1) DFS fuel;
  Some (foldl (fun s u => add_var u s) (add_var v s) g.*1).

(** The argument at a position of the table, if the call has it. *)
Definition arg_at (name : chars) (m : list (chars * nat)) (args : list Value) : option Value :=
  rit ← mapped name m;
  if decide (S rit <= length args)%nat then args !! rit else None.

Definition handleMemKindCall (fuel : nat) (callee : option chars) (args : list Value) (s : PMemVariableLocator)
  : option PMemVariableLocator :=
  match callee with
  | None => Some s
  | Some name =>
    if decide (name ∈ memkindApiSet) then
      s1 ← match arg_at name memkindCreationPMEMMapping args with
           | Some v => track_users fuel v s
           | None => Some s
           end;
      match arg_at name memkindCreationGeneralMapping args with
      | Some v => if decide (getName v = lit "MEMKIND_DAX_PMEM") then track_users fuel v s1 else Some s1
      | None => Some s1
      end
    else Some s
  end.

(** The part of the two handlers of PMDK calls that is the same text. *)
Definition pmdk_call (fuel : nat) (inst : Value) (token : chars) (args : list Value) (s : PMemVariableLocator)
  : option PMemVariableLocator :=
  s1 ← (if bool_decide (token ∈ pmdkPMEMVariableReturnSet) || contains token pmem_direct
        then track_users fuel inst s else Some s);
  Some (match arg_at token pmdkRegionSizeArgMapping args with
        | Some size => add_region inst size s1
        | None => s1
        end).

Definition is_pmdk_api (token : chars) : bool := bool_decide (token ∈ pmdkApiSet) || contains token pmem_direct.

Definition handleInvokeCall (fuel : nat) (inst : Value) (callee : option chars) (args : list Value) (s : PMemVariableLocator)
  : option PMemVariableLocator :=
  match callee with
  | None => Some s
  | Some name =>
    let token := first_token name in
    if is_pmdk_api token then pmdk_call fuel inst token args s else Some s
  end.

(** For a call the list of calls is kept, too. *)
Definition handlePmdkCall (fuel : nat) (inst : Value) (callee : option chars) (args : list Value) (s : PMemVariableLocator)
  : option PMemVariableLocator :=
  match callee with
  | None => Some s
  | Some name =>
    let token := first_token name in
    if is_pmdk_api token then pmdk_call fuel inst token args (add_call inst s) else Some s
  end.

Definition handle_inst (fuel : nat) (s : PMemVariableLocator) (inst : Value) : option PMemVariableLocator :=
  match kind inst with
  | InvokeInst callee args => handleInvokeCall fuel inst callee args s
  | CallInst callee args => s1 ← handlePmdkCall fuel inst callee args s; handleMemKindCall fuel callee args s1
  | OtherInst => Some s
  end.

Definition processDefinitionPoint (fuel : nat) (s : PMemVariableLocator) (def : Value) : option PMemVariableLocator :=
  if decide (def ∈ processedUses s) then Some s
  else
    g ← UserGraph uv def (-1) DFS fuel;
    Some (set_processed def (foldl (fun s u => if is_instruction uv u then add_def def s u else s) s g.*1)).

(** [runOnFunction] always returns false, [runOnModule] therefore, too. *)
Definition runOnFunction (fuel : nat) (s : PMemVariableLocator) (F : function) : option PMemVariableLocator :=
  if isDeclaration F then Some s
  else
    s1 ← mfold (handle_inst fuel) s (insts F);
    mfold (processDefinitionPoint fuel) s1 (varList s1).

Definition runOnModule (fuel : nat) (s : PMemVariableLocator) (M : list function) : option PMemVariableLocator :=
  mfold (fun s F => if isDeclaration F then Some s else runOnFunction fuel s F) s M.

(** ** What is persistent *)

(** A user of a value, direct or through others. *)
Definition user_of (r v : Value) : Prop := v <> r /\ is_alloca uv v = false /\ reachable uv r v.

(** Calls that return a persistent variable. *)
Definition returns_pmem (name : chars) : bool :=
  bool_decide (first_token name ∈ pmdkPMEMVariableReturnSet) || contains (first_token name) pmem_direct.

(** The memkind variable a call creates. *)
Definition memkind_roots (name : chars) (args : list Value) : list Value :=
  match arg_at name memkindCreationPMEMMapping args with Some v => [v] | None => [] end ++
  match arg_at name memkindCreationGeneralMapping args with
  | Some v => if decide (getName v = lit "MEMKIND_DAX_PMEM") then [v] else []
  | None => []
  end.

Definition roots (inst : Value) : list Value :=
  match kind inst with
  | InvokeInst (Some name) _ => if returns_pmem name then [inst] else []
  | CallInst (Some name) args => (if returns_pmem name then [inst] else []) ++ memkind_roots name args
  | _ => []
  end.

Definition region_size (inst : Value) : option Value :=
  match kind inst with
  | InvokeInst (Some name) args | CallInst (Some name) args => arg_at (first_token name) pmdkRegionSizeArgMapping args
  | _ => None
  end.

Definition persistent (vs : list Value) (v : Value) : Prop := exists r, r ∈ vs /\ (v = r \/ user_of r v).

(** ** Lemmas *)

Lemma insert_vec_elem v l w : w ∈ insert_vec v l <-> w ∈ l \/ w = v.
Proof.
  unfold insert_vec. case_decide; [split; [tauto|]; intros [?| ->]; done|].
  by rewrite elem_of_app, list_elem_of_singleton.
Qed.

Lemma insert_vec_nodup v l : NoDup l -> NoDup (insert_vec v l).
Proof.
  intros Hl. unfold insert_vec. case_decide; [done|]. apply NoDup_app. split; [done|]. split; [|apply NoDup_singleton].
  by intros w Hw ->%list_elem_of_singleton.
Qed.

(** The parts of the state that adding variables does not change. *)
Definition same_rest (s s' : PMemVariableLocator) : Prop :=
  callList s' = callList s /\ regionList s' = regionList s /\ useDefMap s' = useDefMap s /\ processedUses s' = processedUses s.

Lemma add_vars_ok l s :
  NoDup (varList s) ->
  let s' := foldl (fun s u => add_var u s) s l in
  NoDup (varList s') /\ (forall v, v ∈ varList s' <-> v ∈ varList s \/ v ∈ l) /\ same_rest s s'.
Proof.
  revert s. induction l as [|u l IH]; intros s Hnd; cbn [foldl].
  { split; [done|]. split; [|by repeat split]. intros v. rewrite elem_of_nil. tauto. }
  destruct (IH (add_var u s)) as (Hnd' & Hin & Hr); [by apply insert_vec_nodup|]. split; [done|]. split; [|exact Hr].
  intros v. rewrite Hin, elem_of_cons. unfold add_var at 1. cbn [varList]. rewrite insert_vec_elem. tauto.
Qed.

Section Bounded.
Context (all : gset Value) (fuel : nat).
Context (Hclosed : forall v w, v ∈ all -> step uv v w -> w ∈ all) (Hfuel : (size all <= fuel)%nat).

Lemma closed_reachable r v : r ∈ all -> reachable uv r v -> v ∈ all.
Proof. intros Hr. revert v. apply (rtc_ind_r (fun v => v ∈ all)); [done|]. intros x y _ Hxy Hx. by eapply Hclosed. Qed.

Lemma user_graph_users r :
  r ∈ all -> exists g, UserGraph uv r (-1) DFS fuel = Some g /\ forall v, v ∈ g.*1 <-> user_of r v.
Proof.
  intros Hr. destruct (doDFS_ok uv r (-1) all fuel) as (g & Hg & _ & Hin); [|done|].
  { intros v. by apply closed_reachable. }
  exists g. split; [done|]. intros v. rewrite list_elem_of_fmap. unfold user_of. split.
  - intros ([v' d] & -> & (_ & Hl & Hv)%Hin). unfold listed in Hl. by apply andb_true_iff in Hl as [?%bool_decide_eq_true ?%negb_true_iff].
  - intros (Hne & Ha & Hv). exists (v, 1). split; [done|]. apply Hin. split; [done|]. split; [|done].
    unfold listed. rewrite bool_decide_eq_true_2 by done. by rewrite Ha.
Qed.

Lemma track_users_ok r s :
  r ∈ all -> NoDup (varList s) -> exists s', track_users fuel r s = Some s' /\ NoDup (varList s') /\
    (forall v, v ∈ varList s' <-> v ∈ varList s \/ persistent [r] v) /\ same_rest s s'.
Proof.
  intros Hr Hnd. destruct (user_graph_users r Hr) as (g & Hg & Hin). unfold track_users. rewrite Hg. simpl_bind.
  destruct (add_vars_ok g.*1 (add_var r s)) as (Hnd' & Hv & Hrest); [by apply insert_vec_nodup|].
  eexists. split; [reflexivity|]. split; [done|]. split; [|exact Hrest].
  intros v. rewrite Hv, Hin. unfold add_var, persistent. cbn [varList]. rewrite insert_vec_elem. split.
  - intros [[?| ->]|?]; [tauto|right; exists r; split; [by left|tauto]|right; exists r; split; [by left|tauto]].
  - intros [?|(r' & ->%list_elem_of_singleton & Hr')]; tauto.
Qed.

(** Handling an instruction adds the variables of its roots and its region. *)
Definition extended (inst : Value) (s s' : PMemVariableLocator) : Prop :=
  NoDup (varList s') /\ (forall v, v ∈ varList s' <-> v ∈ varList s \/ persistent (roots inst) v) /\
  regionList s' = match region_size inst with
                  | Some size => <[inst := default [] (regionList s !! inst) ++ [size]]> (regionList s)
                  | None => regionList s
                  end /\
  useDefMap s' = useDefMap s /\ processedUses s' = processedUses s.

Lemma persistent_nil v : ~ persistent [] v.
Proof. intros (r & Hr & _). by apply elem_of_nil in Hr. Qed.

Lemma persistent_app l1 l2 v : persistent (l1 ++ l2) v <-> persistent l1 v \/ persistent l2 v.
Proof. unfold persistent. setoid_rewrite elem_of_app. naive_solver. Qed.

(** Regions are those of PMDK calls. *)
Lemma region_api token args v : arg_at token pmdkRegionSizeArgMapping args = Some v -> is_pmdk_api token = true.
Proof.
  unfold arg_at, mapped. intros Hv. apply bind_Some in Hv as (k & Hk & _). apply orb_true_iff. left.
  apply fmap_Some in Hk as (e & He & _). apply List.find_some in He as [He Heq]. apply bool_decide_eq_true in Heq as <-.
  apply bool_decide_eq_true. destruct He as [<-|[<-|[]]]; unfold pmdkApiSet; set_solver.
Qed.

Lemma returns_api token :
  bool_decide (token ∈ pmdkPMEMVariableReturnSet) || contains token pmem_direct = true -> is_pmdk_api token = true.
Proof.
  intros [Ht%bool_decide_eq_true|Ht]%orb_true_iff; apply orb_true_iff; [left|by right].
  apply bool_decide_eq_true. unfold pmdkPMEMVariableReturnSet in Ht. unfold pmdkApiSet. set_solver.
Qed.

Lemma pmdk_call_ok inst name args s :
  (returns_pmem name = true -> inst ∈ all) -> NoDup (varList s) ->
  exists s', (if is_pmdk_api (first_token name) then pmdk_call fuel inst (first_token name) args s else Some s) = Some s' /\
    NoDup (varList s') /\
    (forall v, v ∈ varList s' <-> v ∈ varList s \/ persistent (if returns_pmem name then [inst] else []) v) /\
    regionList s' = match arg_at (first_token name) pmdkRegionSizeArgMapping args with
                    | Some size => <[inst := default [] (regionList s !! inst) ++ [size]]> (regionList s)
                    | None => regionList s
                    end /\
    useDefMap s' = useDefMap s /\ processedUses s' = processedUses s.
Proof.
  intros Hall Hnd. destruct (is_pmdk_api (first_token name)) eqn:Hapi.
  - unfold pmdk_call. fold (returns_pmem name). destruct (returns_pmem name).
    + destruct (track_users_ok inst s (Hall eq_refl) Hnd) as (s1 & -> & Hnd1 & Hv & Hc & Hr & Hd & Hp). simpl_bind.
      eexists. split; [reflexivity|]. destruct (arg_at _ _ _); cbn [varList regionList useDefMap processedUses add_region];
        rewrite ?Hr, ?Hd, ?Hp; done.
    + simpl_bind. eexists. split; [reflexivity|].
      assert (forall v, v ∈ varList s <-> v ∈ varList s \/ persistent [] v) as Hv
        by (intros v; split; [by left|intros [?|?%persistent_nil]; done]).
      by destruct (arg_at _ _ _).
  - exists s. split; [done|]. destruct (returns_pmem name) eqn:Hret; [apply returns_api in Hret; congruence|].
    destruct (arg_at _ _ _) eqn:Ha; [apply region_api in Ha; congruence|]. split; [done|]. split; [|done].
    intros v. split; [by left|]. intros [?|?%persistent_nil]; done.
Qed.

Lemma memkind_ok name args s :
  (forall r, r ∈ memkind_roots name args -> r ∈ all) -> NoDup (varList s) ->
  exists s', handleMemKindCall fuel (Some name) args s = Some s' /\ NoDup (varList s') /\
    (forall v, v ∈ varList s' <-> v ∈ varList s \/ persistent (memkind_roots name args) v) /\ same_rest s s'.
Proof.
  unfold handleMemKindCall, memkind_roots. intros Hall Hnd.
  assert (forall m k, mapped name m = Some k -> m ⊆ memkindCreationPMEMMapping ++ memkindCreationGeneralMapping -> name ∈ memkindApiSet) as Hapi.
  { intros m k (e & He & _)%fmap_Some Hm. apply List.find_some in He as [He Heq]. apply bool_decide_eq_true in Heq as <-.
    apply list_elem_of_In, Hm in He. unfold memkindCreationPMEMMapping, memkindCreationGeneralMapping in He. cbn [app] in He.
    unfold memkindApiSet. set_unfold. destruct He as [->|[->|[]]]; cbn; tauto. }
  case_decide as Hn.
  - set (r1 := arg_at name memkindCreationPMEMMapping args) in *. set (r2 := arg_at name memkindCreationGeneralMapping args) in *.
    assert (exists s1, (match r1 with Some v => track_users fuel v s | None => Some s end) = Some s1 /\ NoDup (varList s1) /\
      (forall v, v ∈ varList s1 <-> v ∈ varList s \/ persistent (match r1 with Some v => [v] | None => [] end) v) /\ same_rest s s1)
      as (s1 & -> & Hnd1 & Hv1 & Hr1).
    { destruct r1 as [v|]; [apply track_users_ok; [|done]; apply Hall; by left|]. exists s. split; [done|]. split; [done|].
      split; [|by repeat split]. intros v. split; [by left|]. intros [?|?%persistent_nil]; done. }
    simpl_bind. setoid_rewrite persistent_app.
    assert (forall b : list Value, b = [] -> exists s', Some s1 = Some s' /\ NoDup (varList s') /\
      (forall v, v ∈ varList s' <-> v ∈ varList s \/ persistent (match r1 with Some v => [v] | None => [] end) v \/ persistent b v) /\
      same_rest s s') as Hsame.
    { intros b ->. exists s1. split; [done|]. split; [done|]. split; [|done]. intros v. rewrite Hv1. pose proof (persistent_nil v). tauto. }
    destruct r2 as [v2|]; [|by apply Hsame]. case_decide; [|by apply Hsame].
    destruct (track_users_ok v2 s1) as (s2 & -> & Hnd2 & Hv2 & Hr2); [apply Hall, elem_of_app; right; by left|done|].
    exists s2. split; [done|]. split; [done|]. split.
    + intros v. rewrite Hv2, Hv1. tauto.
    + destruct Hr1 as (? & ? & ? & ?), Hr2 as (? & ? & ? & ?). repeat split; congruence.
  - exists s. split; [done|]. split; [done|]. split; [|by repeat split].
    assert (forall m, m ⊆ memkindCreationPMEMMapping ++ memkindCreationGeneralMapping -> arg_at name m args = None) as Hnone.
    { intros m Hm. unfold arg_at. destruct (mapped name m) eqn:Hmp; [|done]. destruct Hn. by eapply Hapi. }
    rewrite !Hnone by set_solver. intros v. split; [by left|]. intros [?|?%persistent_nil]; done.
Qed.

Lemma handle_inst_ok inst s :
  (forall r, r ∈ roots inst -> r ∈ all) -> NoDup (varList s) ->
  exists s', handle_inst fuel s inst = Some s' /\ extended inst s s'.
Proof.
  unfold handle_inst, extended, roots, region_size. intros Hall Hnd.
  destruct (kind inst) as [[name|] args|[name|] args|]; cbn [handleInvokeCall handlePmdkCall handleMemKindCall mbind option_bind].
  2, 4, 5: exists s; split; [done|]; split; [done|]; split; [|done]; intros v; split; [by left|intros [?|?%persistent_nil]; done].
  - apply pmdk_call_ok; [|done]. intros Hret. apply Hall. rewrite Hret. by left.
  - assert (exists s1, (if is_pmdk_api (first_token name) then pmdk_call fuel inst (first_token name) args (add_call inst s) else Some s) = Some s1 /\
      NoDup (varList s1) /\
      (forall v, v ∈ varList s1 <-> v ∈ varList s \/ persistent (if returns_pmem name then [inst] else []) v) /\
      regionList s1 = match arg_at (first_token name) pmdkRegionSizeArgMapping args with
                    | Some size => <[inst := default [] (regionList s !! inst) ++ [size]]> (regionList s)
                    | None => regionList s
                    end /\
      useDefMap s1 = useDefMap s /\ processedUses s1 = processedUses s) as (s1 & -> & Hnd1 & Hv1 & Hr1 & Hd1 & Hp1).
    { assert (returns_pmem name = true -> inst ∈ all) as Hin.
      { intros Hret. apply Hall, elem_of_app. left. rewrite Hret. by left. }
      pose proof (pmdk_call_ok inst name args (add_call inst s) Hin Hnd) as H1.
      pose proof (pmdk_call_ok inst name args s Hin Hnd) as H2. by destruct (is_pmdk_api (first_token name)). }
    simpl_bind.
    destruct (memkind_ok name args s1) as (s2 & Hs2 & Hnd2 & Hv2 & _ & Hr2 & Hd2 & Hp2); [|done|].
    { intros r Hr. apply Hall, elem_of_app. by right. }
    exists s2. split; [exact Hs2|]. split; [done|]. split; [|by rewrite Hr2, Hd2, Hp2].
    intros v. rewrite Hv2, Hv1, persistent_app. tauto.
Qed.

(** The regions of a list of instructions. *)
Definition regions_of (il : list Value) (m : gmap Value (list Value)) : gmap Value (list Value) :=
  foldl (fun m inst => match region_size inst with Some size => <[inst := default [] (m !! inst) ++ [size]]> m | None => m end) m il.

Lemma handle_insts_ok il s :
  (forall i r, i ∈ il -> r ∈ roots i -> r ∈ all) -> NoDup (varList s) ->
  exists s', mfold (handle_inst fuel) s il = Some s' /\ NoDup (varList s') /\
    (forall v, v ∈ varList s' <-> v ∈ varList s \/ persistent (il ≫= roots) v) /\
    regionList s' = regions_of il (regionList s) /\ useDefMap s' = useDefMap s /\ processedUses s' = processedUses s.
Proof.
  revert s. induction il as [|i il IH]; intros s Hall Hnd.
  { exists s. split; [done|]. split; [done|]. split; [|done]. intros v. split; [by left|intros [?|?%persistent_nil]; done]. }
  destruct (handle_inst_ok i s) as (s1 & Hs1 & Hnd1 & Hv1 & Hr1 & Hd1 & Hp1); [intros r; apply Hall; by left|done|].
  destruct (IH s1) as (s2 & Hs2 & Hnd2 & Hv2 & Hr2 & Hd2 & Hp2); [intros j r Hj; apply Hall; by right|done|].
  exists s2. cbn [mfold]. rewrite Hs1. split; [exact Hs2|]. split; [done|]. split; [|split; [|split; congruence]].
  - intros v. rewrite Hv2, Hv1. cbn [mbind list_bind]. rewrite persistent_app. tauto.
  - rewrite Hr2, Hr1. by cbn [regions_of foldl].
Qed.

(** ** Definition points *)

Definition defs (s : PMemVariableLocator) (i : Value) : gset Value := default ∅ (useDefMap s !! i).

(** The map says for the processed variables which instructions use them. *)
Definition defs_ok (s : PMemVariableLocator) : Prop :=
  forall i d, d ∈ defs s i <-> d ∈ processedUses s /\ is_instruction uv i = true /\ user_of d i.

Lemma add_defs_ok d us s :
  let s' := foldl (fun s u => if is_instruction uv u then add_def d s u else s) s us in
  (forall i e, e ∈ defs s' i <-> e ∈ defs s i \/ (e = d /\ i ∈ us /\ is_instruction uv i = true)) /\
  varList s' = varList s /\ regionList s' = regionList s /\ processedUses s' = processedUses s.
Proof.
  revert s. induction us as [|u us IH]; intros s; cbn [foldl].
  { split; [|done]. intros i e. rewrite elem_of_nil. naive_solver. }
  destruct (is_instruction uv u) eqn:Hu.
  - destruct (IH (add_def d s u)) as (Hin & ? & ? & ?). split; [|done]. intros i e. rewrite Hin, elem_of_cons.
    assert (e ∈ defs (add_def d s u) i <-> e ∈ defs s i \/ (e = d /\ i = u)) as ->.
    { unfold defs, add_def. cbn [useDefMap]. destruct (decide (i = u)) as [->|Hne].
      - rewrite lookup_insert_eq. destruct (useDefMap s !! u) as [ds|]; cbn [default from_option]; unfold id;
          rewrite ?elem_of_union, ?elem_of_singleton, ?elem_of_empty.
        + split; [intros [?|?]; [by right|by left]|intros [?|[? _]]; [by right|by left]].
        + split; [intros ?; by right|intros [?|[? _]]; done].
      - rewrite lookup_insert_ne by done. split; [by left|]. by intros [?|[_ ?]]. }
    split.
    + intros [[?|[-> ->]]|(-> & ? & ?)]; [by left|right; split_and!; auto|right; split_and!; auto].
    + intros [?|(-> & [-> |?] & ?)]; [by left; left|left; by right|by right].
  - destruct (IH s) as (Hin & ? & ? & ?). split; [|done]. intros i e. rewrite Hin, elem_of_cons. split.
    + intros [?|(-> & ? & ?)]; [by left|right; split_and!; auto].
    + intros [?|(-> & [-> |?] & ?)]; [by left|congruence|by right].
Qed.

Lemma processDefinitionPoint_ok s d :
  d ∈ all -> defs_ok s -> exists s', processDefinitionPoint fuel s d = Some s' /\ defs_ok s' /\
    varList s' = varList s /\ regionList s' = regionList s /\ processedUses s' = {[ d ]} ∪ processedUses s.
Proof.
  intros Hd Hok. unfold processDefinitionPoint. case_decide as Hp.
  { exists s. split; [done|]. split; [done|]. split; [done|]. split; [done|]. apply set_eq. intros v.
    rewrite elem_of_union, elem_of_singleton. split; [by right|]. by intros [-> |?]. }
  destruct (user_graph_users d Hd) as (g & -> & Hg). simpl_bind.
  destruct (add_defs_ok d g.*1 s) as (Hin & Hv & Hr & Hps).
  eexists. split; [reflexivity|]. cbn [varList regionList processedUses set_processed]. rewrite Hv, Hr, Hps. split; [|done].
  intros i e. change (e ∈ defs (foldl (fun s u => if is_instruction uv u then add_def d s u else s) s g.*1) i <->
    e ∈ {[ d ]} ∪ processedUses (foldl (fun s u => if is_instruction uv u then add_def d s u else s) s g.*1) /\ is_instruction uv i = true /\ user_of e i).
  rewrite Hin, (Hok i e), Hg, Hps, elem_of_union, elem_of_singleton.
  split; [intros [?|(-> & ? & ?)]; tauto|]. intros ([-> |?] & ? & ?); tauto.
Qed.

Lemma process_points_ok ds s :
  (forall d, d ∈ ds -> d ∈ all) -> defs_ok s -> exists s', mfold (processDefinitionPoint fuel) s ds = Some s' /\ defs_ok s' /\
    varList s' = varList s /\ regionList s' = regionList s /\ (forall d, d ∈ processedUses s' <-> d ∈ processedUses s \/ d ∈ ds).
Proof.
  revert s. induction ds as [|d ds IH]; intros s Hall Hok; cbn [mfold].
  { exists s. split; [done|]. split; [done|]. split; [done|]. split; [done|]. intros d. rewrite elem_of_nil. tauto. }
  destruct (processDefinitionPoint_ok s d) as (s1 & -> & Hok1 & Hv1 & Hr1 & Hp1); [apply Hall; by left|done|]. simpl_bind.
  destruct (IH s1) as (s2 & Hs2 & Hok2 & Hv2 & Hr2 & Hp2); [intros e He; apply Hall; by right|done|].
  exists s2. split; [done|]. split; [done|]. split; [congruence|]. split; [congruence|].
  intros e. rewrite Hp2, Hp1, elem_of_union, elem_of_singleton, elem_of_cons. tauto.
Qed.

(** ** Functions and modules *)

(** The instructions of the functions that have a body. *)
Definition body (F : function) : list Value := if isDeclaration F then [] else insts F.

Record located (il : list Value) (s : PMemVariableLocator) : Prop := MkLocated {
  lc_nodup : NoDup (varList s);
  lc_vars v : v ∈ varList s <-> persistent (il ≫= roots) v;
  lc_regions : regionList s = regions_of il ∅;
  lc_defs : defs_ok s;
  lc_processed d : d ∈ processedUses s <-> d ∈ varList s
}.

Lemma new_located : located [] new_locator.
Proof.
  constructor; cbn.
  - constructor.
  - intros v. rewrite elem_of_nil. split; [done|]. by intros ?%persistent_nil.
  - done.
  - intros i d. unfold defs. cbn [useDefMap processedUses new_locator]. rewrite lookup_empty. cbn [default from_option]. rewrite !elem_of_empty. tauto.
  - intros d. by rewrite elem_of_nil, elem_of_empty.
Qed.

Lemma persistent_all il v : (forall i r, i ∈ il -> r ∈ roots i -> r ∈ all) -> persistent (il ≫= roots) v -> v ∈ all.
Proof.
  intros Hall (r & Hr & Hv). apply list_elem_of_bind in Hr as (i & Hi & Hii). pose proof (Hall i r Hii Hi) as Hra.
  destruct Hv as [-> |(_ & _ & Hv)]; [done|]. by eapply closed_reachable.
Qed.

Lemma runOnFunction_ok il F s :
  (forall i r, i ∈ il ++ body F -> r ∈ roots i -> r ∈ all) -> located il s ->
  exists s', runOnFunction fuel s F = Some s' /\ located (il ++ body F) s'.
Proof.
  intros Hall Hl. unfold runOnFunction, body in *. destruct (isDeclaration F).
  { exists s. by rewrite app_nil_r. }
  destruct (handle_insts_ok (insts F) s) as (s1 & -> & Hnd1 & Hv1 & Hr1 & Hd1 & Hp1).
  { intros i r Hi. apply Hall, elem_of_app. by right. }
  { apply (lc_nodup _ _ Hl). }
  simpl_bind.
  assert (forall v, v ∈ varList s1 <-> persistent ((il ++ insts F) ≫= roots) v) as Hvars.
  { intros v. rewrite Hv1, (lc_vars _ _ Hl), bind_app, persistent_app. done. }
  destruct (process_points_ok (varList s1) s1) as (s2 & -> & Hok2 & Hv2 & Hr2 & Hp2).
  { intros d Hd%Hvars. eapply persistent_all; [exact Hall|exact Hd]. }
  { intros i d. unfold defs. rewrite Hd1, Hp1. apply (lc_defs _ _ Hl). }
  exists s2. split; [done|]. constructor; rewrite ?Hv2; try done.
  - rewrite Hr2, Hr1, (lc_regions _ _ Hl). unfold regions_of. by rewrite foldl_app.
  - intros d. rewrite Hp2, Hp1, (lc_processed _ _ Hl), Hv1. tauto.
Qed.

Lemma runOnModule_ok M il s :
  (forall i r, i ∈ il ++ (M ≫= body) -> r ∈ roots i -> r ∈ all) -> located il s ->
  exists s', runOnModule fuel s M = Some s' /\ located (il ++ (M ≫= body)) s'.
Proof.
  revert il s. induction M as [|F M IH]; intros il s Hall Hl.
  { exists s. split; [done|]. cbn. by rewrite app_nil_r. }
  cbn [mbind list_bind] in *. rewrite (assoc_L (++)) in Hall |- *.
  destruct (runOnFunction_ok il F s) as (s1 & Hs1 & Hl1); [intros i r Hi; apply Hall, elem_of_app; by left|done|].
  unfold runOnModule. cbn [mfold]. assert ((if isDeclaration F then Some s else runOnFunction fuel s F) = Some s1) as ->.
  { unfold runOnFunction in *. by destruct (isDeclaration F). }
  simpl_bind. by apply IH.
Qed.

End Bounded.

Lemma regions_of_lookup il m v :
  NoDup il -> (forall w, w ∈ il -> m !! w = None) ->
  regions_of il m !! v = if decide (v ∈ il) then (fun size => [size]) <$> region_size v else m !! v.
Proof.
  revert m. induction il as [|i il IH]; intros m Hnd Hm.
  { rewrite decide_False by apply not_elem_of_nil. done. }
  apply NoDup_cons in Hnd as [Hi Hnd]. pose proof (Hm i ltac:(by left)) as Hmi.
  assert (regions_of (i :: il) m = regions_of il (match region_size i with Some size => <[i := default [] (m !! i) ++ [size]]> m | None => m end)) as -> by reflexivity.
  rewrite IH; [|done|].
  - destruct (decide (v = i)) as [->|Hne].
    + rewrite (decide_False (P := i ∈ il)) by done. rewrite decide_True by (by left). destruct (region_size i); [|done].
      by rewrite lookup_insert_eq, Hmi.
    + assert ((match region_size i with Some size => <[i := default [] (m !! i) ++ [size]]> m | None => m end) !! v = m !! v) as ->.
      { destruct (region_size i); [|done]. by rewrite lookup_insert_ne. }
      destruct (decide (v ∈ il)); [by rewrite decide_True by (by right)|]. rewrite decide_False; [done|]. by intros [?|?]%elem_of_cons.
  - intros w Hw. assert (w <> i) by (by intros ->). destruct (region_size i); [rewrite lookup_insert_ne by done|]; apply Hm; by right.
Qed.

(** C18. From a new locator, [runOnModule] goes through the functions with a body and
    ends.  The variables are exactly what the calls of the libraries make
    persistent, the results of PMDK calls and the arguments of memkind calls, and
    their users, direct or through others; the map gives every instruction
    exactly the variables it is a user of, whatever function they are from; and the
    regions are the mapping and pool calls with their size argument. *)
Theorem runOnModule_locates (all : gset Value) fuel M :
  (forall v w, v ∈ all -> step uv v w -> w ∈ all) -> (size all <= fuel)%nat ->
  (forall i r, i ∈ M ≫= body -> r ∈ roots i -> r ∈ all) -> NoDup (M ≫= body) ->
  exists s, runOnModule fuel new_locator M = Some s /\ NoDup (varList s) /\
    (forall v, v ∈ varList s <-> exists i r, i ∈ M ≫= body /\ r ∈ roots i /\ (v = r \/ user_of r v)) /\
    (forall i d, d ∈ defs s i <-> d ∈ varList s /\ is_instruction uv i = true /\ user_of d i) /\
    (forall v, regionList s !! v = if decide (v ∈ M ≫= body) then (fun size => [size]) <$> region_size v else None).
Proof.
  intros Hclosed Hfuel Hroots Hnd.
  destruct (runOnModule_ok all fuel Hclosed Hfuel M [] new_locator) as (s & Hs & Hl); [exact Hroots|apply new_located|].
  exists s. split; [done|]. split; [apply (lc_nodup _ _ Hl)|]. split; [|split].
  - intros v. rewrite (lc_vars _ _ Hl). unfold persistent. cbn [app]. split.
    + intros (r & (i & Hr & Hi)%list_elem_of_bind & Hv). by exists i, r.
    + intros (i & r & Hi & Hr & Hv). exists r. split; [apply list_elem_of_bind; by exists i|done].
  - intros i d. rewrite (lc_defs _ _ Hl i d), (lc_processed _ _ Hl). done.
  - intros v. rewrite (lc_regions _ _ Hl). cbn [app]. rewrite regions_of_lookup by done. by rewrite lookup_empty.
Qed.

End Locator.

(** The uses of the example of [DefUse]; 0 is a call of [pmemobj_direct_inline.2],
    2 stores its result to 3. *)
Definition ex_kind (v : nat) : inst_kind (Value := nat) :=
  match v with
  | 0%nat => CallInst (Some (lit "pmemobj_direct_inline.2")) []
  | 1%nat => CallInst (Some (lit "pmem_map_file")) [3; 5]%nat
  | _ => OtherInst
  end.
Definition ex_module : list (function (Value := nat)) := [MkFunction true [7%nat]; MkFunction false (seq 0 6)].

Lemma runOnModule_locates_witness :
  exists s, runOnModule ex_uses ex_kind (fun _ => []) 6 new_locator ex_module = Some s /\ 3%nat ∈ varList s /\
    1%nat ∈ defs s 5%nat /\ regionList s !! 1%nat = Some [5%nat].
Proof.
  assert (Forall (fun v => Forall (fun w => w < 6)%nat (uses_of ex_uses v)) (seq 0 6)) as Hu by (apply (bool_decide_unpack _); vm_compute; reflexivity).
  assert (Forall (fun i => Forall (fun r => r < 6)%nat (roots ex_kind (fun _ => []) i)) (ex_module ≫= body)) as Hro
    by (apply (bool_decide_unpack _); vm_compute; reflexivity).
  destruct (runOnModule_locates ex_uses ex_kind (fun _ => []) (list_to_set (seq 0 6)) 6 ex_module)
    as (s & Hs & _ & Hv & Hd & Hr).
  - intros v w Hin%elem_of_list_to_set Hvw. apply elem_of_list_to_set, elem_of_seq.
    rewrite Forall_forall in Hu. specialize (Hu v Hin). rewrite Forall_forall in Hu. specialize (Hu w Hvw). cbn in Hu. lia.
  - rewrite size_list_to_set by apply NoDup_seq. done.
  - intros i r Hi Hir. apply elem_of_list_to_set, elem_of_seq.
    rewrite Forall_forall in Hro. specialize (Hro i Hi). rewrite Forall_forall in Hro. specialize (Hro r Hir). cbn in Hro. lia.
  - apply (bool_decide_unpack _). vm_compute. reflexivity.
  - exists s. split; [exact Hs|]. assert (varList s = [0; 3; 5; 1]%nat) as HvL.
    { enough (varList <$> runOnModule ex_uses ex_kind (fun _ => []) 6 new_locator ex_module = Some [0; 3; 5; 1]%nat) as E; [|vm_compute; reflexivity].
      rewrite Hs in E. by injection E. }
    rewrite HvL. split; [set_solver|]. split; [|by rewrite Hr].
    apply Hd. rewrite HvL. split; [set_solver|]. split; [done|]. split; [done|]. split; [done|].
    apply (rtc_l _ _ 4%nat); [|apply rtc_once]; unfold step; apply (bool_decide_unpack _); vm_compute; reflexivity.
Defined.

End Extractor.
