(* ===== verification/Instrument.v ===== *)
(** * The instrumenter (analyzer/{include,lib}/Instrument/PmemAddrInstrumenter,
      InstrumentPmemAddrPass, tools/instrumentor)

    [PmemAddrInstrumenter] gives instructions that touch persistent memory a number,
    the guid, and inserts a call behind each of them that passes the address and the
    guid to the tracker; it writes a file that locates the instruction of each
    guid.  The reactor reads both back ([GuidMap], [AddrTrace]). *)
From stdpp Require Import base list gmap.
From Stdlib Require Import Ascii.
From S2P Require Import Prelude Strings GuidMap Tracker AddrTrace Matcher DefUse Extractor.
Import Strings.

Module Instrument.

Definition PmemVarGuidStart : Z := 200.

(** [m[k] = v] of a [std::map]. *)
Fixpoint assign {V} (k : Z) (v : V) (m : list (Z * V)) : list (Z * V) :=
  match m with
  | [] => [(k, v)]
  | (k', v') :: m' =>
    if decide (k < k') then (k, v) :: m
    else if decide (k = k') then (k, v) :: m'
    else (k', v') :: assign k v m'
  end.

Section Instrumenter.
Context {Value : Type} `{Countable Value}.

(** ** What is read of LLVM *)

Inductive opcode :=
  | LoadInst (getPointerOperand : Value)
  | StoreInst (getPointerOperand : Value)
  | GetElementPtrInst (getPointerOperand : Value)
  | CallInst (callee : option chars) (operands : list Value)
  | OtherInst.

Record subprogram := MkSubprogram { getDirectory : chars; getFilename : chars; getLine : Z }.

Record llvm_view := MkView {
  getOpcode : Value -> opcode;
  getDebugLoc : Value -> option Z;
  getSubprogram : Value -> option subprogram;
  function_name : Value -> chars;
  print : Value -> chars
}.

Context (lv : llvm_view).

(** ** The state *)

(** An inserted call: the tracker's hook, or [printf] with the format of a pool or
    of another address. *)
Inductive hook := TrackAddr (addr : Value) (guid : Z) | Printf (pool : bool) (addr : Value).

(** The static counter of guids, the instrumenter and the changes to the module:
    behind which instruction what is called, the calls at the start of [main] and
    the global destructors. *)
Record PmemAddrInstrumenter := MkInstrumenter {
  initialized : bool;
  instrument_cnt : Z;
  track_with_printf : bool;
  guid_hook_point_map : list (Z * Value);
  hook_point_guid_map : gmap Value Z;
  PmemVarCurrentGuid : Z;
  inserted : list (Value * hook);
  main_calls : list chars;
  global_dtors : list chars
}.

Definition new_instrumenter (use_printf : bool) : PmemAddrInstrumenter :=
  MkInstrumenter false 0 use_printf [] ∅ PmemVarGuidStart [] [] [].

Definition hook_names : list chars :=
  lit <$> ["__arthas_addr_tracker_init"; "__arthas_low_level_init"; "__arthas_save_file"; "__arthas_low_level_fence";
           "__arthas_low_level_flush"; "__arthas_track_addr"; "__arthas_addr_tracker_dump"; "__arthas_addr_tracker_finish"; "printf"]%string.

(** [has_main]: the module has a function [main]; [getOrInsertFunction]: whether a
    function of the right type results for a name, which [cast] asserts. *)
Definition initHookFuncs (has_main : bool) (getOrInsertFunction : chars -> bool) (s : PmemAddrInstrumenter)
  : option (bool * PmemAddrInstrumenter) :=
  if initialized s then Some (true, s)
  else if negb has_main then Some (false, s)
  else if negb (forallb getOrInsertFunction hook_names) then None
  else
    let tracks := negb (track_with_printf s) in
    Some (true, MkInstrumenter true (instrument_cnt s) (track_with_printf s) (guid_hook_point_map s) (hook_point_guid_map s)
      (PmemVarCurrentGuid s) (inserted s)
      (if tracks then [lit "__arthas_addr_tracker_init"; lit "__arthas_low_level_init"] ++ main_calls s else main_calls s)
      (if tracks then global_dtors s ++ [lit "__arthas_addr_tracker_finish"] else global_dtors s)).

(** ** Instructions *)

(** The name of a function without the dotted suffix; of an intrinsic the fourth
    part, or the last one if there are fewer. *)
Definition callee_token (name : chars) : chars :=
  let token := Extractor.first_token name in
  if decide (token = lit "llvm") then List.last (take 4 (pieces "."%char name)) [] else token.

(** The address to track: [NoTarget] when the instruction is not instrumented,
    [Target None] when the variable [addr] is left uninitialised or an operand is
    missing. *)
Inductive target := NoTarget | Target (addr : option Value) (pool : bool).

Definition call_target (ci : Value) (token : chars) (operands : list Value) : target :=
  if decide (token = lit "pmemobj_create") then Target (Some ci) true
  else if Extractor.callReturnsPmemVar token then Target (Some ci) false
  else if decide (token = lit "pmemobj_tx_add_range_direct") then Target (operands !! 0%nat) false
  else if decide (token = lit "pmemobj_direct_inline") then Target (operands !! 0%nat) false
  else if decide (token = lit "pmemobj_persist") then Target (operands !! 1%nat) false
  else if decide (token = lit "sfence") then Target None false
  else if decide (token = lit "clflush") then Target (operands !! 0%nat) false
  else if decide (token = lit "mmap") then Target (Some ci) false
  else NoTarget.

Definition target_of (instr : Value) : target :=
  match getOpcode lv instr with
  | LoadInst addr | StoreInst addr | GetElementPtrInst addr => Target (Some addr) false
  | CallInst None _ => NoTarget
  | CallInst (Some name) operands => call_target instr (callee_token name) operands
  | OtherInst => NoTarget
  end.

(** The calls inserted for [printf] are not recorded in the maps. *)
Definition insert_hook (instr addr : Value) (pool : bool) (s : PmemAddrInstrumenter) : PmemAddrInstrumenter :=
  let cnt := u32 (instrument_cnt s + 1) in
  if track_with_printf s then
    MkInstrumenter (initialized s) cnt (track_with_printf s) (guid_hook_point_map s) (hook_point_guid_map s) (PmemVarCurrentGuid s)
      (inserted s ++ [(instr, Printf pool addr)]) (main_calls s) (global_dtors s)
  else
    let guid := PmemVarCurrentGuid s in
    MkInstrumenter (initialized s) cnt (track_with_printf s) (assign guid instr (guid_hook_point_map s))
      (<[instr := guid]> (hook_point_guid_map s)) (u32 (guid + 1))
      (inserted s ++ [(instr, TrackAddr addr guid)]) (main_calls s) (global_dtors s).

(** [None] is undefined behaviour. *)
Definition instrumentInstr (s : PmemAddrInstrumenter) (instr : Value) : option (bool * PmemAddrInstrumenter) :=
  match hook_point_guid_map s !! instr with
  | Some _ => Some (false, s)
  | None =>
    match target_of instr with
    | NoTarget => Some (false, s)
    | Target None _ => None
    | Target (Some addr) pool => Some (true, insert_hook instr addr pool s)
    end
  end.

(** [instrumented |= instrumentInstr(instr)] over a list. *)
Definition instrument_step (acc : bool * PmemAddrInstrumenter) (instr : Value) : option (bool * PmemAddrInstrumenter) :=
  r ← instrumentInstr acc.2 instr; Some (acc.1 || r.1, r.2).
Definition instrument_list (s : PmemAddrInstrumenter) (instrs : list Value) : option (bool * PmemAddrInstrumenter) :=
  mfold instrument_step (false, s) instrs.

(** The definition points of the values of a slice. *)
Definition instrumentSlice (is_instruction : Value -> bool) (s : PmemAddrInstrumenter) (slice : list Value)
    (useDefMap : gmap Value (gset Value)) : option (bool * PmemAddrInstrumenter) :=
  mfold (fun acc inst =>
    match useDefMap !! inst with
    | None => Some acc
    | Some vals => mfold instrument_step acc (filter (fun v => is_instruction v = true) (elements vals))
    end) (false, s) slice.

(** ** The map of guids *)

(** [entry] has its guid; the line of a new entry is not initialised.  [None] is the
    use of a subprogram that is null. *)
Definition fillVarGuidMapInfo (instr : Value) (entry : GuidMap.PmemVarGuidMapEntry) : option GuidMap.PmemVarGuidMapEntry :=
  let fill line :=
    SP ← getSubprogram lv instr;
    Some (GuidMap.MkEntry (GuidMap.guid entry) (getDirectory SP) (getFilename SP) (function_name lv instr) line (print lv instr)) in
  match getDebugLoc lv instr with
  | Some line => fill line
  | None => match getSubprogram lv instr with
            | None => Some entry
            | Some SP => fill (getLine SP)
            end
  end.

Definition new_entry (garbage_line guid : Z) : GuidMap.PmemVarGuidMapEntry := GuidMap.MkEntry guid [] [] [] garbage_line [].

(** [is_open]: the file can be opened; the result is what is written, if so. *)
Definition writeGuidHookPointMap (garbage_line : Z) (is_open : bool) (s : PmemAddrInstrumenter) : option (option chars) :=
  var_map ← mfold (fun m gi => e ← fillVarGuidMapInfo gi.2 (new_entry garbage_line gi.1); Some (GuidMap.add m e))
              [] (guid_hook_point_map s);
  Some (GuidMap.serialize is_open var_map).

(** ** The drivers *)

(** The instructions of a locator, in the order of the loops. *)
Definition located_instrs (is_instruction : Value -> bool) (l : Extractor.PMemVariableLocator (Value := Value)) : list Value :=
  filter (fun v => is_instruction v = true)
    (Extractor.varList l ++ ((map_to_list (Extractor.regionList l)) ≫= fun e => replicate (length e.2) e.1)).

(** [InstrumentPmemAddrPass::runOnFunction]. *)
Definition pass_runOnFunction (uv : DefUse.use_view Value) (kind : Value -> Extractor.inst_kind) (getName : Value -> chars)
    (fuel : nat) (RegularLoadStore : bool) (s : PmemAddrInstrumenter) (F : Extractor.function (Value := Value))
  : option (bool * PmemAddrInstrumenter) :=
  if RegularLoadStore then instrument_list s (Extractor.insts F)
  else
    l ← Extractor.runOnFunction uv kind getName fuel Extractor.new_locator F;
    if decide (Extractor.varList l = []) then Some (false, s)
    else instrument_list s (located_instrs (DefUse.is_instruction uv) l).

(** The loop over the functions of [InstrumentPmemAddrPass::runOnModule]. *)
Definition pass_runOnModule (uv : DefUse.use_view Value) (kind : Value -> Extractor.inst_kind) (getName : Value -> chars)
    (fuel : nat) (RegularLoadStore : bool) (s : PmemAddrInstrumenter) (M : list (Extractor.function (Value := Value)))
  : option (bool * PmemAddrInstrumenter) :=
  mfold (fun acc F =>
    if Extractor.isDeclaration F then Some acc
    else r ← pass_runOnFunction uv kind getName fuel RegularLoadStore acc.2 F; Some (acc.1 || r.1, r.2)) (false, s) M.

(** [runOnFunction] of the tool, which also keeps the persistent variables. *)
Definition tool_runOnFunction (uv : DefUse.use_view Value) (kind : Value -> Extractor.inst_kind) (getName : Value -> chars)
    (fuel : nat) (RegularLoadStore : bool) (st : gset Value * PmemAddrInstrumenter) (F : Extractor.function (Value := Value))
  : option (bool * (gset Value * PmemAddrInstrumenter)) :=
  if RegularLoadStore then r ← instrument_list st.2 (Extractor.insts F); Some (r.1, (st.1, r.2))
  else
    l ← Extractor.runOnFunction uv kind getName fuel Extractor.new_locator F;
    if decide (Extractor.varList l = []) then Some (false, st)
    else
      r ← instrument_list st.2 (located_instrs (DefUse.is_instruction uv) l);
      Some (true, (st.1 ∪ list_to_set (Extractor.varList l) ∪ dom (Extractor.regionList l), r.2)).

(** The tool: what points to a persistent variable becomes one; [None] in a points-to
    set is a target without a value. *)
Definition instrumentPmemPointers (getPointsTo : Value -> option (list (option Value))) (insts : list Value) (pmem_vars : gset Value)
  : gset Value :=
  foldl (fun pmem_vars val =>
    match getPointsTo val with
    | None => pmem_vars
    | Some pointsTo =>
      foldl (fun pmem_vars ptr =>
        match ptr with
        | None => pmem_vars
        | Some p_val => if decide (p_val ∈ pmem_vars) then {[ val ]} ∪ pmem_vars else pmem_vars
        end) pmem_vars pointsTo
    end) pmem_vars insts.

(** The last loop of the tool leaves out two functions by name. *)
Definition excluded (name : chars) : bool :=
  bool_decide (name = lit "split_slab_page_into_freelist") || bool_decide (name = lit "do_slabs_free").

Definition instrument_vars (is_instruction : Value -> bool) (pmem_vars : gset Value) (s : PmemAddrInstrumenter)
  : option (bool * PmemAddrInstrumenter) :=
  instrument_list s (filter (fun v => is_instruction v = true /\ excluded (function_name lv v) = false) (elements pmem_vars)).

(** The three iterations of [main]; [by_address] is the order of a [std::set] of
    pointers, and [getPointsTo] gives the points-to sets of the functions that have a
    dependence graph with its analyses.  The later iterations see the hooks of the first
    in the code, too: the inserted casts and calls never get a hook, and no points-to set
    has one of them as a target, so that the original instructions are all that matters. *)
Definition tool_main (uv : DefUse.use_view Value) (kind : Value -> Extractor.inst_kind) (getName : Value -> chars)
    (fuel : nat) (RegularLoadStore : bool) (by_address : list (Extractor.function (Value := Value)) -> list (Extractor.function (Value := Value)))
    (getPointsTo : Extractor.function (Value := Value) -> option (Value -> option (list (option Value))))
    (s : PmemAddrInstrumenter) (M : list (Extractor.function (Value := Value))) : option (gset Value * PmemAddrInstrumenter) :=
  let Functions := filter (fun F => Extractor.isDeclaration F = false) M in
  st ← mfold (fun st F => r ← tool_runOnFunction uv kind getName fuel RegularLoadStore st F; Some r.2) (∅, s) Functions;
  let pmem_vars := foldl (fun vars F => match getPointsTo F with
                                        | None => vars
                                        | Some pts => instrumentPmemPointers pts (Extractor.insts F) vars
                                        end) st.1 (by_address Functions) in
  r ← instrument_vars (DefUse.is_instruction uv) pmem_vars st.2;
  Some (pmem_vars, r.2).

(** ** Numbering *)

(** The address of an instruction that is instrumented. *)
Definition hook_addr (instr : Value) : option Value :=
  match target_of instr with Target (Some addr) _ => Some addr | _ => None end.

Definition defined_target (instr : Value) : Prop := forall pool, target_of instr <> Target None pool.

(** The instructions that get a hook, each once. *)
Definition hooked (L instrs : list Value) : list Value :=
  foldl (fun L i => if decide (i ∈ L \/ hook_addr i = None) then L else L ++ [i]) L instrs.

Definition guid_at (k : nat) : Z := PmemVarGuidStart + Z.of_nat k.

(** The state after the hooks of [L] have been inserted. *)
Record hooks_inserted (L : list Value) (s : PmemAddrInstrumenter) : Prop := MkHooksInserted {
  hi_tracks : track_with_printf s = false;
  hi_nodup : NoDup L;
  hi_guids : guid_hook_point_map s = imap (fun k i => (guid_at k, i)) L;
  hi_instrs i g : hook_point_guid_map s !! i = Some g <-> exists k, L !! k = Some i /\ g = guid_at k;
  hi_next : PmemVarCurrentGuid s = guid_at (length L);
  hi_inserted : inserted s = imap (fun k i => (i, TrackAddr (default i (hook_addr i)) (guid_at k))) L
}.

Lemma assign_last {V} k (v : V) m : Forall (fun x => x < k) m.*1 -> assign k v m = m ++ [(k, v)].
Proof.
  induction m as [|[k' v'] m IH]; simpl; [done|]. intros [Hk Hm]%Forall_cons.
  rewrite !decide_False by lia. by rewrite IH.
Qed.

Lemma guid_keys (L : list Value) : (imap (fun k i => (guid_at k, i)) L).*1 = guid_at <$> seq 0 (length L).
Proof.
  induction L as [|i L IH] using rev_ind; [done|].
  rewrite imap_app, fmap_app, IH, length_app, seq_app, fmap_app. cbn. by rewrite Nat.add_0_r.
Qed.

Lemma guid_keys_below (L : list Value) k : (length L <= k)%nat -> Forall (fun x => x < guid_at k) (imap (fun k i => (guid_at k, i)) L).*1.
Proof.
  intros Hk. rewrite guid_keys. apply Forall_fmap, Forall_forall. intros j Hj%elem_of_seq. unfold guid_at. cbn. lia.
Qed.

Lemma new_hooks : hooks_inserted [] (new_instrumenter false).
Proof.
  constructor; try done; [constructor|]. intros i g. cbn. rewrite lookup_empty. split; [done|]. by intros (k & ? & _).
Qed.

Lemma instrumentInstr_ok L s i :
  hooks_inserted L s -> defined_target i -> guid_at (length (hooked L [i])) < 2 ^ 32 ->
  exists b s', instrumentInstr s i = Some (b, s') /\ hooks_inserted (hooked L [i]) s' /\
    (b = true <-> hooked L [i] <> L).
Proof.
  intros Hi Hdef. unfold instrumentInstr, hooked. cbn [foldl]. intros Hlt.
  assert (is_Some (hook_point_guid_map s !! i) <-> i ∈ L) as Hin.
  { rewrite list_elem_of_lookup. split.
    - intros [g (k & Hk & _)%(hi_instrs _ _ Hi)]. by exists k.
    - intros [k Hk]. exists (guid_at k). apply (hi_instrs _ _ Hi). by exists k. }
  destruct (hook_point_guid_map s !! i) as [g|] eqn:Hg.
  { exists false, s. rewrite decide_True by (left; apply Hin; by eexists). by split. }
  assert (i ∉ L) as Hni by (intros [? ?]%Hin; done).
  assert (hook_addr i = match target_of i with Target (Some addr) _ => Some addr | _ => None end) as Hh by done.
  destruct (target_of i) as [|[addr|] pool] eqn:Ht.
  - exists false, s. rewrite decide_True by (by right). by split.
  - exists true, (insert_hook i addr pool s). rewrite decide_False in Hlt |- * by (rewrite Hh; by intros [?|?]).
    split; [done|]. split.
    2: { split; [|done]. intros _ HL. apply (f_equal length) in HL. rewrite length_app in HL. cbn in HL. lia. }
    unfold insert_hook. rewrite (hi_tracks _ _ Hi), (hi_next _ _ Hi).
    constructor; cbn [track_with_printf guid_hook_point_map hook_point_guid_map PmemVarCurrentGuid inserted].
    + done.
    + apply NoDup_app. split; [apply (hi_nodup _ _ Hi)|]. split; [|apply NoDup_singleton]. by intros x Hx ->%list_elem_of_singleton.
    + rewrite (hi_guids _ _ Hi), assign_last by (by apply guid_keys_below). rewrite imap_app. cbn. by rewrite Nat.add_0_r.
    + intros j g. destruct (decide (j = i)) as [->|Hne].
      * rewrite lookup_insert_eq. split.
        -- intros [= <-]. exists (length L). split; [|done]. rewrite lookup_app_r by lia. by rewrite Nat.sub_diag.
        -- intros (k & Hk & ->). f_equal. apply lookup_app_Some in Hk as [Hk|[Hk Hk2]]; [destruct Hni; by eapply list_elem_of_lookup_2|].
           apply lookup_lt_Some in Hk2. cbn in Hk2. f_equal. lia.
      * rewrite lookup_insert_ne by done. rewrite (hi_instrs _ _ Hi). apply exist_proper. intros k.
        rewrite lookup_app_Some. split; [by intros [? ->]; split; [left|]|]. intros [[?|[? Hk]] ->]; [done|].
        apply list_lookup_singleton_Some in Hk as [_ ->]. done.
    + unfold u32, guid_at, PmemVarGuidStart in *. rewrite length_app in *. cbn [length] in *. rewrite Z.mod_small; lia.
    + rewrite (hi_inserted _ _ Hi), imap_app. cbn. rewrite Hh. cbn. by rewrite Nat.add_0_r.
  - by destruct (Hdef pool).
Qed.

Lemma hooked_length L instrs : (length L <= length (hooked L instrs) <= length L + length instrs)%nat.
Proof.
  revert L. induction instrs as [|i instrs IH]; intros L; cbn [hooked foldl length]; [lia|].
  specialize (IH (if decide (i ∈ L \/ hook_addr i = None) then L else L ++ [i])). unfold hooked in IH.
  case_decide; [lia|]. rewrite length_app in IH. cbn [length] in IH. lia.
Qed.

Lemma hooked_one L i : hooked L [i] = L \/ length (hooked L [i]) = S (length L).
Proof. unfold hooked. cbn [foldl]. case_decide; [by left|right]. rewrite length_app. cbn. lia. Qed.

Lemma hooked_elem L instrs i : i ∈ hooked L instrs <-> i ∈ L \/ (i ∈ instrs /\ is_Some (hook_addr i)).
Proof.
  revert L. induction instrs as [|j instrs IH]; intros L; cbn [hooked foldl].
  { rewrite elem_of_nil. tauto. }
  specialize (IH (if decide (j ∈ L \/ hook_addr j = None) then L else L ++ [j])). unfold hooked in IH. rewrite IH.
  rewrite elem_of_cons. case_decide as Hj.
  - split; [tauto|]. intros [?|[[->|?] Hs]]; [tauto| |tauto]. destruct Hj as [?|Hn]; [tauto|]. rewrite Hn in Hs. by destruct Hs.
  - rewrite elem_of_app, list_elem_of_singleton. split; [|tauto]. intros [[?| ->]|?]; [tauto| |tauto].
    right. split; [by left|]. destruct (hook_addr j); [by eexists|]. destruct Hj. by right.
Qed.

Lemma hooked_nodup L instrs : NoDup L -> NoDup (hooked L instrs).
Proof.
  revert L. induction instrs as [|i instrs IH]; intros L Hnd; [done|]. apply (IH (if decide _ then L else L ++ [i])).
  case_decide as Hi; [done|]. apply NoDup_app. split; [done|]. split; [|apply NoDup_singleton].
  intros x Hx ->%list_elem_of_singleton. apply Hi. by left.
Qed.

Lemma hooked_size (X : gset Value) L instrs :
  NoDup L -> (forall i, i ∈ L -> i ∈ X) -> (forall i, i ∈ instrs -> i ∈ X) -> (length (hooked L instrs) <= size X)%nat.
Proof.
  intros Hnd HL Hi. rewrite <- (size_list_to_set (C := gset Value)) by (by apply hooked_nodup).
  apply subseteq_size. intros i [?|[? _]]%elem_of_list_to_set%hooked_elem; auto.
Qed.

Lemma instrument_steps_ok L b s instrs :
  hooks_inserted L s -> Forall defined_target instrs -> guid_at (length (hooked L instrs)) < 2 ^ 32 ->
  exists b' s', mfold instrument_step (b, s) instrs = Some (b', s') /\ hooks_inserted (hooked L instrs) s' /\
    (b' = true <-> b = true \/ hooked L instrs <> L).
Proof.
  revert L b s. induction instrs as [|i instrs IH]; intros L b s Hi Hdef Hlt; cbn [mfold].
  { exists b, s. split; [done|]. split; [done|]. cbn. split; [by left|]. by intros [?|?]. }
  apply Forall_cons in Hdef as [Hd Hdef]. pose proof (hooked_length (hooked L [i]) instrs) as Hlen2.
  change (hooked (hooked L [i]) instrs) with (hooked L (i :: instrs)) in Hlen2. unfold guid_at in Hlt.
  destruct (instrumentInstr_ok L s i Hi Hd) as (b1 & s1 & Hs1 & Hi1 & Hb1); [unfold guid_at; lia|].
  destruct (IH (hooked L [i]) (b || b1) s1 Hi1 Hdef) as (b2 & s2 & Hs2 & Hi2 & Hb2); [exact Hlt|].
  exists b2, s2. assert (instrument_step (b, s) i = Some (b || b1, s1)) as -> by (unfold instrument_step; cbn; by rewrite Hs1).
  simpl_bind.
  split; [exact Hs2|]. split; [exact Hi2|]. rewrite Hb2, orb_true_iff, Hb1. change (hooked (hooked L [i]) instrs) with (hooked L (i :: instrs)).
  split.
  - intros Hb. destruct (hooked_one L i) as [HL|HL].
    { assert (hooked L (i :: instrs) = hooked (hooked L [i]) instrs) as E by done. rewrite E, HL. rewrite HL in Hb. rewrite E, HL in Hb. tauto. }
    right. intros HL'. rewrite HL' in Hlen2. lia.
  - intros [?|Hne]; [tauto|]. destruct (decide (hooked L [i] = L)) as [HL|]; [|tauto]. right. by rewrite HL.
Qed.

(** ** From the instrumenter to the reactor *)

(** What the file says of an instruction. *)
Definition describe (i : Value) (g : Z) : option GuidMap.PmemVarGuidMapEntry :=
  SP ← getSubprogram lv i;
  Some (GuidMap.MkEntry g (getDirectory SP) (getFilename SP) (function_name lv i) (default (getLine SP) (getDebugLoc lv i)) (print lv i)).

(** An instruction with a subprogram whose description can be written to a line. *)
Definition describable (i : Value) : Prop := exists e, describe i 0 = Some e /\ GuidMap.entry_ok e.

Lemma describe_ok i g : describable i -> in_u64 g -> exists e, describe i g = Some e /\ GuidMap.entry_ok e /\ GuidMap.guid e = g /\
  forall ln, fillVarGuidMapInfo i (new_entry ln g) = Some e.
Proof.
  unfold describable, describe, fillVarGuidMapInfo. intros (e & He & _ & Hok) Hg.
  destruct (getSubprogram lv i) as [SP|]; [|done]. injection He as <-. cbn [mbind option_bind] in *.
  eexists. split; [reflexivity|]. split; [by split|]. split; [done|]. intros ln. by destruct (getDebugLoc lv i).
Qed.

Definition described (L : list Value) : list (option GuidMap.PmemVarGuidMapEntry) := imap (fun k i => describe i (guid_at k)) L.

Lemma guids_sorted j n : StronglySorted Z.lt (guid_at <$> seq j n).
Proof.
  revert j. induction n as [|n IH]; intros j; [constructor|]. cbn [seq fmap list_fmap]. constructor; [apply IH|].
  apply Forall_fmap, Forall_forall. intros k Hk%elem_of_seq. unfold guid_at. cbn. lia.
Qed.

Lemma find_In {V} k (v : V) m : NoDup m.*1 -> (k, v) ∈ m -> GuidMap.find k m = Some v.
Proof.
  induction m as [|[k' v'] m IH]; intros Hnd Hin; [by apply elem_of_nil in Hin|]. cbn in Hnd. apply NoDup_cons in Hnd as [Hk Hnd].
  cbn [GuidMap.find]. apply elem_of_cons in Hin as [[= <- <-]|Hin]; [by rewrite decide_True|].
  rewrite decide_False; [by apply IH|]. intros <-. apply Hk. by apply (list_elem_of_fmap_2 fst) in Hin.
Qed.

(** The file that is written holds the description of each instruction under its
    guid. *)
Lemma written_map L s ln :
  hooks_inserted L s -> Forall describable L -> guid_at (length L) < 2 ^ 32 ->
  exists text vm, writeGuidHookPointMap ln true s = Some (Some text) /\
    GuidMap.deserialize (Some text) [] false = (GuidMap.Returns true, vm) /\
    forall k i, L !! k = Some i -> GuidMap.find (guid_at k) vm = describe i (guid_at k).
Proof.
  intros Hi Hd Hlt. unfold writeGuidHookPointMap. rewrite (hi_guids _ _ Hi).
  set (keyed := imap (fun k i => (guid_at k, i)) L).
  assert (exists vm, vm.*1 = keyed.*1 /\ GuidMap.keyed vm /\ Forall GuidMap.entry_ok vm.*2 /\
    Forall2 (fun gi e => fillVarGuidMapInfo gi.2 (new_entry ln gi.1) = Some e) keyed vm.*2 /\
    Forall2 (fun gi ge => describe gi.2 gi.1 = Some ge.2 /\ gi.1 = ge.1) keyed vm) as (vm & Hkeys & Hk & Hok & Hfill & Hdesc).
  { assert (Forall (fun gi => in_u64 gi.1 /\ describable gi.2) keyed) as HF.
    { apply Forall_lookup. intros k gi Hgi. unfold keyed in Hgi. rewrite list_lookup_imap in Hgi.
      apply fmap_Some in Hgi as (i & Hi' & ->). cbn. apply lookup_lt_Some in Hi' as Hk. unfold guid_at, PmemVarGuidStart in *.
      split; [lia|]. by eapply Forall_lookup_1 in Hd. }
    clearbody keyed. induction keyed as [|[g i] m IH]; [exists []; repeat constructor|].
    apply Forall_cons in HF as [[Hg Hi'] HF]. destruct (IH HF) as (vm & ? & ? & ? & ? & ?).
    destruct (describe_ok i g Hi' Hg) as (e & He & Hok & Hge & Hf). exists ((g, e) :: vm). cbn. split; [by f_equal|].
    split; [by constructor|]. split; [by constructor|]. split; constructor; auto. }
  rewrite (mfold_all (fun gi => fillVarGuidMapInfo gi.2 (new_entry ln gi.1)) GuidMap.add keyed vm.*2 [] Hfill). simpl_bind.
  assert (GuidMap.ordered vm) as Ho by (unfold GuidMap.ordered; rewrite Hkeys; unfold keyed; rewrite guid_keys; apply guids_sorted).
  rewrite GuidMap.add_all_ordered by done. eexists _, vm. split; [reflexivity|]. split.
  - by apply GuidMap.guid_map_read_back.
  - intros k i Hki. destruct (Forall2_lookup_l _ _ _ k (guid_at k, i) Hdesc) as ([g e] & Hge & He & Hg).
    { unfold keyed. by rewrite list_lookup_imap, Hki. }
    cbn in He, Hg. subst g. rewrite He. apply find_In; [|by eapply list_elem_of_lookup_2].
    rewrite Hkeys. unfold keyed. rewrite guid_keys. apply NoDup_fmap; [intros a b; unfold guid_at; lia|]. apply NoDup_seq.
Qed.

(** A run of the instrumented program executes hooks: instructions with the value of
    their address.  What the tracker is called with. *)
Definition accesses (s : PmemAddrInstrumenter) (run : list (Value * Z)) : list (Z * Z) :=
  (fun e => (e.2, default 0 (hook_point_guid_map s !! e.1))) <$> run.

(** *** What the reactor recognises

    The reactor matches a description against the module it has loaded, [fs], which may
    be the instrumented one or the original: [debug_line] and [text] are the lines
    and the texts of the instructions there. *)
Section Recognition.
Context (debug_line : Value -> option Z) (text : Value -> chars) (fs : list (Matcher.Function_ Value)).
Abbreviation direct := (AddrTrace.direct (M := Matcher.module_matcher debug_line text fs)).

(** The instruction the matcher answers for the description of [i]. *)
Definition answer (i : Value) : option Value := describe i 0 ≫= direct.

Definition criterion (e : GuidMap.PmemVarGuidMapEntry) : Matcher.FileLine := Matcher.MkFileLine (GuidMap.source_file e) (GuidMap.line e).

(** [j] cannot be told from [i]: it is on the line of [i], in the first function that
    has the file and the line, with the text of [i] up to registers and annotations. *)
Definition look_alike (i j : Value) : Prop :=
  exists e, describe i 0 = Some e /\ Matcher.look_alike debug_line text fs (criterion e) (GuidMap.instruction e) j.

(** [i] is where its description says: the functions before its own in the module are
    passed over, it has a debug location, and its text in the module is the one
    described up to registers and annotations. *)
Definition recognisable (i : Value) : Prop :=
  exists e, describe i 0 = Some e /\ GuidMap.instruction e <> [] /\
    Matcher.locatable debug_line fs (criterion e) i /\ Matcher.alike text (GuidMap.instruction e) i.

(** What the reactor makes of the descriptions of [i]. *)
Record identified (i : Value) : Prop := MkIdentified {
  id_sound j : answer i = Some j -> look_alike i j;
  id_found : recognisable i -> is_Some (answer i);
  id_unique : recognisable i -> (forall j, look_alike i j -> j = i) -> answer i = Some i
}.

Lemma identified_ok i : identified i.
Proof.
  assert (forall j, answer i = Some j -> look_alike i j) as Hs.
  { unfold answer, AddrTrace.direct. intros j (e & He & (r & Hr & ->)%fmap_Some)%bind_Some. exists e. split; [done|].
    cbn [AddrTrace.matchInstr Matcher.module_matcher] in Hr.
    destruct (Matcher.matchInstr _ _ _ _ _ _ _) as [[[j|] ex]|] eqn:Hm; [|done..]. injection Hr as <-. by eapply Matcher.matchInstr_sound. }
  assert (recognisable i -> is_Some (answer i)) as Hf.
  { intros (e & He & Hne & Hl & Ha). unfold answer, AddrTrace.direct. rewrite He. cbn [mbind option_bind].
    cbn [AddrTrace.matchInstr Matcher.module_matcher].
    destruct (Matcher.matchInstr_finds debug_line text fs _ _ i Hne Hl Ha) as (j & ex & Hm). unfold criterion in Hm. rewrite Hm. by eexists. }
  split; [done|done|]. intros Hr Hu. destruct (Hf Hr) as [j Hj]. rewrite Hj. f_equal. by apply Hu, Hs.
Qed.

Lemma describe_direct i g : describe i g ≫= direct = answer i.
Proof. unfold answer, describe. by destruct (getSubprogram lv i). Qed.

(** The item of a hook, read with the guid map. *)
Lemma run_item L s (vm : GuidMap.VarGuidMapTy) e :
  hooks_inserted L s -> (forall k i, L !! k = Some i -> GuidMap.find (guid_at k) vm = describe i (guid_at k)) -> e.1 ∈ L ->
  let g := default 0 (hook_point_guid_map s !! e.1) in
  AddrTrace.var (AddrTrace.item_of (Instr := Value) (Some vm) (e.2, g)) = describe e.1 g /\
  describe e.1 g ≫= direct = answer e.1.
Proof.
  intros Hi Hfind He g. apply list_elem_of_lookup in He as [k Hk].
  assert (g = guid_at k) as -> by (unfold g; assert (hook_point_guid_map s !! e.1 = Some (guid_at k)) as -> by (apply (hi_instrs _ _ Hi); by exists k); done).
  split; [by apply Hfind|apply describe_direct].
Qed.

End Recognition.

(** What the tracker is called with in a run of hooks. *)
Lemma run_accesses_ok L s run :
  hooks_inserted L s -> guid_at (length L) <= 2 ^ 32 -> Forall (fun e => e.1 ∈ L /\ 0 < e.2 < 2 ^ 64) run ->
  Forall AddrTrace.access_ok (accesses s run) /\ Forall (fun a => a.1 <> 0) (accesses s run).
Proof.
  intros Hi Hlt Hrun. split; apply Forall_fmap; (eapply Forall_impl; [exact Hrun|]); intros e [He Ha]; cbn; [|lia].
  apply list_elem_of_lookup in He as [k Hk]. unfold AddrTrace.access_ok. cbn.
  assert (hook_point_guid_map s !! e.1 = Some (guid_at k)) as -> by (apply (hi_instrs _ _ Hi); by exists k).
  apply lookup_lt_Some in Hk. cbn. unfold guid_at, PmemVarGuidStart in *. lia.
Qed.

(** C6. From the instrumenter through the run to the reactor: instrument a list of
    instructions, none of them a call of sfence and each with debug information where
    it gets a hook, write the guid file, run the program, have the reactor read the
    guid file and the trace, and translate the addresses with its matcher.  The hooks
    are those of the different instructions that have an address, in the order in
    which they came, with the guids from 200 on.  The i-th item of the trace has the
    address of the i-th hook that was executed, which is not null, and the
    instruction that the matcher answers for the description of the instruction
    behind which the hook was inserted.  That answer is always a look-alike: on the
    described line, in the first function of the module that has the file and the line,
    with the same text up to register numbers and debug annotations.  There is an
    answer when the debug information in the module leads to the instruction; it is
    the instruction itself when it has no other look-alike. *)
Theorem instrumented_addresses_resolve debug_line text fs instrs run ln :
  guid_at (length instrs) < 2 ^ 32 ->
  Forall defined_target instrs -> Forall describable (hooked [] instrs) ->
  Forall (fun e => e.1 ∈ hooked [] instrs /\ 0 < e.2 < 2 ^ 64) run ->
  exists b s file vm t t',
    instrument_list (new_instrumenter false) instrs = Some (b, s) /\
    inserted s = imap (fun k i => (i, TrackAddr (default i (hook_addr i)) (guid_at k))) (hooked [] instrs) /\
    writeGuidHookPointMap ln true s = Some (Some file) /\
    GuidMap.deserialize (Some file) [] false = (GuidMap.Returns true, vm) /\
    AddrTrace.deserialize (Some (Tracker.trace_file (accesses s run))) (Some vm) AddrTrace.new_trace =
      (GuidMap.Returns true, t) /\
    AddrTrace.addressesToInstructions (M := Matcher.module_matcher debug_line text fs) t = (true, t') /\
    (fun item => (AddrTrace.instr item, AddrTrace.addr item)) <$> AddrTrace.items t' =
      (fun e => (answer debug_line text fs e.1, e.2)) <$> run /\
    forall i, identified debug_line text fs i.
Proof.
  intros Hlt Hdef Hdesc Hrun. set (L := hooked [] instrs) in *.
  pose proof (hooked_length [] instrs) as Hlen. fold L in Hlen. cbn in Hlen.
  destruct (instrument_steps_ok [] false (new_instrumenter false) instrs new_hooks Hdef) as (b & s & Hs & Hi & _).
  { fold L. unfold guid_at in *. lia. }
  fold L in Hi.
  destruct (written_map L s ln Hi Hdesc) as (file & vm & Hfile & Hvm & Hfind); [unfold guid_at in *; lia|].
  destruct (run_accesses_ok L s run Hi) as [Hok Hnz]; [unfold guid_at in *; lia|done|].
  set (its := AddrTrace.item_of (Instr := Value) (Some vm) <$> accesses s run).
  exists b, s, file, vm, (foldl AddrTrace.add AddrTrace.new_trace its).
  destruct (AddrTrace.items_add_all (AddrTrace.new_trace (Instr := Value)) its) as (Hitems & Hknown & Hfailed).
  assert (Forall (AddrTrace.vars_ok (Instr := Value) (fun g => Some vm ≫= GuidMap.find g)) its) as Hvars.
  { apply Forall_fmap, Forall_true. intros a. apply AddrTrace.vars_ok_item_of. }
  pose proof (AddrTrace.addressesToInstructions_ok (M := Matcher.module_matcher debug_line text fs) (fun g => Some vm ≫= GuidMap.find g)
    (foldl AddrTrace.add AddrTrace.new_trace its)) as Hres.
  rewrite Hitems, Hknown, Hfailed in Hres. cbn [app AddrTrace.items AddrTrace.new_trace AddrTrace.guid_instr_map AddrTrace.failed_guids] in Hres.
  destruct (Hres Hvars) as (known & failed & Hto & _).
  { split; intros g x; by rewrite lookup_empty. }
  eexists. split; [exact Hs|]. split; [apply (hi_inserted _ _ Hi)|]. split; [exact Hfile|]. split; [exact Hvm|]. split; [|split; [exact Hto|split]].
  - pose proof (AddrTrace.tracker_file_parsed (Instr := Value) (Some vm) (accesses s run) [] AddrTrace.new_trace) as Hp.
    rewrite app_nil_r in Hp. apply Hp; [done|done|by left].
  - cbn [AddrTrace.items]. unfold its, accesses. rewrite <- !list_fmap_compose. apply list_fmap_ext. intros j e He.
    rewrite Forall_lookup in Hrun. destruct (Hrun j e He) as [HeL _].
    destruct (run_item debug_line text fs L s vm e Hi Hfind HeL) as [Hv Hd]. cbv zeta in Hv, Hd.
    unfold compose, AddrTrace.resolve. cbv beta. rewrite Hv, Hd. by destruct (answer debug_line text fs e.1).
  - apply identified_ok.
Qed.

(** ** The pass *)

Section Pass.
Context (uv : DefUse.use_view Value) (kind : Value -> Extractor.inst_kind (Value := Value)) (getName : Value -> chars).
Context (all : gset Value) (fuel : nat).
Context (Hclosed : forall v w, v ∈ all -> DefUse.step uv v w -> w ∈ all) (Hfuel : (size all <= fuel)%nat).

(** What the pass takes up in a function: when something in it is persistent, the
    persistent variables and the regions. *)
Definition taken_up (F : Extractor.function (Value := Value)) (i : Value) : Prop :=
  Extractor.isDeclaration F = false /\ DefUse.is_instruction uv i = true /\
  Extractor.insts F ≫= Extractor.roots kind getName <> [] /\
  (Extractor.persistent uv (Extractor.insts F ≫= Extractor.roots kind getName) i \/
   (i ∈ Extractor.insts F /\ is_Some (Extractor.region_size kind i))).

Definition in_all (F : Extractor.function (Value := Value)) : Prop :=
  NoDup (Extractor.insts F) /\ (forall i, i ∈ Extractor.insts F -> i ∈ all) /\
  (forall i r, i ∈ Extractor.insts F -> r ∈ Extractor.roots kind getName i -> r ∈ all).

Lemma located_instrs_ok F l :
  in_all F -> Extractor.located uv kind getName (Extractor.insts F) l -> forall i,
  i ∈ located_instrs (DefUse.is_instruction uv) l <->
    DefUse.is_instruction uv i = true /\
    (Extractor.persistent uv (Extractor.insts F ≫= Extractor.roots kind getName) i \/
     (i ∈ Extractor.insts F /\ is_Some (Extractor.region_size kind i))).
Proof.
  intros (Hnd & _) Hl i. unfold located_instrs. rewrite list_elem_of_filter, elem_of_app, (Extractor.lc_vars _ _ _ _ _ Hl).
  apply and_iff_compat_l, or_iff_compat_l. rewrite list_elem_of_bind, (Extractor.lc_regions _ _ _ _ _ Hl).
  assert (forall v sizes, (v, sizes) ∈ map_to_list (Extractor.regions_of kind (Extractor.insts F) ∅) <->
    v ∈ Extractor.insts F /\ exists size, Extractor.region_size kind v = Some size /\ sizes = [size]) as Hm.
  { intros v sizes. rewrite elem_of_map_to_list, Extractor.regions_of_lookup by (try done; intros; apply lookup_empty).
    case_decide; [|rewrite lookup_empty; split; [done|tauto]]. rewrite fmap_Some. split; [intros (size & ? & ->); eauto|].
    intros (_ & size & ? & ->). eauto. }
  split.
  - intros ([v sizes] & Hi & (Hv & size & Hsz & ->)%Hm). cbn in Hi. apply list_elem_of_singleton in Hi as ->. split; [done|by eexists].
  - intros (Hi & size & Hsz). exists (i, [size]). split; [by left|]. apply Hm. eauto.
Qed.

Lemma persistent_empty rs : rs <> [] <-> exists v, Extractor.persistent uv rs v.
Proof.
  split.
  - destruct rs as [|r rs]; [done|]. intros _. exists r, r. split; [by left|by left].
  - intros (v & r & Hr & _) ->. by apply elem_of_nil in Hr.
Qed.

Lemma pass_function_ok L s F :
  hooks_inserted L s -> Forall defined_target (elements all) -> in_all F -> Extractor.isDeclaration F = false ->
  (forall i, i ∈ L -> i ∈ all) -> guid_at (size all) < 2 ^ 32 ->
  exists b s' L', pass_runOnFunction uv kind getName fuel false s F = Some (b, s') /\ hooks_inserted L' s' /\
    forall i, i ∈ L' <-> i ∈ L \/ (taken_up F i /\ is_Some (hook_addr i)).
Proof.
  intros Hi Hdef HF Hdecl HL Hlt. pose proof HF as (Hnd & Hia & Hra).
  destruct (Extractor.runOnFunction_ok uv kind getName all fuel Hclosed Hfuel [] F Extractor.new_locator) as (l & Hl & Hloc).
  { intros i r. unfold Extractor.body. rewrite Hdecl. apply Hra. }
  { apply Extractor.new_located. }
  unfold pass_runOnFunction. rewrite Hl. simpl_bind. unfold Extractor.body in Hloc. rewrite Hdecl in Hloc. cbn [app] in Hloc.
  pose proof (located_instrs_ok F l HF Hloc) as Hin. unfold taken_up. case_decide as Hvl.
  - exists false, s, L. split; [done|]. split; [done|]. intros i. split; [by left|]. intros [?|[(_ & _ & Hne & _) _]]; [done|].
    apply persistent_empty in Hne as (v & Hv). apply (Extractor.lc_vars _ _ _ _ _ Hloc) in Hv. rewrite Hvl in Hv. by apply elem_of_nil in Hv.
  - set (instrs := located_instrs (DefUse.is_instruction uv) l) in *.
    assert (forall i, i ∈ instrs -> i ∈ all) as Hsub.
    { intros i (_ & [Hp|[Hi' _]])%Hin; [|by apply Hia]. by eapply Extractor.persistent_all. }
    destruct (instrument_steps_ok L false s instrs Hi) as (b & s' & Hs' & Hi' & _).
    + apply Forall_forall. intros i Hii. rewrite Forall_forall in Hdef. apply Hdef, elem_of_elements, Hsub, Hii.
    + pose proof (hooked_size all L instrs (hi_nodup _ _ Hi) HL Hsub). unfold guid_at in *. lia.
    + exists b, s', (hooked L instrs). split; [exact Hs'|]. split; [exact Hi'|]. intros i. rewrite hooked_elem, Hin.
      assert (Extractor.insts F ≫= Extractor.roots kind getName <> []) as Hne.
      { destruct (Extractor.varList l) as [|v vl] eqn:Hv; [done|]. apply persistent_empty. exists v.
        apply (Extractor.lc_vars _ _ _ _ _ Hloc). rewrite Hv. by left. }
      tauto.
Qed.

(** C20. The pass puts a hook exactly behind the instructions with an address that the
    locator finds in the functions with a body, the persistent variables, their
    users and the regions; a function in which nothing is persistent is passed
    over, although it may create a pool. *)
Theorem pass_instruments_persistent M :
  Forall in_all M -> Forall defined_target (elements all) -> guid_at (size all) < 2 ^ 32 ->
  exists b s L, pass_runOnModule uv kind getName fuel false (new_instrumenter false) M = Some (b, s) /\ hooks_inserted L s /\
    forall i, i ∈ L <-> (exists F, F ∈ M /\ taken_up F i) /\ is_Some (hook_addr i).
Proof.
  intros HM Hdef Hlt. unfold pass_runOnModule.
  enough (forall M L b s, Forall in_all M -> hooks_inserted L s -> (forall i, i ∈ L -> i ∈ all) ->
    exists b' s' L', mfold (fun acc F => if Extractor.isDeclaration F then Some acc
        else r ← pass_runOnFunction uv kind getName fuel false acc.2 F; Some (acc.1 || r.1, r.2)) (b, s) M = Some (b', s') /\
      hooks_inserted L' s' /\ forall i, i ∈ L' <-> i ∈ L \/ ((exists F, F ∈ M /\ taken_up F i) /\ is_Some (hook_addr i))) as Hen.
  { destruct (Hen M [] false (new_instrumenter false) HM new_hooks) as (b & s & L & ? & ? & HL); [by intros i ?%elem_of_nil|].
    exists b, s, L. split; [done|]. split; [done|]. intros i. rewrite HL, elem_of_nil. tauto. }
  clear M HM. induction M as [|F M IH]; intros L b s HM Hi HL; cbn [mfold].
  { exists b, s, L. split; [done|]. split; [done|]. intros i. split; [by left|]. by intros [?|[(F & ?%elem_of_nil & _) _]]. }
  apply Forall_cons in HM as [HF HM]. destruct (Extractor.isDeclaration F) eqn:Hdecl; simpl_bind.
  - destruct (IH L b s HM Hi HL) as (b' & s' & L' & ? & ? & Hin). exists b', s', L'. split; [done|]. split; [done|].
    intros i. rewrite Hin. setoid_rewrite elem_of_cons. split; [naive_solver|]. intros [?|[(F' & [-> |?] & Ht) ?]]; [by left| |naive_solver].
    destruct Ht as [Ht _]. congruence.
  - destruct (pass_function_ok L s F Hi Hdef HF Hdecl HL Hlt) as (b1 & s1 & L1 & Hs1 & Hi1 & Hin1). cbn [fst snd].
    rewrite Hs1. cbn [mbind option_bind fst snd].
    destruct (IH L1 (b || b1) s1 HM Hi1) as (b' & s' & L' & ? & ? & Hin).
    { intros i [?|[(_ & _ & _ & Ht) _]]%Hin1; [by apply HL|]. destruct HF as (_ & Hia & Hra).
      destruct Ht as [Hp|[? _]]; [|by apply Hia]. by eapply Extractor.persistent_all. }
    exists b', s', L'. split; [done|]. split; [done|]. intros i. rewrite Hin, Hin1. setoid_rewrite elem_of_cons. naive_solver.
Qed.

End Pass.

End Instrumenter.

(** ** Examples *)

(** 0 is a load through 7, 1 a call of [pmem_map_file], 2 a cache flush, 3 a fence, 4
    a call of [pmemobj_create]; the instructions are on the lines from 10 on. *)
Definition ex_opcode (i : nat) : opcode (Value := nat) :=
  match i with
  | 0%nat => LoadInst 7%nat
  | 1%nat => CallInst (Some (lit "pmem_map_file")) [3; 5]%nat
  | 2%nat => CallInst (Some (lit "llvm.x86.sse2.clflush")) [7%nat]
  | 3%nat => CallInst (Some (lit "llvm.x86.sse2.sfence")) []
  | 4%nat => CallInst (Some (lit "pmemobj_create")) [3; 5; 6]%nat
  | _ => OtherInst
  end.
Definition ex_view : llvm_view (Value := nat) :=
  MkView ex_opcode (fun i => Some (10 + Z.of_nat i)) (fun _ => Some (MkSubprogram (lit "/src") (lit "a.c") 9))
    (fun _ => lit "main") (fun _ => lit "%1 = load i8, i8* %2, !dbg !7").

(** The module the reactor reads: the original, where the registers have other numbers;
    the instructions 6 and 7 are on the line of 0. *)
Definition ex_lines (i : nat) : option Z := Some (if decide (i = 6 \/ i = 7)%nat then 10 else 10 + Z.of_nat i).
Definition ex_texts (i : nat) : chars := lit (if decide (i = 6)%nat then "  ret void, !dbg !9" else "  %3 = load i8, i8* %5, !dbg !9").
Definition ex_main (extra : list nat) : Matcher.Function_ nat :=
  Matcher.MkFunction (lit "main") false (Some (Matcher.MkSubprogram (lit "/src") (lit "a.c") 9 (lit "main") [])) [[1; 0]%nat; extra ++ [6; 2]%nat].

(** When 7 is in the module, too, it looks like 0: it is the answer for both. *)
Lemma look_alikes_confused :
  answer ex_view ex_lines ex_texts [ex_main []] 0%nat = Some 0%nat /\ answer ex_view ex_lines ex_texts [ex_main [7%nat]] 0%nat = Some 7%nat.
Proof. split; vm_compute; reflexivity. Qed.

(** Without 7 the debug information leads to 0 and nothing else looks like it, although 6
    is on its line. *)
Lemma ex_unique :
  recognisable ex_view ex_lines ex_texts [ex_main []] 0%nat /\
  forall j, look_alike ex_view ex_lines ex_texts [ex_main []] 0%nat j -> j = 0%nat.
Proof.
  split.
  - eexists. split; [reflexivity|]. split; [vm_compute; discriminate|]. split.
    + exists [], (ex_main []). eexists _, []. split; [reflexivity|]. split; [done|]. split; [by vm_compute|]. split; [by eexists|].
      vm_compute. left.
    + apply Matcher.fuzzilyMatch_iff. vm_compute. reflexivity.
  - intros j (e & [= <-] & before & F & SP & after & Hfs & _ & _ & Hj & Ha%Matcher.fuzzilyMatch_iff).
    destruct before as [|? [|]]; [|discriminate..]. injection Hfs as <- <-. vm_compute in Hj.
    repeat (apply elem_of_cons in Hj as [->|Hj]; [first [reflexivity|vm_compute in Ha; discriminate]|]). by apply elem_of_nil in Hj.
Qed.

(** A fence is instrumented with an uninitialised address; and a use of [printf]
    instruments an instruction each time it comes. *)
Lemma fence_undefined : instrument_list ex_view (new_instrumenter false) [0; 3]%nat = None.
Proof. reflexivity. Qed.

Lemma printf_instruments_twice :
  inserted <$> (snd <$> instrument_list ex_view (new_instrumenter true) [0; 0]%nat) =
    Some [(0%nat, Printf false 7%nat); (0%nat, Printf false 7%nat)].
Proof. reflexivity. Qed.

Lemma instrumented_addresses_resolve_witness :
  hooked ex_view [] [0; 5; 2; 0; 1]%nat = [0; 2; 1]%nat /\
  exists t, (fun item => (AddrTrace.instr item, AddrTrace.addr item)) <$> AddrTrace.items t =
    [(Some 1%nat, 4096); (Some 0%nat, 4100); (Some 1%nat, 8192); (Some 2%nat, 4100)].
Proof.
  destruct (instrumented_addresses_resolve ex_view ex_lines ex_texts [ex_main []] [0; 5; 2; 0; 1]%nat
    [(1%nat, 4096); (0%nat, 4100); (1%nat, 8192); (2%nat, 4100)] 0) as (b & s & file & vm & t & t' & _ & _ & _ & _ & _ & _ & Ht & _).
  - reflexivity.
  - repeat constructor; intros pool; vm_compute; discriminate.
  - change (hooked ex_view [] [0; 5; 2; 0; 1]%nat) with [0; 2; 1]%nat.
    repeat constructor; eexists; (split; [reflexivity|apply (bool_decide_unpack _); vm_compute; reflexivity]).
  - change (hooked ex_view [] [0; 5; 2; 0; 1]%nat) with [0; 2; 1]%nat. apply (bool_decide_unpack _). vm_compute. reflexivity.
  - split; [reflexivity|]. exists t'. rewrite Ht. vm_compute. reflexivity.
Defined.

(** A function that creates a pool only, and one that maps a file. *)
Definition ex_kind (v : nat) : Extractor.inst_kind (Value := nat) :=
  match ex_opcode v with CallInst callee args => Extractor.CallInst callee args | _ => Extractor.OtherInst end.
Definition ex_uses : DefUse.use_view nat :=
  {| DefUse.users v := if decide (v = 1%nat) then [0%nat] else [];
     DefUse.is_instruction v := bool_decide (v < 5)%nat;
     DefUse.is_alloca _ := false;
     DefUse.store_operand _ := None |}.
Definition ex_functions : list (Extractor.function (Value := nat)) :=
  [Extractor.MkFunction false [4%nat]; Extractor.MkFunction false [1; 0; 5]%nat].

Lemma pass_instruments_persistent_witness :
  exists b s, pass_runOnModule ex_view ex_uses ex_kind (fun _ => []) 10 false (new_instrumenter false) ex_functions = Some (b, s) /\
    inserted s = [(1%nat, TrackAddr 1%nat 200); (0%nat, TrackAddr 7%nat 201)].
Proof.
  assert (elements (list_to_set [0; 1; 4; 5]%nat : gset nat) ≡ₚ [0; 1; 4; 5]%nat) as Hel
    by (apply elements_list_to_set, (bool_decide_unpack _); vm_compute; reflexivity).
  destruct (pass_instruments_persistent ex_view ex_uses ex_kind (fun _ => []) (list_to_set [0; 1; 4; 5]%nat) 10)
    with (M := ex_functions) as (b & s & L & Hs & Hi & _).
  - intros v w Hv Hvw. unfold DefUse.step, DefUse.uses_of, ex_uses in Hvw. cbn [DefUse.users] in Hvw. case_decide; cbn in Hvw; set_solver.
  - rewrite size_list_to_set by (apply (bool_decide_unpack _); vm_compute; reflexivity). cbn. lia.
  - assert (Forall (fun F => NoDup (Extractor.insts F) /\ Forall (.∈ [0; 1; 4; 5]%nat) (Extractor.insts F) /\
      Forall (fun i => Forall (.∈ [0; 1; 4; 5]%nat) (Extractor.roots ex_kind (fun _ => []) i)) (Extractor.insts F)) ex_functions) as HF
      by (apply (bool_decide_unpack _); vm_compute; reflexivity).
    eapply Forall_impl; [exact HF|]. intros F (Hnd & Hi & Hr). rewrite !Forall_forall in Hi, Hr. split; [done|]. split.
    + intros i Hin. apply elem_of_list_to_set. by apply Hi.
    + intros i r Hin Hir. specialize (Hr i Hin). rewrite Forall_forall in Hr. apply elem_of_list_to_set. by apply Hr.
  - rewrite Hel. repeat constructor; intros pool; vm_compute; discriminate.
  - rewrite size_list_to_set by (apply (bool_decide_unpack _); vm_compute; reflexivity). reflexivity.
  - exists b, s. split; [exact Hs|]. rewrite (hi_inserted _ _ _ Hi).
    enough (inserted <$> (snd <$> pass_runOnModule ex_view ex_uses ex_kind (fun _ => []) 10 false (new_instrumenter false) ex_functions) =
      Some [(1%nat, TrackAddr 1%nat 200); (0%nat, TrackAddr 7%nat 201)]) as E; [|vm_compute; reflexivity].
    rewrite Hs in E. cbn in E. injection E as E. by rewrite <- (hi_inserted _ _ _ Hi).
Defined.

End Instrument.
