(* ===== verification/Pipeline.v ===== *)
(** * From the instrumented program to the processed trace

    The components of the dynamic part put together: the instrumenter (file
    Instrument) and its guid map, the process with the tracker (Tracker), the
    monitor of the reactor (Monitor, Tracing) and the processing of the trace when
    it is ready (Concurrency, AddrTrace). *)
From stdpp Require Import base list strings gmap.
From S2P Require Import Prelude Strings GuidMap Tracker AddrTrace Matcher TraceType Monitor Tracing Concurrency Instrument.
Import Strings AddrTrace.

Module Pipeline.

(** ** Offsets along a trace *)
Section Offsets.
Context {Instr : Type}.

(** The offsets of items in one pass from the front; [pool] is the address of the
    last pool. *)
Fixpoint item_offsets (pool : option Z) (its : list (PmemAddrTraceItem (Instr := Instr))) : list (option Z) :=
  match its with
  | [] => []
  | it :: its' =>
    if starts_pool it then None :: item_offsets (Some (addr it)) its'
    else (p ← pool; if decide (p <= addr it) then Some (addr it - p) else None) :: item_offsets pool its'
  end.

Definition last_pool_address (its : list (PmemAddrTraceItem (Instr := Instr))) (n : nat) : option Z :=
  owner its n ≫= fun j => addr <$> its !! j.

Lemma assigned_at (its : list (PmemAddrTraceItem (Instr := Instr))) n it :
  its !! n = Some it -> snd <$> assigned its n =
    if starts_pool it then None else p ← last_pool_address its n; if decide (p <= addr it) then Some (addr it - p) else None.
Proof.
  intros Hn. unfold assigned, last_pool_address. rewrite Hn. cbn [mbind option_bind]. destruct (starts_pool it); [done|].
  destruct (owner its n) as [j|]; [|done]. cbn [mbind option_bind]. destruct (its !! j) as [pool|]; [|done].
  cbn [mbind option_bind fmap option_fmap option_map]. by case_decide.
Qed.

Lemma item_offsets_from (its : list (PmemAddrTraceItem (Instr := Instr))) n :
  (n <= length its)%nat ->
  item_offsets (last_pool_address its n) (drop n its) = (fun i => snd <$> assigned its i) <$> seq n (length its - n).
Proof.
  intros Hn. remember (length its - n)%nat as k eqn:Hk. revert n Hn Hk. induction k as [|k IH]; intros n Hn Hk.
  { rewrite drop_ge by lia. done. }
  destruct (lookup_lt_is_Some_2 its n) as [it Hit]; [lia|]. rewrite (drop_S _ _ _ Hit). cbn [item_offsets seq fmap list_fmap].
  rewrite (assigned_at _ _ _ Hit), <- (IH (S n)) by lia. unfold last_pool_address at 3 4. rewrite (owner_S _ _ _ Hit).
  destruct (starts_pool it); [|done]. cbn [mbind option_bind]. by rewrite Hit.
Qed.

Lemma item_offsets_assigned (its : list (PmemAddrTraceItem (Instr := Instr))) :
  item_offsets None its = (fun i => snd <$> assigned its i) <$> seq 0 (length its).
Proof. pose proof (item_offsets_from its 0 ltac:(lia)) as H. rewrite drop_0, Nat.sub_0_r in H. exact H. Qed.

Lemma any_offset (its : list (PmemAddrTraceItem (Instr := Instr))) :
  any_assigned its (length its) = existsb (fun o => bool_decide (is_Some o)) (item_offsets None its).
Proof.
  rewrite item_offsets_assigned. unfold any_assigned. induction (seq 0 (length its)) as [|i l IH]; [done|]. cbn [existsb fmap list_fmap].
  rewrite IH. f_equal. apply bool_decide_ext. by rewrite fmap_is_Some.
Qed.

(** The items with their offsets. *)
Lemma with_offset_items (its : list (PmemAddrTraceItem (Instr := Instr))) i it :
  Forall (fun it => pool_offset it = 0) its -> its !! i = Some it ->
  exists o, item_offsets None its !! i = Some o /\ pool_offset (with_offset its i it) = default 0 o.
Proof.
  intros H0 Hi. exists (snd <$> assigned its i). split.
  - rewrite item_offsets_assigned, list_lookup_fmap. apply lookup_lt_Some in Hi. by rewrite lookup_seq_lt by done.
  - unfold with_offset. rewrite Forall_lookup in H0. by destruct (assigned its i) as [[j o]|]; [|apply (H0 i)].
Qed.

End Offsets.

(** ** Processing a trace that has just been read *)
Section Processed.
Context {Instr : Type} `{M : !Matcher Instr} (vm : GuidMap.VarGuidMapTy).

(** The trace of accesses is processed with success exactly when one of them lies in a
    pool, and then every item has its offset and, where the matcher finds one, its
    instruction. *)
Lemma processed_ok l :
  processed = true -> Forall access_ok l ->
  let its := item_of (Instr := Instr) (Some vm) <$> l in
  let '(ok, t) := Concurrency.TraceReady.process_trace (Tracing.trace_of vm new_trace l) in
  ok = existsb (fun o => bool_decide (is_Some o)) (item_offsets None its) /\
  (ok = true -> items t = resolve <$> imap (with_offset its) its).
Proof.
  intros Hproc Hok its. pose proof (trace_ok_read (Instr := Instr) (Some vm) l new_trace Hok trace_ok_new) as Htr.
  fold (Tracing.trace_of vm (new_trace (Instr := Instr)) l) in Htr.
  destruct (items_add_all (new_trace (Instr := Instr)) its) as (Hitems & Hknown & Hfailed).
  change (foldl add new_trace its) with (Tracing.trace_of vm (new_trace (Instr := Instr)) l) in Hitems, Hknown, Hfailed.
  cbn [items new_trace guid_instr_map failed_guids app] in Hitems, Hknown, Hfailed.
  unfold Concurrency.TraceReady.process_trace. rewrite <- any_offset. destruct (pool_addrs (Tracing.trace_of vm new_trace l)) as [|p ps] eqn:Hp.
  - destruct Htr as [Hps _]. rewrite Hp, Hitems in Hps. cbn in Hps. split; [|done]. symmetry. apply not_true_is_false.
    intros (i & _ & Hi)%existsb_exists. apply bool_decide_eq_true in Hi as [x Hx]. by rewrite assigned_no_pool in Hx.
  - rewrite (calculatePoolOffsets_ok _ Htr), Hitems, Hknown, Hfailed. destruct (any_assigned its (length its)); [|done].
    match goal with |- context [addressesToInstructions ?t] => pose proof (addressesToInstructions_ok (fun g => Some vm ≫= GuidMap.find g) t) as H end.
    cbn [items guid_instr_map failed_guids] in H. rewrite Hproc in H.
    destruct H as (known & failed & -> & _); [|split; intros g x; by rewrite lookup_empty|done].
    apply Forall_lookup. intros i it. rewrite list_lookup_imap. intros (it0 & Hit & ->)%fmap_Some.
    unfold its in Hit. rewrite list_lookup_fmap in Hit. apply fmap_Some in Hit as (a & _ & ->).
    unfold with_offset. by destruct (assigned _ i) as [[? ?]|].
Qed.

Lemma item_of_typed v a : access_ok a -> TraceType.item_typed (item_of (Instr := Instr) v a).
Proof.
  intros [Ha Hg]. constructor; cbn; [lia|lia|done| | |done].
  - destruct (v ≫= GuidMap.find a.2) as [e|]; cbn; [by destruct (classify (GuidMap.instruction e))|done].
  - by intros [? ?].
Qed.

Lemma trace_of_typed l t : Forall access_ok l -> TraceType.typed t -> TraceType.typed (Tracing.trace_of vm (Instr := Instr) t l).
Proof.
  unfold Tracing.trace_of. intros Hl. revert t. induction Hl as [|a l Ha Hl IH]; intros t Ht; [done|]. cbn [fmap list_fmap foldl].
  by apply IH, TraceType.typed_add; [apply item_of_typed|].
Qed.

Lemma process_typed (t : PmemAddrTrace (Instr := Instr)) : TraceType.typed t -> TraceType.typed (Concurrency.TraceReady.process_trace t).2.
Proof.
  intros Ht. unfold Concurrency.TraceReady.process_trace. destruct (pool_addrs t); [done|].
  pose proof (TraceType.typed_offsets t Ht) as Ho. destruct (calculatePoolOffsets t) as [[] t1]; [by apply TraceType.typed_resolve|done].
Qed.

End Processed.

(** ** The whole pipeline *)
Section Pipeline.
Context {Value : Type} `{Countable Value} (lv : Instrument.llvm_view (Value := Value)).
(** The module the reactor reads, with the lines and texts of its instructions. *)
Context (debug_line : Value -> option Z) (mtext : Value -> chars) (fs : list (Matcher.Function_ Value)).
Abbreviation answer := (Instrument.answer lv debug_line mtext fs).
Abbreviation processing := (Concurrency.TraceReady.process_trace (M := Matcher.module_matcher debug_line mtext fs)).

(** An instruction whose text is a call that creates or maps a pool. *)
Definition pool_call (i : Value) : bool :=
  match Instrument.describe lv i 0 with
  | Some e => let c := classify (GuidMap.instruction e) in c.1 || c.2
  | None => false
  end.

(** The offsets of a run of hooks: the distance from the address of the last pool
    call, none for the calls themselves, before the first one and below the pool. *)
Fixpoint run_offsets (pool : option Z) (run : list (Value * Z)) : list (option Z) :=
  match run with
  | [] => []
  | (i, a) :: run' =>
    if pool_call i then None :: run_offsets (Some a) run'
    else (p ← pool; if decide (p <= a) then Some (a - p) else None) :: run_offsets pool run'
  end.

(** The process has come to an end after writing all accesses. *)
Definition ended (st : Tracker.status) : Prop :=
  match st with Tracker.Exited _ _ | Tracker.Undefined _ => True | _ => False end.

Lemma item_starts_pool (v : GuidMap.VarGuidMapTy) i g a :
  var (item_of (Instr := Value) (Some v) (a, g)) = Instrument.describe lv i g -> is_Some (Instrument.describe lv i 0) ->
  starts_pool (item_of (Instr := Value) (Some v) (a, g)) = pool_call i.
Proof.
  unfold item_of, starts_pool, pool_call. cbn [var is_pool is_mmap fst snd]. intros -> [e He]. rewrite He.
  unfold Instrument.describe in *. destruct (Instrument.getSubprogram lv i) as [SP|]; [|done]. cbn in He. injection He as <-. done.
Qed.

Lemma run_offsets_items (v : GuidMap.VarGuidMapTy) s run pool :
  Forall (fun e => let it := item_of (Instr := Value) (Some v) (e.2, default 0 (Instrument.hook_point_guid_map s !! e.1)) in
                   starts_pool it = pool_call e.1) run ->
  item_offsets pool (item_of (Instr := Value) (Some v) <$> Instrument.accesses s run) = run_offsets pool run.
Proof.
  intros Hrun. revert pool. induction Hrun as [|[i a] run Hi Hrun IH]; intros pool; [done|].
  unfold Instrument.accesses in *. cbn [fmap list_fmap item_offsets run_offsets fst snd] in *. cbv zeta in Hi. rewrite Hi.
  destruct (pool_call i); by rewrite IH.
Qed.

(** What the processed items say, item by item. *)
Lemma processed_run (vm : GuidMap.VarGuidMapTy) s run :
  (forall x, x ∈ run -> let g := default 0 (Instrument.hook_point_guid_map s !! x.1) in
     var (item_of (Instr := Value) (Some vm) (x.2, g)) = Instrument.describe lv x.1 g /\
     Instrument.describe lv x.1 g ≫= direct (M := Matcher.module_matcher debug_line mtext fs) = answer x.1) ->
  let its := item_of (Instr := Value) (Some vm) <$> Instrument.accesses s run in
  (fun it => (instr it, addr it, pool_offset it)) <$> (resolve (M := Matcher.module_matcher debug_line mtext fs) <$> imap (with_offset its) its) =
    zip_with (fun x o => (answer x.1, x.2, default 0 o)) run (item_offsets None its).
Proof.
  intros Hvar its. apply list_eq. intros i. rewrite !list_lookup_fmap, list_lookup_imap, lookup_zip_with.
  destruct (run !! i) as [x|] eqn:Hx; [|unfold its, Instrument.accesses; by rewrite !list_lookup_fmap, Hx].
  set (g := default 0 (Instrument.hook_point_guid_map s !! x.1)).
  assert (its !! i = Some (item_of (Some vm) (x.2, g))) as Hit by (unfold its, Instrument.accesses; by rewrite !list_lookup_fmap, Hx).
  destruct (with_offset_items its i _ ltac:(by apply Forall_fmap, Forall_true) Hit) as (o & Ho & Hoff). rewrite Hit, Ho. cbn [fmap option_fmap option_map mbind option_bind].
  destruct (Hvar x) as [Hv Hd]; [by eapply list_elem_of_lookup_2|]. fold g in Hv, Hd.
  set (it := with_offset its i (item_of (Some vm) (x.2, g))) in *.
  assert (var it = Instrument.describe lv x.1 g /\ addr it = x.2 /\ instr it = None) as (Hvi & Ha & Hn).
  { rewrite <- Hv. unfold it, with_offset. by destruct (assigned its i) as [[? ?]|]. }
  unfold resolve. rewrite Hvi, Hd. destruct (answer x.1) as [j|]; cbn [instr addr pool_offset set_instr]; by rewrite ?Hoff, ?Ha, ?Hn.
Qed.

Lemma live_trace_ok instrs ln run e segs :
  Instrument.guid_at (length instrs) < 2 ^ 32 ->
  Forall (Instrument.defined_target lv) instrs -> Forall (Instrument.describable lv) (Instrument.hooked lv [] instrs) ->
  Forall (fun x => x.1 ∈ Instrument.hooked lv [] instrs /\ 0 < x.2 < 2 ^ 64) run ->
  Tracker.mutex_ok e = true -> Tracker.fopen_ok e = true ->
  exists b s text vm,
    Instrument.instrument_list lv (Instrument.new_instrumenter false) instrs = Some (b, s) /\
    Instrument.writeGuidHookPointMap lv ln true s = Some (Some text) /\
    GuidMap.deserialize (Some text) [] false = (GuidMap.Returns true, vm) /\
    (Tracker.accesses (Tracker.start e) (concat segs) = Instrument.accesses s run ->
     ended (Tracker.run (Tracker.start e) (concat segs)) ->
     exists st, Monitor.polls vm (Monitor.initial new_trace) (Tracing.rounds (Tracker.start e) segs) = Some st /\
       let '(ok, t) := processing (Monitor.addr_trace st) in
       TraceType.typed t /\ ok = existsb (fun o => bool_decide (is_Some o)) (run_offsets None run) /\
       (ok = true -> (fun it => (instr it, addr it, pool_offset it)) <$> items t =
          zip_with (fun x o => (answer x.1, x.2, default 0 o)) run (run_offsets None run))).
Proof.
  intros Hlt Hdef Hdesc Hrun Hm Hf. set (L := Instrument.hooked lv [] instrs) in *.
  pose proof (Instrument.hooked_length lv [] instrs) as Hlen. fold L in Hlen. cbn in Hlen.
  destruct (Instrument.instrument_steps_ok lv [] false (Instrument.new_instrumenter false) instrs (Instrument.new_hooks lv) Hdef) as (b & s & Hs & Hi & _).
  { fold L. unfold Instrument.guid_at in *. lia. }
  fold L in Hi.
  destruct (Instrument.written_map lv L s ln Hi Hdesc) as (text & vm & Htext & Hvm & Hfind); [unfold Instrument.guid_at in *; lia|].
  exists b, s, text, vm. split; [exact Hs|]. split; [exact Htext|]. split; [exact Hvm|]. intros Hacc Hend.
  destruct (Instrument.run_accesses_ok lv L s run Hi) as [Hok Hnz]; [unfold Instrument.guid_at in *; lia|done|].
  destruct (Tracing.tracker_monitored_ok vm e segs (new_trace (Instr := Value)) Hm Hf) as (st & k & Hst & Htr & _ & _ & Hall); [by rewrite Hacc..|].
  exists st. split; [exact Hst|]. rewrite Htr.
  assert (take k (Tracker.accesses (Tracker.start e) (concat segs)) = Instrument.accesses s run) as ->
    by (rewrite <- Hacc; destruct (Tracker.run _ _); done).
  pose proof (processed_ok (M := Matcher.module_matcher debug_line mtext fs) vm (Instrument.accesses s run) eq_refl Hok) as Hpr. cbv zeta in Hpr.
  pose proof (process_typed (M := Matcher.module_matcher debug_line mtext fs) _ (trace_of_typed vm _ _ Hok TraceType.typed_new)) as Hty.
  assert (forall x, x ∈ run -> x.1 ∈ L) as HL by (intros x Hx; rewrite Forall_forall in Hrun; by apply Hrun).
  assert (item_offsets None (item_of (Instr := Value) (Some vm) <$> Instrument.accesses s run) = run_offsets None run) as Hoff.
  { apply run_offsets_items, Forall_forall. intros x Hx.
    destruct (Instrument.run_item lv debug_line mtext fs L s vm x Hi Hfind (HL x Hx)) as [Hv _].
    apply (item_starts_pool _ _ _ _ Hv). rewrite Forall_forall in Hdesc. destruct (Hdesc x.1 (HL x Hx)) as (d & Hd & _). by exists d. }
  destruct (processing _) as [ok t]. rewrite Hoff in Hpr. destruct Hpr as [Hok' Hitems].
  split; [exact Hty|]. split; [exact Hok'|]. intros Ht. rewrite (Hitems Ht), <- Hoff. apply processed_run. intros x Hx.
  apply (Instrument.run_item lv debug_line mtext fs L s vm x Hi Hfind (HL x Hx)).
Qed.

(** C5. The dynamic part from end to end.  Instructions, none of them a call of sfence and
    each with debug information where it gets a hook, are instrumented and the guid map
    is written; the program runs with the tracker, whose initialisation succeeds, and
    executes hooks on addresses that are not null; it is polled by the monitor, any
    number of times, with the file at rest between taking its size and reading it;
    and it ends, even with one of the handled signals.  Then the reactor processes the
    trace the monitor holds with its matcher.  Processing succeeds exactly when some
    access lies in a pool, and then the items are the hooks that were executed, in
    order, each with the address, the distance from the address of the last pool that
    was created or mapped before, and the answer of the matcher for the instruction
    behind which the hook was inserted.  That answer is a look-alike on the described
    line, there is one when the debug information in the module leads to the
    instruction, and it is the instruction itself when it has no other look-alike.  In
    any case the trace is well-typed. *)
Theorem live_trace_resolves instrs ln run e segs :
  Instrument.guid_at (length instrs) < 2 ^ 32 ->
  Forall (Instrument.defined_target lv) instrs -> Forall (Instrument.describable lv) (Instrument.hooked lv [] instrs) ->
  Forall (fun x => x.1 ∈ Instrument.hooked lv [] instrs /\ 0 < x.2 < 2 ^ 64) run ->
  Tracker.mutex_ok e = true -> Tracker.fopen_ok e = true ->
  exists b s text vm,
    Instrument.instrument_list lv (Instrument.new_instrumenter false) instrs = Some (b, s) /\
    Instrument.writeGuidHookPointMap lv ln true s = Some (Some text) /\
    GuidMap.deserialize (Some text) [] false = (GuidMap.Returns true, vm) /\
    (forall i, Instrument.identified lv debug_line mtext fs i) /\
    (Tracker.accesses (Tracker.start e) (concat segs) = Instrument.accesses s run ->
     ended (Tracker.run (Tracker.start e) (concat segs)) ->
     exists st, Monitor.polls vm (Monitor.initial new_trace) (Tracing.rounds (Tracker.start e) segs) = Some st /\
       let '(ok, t) := processing (Monitor.addr_trace st) in
       TraceType.typed t /\ ok = existsb (fun o => bool_decide (is_Some o)) (run_offsets None run) /\
       (ok = true -> (fun it => (instr it, addr it, pool_offset it)) <$> items t =
          zip_with (fun x o => (answer x.1, x.2, default 0 o)) run (run_offsets None run))).
Proof.
  intros. destruct (live_trace_ok instrs ln run e segs) as (b & s & text & vm & Hs & Htext & Hvm & Hlive); [done..|].
  exists b, s, text, vm. do 3 (split; [done|]). split; [apply Instrument.identified_ok|exact Hlive].
Qed.

End Pipeline.

(** ** Example

    Instruction 1 maps the pool, 0 is a load and 2 a cache flush; one of the loads is
    below the pool.  The process dies of SIGSEGV after the last access. *)
Definition ex_view : Instrument.llvm_view (Value := nat) :=
  Instrument.MkView Instrument.ex_opcode (fun i => Some (10 + Z.of_nat i)) (fun _ => Some (Instrument.MkSubprogram (lit "/src") (lit "a.c") 9))
    (fun _ => lit "main")
    (fun i => lit (if decide (i = 1%nat) then "%9 = call i8* @pmem_map_file(i8* %p), !dbg !4" else "%1 = load i8, i8* %2, !dbg !7")).

(** The module the reactor reads: 3 is on the line of 0 and looks different, 4 is on
    another one. *)
Definition ex_lines (i : nat) : option Z := Some (10 + Z.of_nat (if decide (i = 3%nat) then 0 else i)).
Definition ex_texts (i : nat) : chars :=
  lit (match i with
       | 1%nat => "  %2 = call i8* @pmem_map_file(i8* %p), !dbg !3"
       | 3%nat => "  %5 = load i64, i64* %4, !dbg !7"
       | _ => "  %5 = load i8, i8* %4, !dbg !7"
       end).
Definition ex_main : Matcher.Function_ nat :=
  Matcher.MkFunction (lit "main") false (Some (Matcher.MkSubprogram (lit "/src") (lit "a.c") 9 (lit "main") [])) [[1; 0; 3]%nat; [4; 2]%nat].

Definition ex_run : list (nat * Z) := [(1%nat, 4096); (0%nat, 4100); (0%nat, 4000); (2%nat, 4104)].
Definition ex_segs : list (list Tracker.event) :=
  [[Tracker.Access 4096 202; Tracker.Access 4100 200; Tracker.WriteBack 5]; [Tracker.Background];
   [Tracker.Access 4000 200; Tracker.Access 4104 201; Tracker.Signal 11]].

Lemma live_trace_resolves_witness :
  exists t, (fun it => (instr it, addr it, pool_offset it)) <$> items t =
    [(Some 1%nat, 4096, 0); (Some 0%nat, 4100, 4); (Some 0%nat, 4000, 0); (Some 2%nat, 4104, 8)].
Proof.
  destruct (live_trace_resolves ex_view ex_lines ex_texts [ex_main] [0; 5; 2; 0; 1]%nat 0 ex_run Tracker.ex_system ex_segs) as (b & s & text & vm & Hs & _ & _ & _ & H).
  - reflexivity.
  - repeat constructor; intros pool; vm_compute; discriminate.
  - change (Instrument.hooked ex_view [] [0; 5; 2; 0; 1]%nat) with [0; 2; 1]%nat.
    repeat constructor; eexists; (split; [reflexivity|apply (bool_decide_unpack _); vm_compute; reflexivity]).
  - change (Instrument.hooked ex_view [] [0; 5; 2; 0; 1]%nat) with [0; 2; 1]%nat. apply (bool_decide_unpack _). vm_compute. reflexivity.
  - reflexivity.
  - reflexivity.
  - destruct H as (st & _ & Hproc).
    + vm_compute in Hs. injection Hs as _ <-. vm_compute. reflexivity.
    + vm_compute. exact I.
    + destruct (Concurrency.TraceReady.process_trace _) as [ok t]. destruct Hproc as (_ & Hok & Hitems).
      exists t. rewrite Hitems; [vm_compute; reflexivity|rewrite Hok; vm_compute; reflexivity].
Defined.

End Pipeline.
