(* ===== verification/Prepare.v ===== *)
(** * Preparing a reaction (reactor/lib/core.cpp, analyzer/lib/Slicing/SliceCriteria.cpp)

    Locating the fault instruction from its description, parsing the slicing
    criteria of the tools, and [Reactor::prepare], which loads all inputs. *)
From stdpp Require Import base list strings.
From Stdlib Require Import Ascii.
From S2P Require Import Prelude Strings Path GuidMap Tracker AddrTrace Matcher Options LogCreation Concurrency.
Import Strings.

Module Prepare.

Section Instructions.
Context {Instr : Type} (debug_line : Instr -> option Z) (print : Instr -> chars).
Context (fs : list (Matcher.Function_ Instr)).

(** ** The fault instruction *)

Definition count (c : ascii) (s : chars) : nat := length (filter (fun x => x = c) s).

(** The result of [fromCriterionStr] is not looked at: when it fails the line is not
    initialised.  The result is the instruction found and whether it is exact. *)
Definition locate_fault_instr (processed : bool) (garbage_line : Z) (fault_loc inst_str : chars) : option (option Instr * bool) :=
  if negb processed then Some (None, false)
  else
    let n := count ":" fault_loc in
    let fileLine s := default (Matcher.MkFileLine [] garbage_line) (Matcher.fromCriterionStr s) in
    if decide (n = 1%nat) then Matcher.matchInstr debug_line print fs (fileLine fault_loc) inst_str true true
    else if decide (n = 2%nat) then
      s ← substr fault_loc 0 (rfind ":" fault_loc);
      Matcher.matchInstr debug_line print fs (fileLine s) inst_str true true
    else Some (None, false).

(** ** Slicing criteria *)

Record SliceInstCriteriaOpt := MkCriteria {
  file_lines : chars;
  inst : chars;
  func : chars;
  inst_no : Z;
  fuzzy_match : bool;
  ignore_dbg : bool
}.

(** The instructions for the result of one criterion. *)
Definition add_result (inst_str : chars) (opt : SliceInstCriteriaOpt) (acc : bool * list Instr) (result : Matcher.MatchResult Instr)
  : bool * list Instr :=
  if decide (inst_str = []) then (true, acc.2 ++ Matcher.instrs result)
  else match (Matcher.matchInstr_candidates print (Matcher.instrs result) inst_str (fuzzy_match opt) (ignore_dbg opt)).1 with
       | Some instr => (true, acc.2 ++ [instr])
       | None => acc
       end.

(** The loop over the instructions of a function. *)
Fixpoint inst_loop (inst_str : chars) (opt : SliceInstCriteriaOpt) (no : Z) (l : list Instr) (match_insts : list Instr)
  : bool * list Instr :=
  match l with
  | [] => (false, match_insts)
  | instr :: l' =>
    let no := s32 (no + 1) in
    if decide (inst_no opt > 0) then
      if decide (inst_no opt = no) then (true, match_insts ++ [instr]) else inst_loop inst_str opt no l' match_insts
    else if decide (inst_str = trim (print instr)) then (true, match_insts ++ [instr])
    else inst_loop inst_str opt no l' match_insts
  end.

Definition parseSlicingCriteriaOpt (opt : SliceInstCriteriaOpt) (match_insts : list Instr) : option (bool * list Instr) :=
  let inst_str := if decide (inst opt = []) then [] else trim (inst opt) in
  if decide (file_lines opt <> []) then
    let '(fileLines, ok) := Matcher.fromCriteriaStr (file_lines opt) [] in
    if negb ok || bool_decide (fileLines = []) then Some (false, match_insts)
    else
      matchResults ← Matcher.matchInstrsCriteria debug_line fs fileLines;
      Some (foldl (add_result inst_str opt) (false, match_insts) matchResults)
  else if decide (func opt = []) then Some (false, match_insts)
  else if decide (inst_str = [] \/ inst_no opt <= 0) then Some (false, match_insts)
  else match head (filter (fun F => Matcher.isDeclaration F = false /\ Matcher.fn_name F = func opt) fs) with
       | None => Some (false, match_insts)
       | Some F => Some (inst_loop inst_str opt 0 (Matcher.instructions F) match_insts)
       end.

(** ** Locations *)

Lemma count_app c s1 s2 : count c (s1 ++ s2) = (count c s1 + count c s2)%nat.
Proof. unfold count. by rewrite filter_app, length_app. Qed.

Lemma count_free c s : c ∉ s -> count c s = 0%nat.
Proof.
  intros Hc. unfold count. destruct (filter (fun x => x = c) s) as [|x l] eqn:E; [done|].
  assert (x ∈ filter (fun x => x = c) s) as [-> Hx]%list_elem_of_filter by (rewrite E; by left). done.
Qed.

Lemma count_pieces c s : length (pieces c s) = S (count c s).
Proof.
  rewrite <- (join_pieces c s) at 2. pose proof (pieces_free c s) as Hfree. pose proof (pieces_ne c s) as Hne.
  induction (pieces c s) as [|p ps IH]; [done|]. destruct (decide (ps = [])) as [->|Hps].
  { cbn [join length]. rewrite count_free; [done|]. apply Hfree. by left. }
  rewrite join_cons, !count_app by done. cbn [length]. rewrite IH by (try done; intros q Hq; apply Hfree; by right).
  rewrite (count_free c p) by (apply Hfree; by left). assert (count c [c] = 1%nat) as -> by (unfold count; by rewrite filter_cons_True). done.
Qed.

Lemma fromCriterionStr_two f l : ":"%char ∉ f -> ":"%char ∉ l ->
  Matcher.fromCriterionStr (f ++ ":"%char :: l) = Some (Matcher.MkFileLine f (u32 (Matcher.atoi l))).
Proof.
  intros Hf Hl. unfold Matcher.fromCriterionStr. rewrite splitList_ok by (by destruct f).
  rewrite pieces_app by done. rewrite pieces_no_sep by done. done.
Qed.

(** The location of the fault instruction is [file:line], optionally followed by a
    third part, which is not used; the line is the number the second part starts
    with.  For anything else no instruction is found; an uninitialised line is never
    used, although the result of parsing is ignored. *)
Theorem locate_fault_instr_correct garbage_line fault_loc inst_str :
  locate_fault_instr true garbage_line fault_loc inst_str =
    match pieces ":" fault_loc with
    | [f; l] | [f; l; _] => Matcher.matchInstr debug_line print fs (Matcher.MkFileLine f (u32 (Matcher.atoi l))) inst_str true true
    | _ => Some (None, false)
    end.
Proof.
  unfold locate_fault_instr. cbn [negb]. pose proof (count_pieces ":" fault_loc) as Hn. pose proof (pieces_free ":" fault_loc) as Hfree.
  pose proof (join_pieces ":" fault_loc) as Hj.
  destruct (pieces ":" fault_loc) as [|f [|l [|x [|y ps]]]]; cbn [length] in Hn; try (rewrite !decide_False by lia; done).
  - rewrite decide_True by lia. rewrite <- Hj. cbn [join app]. rewrite fromCriterionStr_two by (apply Hfree; set_solver). done.
  - rewrite decide_False, decide_True by lia. rewrite <- Hj. cbn [join]. cbn [app].
    assert (f ++ ":"%char :: l ++ ":"%char :: x = (f ++ ":"%char :: l) ++ ":"%char :: x) as -> by (by rewrite <- app_assoc).
    rewrite rfind_last by (apply Hfree; set_solver). unfold substr. rewrite decide_True by lia. cbn [drop mbind option_bind].
    rewrite ?drop_0, take_app_length. rewrite fromCriterionStr_two by (apply Hfree; set_solver). done.
Qed.

(** ** Criteria *)

Lemma criteria_in_length F cs rs rs' :
  length cs = length rs -> Matcher.criteria_in debug_line F cs rs = Some rs' -> length rs' = length rs.
Proof.
  revert rs rs'. induction cs as [|c cs IH]; intros [|r rs] rs' Hl H; try done; [by injection H as <-|].
  cbn [Matcher.criteria_in] in H. apply bind_Some in H as (r' & _ & H). apply bind_Some in H as (rs1 & H1 & H). injection H as <-.
  cbn [length] in *. f_equal. apply IH; [lia|done].
Qed.

Lemma matchInstrsCriteria_length cs rs : Matcher.matchInstrsCriteria debug_line fs cs = Some rs -> length rs = length cs.
Proof.
  unfold Matcher.matchInstrsCriteria.
  enough (forall r0, length r0 = length cs -> Matcher.criteria_functions debug_line fs cs r0 = Some rs -> length rs = length cs) as Hen
    by (apply Hen, length_replicate).
  induction fs as [|F l IH]; intros r0 Hl H; cbn [Matcher.criteria_functions] in H; [by injection H as <-|].
  destruct (Matcher.skipFunction F); [by eapply IH|]. apply bind_Some in H as (r1 & H1 & H).
  assert (length r1 = length cs) as Hl1 by (rewrite <- Hl; by eapply criteria_in_length).
  destruct (forallb _ r1); [by injection H as <-|by eapply IH].
Qed.

(** The instruction of the result of a criterion that has the text. *)
Definition picked (inst_str : chars) (opt : SliceInstCriteriaOpt) (result : Matcher.MatchResult Instr) : option Instr :=
  (Matcher.matchInstr_candidates print (Matcher.instrs result) inst_str (fuzzy_match opt) (ignore_dbg opt)).1.

Lemma add_results_ok inst_str opt rs b mi :
  foldl (add_result inst_str opt) (b, mi) rs =
    if decide (inst_str = []) then (b || bool_decide (rs <> []), mi ++ (rs ≫= Matcher.instrs))
    else (b || bool_decide (omap (picked inst_str opt) rs <> []), mi ++ omap (picked inst_str opt) rs).
Proof.
  revert b mi. induction rs as [|r rs IH]; intros b mi; cbn [foldl].
  { case_decide; cbn; by rewrite orb_false_r, app_nil_r. }
  unfold add_result at 2. fold (picked inst_str opt r). destruct (decide (inst_str = [])) as [Hnil|Hne].
  - rewrite IH. cbn [snd]. destruct (decide (inst_str = [])) as [_|?]; [|done]. rewrite orb_true_r. cbn [mbind list_bind]. by rewrite <- app_assoc.
  - assert (omap (picked inst_str opt) (r :: rs) =
      match picked inst_str opt r with Some i => i :: omap (picked inst_str opt) rs | None => omap (picked inst_str opt) rs end) as -> by done.
    destruct (picked inst_str opt r); rewrite IH; (destruct (decide (inst_str = [])) as [?|_]; [done|]); [|done].
    cbn [snd orb]. rewrite orb_true_r. by rewrite <- app_assoc.
Qed.

Lemma inst_loop_ok inst_str opt no l mi :
  0 < inst_no opt -> 0 <= no -> no + Z.of_nat (length l) < 2 ^ 31 -> no < inst_no opt ->
  inst_loop inst_str opt no l mi =
    match l !! Z.to_nat (inst_no opt - no - 1) with Some i => (true, mi ++ [i]) | None => (false, mi) end.
Proof.
  revert no. induction l as [|i l IH]; intros no Hpos Hno Hlen Hlt; cbn [inst_loop length] in *; [done|].
  small. rewrite decide_True by lia. case_decide as Hd.
  - assert (Z.to_nat (inst_no opt - no - 1) = 0%nat) as -> by lia. done.
  - rewrite IH by lia. assert (Z.to_nat (inst_no opt - no - 1) = S (Z.to_nat (inst_no opt - (no + 1) - 1))) as -> by lia. done.
Qed.

(** The instructions [parseSlicingCriteriaOpt] selects.  For file lines without a
    text, all instructions of the lines, and it reports success even when there are
    none; with a text, for each line the instruction picked for the text, and
    success when there is one.  For a function, the instruction of that number; a
    text has to be given, but is not looked at. *)
Theorem parseSlicingCriteriaOpt_selects opt mi :
  let inst_str := trim (inst opt) in
  (file_lines opt <> [] -> forall ls rs, Matcher.fromCriteriaStr (file_lines opt) [] = (ls, true) -> ls <> [] ->
     Matcher.matchInstrsCriteria debug_line fs ls = Some rs ->
     parseSlicingCriteriaOpt opt mi =
       Some (if decide (inst_str = []) then (true, mi ++ (rs ≫= Matcher.instrs))
             else (bool_decide (omap (picked inst_str opt) rs <> []), mi ++ omap (picked inst_str opt) rs))) /\
  (file_lines opt = [] -> func opt <> [] -> inst_str <> [] -> 0 < inst_no opt ->
     forall F, head (filter (fun F => Matcher.isDeclaration F = false /\ Matcher.fn_name F = func opt) fs) = Some F ->
     Z.of_nat (length (Matcher.instructions F)) < 2 ^ 31 ->
     parseSlicingCriteriaOpt opt mi =
       Some (match Matcher.instructions F !! Z.to_nat (inst_no opt - 1) with Some i => (true, mi ++ [i]) | None => (false, mi) end)).
Proof.
  intros inst_str. assert ((if decide (inst opt = []) then [] else trim (inst opt)) = inst_str) as Hi.
  { unfold inst_str. case_decide as Hd; [by rewrite Hd|done]. }
  unfold parseSlicingCriteriaOpt. rewrite Hi. split.
  - intros Hfl ls rs Hls Hne Hrs. rewrite decide_True, Hls by done. cbn [negb orb]. rewrite bool_decide_eq_false_2 by done.
    rewrite Hrs. simpl_bind. rewrite add_results_ok. cbn [orb].
    rewrite (bool_decide_eq_true_2 (rs <> [])); [done|]. intros ->. apply matchInstrsCriteria_length in Hrs. by destruct ls.
  - intros Hfl Hf Hne Hno F HF Hlen. rewrite decide_False by tauto. rewrite decide_False by done.
    rewrite decide_False by (intros [?|?]; [done|lia]). rewrite HF. f_equal.
    rewrite inst_loop_ok by lia. by rewrite Z.sub_0_r.
Qed.

End Instructions.

(** ** [Reactor::prepare] *)
Section Prepare.
Context {Instr : Type} (debug_line : Instr -> option Z) (print : Instr -> chars).

(** How a call ends: it returns, the process exits after the usage was shown, an
    exception of the parsers escapes, or a null pointer is used. *)
Inductive prepared := Returns (b : bool) | Exits | Throws | Undefined.

#[local] Instance prepared_eq_dec : EqDecision prepared.
Proof. solve_decision. Defined.

Record ReactorState := MkState {
  server_mode : bool;
  ready : bool;
  options : Options.reactor_options;
  sys_module : list (Matcher.Function_ Instr);
  var_map : GuidMap.VarGuidMapTy;
  addr_trace : AddrTrace.PmemAddrTrace (Instr := Instr);
  has_slicer : bool
}.

Definition new_state : ReactorState := MkState false false Options.zero_options [] [] AddrTrace.new_trace false.

Definition set_checkpoint_file (o : Options.reactor_options) (v : option string) : Options.reactor_options :=
  Options.ReactorOptions (Options.address_file o) v (Options.pmem_file o) (Options.pmem_layout o) (Options.pmem_library o)
    (Options.hook_guid_file o) (Options.reexecute_cmd o) (Options.arckpt o) (Options.batch_threshold o) (Options.version_num o)
    (Options.fault_instr o) (Options.fault_loc o) (Options.bc_file o) (Options.dg_opts o).

(** The file system, and LLVM's parser of bitcode files. *)
Context (exists_file : string -> bool) (read_file : string -> option chars).
Context (parseModule : string -> option (list (Matcher.Function_ Instr))).

(** Step 2, not in the server mode. *)
Definition load_trace (s : ReactorState) : prepared * ReactorState :=
  let with_trace t := MkState (server_mode s) (ready s) (options s) (sys_module s) (var_map s) t (has_slicer s) in
  match Options.address_file (options s) with
  | None => (Undefined, s)
  | Some f =>
    match AddrTrace.deserialize (read_file f) (Some (var_map s)) (addr_trace s) with
    | (GuidMap.Throws, t) => (Throws, with_trace t)
    | (GuidMap.Returns false, t) => (Returns false, with_trace t)
    | (GuidMap.Returns true, t) =>
      if decide (AddrTrace.pool_addrs t = []) then (Returns false, with_trace t)
      else
        let '(ok, t1) := AddrTrace.calculatePoolOffsets t in
        if ok then
          let '(ok2, t2) := AddrTrace.addressesToInstructions (M := Matcher.module_matcher debug_line print (sys_module s)) t1 in
          (Returns ok2, with_trace t2)
        else (Returns false, with_trace t1)
    end
  end.

Definition prepare (results : list Options.opt_result) (server : bool) (s : ReactorState) : prepared * ReactorState :=
  match Options.parse_options exists_file results with
  | Options.PExit => (Exits, s)
  | Options.PFalse => (Returns false, s)
  | Options.PTrue o =>
    let s1 := MkState server (ready s) o (sys_module s) (var_map s) (addr_trace s) (has_slicer s) in
    if negb server && (bool_decide (Options.fault_instr o = ""%string) || bool_decide (Options.fault_loc o = ""%string))
    then (Returns false, s1)
    else
      let o1 := match Options.pmem_library o with Some l => set_checkpoint_file o (LogCreation.get_checkpoint_file l) | None => o end in
      let s2 := MkState server (ready s) o1 (sys_module s) (var_map s) (addr_trace s) (has_slicer s) in
      if bool_decide (is_Some (Options.pmem_library o)) && bool_decide (Options.checkpoint_file o1 = None) then (Returns false, s2)
      else match Options.hook_guid_file o1 with
      | None => (Returns false, s2)
      | Some guid_file =>
        match parseModule (Options.bc_file o1) with
        | None => (Undefined, s2)
        | Some fs =>
          let '(r, vm) := GuidMap.deserialize (read_file guid_file) (var_map s) false in
          let s3 := MkState server (ready s) o1 fs vm (addr_trace s) (has_slicer s) in
          match r with
          | GuidMap.Throws => (Throws, s3)
          | GuidMap.Returns false => (Returns false, s3)
          | GuidMap.Returns true =>
            let '(r2, s4) := if server then (Returns true, s3) else load_trace s3 in
            match r2 with
            | Returns true => (Returns true, MkState server true o1 fs (var_map s4) (addr_trace s4) true)
            | _ => (r2, s4)
            end
          end
        end
      end
  end.

Lemma parse_options_library o results :
  Options.parse_options exists_file results = Options.PTrue o -> is_Some (Options.pmem_library o).
Proof.
  unfold Options.parse_options. destruct (mfold _ _ results) as [[f o0]|]; [|done]. destruct (Options.f_show_help f); [done|].
  set (o1 := Options.set_dg_opts _ _). set (o2 := match Options.pmem_library o1 with Some _ => o1 | None => _ end).
  assert (is_Some (Options.pmem_library o2)) as H.
  { unfold o2. destruct (Options.pmem_library o1) as [l|] eqn:E; [rewrite E; by eexists|by eexists]. }
  destruct (Options.f_skip_check f); [by intros [= <-]|]. destruct (Options.check_options _ _); [by intros [= <-]|done].
Qed.

Lemma load_trace_ok s r s' :
  load_trace s = (r, s') ->
  (exists t, s' = MkState (server_mode s) (ready s) (options s) (sys_module s) (var_map s) t (has_slicer s)) /\
  (r = Returns true -> exists f t, Options.address_file (options s) = Some f /\
     AddrTrace.deserialize (read_file f) (Some (var_map s)) (addr_trace s) = (GuidMap.Returns true, t) /\
     Concurrency.TraceReady.process_trace (M := Matcher.module_matcher debug_line print (sys_module s)) t = (true, addr_trace s')).
Proof.
  unfold load_trace, Concurrency.TraceReady.process_trace. destruct (Options.address_file (options s)) as [f|]; [|by intros [= <- <-]; split; [exists (addr_trace s); by destruct s|]].
  destruct (AddrTrace.deserialize _ _ _) as [[[]|] t] eqn:Hd; [|by intros [= <- <-]; split; [eexists|]..].
  case_decide as Hp; [by intros [= <- <-]; split; [eexists|]|].
  destruct (AddrTrace.calculatePoolOffsets t) as [[] t1] eqn:Ho; [|by intros [= <- <-]; split; [eexists|]].
  destruct (AddrTrace.addressesToInstructions t1) as [ok2 t2] eqn:Hi. intros [= <- <-]. split; [by eexists|]. intros [= ->].
  exists f, t. split; [done|]. split; [done|]. destruct (AddrTrace.pool_addrs t); [done|]. by rewrite Ho.
Qed.

Lemma prepare_ready_ok results server :
  let '(r, s) := prepare results server new_state in
  (ready s = true <-> r = Returns true) /\
  (r = Returns true -> exists o l guid_file, Options.parse_options exists_file results = Options.PTrue o /\
     Options.pmem_library o = Some l /\ is_Some (LogCreation.get_checkpoint_file l) /\
     options s = set_checkpoint_file o (LogCreation.get_checkpoint_file l) /\
     parseModule (Options.bc_file o) = Some (sys_module s) /\ Options.hook_guid_file o = Some guid_file /\
     GuidMap.deserialize (read_file guid_file) [] false = (GuidMap.Returns true, var_map s) /\
     if server then addr_trace s = AddrTrace.new_trace
     else Options.fault_instr o <> ""%string /\ Options.fault_loc o <> ""%string /\
       exists f t, Options.address_file o = Some f /\
         AddrTrace.deserialize (read_file f) (Some (var_map s)) AddrTrace.new_trace = (GuidMap.Returns true, t) /\
         Concurrency.TraceReady.process_trace (M := Matcher.module_matcher debug_line print (sys_module s)) t = (true, addr_trace s)).
Proof.
  destruct (prepare results server new_state) as [r s] eqn:Hp. revert Hp. unfold prepare.
  destruct (Options.parse_options exists_file results) as [| |o] eqn:Ho; [by intros [= <- <-]..|].
  destruct (parse_options_library o results Ho) as [l Hl]. rewrite Hl. cbn [is_Some].
  destruct (negb server && _) eqn:Hs; [by intros [= <- <-]|]. rewrite (bool_decide_eq_true_2 (is_Some (Some l))) by done. cbn [andb].
  change (Options.checkpoint_file (set_checkpoint_file o (LogCreation.get_checkpoint_file l))) with (LogCreation.get_checkpoint_file l).
  change (Options.hook_guid_file (set_checkpoint_file o (LogCreation.get_checkpoint_file l))) with (Options.hook_guid_file o).
  change (Options.bc_file (set_checkpoint_file o (LogCreation.get_checkpoint_file l))) with (Options.bc_file o).
  destruct (LogCreation.get_checkpoint_file l) as [cf|] eqn:Hcf; [|by intros [= <- <-]].
  rewrite bool_decide_eq_false_2 by done.
  destruct (Options.hook_guid_file o) as [gf|] eqn:Hg; [|by intros [= <- <-]].
  destruct (parseModule (Options.bc_file o)) as [fs|] eqn:Hm; [|by intros [= <- <-]].
  cbn [var_map new_state].
  destruct (GuidMap.deserialize (read_file gf) [] false) as [[[]|] vm] eqn:Hd; [|by intros [= <- <-]..].
  set (s3 := MkState _ _ _ _ _ _ _).
  destruct server.
  { intros [= <- <-]. split; [done|]. intros _. exists o, l, gf. by rewrite Hcf. }
  destruct (load_trace s3) as [r2 s4] eqn:Hlt. apply load_trace_ok in Hlt as [[t Hs4] Hok].
  destruct (decide (r2 = Returns true)) as [->|Hr2].
  - intros [= <- <-]. split; [done|]. intros _. destruct (Hok eq_refl) as (f & t0 & Hf & Ht & Hpt).
    exists o, l, gf. rewrite Hcf. subst s4. cbn [options sys_module var_map addr_trace] in *. repeat (split; [done|]).
    apply orb_false_iff in Hs as [H1%bool_decide_eq_false H2%bool_decide_eq_false].
    split; [done|]. split; [done|]. by exists f, t0.
  - assert (ready s4 = false) as Hr by (by rewrite Hs4).
    intros Hp. assert ((r2, s4) = (r, s)) as [= <- <-] by (by destruct r2 as [[]| | |]). split; [|done]. by rewrite Hr.
Qed.

(** C24. [prepare] makes the reactor ready exactly when it returns true.  Then the
    options are those that were parsed, with the checkpoint file of their library,
    the guid file was read into the map; the stand-alone reactor has the fault
    instruction given, and its address trace is what was read, processed as the
    server does it later; the server has no trace yet. *)
Theorem prepare_ready results server :
  let '(r, s) := prepare results server new_state in
  (ready s = true <-> r = Returns true) /\
  (r = Returns true -> exists o l guid_file, Options.parse_options exists_file results = Options.PTrue o /\
     Options.pmem_library o = Some l /\ is_Some (LogCreation.get_checkpoint_file l) /\
     options s = set_checkpoint_file o (LogCreation.get_checkpoint_file l) /\
     parseModule (Options.bc_file o) = Some (sys_module s) /\ Options.hook_guid_file o = Some guid_file /\
     GuidMap.deserialize (read_file guid_file) [] false = (GuidMap.Returns true, var_map s) /\
     if server then addr_trace s = AddrTrace.new_trace
     else Options.fault_instr o <> ""%string /\ Options.fault_loc o <> ""%string /\
       exists f t, Options.address_file o = Some f /\
         AddrTrace.deserialize (read_file f) (Some (var_map s)) AddrTrace.new_trace = (GuidMap.Returns true, t) /\
         Concurrency.TraceReady.process_trace (M := Matcher.module_matcher debug_line print (sys_module s)) t = (true, addr_trace s)).
Proof. apply prepare_ready_ok. Qed.

End Prepare.

(** A stand-alone reactor for a function of two instructions, with two hooks of which
    the first is the creation of the pool. *)
Definition ex_module : list (Matcher.Function_ (Z * string)) :=
  [Matcher.MkFunction (lit "main") false (Some (Matcher.MkSubprogram [] (lit "a.c") 4 (lit "main") []))
    [[(5, "%9 = call i8* @pmem_map_file(i8* %p)"%string); (6, "store i32 %x, i32* %p"%string)]]].

Definition ex_read (f : string) : option chars :=
  if decide (f = "guids"%string) then GuidMap.serialize true AddrTrace.ex_varMap
  else Some (Tracker.trace_file [(4096, 1); (4104, 2)]).

Definition ex_parse (f : string) : option (list (Matcher.Function_ (Z * string))) :=
  if decide (f = "prog.bc"%string) then Some ex_module else None.

Definition ex_results : list Options.opt_result :=
  Options.ex_results ++ [Options.Opt "a" "trace"; Options.Opt "i" "ret void"; Options.Opt "c" "a.c:6"].

Definition ex_prepare := prepare (fun i => Some i.1) (fun i => lit i.2) (fun _ => true) ex_read ex_parse ex_results false new_state.

Lemma ex_prepare_returns : ex_prepare.1 = Returns true.
Proof. vm_compute. reflexivity. Qed.

Lemma ex_prepare_trace :
  Options.checkpoint_file (options ex_prepare.2) = Some "/mnt/pmem/pmem_checkpoint.pm"%string /\
  AddrTrace.instr <$> AddrTrace.items (addr_trace ex_prepare.2) =
    [Some (5, "%9 = call i8* @pmem_map_file(i8* %p)"%string); Some (6, "store i32 %x, i32* %p"%string)] /\
  AddrTrace.pool_offset <$> AddrTrace.items (addr_trace ex_prepare.2) = [0; 8].
Proof. split; [|split]; vm_compute; reflexivity. Qed.

Lemma prepare_ready_witness :
  ready ex_prepare.2 = true /\ AddrTrace.pool_offset <$> AddrTrace.items (addr_trace ex_prepare.2) = [0; 8].
Proof.
  pose proof ex_prepare_returns as Hr. pose proof ex_prepare_trace as (_ & _ & Ht). split; [clear Ht|exact Ht].
  revert Hr. unfold ex_prepare.
  pose proof (prepare_ready (fun i => Some i.1) (fun i => lit i.2) (fun _ => true) ex_read ex_parse ex_results false) as H.
  destruct (prepare _ _ _ _ _ _ _ _) as [r s]. exact (proj2 (proj1 H)).
Defined.

Definition ex_line_criteria : SliceInstCriteriaOpt := MkCriteria (lit "a.c:6") (lit " store i32 %x, i32* %p") [] 0 true true.
Definition ex_function_criteria : SliceInstCriteriaOpt := MkCriteria [] (lit "anything") (lit "main") 2 true true.

Lemma parseSlicingCriteriaOpt_selects_witness :
  parseSlicingCriteriaOpt (fun i => Some i.1) (fun i => lit i.2) ex_module ex_line_criteria [] =
    Some (true, [(6, "store i32 %x, i32* %p"%string)]) /\
  parseSlicingCriteriaOpt (fun i => Some i.1) (fun i => lit i.2) ex_module ex_function_criteria [] =
    Some (true, [(6, "store i32 %x, i32* %p"%string)]).
Proof.
  split.
  - destruct (parseSlicingCriteriaOpt_selects (fun i => Some i.1) (fun i => lit i.2) ex_module ex_line_criteria []) as [H _].
    erewrite (H ltac:(discriminate) [Matcher.MkFileLine (lit "a.c") 6] _ eq_refl ltac:(discriminate) eq_refl). vm_compute. reflexivity.
  - destruct (parseSlicingCriteriaOpt_selects (fun i => Some i.1) (fun i => lit i.2) ex_module ex_function_criteria []) as [_ H].
    rewrite (H eq_refl ltac:(discriminate) ltac:(discriminate) eq_refl (Matcher.MkFunction (lit "main") false (Some (Matcher.MkSubprogram [] (lit "a.c") 4 (lit "main") []))
      [[(5, "%9 = call i8* @pmem_map_file(i8* %p)"%string); (6, "store i32 %x, i32* %p"%string)]]) eq_refl eq_refl). reflexivity.
Defined.

End Prepare.
