(* ===== verification/Service.v ===== *)
(** * The reactor as a service (reactor/tools/{server,client,main}.cpp)

    The server prepares the reactor, starts the monitor of the address trace and
    computes the dependences in a background thread, while requests may arrive at
    any time; the client sends one request and shows the reply.  The gRPC library
    appears as the outcome of a call. *)
From stdpp Require Import base list gmap strings.
From Stdlib Require Import Ascii.
From S2P Require Import Prelude Strings AddrTrace Matcher Options Concurrency ReExecute Checkpoint BinaryReversion.
From S2P Require Import Rollback LogCreation SliceFault SliceOrder SliceGraph Slice DgWalk Slicer React Prepare.
Import Strings.

Module Service.

(** ** Messages (reactor.proto) *)

Record ReactReply := MkReply { success : bool; tries : Z }.

(** The states of a call that the server answers with. *)
Inductive Status := OK | CANCELLED.

(** ** The server *)
Module Server.
Import Concurrency.TraceReady.
Section Server.
Context {Instr : Type} `{M : !AddrTrace.Matcher Instr}.

(** Program points of [do_background_job]. *)
Inductive background_pc :=
  | Preparing       (* in [prepare] *)
  | Prepared        (* before [ready = true] *)
  | Announced       (* before the monitor thread is started *)
  | Computing       (* in [compute_dependencies] *)
  | AwaitingTrace   (* in [wait_address_trace_ready] *)
  | Returned
  | Exited.         (* [exit(1)], which ends the process *)

(** Program points of [react], the handler of a request. *)
Inductive request_pc :=
  | Waiting         (* in [wait_address_trace_ready] *)
  | Checking        (* before [if (!ready)] *)
  | Reacting        (* in [Reactor::react] *)
  | Replied (st : Status) (r : ReactReply).

(** [reactor_ready] is the flag of [ReactorState], [ready] that of the service.
    Thread 0 of [waits] is the background thread, thread [i + 1] that of request [i]. *)
Record server_state := MkServer {
  background : background_pc;
  reactor_ready : bool;
  ready : bool;
  monitoring : bool;
  waits : wait_state (Instr := Instr);
  requests : list request_pc
}.

Definition start (t : AddrTrace.PmemAddrTrace (Instr := Instr)) (n : nat) : server_state :=
  MkServer Preparing false false false (initial t (S n)) (replicate n Waiting).

Definition at_background (s : server_state) (p : background_pc) : server_state :=
  MkServer p (reactor_ready s) (ready s) (monitoring s) (waits s) (requests s).
Definition at_request (s : server_state) (i : nat) (p : request_pc) : server_state :=
  MkServer (background s) (reactor_ready s) (ready s) (monitoring s) (waits s) (<[i := p]> (requests s)).

(** What a thread may do in the shared part: the background thread waits only when
    it gets there, and the monitor runs only when it has been started. *)
Definition may_step (s : server_state) (a : actor) : Prop :=
  match a with
  | Request 0 => background s = AwaitingTrace
  | Request (S _) => True
  | TraceMonitor => monitoring s = true
  end.

(** The reply of a reaction; [trials] is what the result of [react] holds. *)
Definition reply_to (reacted : bool) (trials : Z) : ReactReply :=
  if reacted then MkReply true (s32 trials) else MkReply false 0.

(** A reactor that is not ready does not react; otherwise the result is not
    determined. *)
Inductive server_step (s : server_state) : server_state -> Prop :=
  | step_prepare_fails : background s = Preparing -> server_step s (at_background s Exited)
  | step_prepare : background s = Preparing ->
      server_step s (MkServer Prepared true (ready s) (monitoring s) (waits s) (requests s))
  | step_announce : background s = Prepared ->
      server_step s (MkServer Announced (reactor_ready s) true (monitoring s) (waits s) (requests s))
  | step_monitor : background s = Announced ->
      server_step s (MkServer Computing (reactor_ready s) (ready s) true (waits s) (requests s))
  | step_compute : background s = Computing -> server_step s (at_background s AwaitingTrace)
  | step_wait a w : background s <> Exited -> may_step s a -> wait_step (waits s) a w ->
      server_step s (MkServer (background s) (reactor_ready s) (ready s) (monitoring s) w (requests s))
  | step_background_waited b : background s = AwaitingTrace -> threads (waits s) !! 0%nat = Some (Done b) ->
      server_step s (at_background s Returned)
  | step_waited i b : background s <> Exited -> requests s !! i = Some Waiting ->
      threads (waits s) !! S i = Some (Done b) -> server_step s (at_request s i Checking)
  | step_check i : background s <> Exited -> requests s !! i = Some Checking ->
      server_step s (at_request s i (if ready s then Reacting else Replied CANCELLED (MkReply false 0)))
  | step_reply i reacted trials : background s <> Exited -> requests s !! i = Some Reacting ->
      (reacted = true -> reactor_ready s = true) ->
      server_step s (at_request s i (Replied OK (reply_to reacted trials))).

Definition server_steps : server_state -> server_state -> Prop := rtc server_step.

(** Before the monitor runs nothing is known of the trace and no thread gets past
    the wait. *)
Definition not_through (p : wait_pc) : Prop :=
  match p with Processing | Done _ => False | _ => True end.

Record quiet (w : wait_state (Instr := Instr)) : Prop := Quiet {
  quiet_ready : trace_ready w = false;
  quiet_processed : trace_processed w = false;
  quiet_threads : Forall not_through (threads w)
}.

Record server_ok (s : server_state) : Prop := ServerOk {
  ok_ready : ready s = true -> reactor_ready s = true;
  ok_before : background s = Preparing \/ background s = Prepared -> monitoring s = false;
  ok_reactor : background s = Prepared -> reactor_ready s = true;
  ok_announced : background s = Announced -> ready s = true;
  ok_monitoring : monitoring s = true -> ready s = true;
  ok_quiet : monitoring s = false -> quiet (waits s);
  ok_requests : forall i p, requests s !! i = Some p ->
    match p with
    | Waiting => True
    | Checking | Reacting => monitoring s = true
    | Replied st r => monitoring s = true /\ st = OK /\ (success r = false -> tries r = 0)
    end
}.

Lemma server_start_ok t n : server_ok (start t n).
Proof.
  constructor; cbn; try done.
  - intros _. constructor; [done..|]. cbn. constructor; [done|]. apply Forall_replicate. done.
  - intros i p Hp. apply lookup_replicate in Hp as [-> _]. done.
Qed.

Lemma quiet_step w a w' : quiet w -> a <> TraceMonitor -> wait_step w a w' -> quiet w'.
Proof.
  intros [Hr Hp Ht] Ha Hstep.
  assert (forall u p, not_through p -> Forall not_through (<[u := p]> (threads w))) as Hins by (intros; by apply Forall_insert).
  destruct Hstep as [u Hu Hw|u Hu Hw Hd|u Hu Hw Hd Hpr|u Hu Hw Hd Hpr|u Hu Hw Hrd|u Hu Hw|u Hu Hw Hd|b Hw|t]; try (by congruence).
  - by constructor; [..|apply Hins].
  - by constructor; [..|apply Hins].
  - rewrite Hr. by constructor; [..|apply Hins].
  - apply (Forall_lookup_1 _ _ _ _ Ht) in Hu. done.
Qed.

Lemma quiet_done w u b : quiet w -> threads w !! u = Some (Done b) -> False.
Proof. intros Hq Hu. by apply (Forall_lookup_1 _ _ _ _ (quiet_threads w Hq)) in Hu. Qed.

Lemma requests_move s i p (P : request_pc -> Prop) :
  (forall j q, requests s !! j = Some q -> P q) -> P p -> forall j q, <[i := p]> (requests s) !! j = Some q -> P q.
Proof.
  intros Hall Hp j q Hq. apply list_lookup_insert_Some in Hq as [(-> & <- & _)|[_ Hq]]; [done|by eapply Hall].
Qed.

Lemma server_ok_step s s' : server_ok s -> server_step s s' -> server_ok s'.
Proof.
  intros [H1 H2 H3 H4 H5 H6 H7] Hstep.
  destruct Hstep as [Hb|Hb|Hb|Hb|Hb|a w Hb Ha Hw|b Hb Hd|i b Hb Hi Hd|i Hb Hi|i reacted trials Hb Hi Hr].
  - constructor; cbn; try done. naive_solver.
  - constructor; cbn; try done. intros _. apply H2. by left.
  - constructor; cbn; try done; [by intros _; apply H3|naive_solver].
  - constructor; cbn; try done; [naive_solver|by intros _; apply H4|]. intros i p Hp. specialize (H7 i p Hp).
    by destruct p; naive_solver.
  - constructor; cbn; try done. naive_solver.
  - constructor; cbn; try done. intros Hm. refine (quiet_step _ _ _ (H6 Hm) _ Hw). intros ->. cbn in Ha. congruence.
  - constructor; cbn; try done. naive_solver.
  - assert (monitoring s = true) as Hm.
    { destruct (monitoring s) eqn:Hm; [done|]. exfalso. by apply (quiet_done _ _ _ (H6 eq_refl) Hd). }
    constructor; cbn; try done. by apply (requests_move s i Checking _ H7).
  - pose proof (H7 i _ Hi) as Hm. cbn in Hm. rewrite (H5 Hm). constructor; cbn; try done.
    by apply (requests_move s i Reacting _ H7).
  - pose proof (H7 i _ Hi) as Hm. cbn in Hm. constructor; cbn; try done.
    apply (requests_move s i (Replied OK (reply_to reacted trials)) _ H7). split; [done|]. split; [done|]. by destruct reacted.
Qed.

Lemma server_ok_steps s s' : server_ok s -> server_steps s s' -> server_ok s'.
Proof. intros Hok Hs. induction Hs; eauto using server_ok_step. Qed.

(** C25. In every interleaving of the requests with the background thread and the
    monitor, a handler that is past its wait finds the service and the reactor
    ready: requests that come too early wait for the trace, so that the branch for
    a reactor that is not ready is never taken, every call is answered with OK, and
    an answer without success has no tries. *)
Theorem server_answers t n s i p :
  server_steps (start t n) s -> requests s !! i = Some p -> p <> Waiting ->
  ready s = true /\ reactor_ready s = true /\
  forall st r, p = Replied st r -> st = OK /\ (success r = false -> tries r = 0).
Proof.
  intros Hs Hp Hne. apply (server_ok_steps _ _ (server_start_ok t n)) in Hs as [H1 _ _ _ H5 _ H7]. pose proof (H7 i p Hp) as Hi.
  assert (monitoring s = true) as Hm by (destruct p; naive_solver).
  split; [by apply H5|]. split; [by apply H1, H5|]. intros st r ->. naive_solver.
Qed.

End Server.
(** A request on an empty trace: its wait fails, which the handler does not look at;
    with a reactor that reports success so does the reply. *)
#[local] Existing Instance AddrTrace.ex_matcher.

(** The state while the background thread waits, with one request. *)
Definition ex_serving (ready processing : bool) (owner : option nat) (p : wait_pc) (q : request_pc) : server_state (Instr := nat) :=
  MkServer AwaitingTrace true true true (MkState ready false processing AddrTrace.new_trace [] owner [Start; p]) [q].

Definition ex_failed_wait : server_state := ex_serving true true None (Done false) (Replied OK (MkReply true 5)).

#[local] Ltac wait_step_by a c :=
  match goal with |- server_step ?s _ => refine (step_wait s a _ _ _ _); [done|done|by apply c] end.

Lemma ex_failed_wait_reachable : server_steps (start AddrTrace.new_trace 1) ex_failed_wait.
Proof.
  eapply rtc_l; [by apply step_prepare|]. eapply rtc_l; [by apply step_announce|].
  eapply rtc_l; [by apply step_monitor|]. eapply rtc_l; [by apply step_compute|].
  change (server_steps (ex_serving false false None Start Waiting) ex_failed_wait).
  apply (rtc_l _ _ (ex_serving true false None Start Waiting)); [wait_step_by TraceMonitor step_monitor_ready|].
  apply (rtc_l _ _ (ex_serving true false (Some 1%nat) Locked Waiting)); [wait_step_by (Request 1) step_lock|].
  apply (rtc_l _ _ (ex_serving true true (Some 1%nat) Processing Waiting)); [wait_step_by (Request 1) step_take|].
  apply (rtc_l _ _ (ex_serving true true None (Done false) Waiting)); [wait_step_by (Request 1) step_finish|].
  apply (rtc_l _ _ (ex_serving true true None (Done false) Checking)); [by apply (step_waited (ex_serving true true None (Done false) Waiting) 0 false)|].
  apply (rtc_l _ _ (ex_serving true true None (Done false) Reacting)); [by apply (step_check (ex_serving true true None (Done false) Checking) 0)|].
  apply rtc_once. by apply (step_reply (ex_serving true true None (Done false) Reacting) 0 true 5).
Qed.

Lemma server_answers_witness :
  trace_processed (waits ex_failed_wait) = false /\ ready ex_failed_wait = true /\
  forall st r, requests ex_failed_wait !! 0%nat = Some (Replied st r) -> st = OK.
Proof.
  split; [reflexivity|]. split.
  - apply (server_answers AddrTrace.new_trace 1 ex_failed_wait 0 _ ex_failed_wait_reachable eq_refl). discriminate.
  - intros st r Hr. destruct (server_answers AddrTrace.new_trace 1 ex_failed_wait 0 _ ex_failed_wait_reachable Hr) as (_ & _ & H); [discriminate|].
    exact (proj1 (H st r eq_refl)).
Defined.

End Server.

(** ** The client *)
Module Client.

Record client_options := MkOptions { server_address : string; fault_loc : string; fault_instr : string }.

(** What [getopt_long] gives: the long option [--help] sets the flag itself. *)
Inductive opt_result := HelpFlag | Opt (c : ascii) (arg : string) | Unknown.

Definition parse_arg (st : bool * client_options) (r : opt_result) : option (bool * client_options) :=
  let '(show_help, o) := st in
  match r with
  | HelpFlag => Some (true, o)
  | Opt c a =>
    if decide (c = "h"%char) then Some (true, o)
    else if decide (c = "c"%char) then Some (show_help, MkOptions (server_address o) a (fault_instr o))
    else if decide (c = "i"%char) then Some (show_help, MkOptions (server_address o) (fault_loc o) a)
    else if decide (c = "s"%char) then Some (show_help, MkOptions a (fault_loc o) (fault_instr o))
    else None
  | Unknown => None
  end.

Inductive parsed := ParseFails | ShowsHelp | Parsed (o : client_options).

Definition parse_args (results : list opt_result) : parsed :=
  match mfold parse_arg (false, MkOptions "" "" "") results with
  | None => ParseFails
  | Some (true, _) => ShowsHelp
  | Some (false, o) => Parsed o
  end.

(** The outcome of a call: the reply, or a status that is not OK. *)
Inductive rpc := Answer (r : ReactReply) | NotOk (error_code : Z).

(** The string returned for a call that failed is converted to [bool]: its address is
    not null. *)
Definition client_react (call : rpc) : bool :=
  match call with Answer r => success r | NotOk _ => true end.

(** What the client process does: it exits, or it connects, calls and prints. *)
Inductive client_run := Exit (code : Z) | Prints (address : string) (success : bool) (code : Z).

Definition client_main (call : string -> string -> string -> rpc) (results : list opt_result) : client_run :=
  match parse_args results with
  | ParseFails => Exit 1
  | ShowsHelp => Exit 0
  | Parsed o =>
    let address := if decide (server_address o = ""%string) then "localhost:50052"%string else server_address o in
    Prints address (client_react (call address (fault_loc o) (fault_instr o))) 0
  end.

(** The last argument given with the option. *)
Definition last_arg (c : ascii) (results : list opt_result) : option string :=
  last (omap (fun r => match r with Opt c' a => if decide (c' = c) then Some a else None | _ => None end) results).

Definition accepted (r : opt_result) : bool :=
  match r with
  | HelpFlag => true
  | Opt c _ => bool_decide (c ∈ ["h"; "c"; "i"; "s"]%char)
  | Unknown => false
  end.
Definition asks_help (r : opt_result) : bool :=
  match r with HelpFlag => true | Opt c _ => bool_decide (c = "h"%char) | Unknown => false end.

Lemma last_arg_snoc c rs r :
  last_arg c (rs ++ [r]) = match r with Opt c' a => if decide (c' = c) then Some a else last_arg c rs | _ => last_arg c rs end.
Proof.
  unfold last_arg. rewrite omap_app. destruct r as [|c' a|]; cbn; try (by rewrite app_nil_r).
  case_decide; cbn; [by rewrite last_snoc|by rewrite app_nil_r].
Qed.

Lemma parse_args_fold rs :
  mfold parse_arg (false, MkOptions "" "" "") rs =
    if forallb accepted rs
    then Some (existsb asks_help rs, MkOptions (default ""%string (last_arg "s" rs)) (default ""%string (last_arg "c" rs)) (default ""%string (last_arg "i" rs)))
    else None.
Proof.
  induction rs as [|r rs IH] using rev_ind; [done|].
  rewrite mfold_app, IH, forallb_app, existsb_app, !last_arg_snoc. destruct (forallb accepted rs); [|done].
  cbn [forallb existsb andb mbind option_bind mfold]. rewrite andb_true_r.
  destruct r as [|c a|]; cbn [accepted asks_help parse_arg]; [by rewrite orb_true_r| |done].
  repeat (case_decide; subst; [cbn; by rewrite ?orb_true_r, ?orb_false_r|]).
  rewrite bool_decide_eq_false_2; [done|]. rewrite !elem_of_cons, elem_of_nil. tauto.
Qed.

(** The client: an unknown option ends it with code 1, a request for help with
    code 0, wherever it stands.  Otherwise it sends the last fault location and
    instruction given to the last address given, by default the local server; and
    it prints the success of the reply, but also success when the call itself has
    failed. *)
Theorem client_main_ok call results :
  client_main call results =
    if negb (forallb accepted results) then Exit 1
    else if existsb asks_help results then Exit 0
    else
      let address := match last_arg "s" results with Some a => if decide (a = ""%string) then "localhost:50052"%string else a
                     | None => "localhost:50052"%string end in
      Prints address
        (match call address (default ""%string (last_arg "c" results)) (default ""%string (last_arg "i" results)) with
         | Answer r => success r
         | NotOk _ => true
         end) 0.
Proof.
  unfold client_main, parse_args. rewrite parse_args_fold. destruct (forallb accepted results); [|done]. cbn [negb].
  destruct (existsb asks_help results); [done|]. cbn [server_address fault_loc fault_instr].
  by destruct (last_arg "s" results) as [a|].
Qed.

End Client.

(** ** The stand-alone reactor *)
Module Standalone.
Import ReExecute.

(** ** Without a table of traced instructions *)

Section Untraced.
Context {E : Type} `{!Environment E} {Instr : Type} `{!EqDecision Instr}.
Context (garbage empty_data : single_data) (c_log : checkpoint_log) (num_data pool_address : Z) (options : Options.reactor_options) (fp : Z) (mm : LogCreation.multimap) (fuel : nat).
Implicit Types (d : React.driver (E := E)) (inst : Instr) (insts : list Instr) (slices : list (list Instr)).

(** The driver between two slice items when nothing has been collected. *)
Definition idle (d : React.driver (E := E)) : Prop :=
  React.many_address_seq (React.dr_coll d) = [] /\ React.slice_seq_iterator (React.dr_coll d) = 0 /\ React.many_address_clear d = false.

Lemma untraced_item d inst :
  idle d -> React.react_item garbage empty_data c_log num_data pool_address options fp mm [] fuel d inst = Ret (React.Continue, d).
Proof.
  destruct d as [sr [sq ma sn it ic rl] cl rf tr hi]. intros (Hm & Hi & Hc). cbn in Hm, Hi, Hc. subst.
  unfold React.react_item, React.collect_instr. cbn. rewrite decide_False by (unfold React.BATCH_REEXECUTION; lia). cbn.
  rewrite decide_False by lia. done.
Qed.

Lemma untraced_items d insts :
  idle d -> React.react_items garbage empty_data c_log num_data pool_address options fp mm [] fuel d insts = Ret (React.Continue, d).
Proof.
  intros Hd. induction insts as [|i insts IH]; [done|]. cbn [React.react_items]. rewrite untraced_item by done. exact IH.
Qed.

Lemma untraced_slices d slices :
  idle d -> React.react_slices garbage empty_data c_log num_data pool_address options fp mm [] fuel d slices = Ret (React.Continue, d).
Proof.
  intros Hd. induction slices as [|l slices IH]; [done|]. cbn [React.react_slices]. rewrite untraced_items by done. exact IH.
Qed.

(** The table of traced instructions is filled only by the server.  With an empty
    table, as in the stand-alone reactor, the reaction goes through all the slices
    and collects nothing: no entry is reverted and no command executed, the state
    stays as it is; and the verdict is the one that lets [react] report success. *)
Theorem untraced_reverts_nothing d slices :
  idle d -> React.react_slices garbage empty_data c_log num_data pool_address options fp mm [] fuel d slices = Ret (React.Continue, d).
Proof. apply untraced_slices. Qed.

End Untraced.

(** The reaction with an empty table: the environment and the counters are those at
    its start, the memory and the log those the tables were built with. *)
Lemma untraced_react_with {E : Type} `{!Environment E} {Instr : Type} `{!EqDecision Instr} garbage empty_data options fp fuel
    (trace : AddrTrace.PmemAddrTrace (Instr := Instr)) last_pool inst slices c_log pop w x (d : React.driver (E := E)) :
  Options.arckpt options = false ->
  React.react_with garbage empty_data options fp fuel trace [] last_pool inst slices c_log pop w x = Ret d ->
  w_env (BinaryReversion.st_world (React.dr_search d)) = w_env w /\ BinaryReversion.st_globals (React.dr_search d) = x /\
  React.total_reverted_items d = 0 /\ idle d /\
  exists cr m s_log offsets addresses oss, LogCreation.seq_log_creation garbage (w_mem w) c_log = Some cr /\
    LogCreation.tx_log_creation garbage (LogCreation.cr_mem cr) c_log = Some (m, s_log) /\
    LogCreation.sort_creation offsets addresses (Z.of_nat (length (AddrTrace.addresses last_pool))) oss (LogCreation.cr_s_log cr) =
      Some (w_log (BinaryReversion.st_world (React.dr_search d))) /\
    w_mem (BinaryReversion.st_world (React.dr_search d)) = m.
Proof.
  intros Ha. unfold React.react_with. intros H.
  apply BinaryReversion.bind_Ret in H as ([offsets addresses] & Ho%BinaryReversion.run_Ret & H).
  apply BinaryReversion.bind_Ret in H as (pi & _ & H).
  apply BinaryReversion.bind_Ret in H as (cr & Hcr%BinaryReversion.run_Ret & H).
  apply BinaryReversion.bind_Ret in H as ([m tl] & Hm%BinaryReversion.run_Ret & H).
  apply BinaryReversion.bind_Ret in H as (oss & _ & H).
  apply BinaryReversion.bind_Ret in H as (s_log & Hs%BinaryReversion.run_Ret & H).
  apply BinaryReversion.bind_Ret in H as (seqs & _ & H).
  apply BinaryReversion.bind_Ret in H as (high & _ & H).
  rewrite Ha in H.
  erewrite untraced_slices in H by done. cbn in H. injection H as <-. cbn.
  split; [done|]. split; [done|]. split; [done|]. split; [done|]. by exists cr, m, tl, offsets, addresses, oss.
Qed.

(** ** The process *)

Section Standalone.
Context {E : Type} `{!Environment E}.
Context {Instr Fn Node Block Graph : Type}.
Context `{Countable Instr} `{Countable Fn} `{Countable Node} `{Countable Block} `{Countable Graph}.
(** LLVM's instructions and modules, the dependence graph library, the file system
    and the pool library. *)
Context (debug_line : Instr -> option Z) (print : Instr -> chars) (getFunction : Instr -> Fn) (insts : Fn -> list Instr).
Context (dg : DgWalk.dependence_graph Instr Node Block Graph) (gv : Slicer.graph_view (Instr := Instr) (Node := Node) (Block := Block) (Graph := Graph)).
Context (walk : Z -> Node -> list Node) (std_sort : (nat -> nat -> bool) -> list nat -> list nat).
Context (exists_file : string -> bool) (read_file : string -> option chars).
Context (parseModule : string -> option (list (Matcher.Function_ Instr))).
Context (build : Slicer.llvm_dg_options Fn -> option (gmap Fn Graph)).
Context (pmem_map_file : string -> world E -> option (Z * world E)).
(** What memory holds that is not initialised. *)
Context (garbage empty_data : single_data) (garbage_line : Z).

(** The instructions of the slices, in the order in which the reaction takes them. *)
Definition instructions_of (ss : list (Slice.Slice Instr)) : list (list Instr) :=
  (fun sl => (Slice.dep_vals sl).*1) <$> ss.

(** [Reactor::react]: the fault instruction is located and sliced, and the slices are
    reacted on.  [trace_instrs] and [fp] are globals. *)
Definition standalone_react (fuel : nat) (s : Prepare.ReactorState (Instr := Instr)) (d : Slicer.dg_state (Node := Node) (Block := Block) (Graph := Graph)) (pmem_vars : gset Instr) (c : Slice.counters)
    (trace_instrs : list (option Instr * AddrTrace.PmemAddrTraceItem (Instr := Instr))) (fp : Z)
    (fault_loc inst_str : string) (checkpoint : option checkpoint_log) (w : world E) (x : BinaryReversion.globals) : outcome bool :=
  if negb (Prepare.ready s) then Ret false
  else
    '(fault_inst, _) ← run (Prepare.locate_fault_instr debug_line print (Prepare.sys_module s) true garbage_line (lit fault_loc) (lit inst_str));
    match fault_inst with
    | None => Ret false
    | Some inst =>
      let dgo := Options.dg_opts (Prepare.options s) in
      let '(ok, slicer) := Slicer.computeDependencies (build (Slicer.createDgOptions (Slicer.createDgFlags dgo) None)) (Slicer.new_slicer Slice.Backward) in
      r ← run (Slicer.slice_fault_instr dg getFunction insts gv walk std_sort fuel ok (Options.slice_ctrl dgo) slicer d inst pmem_vars c);
      match r with
      | None => NoFuel
      | Some (sliced, ss, _) =>
        React.react garbage empty_data (Prepare.options s) fp pmem_map_file fuel true (Some inst)
          (if (sliced : bool) then Some (instructions_of ss) else None) (Prepare.addr_trace s) trace_instrs checkpoint w x
      end
    end.

(** How the process ends. *)
Inductive process_end := Exit (code : Z) | Terminated.

(** [main] of main.cpp: nothing has filled [trace_instrs] or opened [fp]. *)
Definition standalone_main (fuel : nat) (results : list Options.opt_result) (checkpoint : option checkpoint_log) (w : world E) : outcome process_end :=
  match Prepare.prepare debug_line print exists_file read_file parseModule results false Prepare.new_state with
  | (Prepare.Returns true, s) =>
    let o := Prepare.options s in
    reacted ← standalone_react fuel s (Slicer.MkDgState 0 ∅ (DgWalk.MkMarks ∅ ∅ ∅)) ∅ (Slice.MkCounters 0 0 0) [] 0
                (Options.fault_loc o) (Options.fault_instr o) checkpoint w (BinaryReversion.Globals (-1) 0 0 0);
    Ret (Exit (if (reacted : bool) then 0 else 1))
  | (Prepare.Returns false, _) => Ret (Exit 1)
  | (Prepare.Exits, _) => Ret (Exit 0)
  | (Prepare.Throws, _) => Ret Terminated
  | (Prepare.Undefined, _) => Undefined
  end.

(** The fault instruction of a prepared reactor, and the result of slicing it. *)
Definition located (s : Prepare.ReactorState (Instr := Instr)) : option (option Instr * bool) :=
  Prepare.locate_fault_instr debug_line print (Prepare.sys_module s) true garbage_line
    (lit (Options.fault_loc (Prepare.options s))) (lit (Options.fault_instr (Prepare.options s))).

Definition sliced fuel (s : Prepare.ReactorState (Instr := Instr)) (inst : Instr) : option (option (bool * list (Slice.Slice Instr) * Slice.counters)) :=
  let dgo := Options.dg_opts (Prepare.options s) in
  let '(ok, slicer) := Slicer.computeDependencies (build (Slicer.createDgOptions (Slicer.createDgFlags dgo) None)) (Slicer.new_slicer Slice.Backward) in
  Slicer.slice_fault_instr dg getFunction insts gv walk std_sort fuel ok (Options.slice_ctrl dgo) slicer
    (Slicer.MkDgState 0 ∅ (DgWalk.MkMarks ∅ ∅ ∅)) inst ∅ (Slice.MkCounters 0 0 0).

(** The pool is open, and its part of the trace holds no address. *)
Definition no_addresses (s : Prepare.ReactorState (Instr := Instr)) (w : world E) : Prop :=
  exists lib path pop w1 p, Options.pmem_library (Prepare.options s) = Some lib /\
    Options.pmem_file (Prepare.options s) = Some path /\
    React.open_pool pmem_map_file lib path (Options.pmem_layout (Prepare.options s)) w = Some (pop, w1) /\ pop <> 0 /\
    last (AddrTrace.pool_addrs (Prepare.addr_trace s)) = Some p /\ AddrTrace.addresses p = [].

Lemma react_succeeds fuel s cp w x b :
  Prepare.ready s = true ->
  standalone_react fuel s (Slicer.MkDgState 0 ∅ (DgWalk.MkMarks ∅ ∅ ∅)) ∅ (Slice.MkCounters 0 0 0) [] 0
    (Options.fault_loc (Prepare.options s)) (Options.fault_instr (Prepare.options s)) cp w x = Ret b ->
  b = true <-> exists inst exact ss c', located s = Some (Some inst, exact) /\ sliced fuel s inst = Some (Some (true, ss, c')) /\
    is_Some (Options.pmem_file (Prepare.options s)) /\ ~ no_addresses s w.
Proof.
  intros Hr. unfold standalone_react. rewrite Hr. cbn [negb]. fold (located s). intros Hx.
  apply BinaryReversion.bind_Ret in Hx as ([fi exact] & Hl%BinaryReversion.run_Ret & Hx). rewrite Hl.
  destruct fi as [inst|]; [|injection Hx as <-; split; [done|by intros (? & ? & ? & ? & ? & _)]].
  assert (exists r, sliced fuel s inst = Some r /\
    match r with None => NoFuel | Some (sl, ss, _) =>
      React.react garbage empty_data (Prepare.options s) 0 pmem_map_file fuel true (Some inst)
        (if (sl : bool) then Some (instructions_of ss) else None) (Prepare.addr_trace s) [] cp w x end = Ret b) as (r & Hs & Hx').
  { unfold sliced. destruct (Slicer.computeDependencies _ _) as [ok slicer].
    apply BinaryReversion.bind_Ret in Hx as (r & Hs%BinaryReversion.run_Ret & Hx). exists r. done. }
  clear Hx. destruct r as [[[sl ss] c']|]; [|done]. apply React.react_reports_success in Hx'.
  assert (b = false <-> sl = false \/ Options.pmem_file (Prepare.options s) = None \/ no_addresses s w) as Hb.
  { rewrite Hx'. unfold no_addresses. destruct sl; split; [intros [?|[?|[?|?]]]|intros [?|?]|intros [?|[?|[?|?]]]|intros [?|?]]; try done; tauto. }
  destruct b.
  - split; [intros _|done]. exists inst, exact, ss, c'. split; [done|]. destruct sl; [|by discriminate (proj2 Hb (or_introl eq_refl))].
    split; [done|]. split; [|by intros Hn; discriminate (proj2 Hb (or_intror (or_intror Hn)))].
    destruct (Options.pmem_file (Prepare.options s)); [done|]. by discriminate (proj2 Hb (or_intror (or_introl eq_refl))).
  - split; [done|]. intros (inst' & exact' & ss' & c2 & [= <- <-] & Hs' & [f Hf] & Hn). rewrite Hs in Hs'. injection Hs' as -> <- <-.
    exfalso. destruct (proj1 Hb eq_refl) as [?|[?|?]]; congruence.
Qed.

(** C29. The exit code of the stand-alone reactor: 0 when the usage was asked for, or
    when the reactor is prepared, the fault is located and sliced, a pool file is
    given and the pool has addresses in the trace.  Whether anything was reverted,
    the program re-executed, the pool or the checkpoint opened makes no
    difference. *)
Theorem main_exit_code fuel results cp w code :
  standalone_main fuel results cp w = Ret (Exit code) ->
  let '(r, s) := Prepare.prepare debug_line print exists_file read_file parseModule results false Prepare.new_state in
  (code = 0 \/ code = 1) /\
  (code = 0 <-> r = Prepare.Exits \/
     (r = Prepare.Returns true /\ exists inst exact ss c', located s = Some (Some inst, exact) /\
        sliced fuel s inst = Some (Some (true, ss, c')) /\ is_Some (Options.pmem_file (Prepare.options s)) /\ ~ no_addresses s w)).
Proof.
  unfold standalone_main. pose proof (Prepare.prepare_ready_ok debug_line print exists_file read_file parseModule results false) as Hready.
  destruct (Prepare.prepare _ _ _ _ _ _ _ _) as [[[]| | |] s]; intros Hx; try done.
  - destruct Hready as [[_ Hready] _]. apply BinaryReversion.bind_Ret in Hx as (b & Hb & [= <-]).
    apply react_succeeds in Hb; [|by apply Hready]. destruct b.
    + split; [by left|]. split; [intros _; right; split; [done|by apply Hb]|done].
    + split; [by right|]. split; [done|]. intros [?|[_ Hex]]; [done|]. by apply Hb in Hex.
  - injection Hx as <-. split; [by right|]. split; [done|]. by intros [?|[? _]].
  - injection Hx as <-. split; [by left|]. split; [by left|done].
Qed.

End Standalone.
Lemma untraced_reverts_nothing_witness :
  React.react_slices Rollback.ex_garbage Rollback.ex_garbage ex_clog 1 40 BinaryReversion.ex_options 0 React.ex_mm [] 3
    (React.ex_driver [256; 0]) [[5%nat]; [7%nat]] = Ret (React.Continue, React.ex_driver [256; 0]).
Proof. apply untraced_reverts_nothing. split; [reflexivity|]. split; reflexivity. Defined.

(** ** A run

    The instructions are the nodes of the example of [DgWalk]; instruction 0 is the
    store at fault and instruction 1 creates the pool.  The pool cannot be mapped,
    and the process exits with 0. *)
Definition ex_line (i : Z) : option Z := Some (if decide (i = 0) then 6 else if decide (i = 1) then 5 else 20 + i).
Definition ex_print (i : Z) : chars :=
  if decide (i = 0) then lit "store i32 %x, i32* %p"
  else if decide (i = 1) then lit "%9 = call i8* @pmem_map_file(i8* %p)" else lit "ret void".
Definition ex_parse (f : string) : option (list (Matcher.Function_ Z)) :=
  Some [Matcher.MkFunction (lit "main") false (Some (Matcher.MkSubprogram [] (lit "a.c") 4 (lit "main") [])) [[1; 0; 2; 3; 4]]].
Definition ex_arguments : list Options.opt_result :=
  Options.ex_results ++ [Options.Opt "a" "trace"; Options.Opt "i" "store i32 %x, i32* %p"; Options.Opt "c" "a.c:6"].

#[local] Abbreviation ex_main :=
  (standalone_main ex_line ex_print (fun _ => 0) (fun _ => [1; 0; 2; 3; 4]) DgWalk.ex_dg SliceFault.ex_view (fun _ n => [n]) SliceOrder.insertion_sort
    (fun _ => true) Prepare.ex_read ex_parse (fun _ => Some {[ 0 := 0 ]}) (fun _ w => Some (0, w))
    Rollback.ex_garbage Rollback.ex_garbage 0 10 ex_arguments None (ex_world [])).

Lemma ex_main_exits : ex_main = Ret (Exit 0).
Proof. vm_compute. reflexivity. Qed.

Lemma main_exit_code_witness :
  ex_main = Ret (Exit 0) /\
  let '(r, s) := Prepare.prepare ex_line ex_print (fun _ => true) Prepare.ex_read ex_parse ex_arguments false Prepare.new_state in
  r = Prepare.Exits \/ (r = Prepare.Returns true /\ exists inst exact, located ex_line ex_print 0 s = Some (Some inst, exact)).
Proof.
  split; [exact ex_main_exits|].
  pose proof (main_exit_code ex_line ex_print (fun _ => 0) (fun _ => [1; 0; 2; 3; 4]) DgWalk.ex_dg SliceFault.ex_view (fun _ n => [n])
    SliceOrder.insertion_sort (fun _ => true) Prepare.ex_read ex_parse (fun _ => Some {[ 0 := 0 ]}) (fun _ w => Some (0, w))
    Rollback.ex_garbage Rollback.ex_garbage 0 10 ex_arguments None (ex_world []) 0 ex_main_exits) as H.
  destruct (Prepare.prepare _ _ _ _ _ _ _ _) as [r s]. destruct H as [_ [H _]].
  destruct (H eq_refl) as [Hr|[Hr (inst & exact & _ & _ & Hl & _)]]; [by left|right]. split; [exact Hr|]. by exists inst, exact.
Defined.

End Standalone.

End Service.
