(* ===== verification/SlicingPass.v ===== *)
(** * The slicing pass (analyzer/lib/Slicing/SlicingPass.cpp)

    The LLVM pass that slices from the instructions of the slicing criteria, and can
    insert the hooks of the address tracker where the slices touch persistent
    memory: the composition of the criteria, the slicer, the locator and the
    instrumenter. *)
From stdpp Require Import base list gmap relations strings.
From S2P Require Import Prelude Strings GuidMap Options Matcher Slice SliceGraph ComputeSlices SliceOrder DgWalk Slicer SliceFault DefUse Extractor Instrument Prepare.
Import Strings.

Module SlicingPass.

#[local] Existing Instance Slice.SlicePersistence_dec.

(** [instrumented |= f(x)] over a list; [None] is undefined behaviour. *)
Definition or_all {S A} (f : S -> A -> option (bool * S)) (acc : bool * S) (l : list A) : option (bool * S) :=
  mfold (fun acc x => r ← f acc.2 x; Some (acc.1 || r.1, r.2)) acc l.

Section Pass.
Context {Value Fn Node Block Graph : Type}.
Context `{Countable Value} `{Countable Fn} `{Countable Node} `{Countable Block} `{Countable Graph}.
(** LLVM's values and functions, and the dependence graphs. *)
Context (lv : Instrument.llvm_view (Value := Value)) (uv : DefUse.use_view Value).
Context (kind : Value -> Extractor.inst_kind (Value := Value)) (getName : Value -> chars).
Context (getFunction : Value -> Fn) (body_of : Fn -> Extractor.function (Value := Value)).
Context (dg : DgWalk.dependence_graph Value Node Block Graph).
Context (gv : Slicer.graph_view (Instr := Value) (Node := Node) (Block := Block) (Graph := Graph)).
Context (walk : Z -> Node -> list Node).

(** ** The slices of one instruction *)

(** The slices, with the states of the slicer and of the graphs; [None] also when the
    slice graph is null, which is used, and [Some None] when the fuel ends. *)
Definition instructionSlice (fuel : nat) (s : Slicer.DgSlicer (Fn := Fn) (Graph := Graph)) (d : Slicer.dg_state (Node := Node) (Block := Block) (Graph := Graph))
    (fault_inst : Value) (persistent_vars : gset Value) (c : Slice.counters)
  : option (option (list (Slice.Slice Value) * Slicer.DgSlicer (Fn := Fn) (Graph := Graph) * Slicer.dg_state (Node := Node) (Block := Block) (Graph := Graph) * Slice.counters)) :=
  r ← Slicer.slice dg getFunction gv walk fuel s d fault_inst 0 Slicer.Storing DgWalk.DEFAULT_DEPENDENCY_FLAGS;
  match r with
  | None => Some None
  | Some (None, _, _, _) => None
  | Some (Some g, _, s', d') =>
    w ← ComputeSlices.computeSlices getFunction fuel g Slice.no_slices true false;
    match w with
    | None => Some None
    | Some w =>
      let slices := omap (fun i => ComputeSlices.store w !! i) (Slice.slices (ComputeSlices.added w)) in
      let '(c', ss) := Slice.set_all persistent_vars c slices in Some (Some (ss, s', d', c'))
    end
  end.

(** A slice that is not volatile is instrumented. *)
Definition instrument_slice (useDefMap : gmap Value (gset Value)) (ins : Instrument.PmemAddrInstrumenter (Value := Value)) (sl : Slice.Slice Value)
  : option (bool * Instrument.PmemAddrInstrumenter (Value := Value)) :=
  if decide (Slice.persistence sl = Slice.Volatile) then Some (false, ins)
  else Instrument.instrumentSlice lv (DefUse.is_instruction uv) ins (Slice.dep_vals sl).*1 useDefMap.

Record pass_state := MkPass {
  locatorMap : gmap Fn (Extractor.PMemVariableLocator (Value := Value));
  dgSlicer : Slicer.DgSlicer (Fn := Fn) (Graph := Graph);
  dgs : Slicer.dg_state (Node := Node) (Block := Block) (Graph := Graph);
  counts : Slice.counters;
  instrumented : bool;
  instrumenter : Instrument.PmemAddrInstrumenter (Value := Value)
}.

(** The body of the loop over the start instructions.  The locator of a function is
    created once, and run again for each of its instructions. *)
Definition slice_from (fuel : nat) (InstrumentPmemSlice : bool) (st : pass_state) (fault_inst : Value) : option (option pass_state) :=
  let F := getFunction fault_inst in
  locator ← Extractor.runOnFunction uv kind getName fuel (default Extractor.new_locator (locatorMap st !! F)) (body_of F);
  r ← instructionSlice fuel (dgSlicer st) (dgs st) fault_inst (list_to_set (Extractor.varList locator)) (counts st);
  match r with
  | None => Some None
  | Some (ss, s', d', c') =>
    r ← (if InstrumentPmemSlice then or_all (instrument_slice (Extractor.useDefMap locator)) (instrumented st, instrumenter st) ss
         else Some (instrumented st, instrumenter st));
    Some (Some (MkPass (<[F := locator]> (locatorMap st)) s' d' c' r.1 r.2))
  end.

Fixpoint slice_all (fuel : nat) (InstrumentPmemSlice : bool) (st : pass_state) (startSliceInstrs : list Value) : option (option pass_state) :=
  match startSliceInstrs with
  | [] => Some (Some st)
  | i :: l =>
    r ← slice_from fuel InstrumentPmemSlice st i;
    match r with None => Some None | Some st' => slice_all fuel InstrumentPmemSlice st' l end
  end.

(** The flags of the dependence graph. *)
Definition pass_flags : Z := Z.lor (Z.lor Slicer.ENABLE_PTA Slicer.INTER_PROCEDURAL) Slicer.SUPPORT_THREADS.

(** What is new in the module: the hooks, the calls at the start of [main] and the
    destructors. *)
Record module_changes := MkChanges {
  new_hooks : list (Value * Instrument.hook (Value := Value));
  start_of_main : list chars;
  destructors : list chars
}.

Definition changes_of (ins : Instrument.PmemAddrInstrumenter (Value := Value)) : module_changes :=
  MkChanges (Instrument.inserted ins) (Instrument.main_calls ins) (Instrument.global_dtors ins).

(** [runOnModule]: the result, the map that is written when there is one, and how the
    module is changed.  The result of [computeDependencies] is not looked at. *)
Definition runOnModule (debug_line : Value -> option Z) (fs : list (Matcher.Function_ Value)) (build : Slicer.llvm_dg_options Fn -> option (gmap Fn Graph))
    (has_main : bool) (getOrInsertFunction : chars -> bool) (garbage_line : Z) (guid_file_opens : bool)
    (fuel : nat) (opt : Prepare.SliceInstCriteriaOpt) (sliceDir : Slice.SliceDirection) (InstrumentPmemSlice : bool)
  : option (option (bool * option chars * module_changes)) :=
  '(found, startSliceInstrs) ← Prepare.parseSlicingCriteriaOpt debug_line (Instrument.print lv) fs opt [];
  if negb (found : bool) then Some (Some (false, None, changes_of (Instrument.new_instrumenter false)))
  else
    let '(_, slicer) := Slicer.computeDependencies (build (Slicer.createDgOptions pass_flags None)) (Slicer.new_slicer sliceDir) in
    '(hooks, ins) ← (if InstrumentPmemSlice then Instrument.initHookFuncs has_main getOrInsertFunction (Instrument.new_instrumenter false)
                     else Some (true, Instrument.new_instrumenter false));
    if negb (hooks : bool) then Some (Some (false, None, changes_of ins))
    else
      r ← slice_all fuel InstrumentPmemSlice (MkPass ∅ slicer (Slicer.MkDgState 0 ∅ (DgWalk.MkMarks ∅ ∅ ∅)) (Slice.MkCounters 0 0 0) false ins) startSliceInstrs;
      match r with
      | None => Some None
      | Some st =>
        text ← (if InstrumentPmemSlice then Instrument.writeGuidHookPointMap lv garbage_line guid_file_opens (instrumenter st) else Some None);
        Some (Some (instrumented st, text, changes_of (instrumenter st)))
      end.

(** ** Instrumenting slices *)

(** The definition points a slice has instrumented. *)
Definition points (useDefMap : gmap Value (gset Value)) (l : list Value) : list Value :=
  l ≫= fun i => filter (fun v => DefUse.is_instruction uv v = true) (elements (default ∅ (useDefMap !! i))).

Lemma instrumentSlice_points ins l udm :
  Instrument.instrumentSlice lv (DefUse.is_instruction uv) ins l udm = mfold (Instrument.instrument_step lv) (false, ins) (points udm l).
Proof.
  unfold Instrument.instrumentSlice, points. rewrite mfold_bind. apply mfold_ext. intros c i _. destruct (udm !! i); [done|].
  cbn [default from_option]. by rewrite elements_empty.
Qed.

(** The slices that are instrumented. *)
Definition chosen_values (ss : list (Slice.Slice Value)) : list Value :=
  ss ≫= fun sl => if decide (Slice.persistence sl = Slice.Volatile) then [] else (Slice.dep_vals sl).*1.

Lemma hooked_app L l1 l2 : Instrument.hooked lv L (l1 ++ l2) = Instrument.hooked lv (Instrument.hooked lv L l1) l2.
Proof. unfold Instrument.hooked. by rewrite foldl_app. Qed.

Lemma points_app udm l1 l2 : points udm (l1 ++ l2) = points udm l1 ++ points udm l2.
Proof. unfold points. apply bind_app. Qed.

Lemma instrument_slices_ok udm ss L b ins :
  Instrument.hooks_inserted lv L ins -> Forall (Instrument.defined_target lv) (points udm (chosen_values ss)) ->
  Instrument.guid_at (length (Instrument.hooked lv L (points udm (chosen_values ss)))) < 2 ^ 32 ->
  exists b' ins', or_all (instrument_slice udm) (b, ins) ss = Some (b', ins') /\
    Instrument.hooks_inserted lv (Instrument.hooked lv L (points udm (chosen_values ss))) ins'.
Proof.
  unfold or_all. revert L b ins. induction ss as [|sl ss IH]; intros L b ins Hi Hdef Hlt; cbn [mfold]; [by exists b, ins|].
  unfold chosen_values in *. cbn [mbind list_bind] in *. fold (chosen_values ss) in *. rewrite points_app, hooked_app in *.
  apply Forall_app in Hdef as [Hd1 Hd2]. unfold instrument_slice at 2. cbn [snd]. case_decide.
  - cbn [fst snd]. by apply IH.
  - pose proof (Instrument.hooked_length lv (Instrument.hooked lv L (points udm (Slice.dep_vals sl).*1)) (points udm (chosen_values ss))) as Hlen.
    destruct (Instrument.instrument_steps_ok lv L false ins (points udm (Slice.dep_vals sl).*1)) as (b1 & s1 & Hs1 & Hi1 & _);
      [done|done|unfold Instrument.guid_at in *; lia|].
    rewrite instrumentSlice_points, Hs1. cbn [mbind option_bind fst snd]. by apply IH.
Qed.

(** ** What gets a hook *)

Lemma chosen_values_elem (vars : gset Value) (ss : list (Slice.Slice Value)) v :
  Forall (fun sl => Slice.dep_vals sl <> []) ss -> v ∈ vars ->
  v ∈ chosen_values ((fun s => Slice.set_persistence (Slice.kind_of vars s) s) <$> ss) <-> exists sl, sl ∈ ss /\ v ∈ (Slice.dep_vals sl).*1.
Proof.
  intros Hne Hv. unfold chosen_values. rewrite list_elem_of_bind. split.
  - intros (sl & Hin & (sl0 & -> & Hsl)%list_elem_of_fmap). exists sl0. split; [done|]. by case_decide; [apply elem_of_nil in Hin|].
  - intros (sl & Hsl & Hin). exists (Slice.set_persistence (Slice.kind_of vars sl) sl).
    split; [|by apply (list_elem_of_fmap_2 (fun s => Slice.set_persistence (Slice.kind_of vars s) s))].
    rewrite decide_False; [done|]. cbn [Slice.persistence Slice.set_persistence]. rewrite Forall_forall in Hne.
    rewrite (Slice.kind_of_Volatile vars sl) by (by apply Hne). rewrite Forall_forall. intros HF.
    apply list_elem_of_fmap in Hin as ([v' k] & -> & Hin). by apply (HF _ Hin).
Qed.

(** A user of a persistent variable is one. *)
Lemma user_persistent rs d v : Extractor.persistent uv rs d -> Extractor.user_of uv d v -> Extractor.persistent uv rs v.
Proof.
  intros (r & Hr & Hd) (Hne & Ha & Hreach). exists r. split; [done|]. destruct Hd as [-> |(_ & _ & Hrd)]; [by right|].
  destruct (decide (v = r)) as [->|]; [by left|right]. split; [done|]. split; [done|]. unfold DefUse.reachable in *. by transitivity d.
Qed.

Section Tracked.
Context (all : gset Value) (Hclosed : forall v w, v ∈ all -> DefUse.step uv v w -> w ∈ all).
Context (Hdefined : Forall (Instrument.defined_target lv) (elements all)) (Hguids : Instrument.guid_at (size all) < 2 ^ 32).
Context (dir : Slice.SliceDirection) (start : Node) (fault_inst : Value) (all_nodes : gset Node).
Context (Hstart : DgWalk.getValue dg start = Some fault_inst).
Context (Hsize : 100000 * Z.of_nat (size all_nodes + 2) < 2 ^ 63).
Context (Hall : forall n, DgWalk.visited dg dir (DgWalk.chosen dir DgWalk.DEFAULT_DEPENDENCY_FLAGS) start n -> n ∈ all_nodes).
Context (Hblocks : forall n, DgWalk.visited dg dir (DgWalk.chosen dir DgWalk.DEFAULT_DEPENDENCY_FLAGS) start n ->
  DgWalk.has_blocks dg (DgWalk.chosen dir DgWalk.DEFAULT_DEPENDENCY_FLAGS) n).

(** The fault instruction and what it depends on. *)
Definition in_slice (v : Value) : Prop := v = fault_inst \/ DgWalk.visited_instr dg dir DgWalk.DEFAULT_DEPENDENCY_FLAGS start v.

Lemma instructionSlice_ok fuel s d fm G vars c :
  Slicer.direction s = dir -> Slicer.funcDgMap s = Some fm -> fm !! getFunction fault_inst = Some G -> Slicer.findNode gv G fault_inst = Some start ->
  (forall n, Slicer.lastwalk d !! n <> Some (u32 (Slicer.walk_run_counter d + 1))) -> (size all_nodes + 1 <= fuel)%nat ->
  exists ss s' d' c', instructionSlice fuel s d fault_inst vars c =
      Some (Some ((fun s => Slice.set_persistence (Slice.kind_of vars s) s) <$> ss, s', d', c')) /\
    Forall (fun sl => Slice.dep_vals sl <> []) ss /\ forall v, (exists sl, sl ∈ ss /\ v ∈ (Slice.dep_vals sl).*1) <-> in_slice v.
Proof.
  intros Hdir Hfm HG Hnode Hlw Hfuel.
  destruct (SliceFault.fault_graph_ok dg getFunction gv walk dir DgWalk.DEFAULT_DEPENDENCY_FLAGS start fault_inst all_nodes Hstart Hall Hblocks Hsize fuel s d fm G)
    as (g & sid & s' & d' & Hsl & Hg); [done..|].
  destruct (SliceFault.fault_slices_ok dg getFunction dir DgWalk.DEFAULT_DEPENDENCY_FLAGS start fault_inst all_nodes Hstart Hall Hsize fuel g g Hg)
    as (w & Hw & Hsls & Hgood & Hcov); [|done|].
  { split; [done|]. split; [done|]. split; [done|]. intros n nd _ Hnd. exists (SliceGraph.edges nd). split; [by rewrite Hnd; destruct nd|done]. }
  unfold instructionSlice. rewrite Hsl. simpl_bind. rewrite Hw. simpl_bind. rewrite Hsls, omap_seq.
  pose proof (Slice.set_all_values vars c (ComputeSlices.store w)) as Hv.
  destruct (Slice.set_all vars c (ComputeSlices.store w)) as [c' ss]. cbn [snd] in Hv. subst ss.
  exists (ComputeSlices.store w), s', d', c'. split; [done|]. split; [|exact Hcov].
  apply Forall_forall. intros sl Hsl'. apply list_elem_of_lookup in Hsl' as [i Hi].
  destruct (Hgood i sl Hi) as (_ & _ & (l & Hl) & _). by rewrite Hl.
Qed.

(** C21. Slicing from an instruction with instrumentation: the hooks that are inserted
    are exactly those behind the instructions with an address that are persistent
    variables of the function and are used, directly or not, by the start instruction
    or by something it depends on.  A slice that is volatile as a whole holds no such
    user, so that leaving it out loses nothing. *)
Theorem slicing_pass_tracks fuel st fm G il L :
  let locator := default Extractor.new_locator (locatorMap st !! getFunction fault_inst) in
  let code := il ++ Extractor.body (body_of (getFunction fault_inst)) in
  Extractor.located uv kind getName il locator -> (forall i r, i ∈ code -> r ∈ Extractor.roots kind getName i -> r ∈ all) ->
  Instrument.hooks_inserted lv L (instrumenter st) -> (forall i, i ∈ L -> i ∈ all) ->
  Slicer.direction (dgSlicer st) = dir -> Slicer.funcDgMap (dgSlicer st) = Some fm -> fm !! getFunction fault_inst = Some G ->
  Slicer.findNode gv G fault_inst = Some start ->
  (forall n, Slicer.lastwalk (dgs st) !! n <> Some (u32 (Slicer.walk_run_counter (dgs st) + 1))) ->
  (size all <= fuel)%nat -> (size all_nodes + 1 <= fuel)%nat ->
  exists st' L', slice_from fuel true st fault_inst = Some (Some st') /\ Instrument.hooks_inserted lv L' (instrumenter st') /\
    forall d, d ∈ L' <-> d ∈ L \/
      (is_Some (Instrument.hook_addr lv d) /\ DefUse.is_instruction uv d = true /\
       Extractor.persistent uv (code ≫= Extractor.roots kind getName) d /\
       exists v, in_slice v /\ DefUse.is_instruction uv v = true /\ Extractor.user_of uv d v).
Proof.
  intros locator code Hloc Hroots Hi HL Hdir Hfm HG Hnode Hlw Hfuel Hfuel2.
  destruct (Extractor.runOnFunction_ok uv kind getName all fuel Hclosed Hfuel il (body_of (getFunction fault_inst)) locator Hroots Hloc)
    as (l & Hl & Hll). fold code in Hll. unfold slice_from. fold locator. rewrite Hl. simpl_bind.
  destruct (instructionSlice_ok fuel (dgSlicer st) (dgs st) fm G (list_to_set (Extractor.varList l)) (counts st))
    as (ss & s' & d' & c' & Hss & Hne & Hcov); [done..|]. rewrite Hss. simpl_bind.
  set (ss' := (fun s => Slice.set_persistence (Slice.kind_of (list_to_set (Extractor.varList l)) s) s) <$> ss).
  set (pts := points (Extractor.useDefMap l) (chosen_values ss')).
  assert (forall d, d ∈ pts <-> DefUse.is_instruction uv d = true /\ Extractor.persistent uv (code ≫= Extractor.roots kind getName) d /\
    exists v, in_slice v /\ DefUse.is_instruction uv v = true /\ Extractor.user_of uv d v) as Hpts.
  { intros d. unfold pts, points. rewrite list_elem_of_bind.
    assert (forall v, d ∈ filter (fun v => DefUse.is_instruction uv v = true) (elements (default ∅ (Extractor.useDefMap l !! v))) <->
      DefUse.is_instruction uv d = true /\ Extractor.persistent uv (code ≫= Extractor.roots kind getName) d /\
      DefUse.is_instruction uv v = true /\ Extractor.user_of uv d v) as Hdef.
    { intros v. rewrite list_elem_of_filter, elem_of_elements. change (default ∅ (Extractor.useDefMap l !! v)) with (Extractor.defs l v).
      rewrite (Extractor.lc_defs _ _ _ _ _ Hll v d), (Extractor.lc_processed _ _ _ _ _ Hll d), (Extractor.lc_vars _ _ _ _ _ Hll d). tauto. }
    split.
    - intros (v & (Hd & Hp & Hvi & Hu)%Hdef & Hv). split; [done|]. split; [done|]. exists v. split; [|done].
      apply Hcov. apply (chosen_values_elem (list_to_set (Extractor.varList l)) ss v Hne); [|done].
      apply elem_of_list_to_set, (Extractor.lc_vars _ _ _ _ _ Hll). by eapply user_persistent.
    - intros (Hd & Hp & v & Hv & Hvi & Hu). exists v. split; [by apply Hdef|].
      apply (chosen_values_elem (list_to_set (Extractor.varList l)) ss v Hne); [|by apply Hcov].
      apply elem_of_list_to_set, (Extractor.lc_vars _ _ _ _ _ Hll). by eapply user_persistent. }
  assert (forall d, d ∈ pts -> d ∈ all) as Hsub by (intros d (_ & Hp & _)%Hpts; by eapply Extractor.persistent_all).
  pose proof (Instrument.hooked_size lv all L pts (Instrument.hi_nodup _ _ _ Hi) HL Hsub) as Hlen.
  destruct (instrument_slices_ok (Extractor.useDefMap l) ss' L (instrumented st) (instrumenter st) Hi) as (b & ins & Hb & Hins).
  - apply Forall_forall. intros d Hd. rewrite Forall_forall in Hdefined. by apply Hdefined, elem_of_elements, Hsub.
  - fold pts. unfold Instrument.guid_at in *. lia.
  - rewrite Hb. eexists _, _. split; [reflexivity|]. split; [exact Hins|]. intros d. fold pts. rewrite Instrument.hooked_elem, Hpts. tauto.
Qed.

End Tracked.

End Pass.

(** ** A concrete pass

    On the dependence graph of [DgWalk]: instruction 3 maps a pool, 1 loads from it
    and 0, the start, uses what was loaded. *)
Definition ex_opcode (i : Z) : Instrument.opcode (Value := Z) :=
  if decide (i = 3) then Instrument.CallInst (Some (lit "pmem_map_file")) [8; 9]
  else if decide (i = 1) then Instrument.LoadInst 3 else Instrument.OtherInst.
Definition ex_view : Instrument.llvm_view (Value := Z) :=
  Instrument.MkView ex_opcode (fun i => Some (10 + i)) (fun _ => Some (Instrument.MkSubprogram (lit "/src") (lit "a.c") 9))
    (fun _ => lit "main") (fun _ => lit "%1 = load i8, i8* %2").
Definition ex_kind (v : Z) : Extractor.inst_kind (Value := Z) :=
  match ex_opcode v with Instrument.CallInst callee args => Extractor.CallInst callee args | _ => Extractor.OtherInst end.
Definition ex_uses : DefUse.use_view Z :=
  {| DefUse.users v := if decide (v = 3) then [1] else if decide (v = 1) then [0] else [];
     DefUse.is_instruction _ := true;
     DefUse.is_alloca _ := false;
     DefUse.store_operand _ := None |}.

Definition ex_pass : pass_state (Value := Z) (Fn := Z) (Node := Z) (Block := Z) (Graph := Z) :=
  MkPass ∅ SliceFault.ex_slicer SliceFault.ex_state (Slice.MkCounters 0 0 0) false (Instrument.new_instrumenter false).

#[local] Abbreviation ex_run :=
  (slice_from ex_view ex_uses ex_kind (fun _ => []) (fun _ => 0) (fun _ => Extractor.MkFunction false [3; 1; 0]) DgWalk.ex_dg SliceFault.ex_view
    (fun _ n => [n]) 10 true ex_pass 0).

Lemma slicing_pass_tracks_witness :
  exists st', ex_run = Some (Some st') /\ exists L, Instrument.hooks_inserted ex_view L (instrumenter st') /\ 3 ∈ L /\ 0 ∉ L.
Proof.
  assert (elements (list_to_set [0; 1; 3] : gset Z) ≡ₚ [0; 1; 3]) as Hel by (apply elements_list_to_set, (bool_decide_unpack _); vm_compute; reflexivity).
  assert (size (list_to_set [0; 1; 3] : gset Z) = 3%nat) as Hsz by (rewrite size_list_to_set by (apply (bool_decide_unpack _); vm_compute; reflexivity); reflexivity).
  assert (forall v w, v ∈ (list_to_set [0; 1; 3] : gset Z) -> DefUse.step ex_uses v w -> w ∈ (list_to_set [0; 1; 3] : gset Z)) as Hclosed.
  { intros v w _ Hvw. unfold DefUse.step, DefUse.uses_of, ex_uses in Hvw. cbn [DefUse.users] in Hvw. repeat case_decide; cbn in Hvw; set_solver. }
  destruct (slicing_pass_tracks ex_view ex_uses ex_kind (fun _ => []) (fun _ => 0) (fun _ => Extractor.MkFunction false [3; 1; 0]) DgWalk.ex_dg
    SliceFault.ex_view (fun _ n => [n]) (list_to_set [0; 1; 3]) Hclosed)
    with (dir := Slice.Backward) (start := 0) (fault_inst := 0) (all_nodes := DgWalk.ex_nodes) (fuel := 10%nat) (st := ex_pass)
         (fm := {[ 0 := 0 ]} : gmap Z Z) (G := 0) (il := @nil Z) (L := @nil Z) as (st' & L' & Hst & Hi & HL).
  - rewrite Hel. repeat constructor; intros pool; vm_compute; discriminate.
  - rewrite Hsz. reflexivity.
  - reflexivity.
  - vm_compute. reflexivity.
  - exact DgWalk.ex_visited.
  - intros n _. apply DgWalk.ex_blocks.
  - apply Extractor.new_located.
  - intros i r Hi Hr. apply elem_of_list_to_set. cbn in Hi. unfold Extractor.roots in Hr.
    repeat (apply elem_of_cons in Hi as [->|Hi]; [vm_compute in Hr; set_solver|]). by apply elem_of_nil in Hi.
  - apply Instrument.new_hooks.
  - intros i Hi%elem_of_nil. done.
  - reflexivity.
  - reflexivity.
  - reflexivity.
  - reflexivity.
  - intros n. cbn. by rewrite lookup_empty.
  - rewrite Hsz. lia.
  - vm_compute. lia.
  - exists st'. split; [exact Hst|]. exists L'. split; [exact Hi|]. split.
    + apply HL. right. split; [by eexists|]. split; [done|]. split.
      * exists 3. split; [|by left]. apply list_elem_of_bind. exists 3. split; [by apply list_elem_of_singleton|]. by left.
      * exists 0. split; [by left|]. split; [done|]. split; [done|]. split; [done|].
        apply (rtc_l _ _ 1); [|apply rtc_once]; by apply list_elem_of_singleton.
    + rewrite HL. intros [?%elem_of_nil|(_ & _ & _ & v & _ & _ & Hne & _ & Hreach)]; [done|].
      clear HL. apply rtc_inv in Hreach as [E|(w & Hw & _)]; [exact (Hne (eq_sym E))|].
      change (w ∈ @nil Z) in Hw. by apply elem_of_nil in Hw.
Defined.

End SlicingPass.
