(* ===== verification/SlicerTool.v ===== *)
(** * The stand-alone slicer (analyzer/tools/slicer/main.cpp)

    The command line tool that slices from the instructions of its criteria and, if
    asked to, instruments the slices and writes the instrumented program.  It
    differs from the pass (file SlicingPass) in its options, in being able to
    build the dependence graph of one function only, and in passing over an
    instruction for which there is no slice graph. *)
From stdpp Require Import base list gmap relations strings.
From S2P Require Import Prelude Strings GuidMap Options Matcher Slice SliceGraph ComputeSlices SliceOrder DgWalk Slicer SliceFault DefUse Extractor Instrument Prepare SlicingPass.
Import Strings.

Module SlicerTool.

(** The command line options. *)
Record options := MkOptions {
  sliceFunc : chars;
  sliceInst : chars;
  sliceInstNo : Z;
  sliceDir : Slice.SliceDirection;
  sliceCriteria : chars;
  instrumentPmemSlice : bool;
  instrumentOutput : chars;
  enablePTA : bool;
  enableCtrl : bool;
  enableThd : bool;
  intraProcedural : bool;
  interProcedural : bool;
  entryOnly : bool
}.

(** Their values when they are not given. *)
Definition default_options : options :=
  MkOptions [] [] 0 Slice.Backward [] false [] true false true false true false.

Definition createDgFlags (o : options) : Z :=
  Slicer.set_if (interProcedural o) Slicer.INTER_PROCEDURAL
    (Slicer.set_if (intraProcedural o) Slicer.INTRA_PROCEDURAL
      (Slicer.set_if (enableThd o) Slicer.SUPPORT_THREADS
        (Slicer.set_if (enableCtrl o) Slicer.ENABLE_CONTROL_DEP
          (Slicer.set_if (enablePTA o) Slicer.ENABLE_PTA
            (Slicer.set_if (entryOnly o) Slicer.ENTRY_ONLY 0))))).

(** The criteria are matched fuzzily and without debug annotations. *)
Definition criteria_of (o : options) : Prepare.SliceInstCriteriaOpt :=
  Prepare.MkCriteria (sliceCriteria o) (sliceInst o) (sliceFunc o) (sliceInstNo o) true true.

Section Tool.
Context {Value Fn Node Block Graph : Type}.
Context `{Countable Value} `{Countable Fn} `{Countable Node} `{Countable Block} `{Countable Graph}.
Context (lv : Instrument.llvm_view (Value := Value)) (uv : DefUse.use_view Value).
Context (kind : Value -> Extractor.inst_kind (Value := Value)) (getName : Value -> chars).
Context (getFunction : Value -> Fn) (body_of : Fn -> Extractor.function (Value := Value)).
Context (dg : DgWalk.dependence_graph Value Node Block Graph).
Context (gv : Slicer.graph_view (Instr := Value) (Node := Node) (Block := Block) (Graph := Graph)).
Context (walk : Z -> Node -> list Node).
Abbreviation slicer_state := (Slicer.DgSlicer (Fn := Fn) (Graph := Graph)).
Abbreviation dg_state := (Slicer.dg_state (Node := Node) (Block := Block) (Graph := Graph)).
Abbreviation pass_state := (SlicingPass.pass_state (Value := Value) (Fn := Fn) (Node := Node) (Block := Block) (Graph := Graph)).

(** The slices of an instruction; there are none without a slice graph. *)
Definition instructionSlice (fuel : nat) (o : options) (s : slicer_state) (d : dg_state)
    (fault_inst : Value) (persistent_vars : gset Value) (c : Slice.counters)
  : option (option (list (Slice.Slice Value) * slicer_state * dg_state * Slice.counters)) :=
  let flags := Slicer.set_if (enableCtrl o) DgWalk.CONTROL DgWalk.DEFAULT_DEPENDENCY_FLAGS in
  r ← Slicer.slice dg getFunction gv walk fuel s d fault_inst 0 Slicer.Storing flags;
  match r with
  | None => Some None
  | Some (None, _, s', d') => Some (Some ([], s', d', c))
  | Some (Some g, _, s', d') =>
    w ← ComputeSlices.computeSlices getFunction fuel g Slice.no_slices true false;
    match w with
    | None => Some None
    | Some w =>
      let slices := omap (fun i => ComputeSlices.store w !! i) (Slice.slices (ComputeSlices.added w)) in
      let '(c', ss) := Slice.set_all persistent_vars c slices in Some (Some (ss, s', d', c'))
    end
  end.

(** The body of the loop over the start instructions. *)
Definition slice_from (fuel : nat) (o : options) (st : pass_state) (fault_inst : Value) : option (option pass_state) :=
  let F := getFunction fault_inst in
  locator ← Extractor.runOnFunction uv kind getName fuel (default Extractor.new_locator (SlicingPass.locatorMap st !! F)) (body_of F);
  r ← instructionSlice fuel o (SlicingPass.dgSlicer st) (SlicingPass.dgs st) fault_inst
        (list_to_set (Extractor.varList locator)) (SlicingPass.counts st);
  match r with
  | None => Some None
  | Some (ss, s', d', c') =>
    r ← (if instrumentPmemSlice o
         then SlicingPass.or_all (SlicingPass.instrument_slice lv uv (Extractor.useDefMap locator))
                (SlicingPass.instrumented st, SlicingPass.instrumenter st) ss
         else Some (SlicingPass.instrumented st, SlicingPass.instrumenter st));
    Some (Some (SlicingPass.MkPass (<[F := locator]> (SlicingPass.locatorMap st)) s' d' c' r.1 r.2))
  end.

Fixpoint slice_all (fuel : nat) (o : options) (st : pass_state) (startInstrs : list Value) : option (option pass_state) :=
  match startInstrs with
  | [] => Some (Some st)
  | i :: l =>
    r ← slice_from fuel o st i;
    match r with None => Some None | Some st' => slice_all fuel o st' l end
  end.

(** What a run leaves: the result, the text of the guid map file if one is written,
    and how the program that is written, if one is, differs from the one that was read. *)
Record outcome := MkOutcome {
  result : bool;
  guid_map : option chars;
  written_program : option (SlicingPass.module_changes (Value := Value))
}.

Definition slice (build : Slicer.llvm_dg_options Fn -> option (gmap Fn Graph)) (has_main : bool) (getOrInsertFunction : chars -> bool)
    (garbage_line : Z) (guid_file_opens : bool) (fuel : nat) (o : options) (startInstrs : list Value) : option (option outcome) :=
  match startInstrs with
  | [] => Some (Some (MkOutcome false None None))
  | first :: _ =>
    let entry := if entryOnly o then Some (getFunction first) else None in
    let '(_, slicer) := Slicer.computeDependencies (build (Slicer.createDgOptions (createDgFlags o) entry)) (Slicer.new_slicer (sliceDir o)) in
    '(hooks, ins) ← (if instrumentPmemSlice o then Instrument.initHookFuncs has_main getOrInsertFunction (Instrument.new_instrumenter false)
                     else Some (true, Instrument.new_instrumenter false));
    if negb (hooks : bool) then Some (Some (MkOutcome false None None))
    else
      r ← slice_all fuel o (SlicingPass.MkPass ∅ slicer (Slicer.MkDgState 0 ∅ (DgWalk.MkMarks ∅ ∅ ∅)) (Slice.MkCounters 0 0 0) false ins) startInstrs;
      match r with
      | None => Some None
      | Some st =>
        text ← (if instrumentPmemSlice o then Instrument.writeGuidHookPointMap lv garbage_line guid_file_opens (SlicingPass.instrumenter st)
                else Some None);
        Some (Some (MkOutcome (SlicingPass.instrumented st) text
          (if bool_decide (instrumentOutput o = []) then None else Some (SlicingPass.changes_of (SlicingPass.instrumenter st)))))
      end
  end.

(** [main]: the exit code, and what [slice] left; its result is not looked at.
    [None] for the module is a file that cannot be parsed. *)
Definition main (debug_line : Value -> option Z) (parsed : option (list (Matcher.Function_ Value)))
    (build : Slicer.llvm_dg_options Fn -> option (gmap Fn Graph)) (has_main : bool) (getOrInsertFunction : chars -> bool)
    (garbage_line : Z) (guid_file_opens : bool) (fuel : nat) (o : options) : option (option (Z * option outcome)) :=
  match parsed with
  | None => Some (Some (1, None))
  | Some fs =>
    '(found, startInstrs) ← Prepare.parseSlicingCriteriaOpt debug_line (Instrument.print lv) fs (criteria_of o) [];
    if negb (found : bool) then Some (Some (1, None))
    else
      r ← slice build has_main getOrInsertFunction garbage_line guid_file_opens fuel o startInstrs;
      Some (match r with None => None | Some x => Some (0, Some x) end)
  end.

(** ** The tool and the pass *)

(** The options under which the tool does what the pass does. *)
Definition as_pass (o : options) : Prop :=
  enablePTA o = true /\ enableCtrl o = false /\ enableThd o = true /\ intraProcedural o = false /\
  interProcedural o = true /\ entryOnly o = false.

Lemma flags_as_pass o : as_pass o -> createDgFlags o = SlicingPass.pass_flags.
Proof. intros (Hp & Hc & Ht & Hi & He & Hn). unfold createDgFlags. by rewrite Hp, Hc, Ht, Hi, He, Hn. Qed.

Lemma instructionSlice_as_pass fuel o s d i vars c x :
  enableCtrl o = false -> SlicingPass.instructionSlice getFunction dg gv walk fuel s d i vars c = Some x ->
  instructionSlice fuel o s d i vars c = Some x.
Proof.
  intros Hc. unfold SlicingPass.instructionSlice, instructionSlice. rewrite Hc. cbn [Slicer.set_if].
  destruct (Slicer.slice _ _ _ _ _ _ _ _ _ _ _) as [[[[[[g|] sid] s'] d']|]|]; done.
Qed.

Lemma slice_from_as_pass fuel o st i x :
  enableCtrl o = false ->
  SlicingPass.slice_from lv uv kind getName getFunction body_of dg gv walk fuel (instrumentPmemSlice o) st i = Some x ->
  slice_from fuel o st i = Some x.
Proof.
  intros Hc H5. unfold SlicingPass.slice_from in H5. unfold slice_from.
  apply bind_Some in H5 as (l & Hl & H5). rewrite Hl. simpl_bind.
  apply bind_Some in H5 as (r & Hr & H5). rewrite (instructionSlice_as_pass _ _ _ _ _ _ _ _ Hc Hr). exact H5.
Qed.

Lemma slice_all_as_pass fuel o st l x :
  enableCtrl o = false ->
  SlicingPass.slice_all lv uv kind getName getFunction body_of dg gv walk fuel (instrumentPmemSlice o) st l = Some x ->
  slice_all fuel o st l = Some x.
Proof.
  intros Hc. revert st. induction l as [|i l IH]; intros st Hl; [done|]. cbn [SlicingPass.slice_all slice_all] in *.
  apply bind_Some in Hl as (r & Hr & Hl). rewrite (slice_from_as_pass _ _ _ _ _ Hc Hr). simpl_bind.
  destruct r as [st'|]; [by apply IH|done].
Qed.

(** A new instrumenter is not initialised exactly when there is no [main]. *)
Lemma init_hooks_main (o : options) has_main gof hooks (ins : Instrument.PmemAddrInstrumenter (Value := Value)) :
  (if instrumentPmemSlice o then Instrument.initHookFuncs has_main gof (Instrument.new_instrumenter false)
   else Some (true, Instrument.new_instrumenter false)) = Some (hooks, ins) ->
  hooks = negb (instrumentPmemSlice o && negb has_main).
Proof.
  unfold Instrument.initHookFuncs. destruct (instrumentPmemSlice o), has_main; cbn [Instrument.initialized Instrument.new_instrumenter negb andb];
    repeat case_match; naive_solver.
Qed.

(** C28. With the options of the pass the tool does what the pass does: whenever the pass
    has a result and there is an instruction to start from, the tool exits with 0
    and leaves the same result, the same guid map and, in the program it writes, exactly
    the changes the pass makes to the module: the same hooks in the same order, the
    same calls at the start of [main] and the same destructors.  It writes no program
    when no output file is named or when hooks are wanted in a program without [main].
    Where the pass uses a null slice graph the tool goes on without slices: it is
    defined on every instruction the slicer gives an answer for. *)
Theorem slicer_tool_refines_pass debug_line fs build has_main gof garbage_line opens fuel o b text changes i l :
  as_pass o ->
  Prepare.parseSlicingCriteriaOpt debug_line (Instrument.print lv) fs (criteria_of o) [] = Some (true, i :: l) ->
  SlicingPass.runOnModule lv uv kind getName getFunction body_of dg gv walk debug_line fs build has_main gof garbage_line opens
    fuel (criteria_of o) (sliceDir o) (instrumentPmemSlice o) = Some (Some (b, text, changes)) ->
  main debug_line (Some fs) build has_main gof garbage_line opens fuel o =
    Some (Some (0, Some (MkOutcome b text
      (if bool_decide (instrumentOutput o = []) || (instrumentPmemSlice o && negb has_main) then None else Some changes)))) /\
  (forall s d j vars c sid s' d',
     Slicer.slice dg getFunction gv walk fuel s d j 0 Slicer.Storing DgWalk.DEFAULT_DEPENDENCY_FLAGS = Some (Some (None, sid, s', d')) ->
     SlicingPass.instructionSlice getFunction dg gv walk fuel s d j vars c = None /\
     instructionSlice fuel o s d j vars c = Some (Some ([], s', d', c))).
Proof.
  intros Ho Hi Hrun. pose proof Ho as (_ & Hc & _ & _ & _ & Hn). split.
  - unfold main, SlicingPass.runOnModule in *. rewrite Hi in Hrun |- *. cbn [mbind option_bind negb] in Hrun |- *.
    unfold slice. rewrite Hn, (flags_as_pass o Ho).
    destruct (Slicer.computeDependencies _ _) as [ok slicer].
    destruct (if instrumentPmemSlice o then _ else _) as [[hooks ins]|] eqn:Hins; [|done]. cbn [mbind option_bind] in Hrun |- *.
    apply init_hooks_main in Hins as ->. destruct (instrumentPmemSlice o && negb has_main) eqn:Hno; cbn [negb] in Hrun |- *.
    { injection Hrun as <- <- _. by rewrite orb_true_r. }
    rewrite orb_false_r. apply bind_Some in Hrun as (r & Hr & Hrun). rewrite (slice_all_as_pass _ _ _ _ _ Hc Hr). cbn [mbind option_bind].
    destruct r as [st|]; [|done]. apply bind_Some in Hrun as (t & Ht & Hrun). rewrite Ht. cbn [mbind option_bind].
    injection Hrun as <- <- <-. by case_bool_decide.
  - intros s d j vars c sid s' d' Hs. unfold SlicingPass.instructionSlice, instructionSlice. rewrite Hc. cbn [Slicer.set_if].
    by rewrite Hs.
Qed.

End Tool.

(** ** A concrete run

    The program of [SlicingPass], sliced from its first instruction. *)
Definition ex_options : options :=
  MkOptions (lit "main") (lit "x") 1 Slice.Backward [] true (lit "out.bc") true false true false true false.

Definition ex_module : list (Matcher.Function_ Z) := [Matcher.MkFunction (lit "main") false None [[0; 1; 3]]].

#[local] Abbreviation ex_pass :=
  (SlicingPass.runOnModule SlicingPass.ex_view SlicingPass.ex_uses SlicingPass.ex_kind (fun _ => []) (fun _ => 0)
    (fun _ => Extractor.MkFunction false [3; 1; 0]) DgWalk.ex_dg SliceFault.ex_view (fun _ n => [n])
    (fun i => Some (10 + i)) ex_module (fun _ => Some ({[ 0 := 0 ]} : gmap Z Z)) true (fun _ => true) 0 true 10
    (criteria_of ex_options) (sliceDir ex_options) (instrumentPmemSlice ex_options)).

(** The pass puts hooks behind 3, which maps the pool, and behind the load 1, and the
    program that is written has them. *)
Definition ex_hooks : list (Z * Instrument.hook (Value := Z)) := [(3, Instrument.TrackAddr 3 200); (1, Instrument.TrackAddr 3 201)].

Lemma slicer_tool_refines_pass_witness :
  exists b text changes, ex_pass = Some (Some (b, text, changes)) /\ b = true /\ SlicingPass.new_hooks changes = ex_hooks /\
    main SlicingPass.ex_view SlicingPass.ex_uses SlicingPass.ex_kind (fun _ => []) (fun _ => 0)
      (fun _ => Extractor.MkFunction false [3; 1; 0]) DgWalk.ex_dg SliceFault.ex_view (fun _ n => [n])
      (fun i => Some (10 + i)) (Some ex_module) (fun _ => Some ({[ 0 := 0 ]} : gmap Z Z)) true (fun _ => true) 0 true 10
      ex_options = Some (Some (0, Some (MkOutcome b text (Some changes)))).
Proof.
  destruct ex_pass as [[[[b text] changes]|]|] eqn:E; [|vm_compute in E; discriminate..].
  destruct (slicer_tool_refines_pass SlicingPass.ex_view SlicingPass.ex_uses SlicingPass.ex_kind (fun _ => []) (fun _ => 0)
    (fun _ => Extractor.MkFunction false [3; 1; 0]) DgWalk.ex_dg SliceFault.ex_view (fun _ n => [n])
    (fun i => Some (10 + i)) ex_module (fun _ => Some ({[ 0 := 0 ]} : gmap Z Z)) true (fun _ => true) 0 true 10
    ex_options b text changes 0 []) as [Hp _].
  - by repeat split.
  - vm_compute. reflexivity.
  - exact E.
  - exists b, text, changes. split; [reflexivity|]. vm_compute in E. injection E as <- <- <-. split; [reflexivity|]. split; [vm_compute; reflexivity|].
    exact Hp.
Defined.

End SlicerTool.
