(* ===== verification/Tools.v ===== *)
(** * The command line tools (analyzer/tools/{extractor,locator,analyzer}) and the
      printing pass (analyzer/lib/PMem/PMemVariablePass.cpp)

    Each tool is a [main] over a parsed module ([None]: the file cannot be parsed)
    and gives its exit code with what it reports; the slicer has its own file
    (SlicerTool), the instrumentor is in Instrument. *)
From stdpp Require Import base list gmap relations strings.
From Stdlib Require Import Ascii.
From S2P Require Import Prelude Strings GuidMap AddrTrace Options Matcher Slice DgWalk Slicer DefUse Extractor Instrument Prepare.
Import Strings.

(** ** Reporting the persistent variables *)
Module Report.

Section Report.
Context {Value Fn : Type} `{Countable Value} `{Countable Fn}.
Context (uv : DefUse.use_view Value) (kind : Value -> Extractor.inst_kind (Value := Value)) (getName : Value -> chars).
Context (fn_name : Fn -> chars) (body_of : Fn -> Extractor.function (Value := Value)).

(** What is printed for a function: the calls, the variables and the regions. *)
Record report := MkReport {
  calls : list Value;
  variables : list Value;
  regions : list (Value * Value)
}.

Definition report_of (l : Extractor.PMemVariableLocator (Value := Value)) : report :=
  MkReport (Extractor.callList l) (Extractor.varList l)
    (map_to_list (Extractor.regionList l) ≫= fun e => (fun size => (e.1, size)) <$> e.2).

(** A function with a body, one of those asked for; all are when none is. *)
Definition is_target (targets : gset chars) (F : Fn) : bool :=
  negb (Extractor.isDeclaration (body_of F)) && (bool_decide (targets = ∅) || bool_decide (fn_name F ∈ targets)).

(** [PMemVariablePass::runOnFunction], with its result. *)
Definition runOnFunction (fuel : nat) (F : Fn) : option (bool * report) :=
  l ← Extractor.runOnFunction uv kind getName fuel Extractor.new_locator (body_of F); Some (false, report_of l).

(** [PMemVariablePass::runOnModule]. *)
Definition runOnModule (fuel : nat) (targets : gset chars) (M : list Fn) : option (bool * list report) :=
  mfold (fun acc F => if is_target targets F then r ← runOnFunction fuel F; Some (acc.1 || r.1, acc.2 ++ [r.2]) else Some acc)
    (false, []) M.

(** ** What is reported *)
Context (all : gset Value) (fuel : nat).
Context (Hclosed : forall v w, v ∈ all -> DefUse.step uv v w -> w ∈ all) (Hfuel : (size all <= fuel)%nat).

(** The report of a function: its persistent variables and their users, and its regions. *)
Definition reports (F : Fn) (r : report) : Prop :=
  NoDup (variables r) /\
  (forall v, v ∈ variables r <-> Extractor.persistent uv (Extractor.body (body_of F) ≫= Extractor.roots kind getName) v) /\
  (forall v size, (v, size) ∈ regions r <-> v ∈ Extractor.body (body_of F) /\ Extractor.region_size kind v = Some size).

Definition in_all (F : Fn) : Prop :=
  NoDup (Extractor.body (body_of F)) /\
  forall i r, i ∈ Extractor.body (body_of F) -> r ∈ Extractor.roots kind getName i -> r ∈ all.

Lemma report_ok F :
  in_all F -> exists l, Extractor.runOnFunction uv kind getName fuel Extractor.new_locator (body_of F) = Some l /\
    reports F (report_of l).
Proof.
  intros [Hnd Hin].
  destruct (Extractor.runOnFunction_ok uv kind getName all fuel Hclosed Hfuel [] (body_of F) Extractor.new_locator) as (l & Hl & Hloc);
    [exact Hin|apply Extractor.new_located|]. cbn [app] in Hloc.
  exists l. split; [done|]. split; [apply (Extractor.lc_nodup _ _ _ _ _ Hloc)|]. split; [apply (Extractor.lc_vars _ _ _ _ _ Hloc)|].
  intros v size. unfold report_of. cbn [regions]. rewrite list_elem_of_bind. rewrite (Extractor.lc_regions _ _ _ _ _ Hloc).
  assert (forall w sizes, (w, sizes) ∈ map_to_list (Extractor.regions_of kind (Extractor.body (body_of F)) ∅) <->
    w ∈ Extractor.body (body_of F) /\ exists size, Extractor.region_size kind w = Some size /\ sizes = [size]) as Hm.
  { intros w sizes. rewrite elem_of_map_to_list, Extractor.regions_of_lookup by (try done; intros; apply lookup_empty).
    case_decide; [|rewrite lookup_empty; split; [done|tauto]]. rewrite fmap_Some. naive_solver. }
  split.
  - intros ([w sizes] & Hi & (Hw & s & Hs & ->)%Hm). cbn in Hi. by apply list_elem_of_singleton in Hi as [= -> ->].
  - intros (Hv & Hs). exists (v, [size]). split; [by apply list_elem_of_singleton|]. apply Hm. eauto.
Qed.

(** The pass changes nothing, and reports on the target functions, in the order of the
    module, exactly their persistent variables and regions. *)
Theorem pmem_pass_reports targets M :
  Forall in_all M ->
  exists rs, runOnModule fuel targets M = Some (false, rs) /\
    Forall2 reports (filter (fun F => is_target targets F = true) M) rs.
Proof.
  intros HM. unfold runOnModule.
  enough (forall acc, exists rs, mfold (fun acc F => if is_target targets F then r ← runOnFunction fuel F; Some (acc.1 || r.1, acc.2 ++ [r.2]) else Some acc)
      (false, acc) M = Some (false, acc ++ rs) /\ Forall2 reports (filter (fun F => is_target targets F = true) M) rs) as Hen by apply (Hen []).
  induction HM as [|F M HF HM IH]; intros acc; cbn [mfold].
  { exists []. by rewrite app_nil_r. }
  destruct (is_target targets F) eqn:Ht; simpl_bind.
  - destruct (report_ok F HF) as (l & Hl & Hr).
    assert (runOnFunction fuel F = Some (false, report_of l)) as -> by (unfold runOnFunction; by rewrite Hl). cbn [mbind option_bind fst snd orb].
    destruct (IH (acc ++ [report_of l])) as (rs & Hrs & Hall). exists (report_of l :: rs).
    rewrite filter_cons_True by done. split; [|by constructor]. by rewrite <- app_assoc in Hrs.
  - destruct (IH acc) as (rs & Hrs & Hall). exists rs. rewrite filter_cons_False by congruence. done.
Qed.

End Report.

End Report.

(** ** The extractor *)
Module ExtractorTool.

Section Tool.
Context {Value Fn Graph : Type} `{Countable Value} `{Countable Fn}.
Context (uv : DefUse.use_view Value) (kind : Value -> Extractor.inst_kind (Value := Value)) (getName : Value -> chars).
Context (fn_name : Fn -> chars) (body_of : Fn -> Extractor.function (Value := Value)).

(** The global variables. *)
Record globals := MkGlobals {
  pmem_vars : gset Value;
  insert_count : Z;
  instruction_count : Z
}.

Definition no_globals : globals := MkGlobals ∅ 0 0.

(** The loop over a points-to set; [None] is a target without a value. *)
Definition check_pointer (val : Value) (g : globals) (ptr : option Value) : globals :=
  match ptr with
  | None => g
  | Some p_val =>
    if decide (p_val ∈ pmem_vars g)
    then MkGlobals ({[ val ]} ∪ pmem_vars g) (s32 (insert_count g + 1)) (instruction_count g)
    else g
  end.

Definition check_instruction (getPointsTo : Value -> option (list (option Value))) (g : globals) (val : Value) : globals :=
  let g1 := MkGlobals (pmem_vars g) (insert_count g) (s32 (instruction_count g + 1)) in
  match getPointsTo val with
  | None => g1
  | Some pointsTo => foldl (check_pointer val) g1 pointsTo
  end.

Definition extractPmemPointers (getPointsTo : Value -> option (list (option Value))) (insts : list Value) (g : globals) : globals :=
  foldl (check_instruction getPointsTo) g insts.

Definition extractPmemVarInFunc (fuel : nat) (F : Fn) (g : globals) : option (Report.report * globals) :=
  l ← Extractor.runOnFunction uv kind getName fuel Extractor.new_locator (body_of F);
  Some (Report.report_of l, MkGlobals (list_to_set (Extractor.varList l) ∪ pmem_vars g) (insert_count g) (instruction_count g)).

(** The first loop of [main]. *)
Definition locate (fuel : nat) (targets : gset chars) (M : list Fn) : option (list Report.report * globals) :=
  mfold (fun acc F => if Report.is_target fn_name body_of targets F
                      then r ← extractPmemVarInFunc fuel F acc.2; Some (acc.1 ++ [r.1], r.2) else Some acc)
    ([], no_globals) M.

(** The second one; [None] is the use of the end iterator for a function without a
    dependence graph. *)
Definition propagate (s : Slicer.DgSlicer (Fn := Fn) (Graph := Graph)) (analyses : Graph -> option (Value -> option (list (option Value))))
    (Functions : list Fn) (g : globals) : option globals :=
  mfold (fun g F =>
    subdg ← Slicer.getDependenceGraph s F;
    match subdg ≫= analyses with
    | None => Some g
    | Some pts => Some (extractPmemPointers pts (Extractor.insts (body_of F)) g)
    end) g Functions.

Definition dg_flags : Z := Z.lor Slicer.ENABLE_PTA Slicer.INTER_PROCEDURAL.

(** [main]: the exit code, the reports and the variables with the two counts that are
    printed.  [by_address] is the order of a [std::set] of pointers; [analyses] gives
    the points-to sets of a graph that has both analyses. *)
Definition extractor_main (parsed : option (list Fn)) (targets : gset chars) (by_address : list Fn -> list Fn)
    (build : Slicer.llvm_dg_options Fn -> option (gmap Fn Graph)) (analyses : Graph -> option (Value -> option (list (option Value))))
    (fuel : nat) : option (Z * list Report.report * globals) :=
  match parsed with
  | None => Some (1, [], no_globals)
  | Some M =>
    r ← locate fuel targets M;
    let Functions := filter (fun F => Report.is_target fn_name body_of targets F = true) M in
    let '(_, slicer) := Slicer.computeDependencies (build (Slicer.createDgOptions dg_flags None)) (Slicer.new_slicer Slice.Full) in
    g ← propagate slicer analyses (by_address Functions) r.2;
    Some (0, r.1, g)
  end.

(** ** What the extractor finds *)

(** The instructions with what they point to, in the order in which they are visited. *)
Abbreviation pointers := (list (Value * list (option Value))).

Definition hit (vars : gset Value) (ptr : option Value) : bool :=
  match ptr with Some p => bool_decide (p ∈ vars) | None => false end.

Definition visit (vars : gset Value) (e : Value * list (option Value)) : gset Value :=
  if existsb (hit vars) e.2 then {[ e.1 ]} ∪ vars else vars.

(** A value is in the set before the [n]th instruction: it was located, or an earlier
    instruction produces it that points to something in the set by then. *)
Inductive derived (vars : gset Value) (l : pointers) : nat -> Value -> Prop :=
  | derived_located n v : v ∈ vars -> derived vars l n v
  | derived_pointer m n v ps p :
      l !! m = Some (v, ps) -> (m < n)%nat -> Some p ∈ ps -> derived vars l m p -> derived vars l n v.

Definition pointers_of (fm : gmap Fn Graph) (analyses : Graph -> option (Value -> option (list (option Value)))) (F : Fn) : pointers :=
  match (fm !! F) ≫= analyses with
  | None => []
  | Some pts => (fun i => (i, default [] (pts i))) <$> Extractor.insts (body_of F)
  end.

Lemma hit_exists vars ps : existsb (hit vars) ps = true <-> exists p, Some p ∈ ps /\ p ∈ vars.
Proof.
  rewrite existsb_exists. split.
  - intros ([p|] & Hp & Hv); [|done]. exists p. split; [by apply list_elem_of_In|]. by apply bool_decide_eq_true in Hv.
  - intros (p & Hp & Hv). exists (Some p). split; [by apply list_elem_of_In|]. by apply bool_decide_eq_true.
Qed.

Lemma check_pointers val g ps :
  pmem_vars (foldl (check_pointer val) g ps) = visit (pmem_vars g) (val, ps) /\
  instruction_count (foldl (check_pointer val) g ps) = instruction_count g.
Proof.
  clear kind getName. unfold visit. cbn [fst snd]. revert g. induction ps as [|ptr ps IH]; intros g; [done|]. cbn [foldl existsb].
  destruct (IH (check_pointer val g ptr)) as [-> ->]. unfold check_pointer, hit at 2. destruct ptr as [p|]; [|done].
  case_decide as Hp.
  - rewrite bool_decide_eq_true_2 by done. split; [|done]. cbn [orb pmem_vars].
    destruct (existsb _ ps); [|done]. set_solver.
  - rewrite bool_decide_eq_false_2 by done. done.
Qed.

Lemma extract_ok pts l g :
  pmem_vars (extractPmemPointers pts l g) = foldl visit (pmem_vars g) ((fun i => (i, default [] (pts i))) <$> l) /\
  instruction_count (extractPmemPointers pts l g) = foldl (fun n _ => s32 (n + 1)) (instruction_count g) l.
Proof.
  revert g. induction l as [|i l IH]; intros g; [done|]. unfold extractPmemPointers in *. cbn [foldl fmap list_fmap].
  destruct (IH (check_instruction pts g i)) as [-> ->]. unfold check_instruction.
  destruct (pts i) as [ps|]; [|done]. cbn [default from_option]. destruct (check_pointers i (MkGlobals (pmem_vars g) (insert_count g) (s32 (instruction_count g + 1))) ps) as [-> ->].
  done.
Qed.

(** The set of the extractor is the one the instrumentor computes. *)
Lemma check_pointers_agree i ps g :
  pmem_vars (foldl (check_pointer i) g ps) =
    foldl (fun vars ptr => match ptr with
                           | None => vars
                           | Some p_val => if decide (p_val ∈ vars) then {[ i ]} ∪ vars else vars
                           end) (pmem_vars g) ps.
Proof.
  revert g. induction ps as [|[p|] ps IH]; intros g; [done| |]; cbn [foldl]; rewrite IH; [|done].
  f_equal. unfold check_pointer. by case_decide.
Qed.

Lemma extractor_agrees pts l g : pmem_vars (extractPmemPointers pts l g) = Instrument.instrumentPmemPointers pts l (pmem_vars g).
Proof.
  revert g. induction l as [|i l IH]; intros g; [done|]. unfold extractPmemPointers, Instrument.instrumentPmemPointers in *. cbn [foldl].
  rewrite IH. f_equal. unfold check_instruction. destruct (pts i) as [ps|]; [|done].
  etrans; [apply check_pointers_agree|done].
Qed.

Lemma derived_app vars l e n v : (n <= length l)%nat -> derived vars (l ++ [e]) n v <-> derived vars l n v.
Proof.
  intros Hn. split.
  - intros Hd. induction Hd as [n v Hv|m n v ps p Hl Hm Hp Hd IH]; [by left|].
    rewrite lookup_app_l in Hl by lia. eapply derived_pointer; [exact Hl|done..|]. apply IH. lia.
  - intros Hd. induction Hd as [n v Hv|m n v ps p Hl Hm Hp Hd IH]; [by left|].
    eapply derived_pointer; [by apply lookup_app_l_Some|done..|]. apply IH. lia.
Qed.

Lemma derived_mono vars l m n v : (m <= n)%nat -> derived vars l m v -> derived vars l n v.
Proof.
  intros Hmn Hd. destruct Hd as [n0 v0 Hv|m0 n0 v0 ps p Hl Hm Hp Hd]; [by left|]. eapply derived_pointer; [exact Hl|lia|done|done].
Qed.

Lemma visit_derived vars l v : v ∈ foldl visit vars l <-> derived vars l (length l) v.
Proof.
  clear kind getName. revert v. induction l as [|e l IH] using rev_ind; intros v.
  { cbn. split; [by left|]. intros Hd. inversion Hd as [|m n ? ps p Hl]; subst; [done|]. by rewrite lookup_nil in Hl. }
  rewrite foldl_app. cbn [foldl]. unfold visit at 1. rewrite length_app. cbn [length]. rewrite Nat.add_1_r.
  assert (derived vars (l ++ [e]) (S (length l)) v <-> derived vars l (length l) v \/
    (v = e.1 /\ exists p, Some p ∈ e.2 /\ derived vars l (length l) p)) as ->.
  { split.
    - intros Hd. inversion Hd as [n v' Hv|m n v' ps p Hl Hm Hp Hd']; subst; [left; by left|].
      destruct (decide (m = length l)) as [->|].
      + rewrite lookup_app_r, Nat.sub_diag in Hl by lia. cbn in Hl. injection Hl as ->. right. split; [done|].
        exists p. split; [done|]. by apply derived_app in Hd'.
      + left. rewrite lookup_app_l in Hl by lia. eapply derived_pointer; [exact Hl|lia|done|].
        apply derived_app in Hd'; [done|lia].
    - intros [Hd|(-> & p & Hp & Hd)].
      + apply (derived_mono _ _ (length l)); [lia|]. by apply derived_app.
      + apply (derived_pointer vars _ (length l) _ _ e.2 p); [|lia|done|by apply derived_app].
        rewrite lookup_app_r, Nat.sub_diag by lia. by destruct e. }
  rewrite <- IH. setoid_rewrite <- IH. destruct (existsb (hit (foldl visit vars l)) e.2) eqn:E.
  - apply hit_exists in E. set_solver.
  - assert (~ exists p, Some p ∈ e.2 /\ p ∈ foldl visit vars l) as Hno by (rewrite <- hit_exists; congruence). tauto.
Qed.

(** ** The whole tool *)
Context (all : gset Value) (fuel : nat).
Context (Hclosed : forall v w, v ∈ all -> DefUse.step uv v w -> w ∈ all) (Hfuel : (size all <= fuel)%nat).
Abbreviation targets_in targets M := (filter (fun F => Report.is_target fn_name body_of targets F = true) M).

Lemma locate_ok targets M :
  Forall (Report.in_all kind getName body_of all) M ->
  exists rs, locate fuel targets M = Some (rs, MkGlobals (list_to_set (rs ≫= Report.variables)) 0 0) /\
    Forall2 (Report.reports uv kind getName body_of) (targets_in targets M) rs.
Proof.
  intros HM. unfold locate, no_globals.
  enough (forall acc vars, exists rs, mfold (fun acc F => if Report.is_target fn_name body_of targets F
        then r ← extractPmemVarInFunc fuel F acc.2; Some (acc.1 ++ [r.1], r.2) else Some acc) (acc, MkGlobals vars 0 0) M =
      Some (acc ++ rs, MkGlobals (list_to_set (rs ≫= Report.variables) ∪ vars) 0 0) /\
      Forall2 (Report.reports uv kind getName body_of) (targets_in targets M) rs) as Hen.
  { destruct (Hen [] ∅) as (rs & Hrs & ?). exists rs. split; [|done]. rewrite Hrs. by rewrite union_empty_r_L. }
  induction HM as [|F M HF HM IH]; intros acc vars; cbn [mfold].
  { exists []. rewrite app_nil_r. split; [|constructor]. do 3 f_equal. set_solver. }
  destruct (Report.is_target fn_name body_of targets F) eqn:Ht; simpl_bind.
  - destruct (Report.report_ok uv kind getName fn_name body_of all fuel Hclosed Hfuel F HF) as (l & Hl & Hr).
    assert (extractPmemVarInFunc fuel F (MkGlobals vars 0 0) =
      Some (Report.report_of l, MkGlobals (list_to_set (Extractor.varList l) ∪ vars) 0 0)) as E
      by (unfold extractPmemVarInFunc; by rewrite Hl).
    cbn [snd]. rewrite E. cbn [mbind option_bind fst snd].
    destruct (IH (acc ++ [Report.report_of l]) (list_to_set (Extractor.varList l) ∪ vars)) as (rs & Hrs & Hall).
    exists (Report.report_of l :: rs). rewrite filter_cons_True by done. split; [|by constructor].
    rewrite Hrs, <- app_assoc. cbn [app mbind list_bind]. rewrite list_to_set_app_L. do 3 f_equal. set_solver.
  - destruct (IH acc vars) as (rs & Hrs & Hall). exists rs. rewrite filter_cons_False by congruence. done.
Qed.

Lemma s32_succ n : s32 (s32 n + 1) = s32 (n + 1).
Proof.
  unfold s32. replace ((n + 2 ^ 31) mod 2 ^ 32 - 2 ^ 31 + 1 + 2 ^ 31) with ((n + 2 ^ 31) mod 2 ^ 32 + 1) by lia.
  rewrite Zplus_mod_idemp_l. f_equal. f_equal. lia.
Qed.

Lemma count_s32 (A : Type) n (l : list A) : foldl (fun n _ => s32 (n + 1)) (s32 n) l = s32 (n + Z.of_nat (length l)).
Proof.
  revert n. induction l as [|x l IH]; intros n; cbn [foldl length].
  - f_equal. lia.
  - rewrite s32_succ, IH. f_equal. lia.
Qed.

Lemma propagate_ok s fm analyses Functions g n :
  Slicer.funcDgMap s = Some fm -> Forall (fun F => is_Some (fm !! F)) Functions -> instruction_count g = s32 n ->
  exists g', propagate s analyses Functions g = Some g' /\
    pmem_vars g' = foldl visit (pmem_vars g) (Functions ≫= pointers_of fm analyses) /\
    instruction_count g' = s32 (n + Z.of_nat (length (Functions ≫= pointers_of fm analyses))).
Proof.
  intros Hs HF. revert g n. induction HF as [|F Functions [G HG] HF IH]; intros g n Hn.
  { exists g. split; [done|]. split; [done|]. rewrite Hn. cbn. f_equal. lia. }
  unfold propagate in *. cbn [mfold mbind list_bind]. rewrite foldl_app, length_app.
  assert (Slicer.getDependenceGraph s F = Some (Some G)) as -> by (unfold Slicer.getDependenceGraph; by rewrite Hs, HG).
  assert (pointers_of fm analyses F = match analyses G with
    | None => [] | Some pts => (fun i => (i, default [] (pts i))) <$> Extractor.insts (body_of F) end) as ->
    by (unfold pointers_of; by rewrite HG).
  cbn [mbind option_bind].
  destruct (analyses G) as [pts|].
  - destruct (extract_ok pts (Extractor.insts (body_of F)) g) as [Hv Hc].
    rewrite Hn, count_s32 in Hc. destruct (IH _ _ Hc) as (g' & Hg' & Hv' & Hc'). exists g'. split; [exact Hg'|].
    rewrite Hv', Hv, Hc'. split; [done|]. f_equal. rewrite length_fmap. lia.
  - destruct (IH _ _ Hn) as (g' & Hg' & Hv' & Hc'). exists g'. split; [exact Hg'|]. split; [done|]. rewrite Hc'. cbn. f_equal.
Qed.

(** C39. The extractor reports on the functions asked for exactly their persistent
    variables and regions, and then follows the points-to sets once: its final set
    holds a value exactly if it was located, or an instruction produces it that
    points to a value that was in the set when the instruction was visited.  It
    exits with 0 and counts the instructions it visits, in an [int]. *)
Theorem extractor_finds targets M by_address build analyses fm :
  Forall (Report.in_all kind getName body_of all) M ->
  build (Slicer.createDgOptions dg_flags None) = Some fm ->
  Forall (fun F => is_Some (fm !! F)) (by_address (targets_in targets M)) ->
  exists rs g, extractor_main (Some M) targets by_address build analyses fuel = Some (0, rs, g) /\
    Forall2 (Report.reports uv kind getName body_of) (targets_in targets M) rs /\
    let seq := by_address (targets_in targets M) ≫= pointers_of fm analyses in
    (forall v, v ∈ pmem_vars g <-> derived (list_to_set (rs ≫= Report.variables)) seq (length seq) v) /\
    instruction_count g = s32 (Z.of_nat (length seq)).
Proof.
  intros HM Hb Hfm. destruct (locate_ok targets M HM) as (rs & Hrs & Hall). unfold extractor_main. rewrite Hrs. simpl_bind.
  cbn [fst snd]. unfold Slicer.computeDependencies. cbn [Slicer.dependency_computed Slicer.new_slicer]. rewrite Hb.
  destruct (propagate_ok (Slicer.MkSlicer Slice.Full 0 true (Some fm) Slicer.no_statistics) fm analyses _
    (MkGlobals (list_to_set (rs ≫= Report.variables)) 0 0) 0 eq_refl Hfm eq_refl) as (g & Hg & Hv & Hc).
  cbn [Slicer.direction Slicer.last_slice_id Slicer.stats Slicer.new_slicer]. rewrite Hg. cbn [mbind option_bind].
  exists rs, g. split; [done|]. split; [done|]. cbv zeta. rewrite Hv, Hc. split; [|done]. intros v. apply visit_derived.
Qed.

End Tool.

(** 1 maps a file, 2 points to it, 3 to 2 and 0, which comes first, to 2: what 0 points
    to is persistent, but was not known to be when 0 was visited. *)
Definition ex_kind (v : nat) : Extractor.inst_kind (Value := nat) :=
  if decide (v = 1%nat) then Extractor.CallInst (Some (lit "pmem_map_file")) [8%nat; 9%nat] else Extractor.OtherInst.
Definition ex_uses : DefUse.use_view nat :=
  {| DefUse.users _ := []; DefUse.is_instruction _ := true; DefUse.is_alloca _ := false; DefUse.store_operand _ := None |}.
Definition ex_points (v : nat) : option (list (option nat)) :=
  match v with 0%nat | 3%nat => Some [None; Some 2%nat] | 2%nat => Some [Some 1%nat] | _ => None end.
Definition ex_body (f : nat) : Extractor.function (Value := nat) := Extractor.MkFunction (bool_decide (f = 1%nat)) (seq 0 4).

Lemma extractor_finds_witness :
  exists rs g, extractor_main ex_uses ex_kind (fun _ => []) (fun _ => lit "f") ex_body (Some (seq 0 2)) ∅ (fun l => l)
      (fun _ => Some ({[ 0%nat := 0%nat ]} : gmap nat nat)) (fun _ => Some ex_points) 1 = Some (0, rs, g) /\
    2%nat ∈ pmem_vars g /\ 3%nat ∈ pmem_vars g /\ 0%nat ∉ pmem_vars g.
Proof.
  destruct (extractor_finds (Graph := nat) ex_uses ex_kind (fun _ => []) (fun _ => lit "f") ex_body (list_to_set [1%nat]) 1) with
    (targets := ∅ : gset chars) (M := seq 0 2) (by_address := fun l : list nat => l) (analyses := fun _ : nat => Some ex_points)
    (build := fun _ : Slicer.llvm_dg_options nat => Some ({[ 0%nat := 0%nat ]} : gmap nat nat))
    (fm := {[ 0%nat := 0%nat ]} : gmap nat nat) as (rs & g & Hm & _ & Hv & _).
  - intros v w _ Hvw. by apply elem_of_nil in Hvw.
  - vm_compute. lia.
  - repeat constructor; try (apply (bool_decide_unpack _); vm_compute; reflexivity).
    + intros i r Hi Hr. apply elem_of_list_to_set. cbn in Hi. unfold Extractor.roots in Hr.
      repeat (apply elem_of_cons in Hi as [->|Hi]; [vm_compute in Hr; set_solver|]). by apply elem_of_nil in Hi.
    + intros i r Hi. by apply elem_of_nil in Hi.
  - reflexivity.
  - apply (bool_decide_unpack _). vm_compute. reflexivity.
  - exists rs, g. split; [exact Hm|]. vm_compute in Hm. injection Hm as <- <-.
    split_and!; apply (bool_decide_unpack _); vm_compute; reflexivity.
Defined.

End ExtractorTool.

(** ** The locator *)
Module LocatorTool.

Section Tool.
Context {Instr : Type} (debug_line : Instr -> option Z).
Abbreviation Function_ := (Matcher.Function_ Instr).
Abbreviation MatchResult := (Matcher.MatchResult Instr).

(** The locations a list of criteria stands for; one criterion is read by itself. *)
Definition file_lines (criteria : chars) : option (option (list Matcher.FileLine)) :=
  '(criteriaList, _) ← splitList criteria ","%char [];
  if decide (length criteriaList = 1%nat) then Some ((fun fl => [fl]) <$> Matcher.fromCriterionStr criteria)
  else let '(fileLines, ok) := Matcher.fromCriteriaStr criteria [] in Some (if ok : bool then Some fileLines else None).

(** [main]: the exit code and the results that are printed. *)
Definition locator_main (parsed : option (list Function_)) (criteria : chars) : option (Z * list MatchResult) :=
  match parsed with
  | None => Some (1, [])
  | Some fs =>
    '(criteriaList, _) ← splitList criteria ","%char [];
    if decide (length criteriaList = 1%nat) then
      match Matcher.fromCriterionStr criteria with
      | None => Some (1, [])
      | Some fl =>
        '(_, result) ← Matcher.matchInstrsCriterion debug_line fs fl Matcher.no_match;
        Some (0, [result])
      end
    else
      let '(fileLines, ok) := Matcher.fromCriteriaStr criteria [] in
      if negb ok then Some (1, [])
      else results ← Matcher.matchInstrsCriteria debug_line fs fileLines; Some (0, results)
  end.

(** [MatchResult::print]; the function is not initialised in a result that was never
    assigned one, and its debug information is dereferenced: [None] when there is none. *)
Definition print_result (print : Instr -> chars) (r : MatchResult) : option chars :=
  if Matcher.matched r then
    F ← Matcher.func r;
    SP ← Matcher.getSubprogram F;
    end_line ← Matcher.getLastLine debug_line F;
    Some (lit "Matched function <" ++ Matcher.getFunctionName SP ++ lit ">()" ++
          lit "@" ++ Matcher.sp_directory SP ++ lit "/" ++ Matcher.sp_filename SP ++
          lit ":" ++ print_dec (Matcher.getFirstLine F) ++ lit "," ++ print_dec end_line ++ [GuidMap.newline] ++
          concat ((fun inst => lit "- matched instruction: " ++ print inst ++ [GuidMap.newline]) <$> Matcher.instrs r))
  else Some (lit "No match found").

(** ** One criterion in a batch *)

(** What a function does to the result of a criterion. *)
Definition criterion_in (F : Function_) (c : Matcher.FileLine) (r : MatchResult) : option MatchResult :=
  if Matcher.matched r then Some r
  else SP ← Matcher.getSubprogram F;
       same ← Matcher.spMatchFilename SP (Matcher.file c);
       if (same : bool) then
         end_line ← Matcher.getLastLine debug_line F;
         if decide (Matcher.fl_line c >= Matcher.sp_line SP /\ Matcher.fl_line c <= end_line) then
           let '(m, l) := Matcher.matchInstrsInFunction debug_line (Matcher.fl_line c) F (Matcher.instrs r) in
           Some (Matcher.MkResult m l (Some F))
         else Some r
       else Some r.

Definition criterion_all (fs : list Function_) (c : Matcher.FileLine) (r : MatchResult) : option MatchResult :=
  mfold (fun r F => if Matcher.skipFunction F then Some r else criterion_in F c r) r fs.

Lemma criteria_in_lookup F cs rs rs' i c r :
  Matcher.criteria_in debug_line F cs rs = Some rs' -> cs !! i = Some c -> rs !! i = Some r ->
  exists r', criterion_in F c r = Some r' /\ rs' !! i = Some r'.
Proof.
  revert cs rs rs'. induction i as [|i IH]; intros [|c0 cs] [|r0 rs] rs' Hin Hc Hr; try done; cbn [Matcher.criteria_in] in Hin;
    apply bind_Some in Hin as (r1 & Hr1 & Hin); apply bind_Some in Hin as (rs1 & Hrs1 & [= <-]).
  - injection Hc as ->. injection Hr as ->. by exists r1.
  - by apply (IH cs rs rs1).
Qed.

Lemma criterion_all_matched fs c r : Matcher.matched r = true -> criterion_all fs c r = Some r.
Proof.
  intros Hr. unfold criterion_all. induction fs as [|F fs IH]; [done|]. cbn [mfold].
  assert (criterion_in F c r = Some r) as -> by (unfold criterion_in; by rewrite Hr).
  destruct (Matcher.skipFunction F); apply IH.
Qed.

(** The batch treats each criterion as if it were alone. *)
Lemma criteria_functions_lookup fs cs rs rs' i c r :
  Matcher.criteria_functions debug_line fs cs rs = Some rs' -> cs !! i = Some c -> rs !! i = Some r ->
  exists r', criterion_all fs c r = Some r' /\ rs' !! i = Some r'.
Proof.
  revert rs r. induction fs as [|F fs IH]; intros rs r Hf Hc Hr; cbn [Matcher.criteria_functions] in Hf.
  { injection Hf as ->. by exists r. }
  unfold criterion_all. cbn [mfold]. destruct (Matcher.skipFunction F); [by apply (IH rs)|].
  apply bind_Some in Hf as (rs1 & Hrs1 & Hf).
  destruct (criteria_in_lookup F cs rs rs1 i c r Hrs1 Hc Hr) as (r1 & Hr1 & Hi). rewrite Hr1. cbn [mbind option_bind].
  destruct (forallb Matcher.matched rs1) eqn:Hall; [|by apply (IH rs1)].
  injection Hf as <-. exists r1. split; [|done]. apply criterion_all_matched.
  rewrite forallb_forall in Hall. apply Hall, list_elem_of_In. by eapply list_elem_of_lookup_2.
Qed.

(** The line is in the range of a function. *)
Definition in_range (c : Matcher.FileLine) (F : Function_) (SP : Matcher.DISubprogram) : Prop :=
  exists e, Matcher.getLastLine debug_line F = Some e /\ Matcher.sp_line SP <= Matcher.fl_line c <= e.

(** The debug information is well-formed for a criterion: a function that has
    instructions of the line has it in its range, and after a function with the line
    in its range but no instruction there no other one of the file has it. *)
Definition well_ranged (c : Matcher.FileLine) (fs : list Function_) : Prop :=
  (forall F SP, F ∈ fs -> Matcher.considered c F SP -> Matcher.at_line debug_line (Matcher.fl_line c) F <> [] -> in_range c F SP) /\
  (forall l1 F SP l2, fs = l1 ++ F :: l2 -> Matcher.considered c F SP -> in_range c F SP ->
     Matcher.at_line debug_line (Matcher.fl_line c) F = [] ->
     forall F' SP', F' ∈ l2 -> Matcher.considered c F' SP' -> ~ in_range c F' SP').

Lemma criterion_all_none fs c r r' :
  (forall F SP, F ∈ fs -> Matcher.considered c F SP -> ~ in_range c F SP) -> criterion_all fs c r = Some r' -> r' = r.
Proof.
  intros Hno. unfold criterion_all. induction fs as [|F fs IH]; cbn [mfold]; intros Hf; [by injection Hf as ->|].
  assert (forall F SP, F ∈ fs -> Matcher.considered c F SP -> ~ in_range c F SP) as Hno' by (intros F0 SP0 HF0; apply Hno; by right).
  specialize (IH Hno'). destruct (Matcher.skipFunction F) eqn:Hsk; [by apply IH|].
  apply bind_Some in Hf as (r1 & Hr1 & Hf). unfold criterion_in in Hr1.
  assert (r1 = r) as ->; [|by apply IH]. destruct (Matcher.matched r); [by injection Hr1|].
  apply bind_Some in Hr1 as (SP & HSP & Hr1). apply bind_Some in Hr1 as ([] & Hsame & Hr1); [|by injection Hr1].
  apply bind_Some in Hr1 as (e & He & Hr1). case_decide as Hrange; [|by injection Hr1].
  exfalso. apply (Hno F SP); [by left|done|]. exists e. split; [done|]. lia.
Qed.

(** The two routines agree on a criterion. *)
Lemma criterion_agree fs c found r r' :
  well_ranged c fs -> Matcher.matchInstrsCriterion debug_line fs c Matcher.no_match = Some (found, r) ->
  criterion_all fs c Matcher.no_match = Some r' -> r' = r.
Proof.
  induction fs as [|F fs IH]; intros [Hat Hnext] Hs Hb; [by injection Hs as _ <-; injection Hb as <-|].
  assert (well_ranged c fs) as Hw.
  { split; [intros F0 SP0 HF0; apply Hat; by right|]. intros l1 F0 SP0 l2 ->. by apply (Hnext (F :: l1)). }
  specialize (IH Hw). unfold criterion_all in *. cbn [mfold Matcher.matchInstrsCriterion] in *.
  destruct (Matcher.skipFunction F) eqn:Hsk; [by apply IH|].
  apply bind_Some in Hb as (r1 & Hr1 & Hb). unfold criterion_in in Hr1. cbn [Matcher.matched Matcher.no_match] in Hr1.
  apply bind_Some in Hr1 as (SP & HSP & Hr1). rewrite HSP in Hs.
  apply bind_Some in Hs as (same & Hsame & Hs). rewrite Hsame in Hr1. cbn [mbind option_bind] in Hr1.
  destruct same; [|injection Hr1 as <-; by apply IH].
  apply bind_Some in Hs as (e & He & Hs). rewrite He in Hr1. cbn [mbind option_bind] in Hr1.
  assert (Matcher.considered c F SP) as Hcons by done.
  rewrite Matcher.matchInstrsInFunction_ok in Hs, Hr1. cbn [Matcher.instrs Matcher.no_match app] in Hs, Hr1.
  case_decide as Hrange.
  - injection Hr1 as <-. case_bool_decide as Hl.
    + injection Hs as _ <-. pose proof (criterion_all_matched fs c) as Hm. unfold criterion_all in Hm.
      rewrite Hm in Hb by done. by injection Hb as <-.
    + rewrite Matcher.matchInstrsInFunction_ok, Hl in Hs. rewrite bool_decide_eq_false_2 in Hs by tauto. injection Hs as _ <-.
      rewrite Hl in Hb. cbn [app] in *.
      eapply criterion_all_none; [|exact Hb]. intros F' SP' HF'. apply (Hnext [] F SP fs); try done. exists e. split; [done|]. lia.
  - injection Hr1 as <-. case_bool_decide as Hl.
    + exfalso. apply Hrange. destruct (Hat F SP ltac:(by left) Hcons Hl) as (e' & He' & Hr'). simplify_eq. lia.
    + rewrite Hl in Hs. by apply IH.
Qed.

(** A matched result has a function with debug information. *)
Definition printable (r : MatchResult) : Prop :=
  Matcher.matched r = true -> exists F SP e, Matcher.func r = Some F /\ Matcher.getSubprogram F = Some SP /\ Matcher.getLastLine debug_line F = Some e.

Lemma criterion_in_printable F c r r' : printable r -> criterion_in F c r = Some r' -> printable r'.
Proof.
  intros Hr. unfold criterion_in. destruct (Matcher.matched r) eqn:Hm; [by intros [= <-]|].
  intros (SP & HSP & H)%bind_Some. apply bind_Some in H as ([] & _ & H); [|by injection H as <-].
  apply bind_Some in H as (e & He & H). case_decide; [|by injection H as <-].
  rewrite Matcher.matchInstrsInFunction_ok in H. injection H as <-. intros _. by exists F, SP, e.
Qed.

Lemma criterion_all_printable fs c r r' : printable r -> criterion_all fs c r = Some r' -> printable r'.
Proof.
  unfold criterion_all. revert r. induction fs as [|F fs IH]; intros r Hr; cbn [mfold]; [by intros [= <-]|].
  destruct (Matcher.skipFunction F); [by apply IH|]. intros (r1 & Hr1 & H)%bind_Some.
  apply (IH r1); [by eapply criterion_in_printable|done].
Qed.

Lemma criterion_printable fs c found r r' :
  printable r -> Matcher.matched r = false -> Matcher.matchInstrsCriterion debug_line fs c r = Some (found, r') -> printable r'.
Proof.
  revert r. induction fs as [|F fs IH]; intros r Hr Hm; cbn [Matcher.matchInstrsCriterion]; [by intros [= _ <-]|].
  destruct (Matcher.skipFunction F); [by apply IH|]. destruct (Matcher.getSubprogram F) as [SP|] eqn:HSP; [|by apply IH].
  intros ([] & _ & H)%bind_Some; [|by eapply IH]. apply bind_Some in H as (e & He & H).
  rewrite Matcher.matchInstrsInFunction_ok in H. case_bool_decide.
  - injection H as _ <-. intros _. by exists F, SP, e.
  - case_decide; [|by eapply IH; [| |exact H]]. rewrite Matcher.matchInstrsInFunction_ok in H. injection H as _ <-. intros _. by exists F, SP, e.
Qed.

Lemma printable_prints print r : printable r -> is_Some (print_result print r).
Proof.
  unfold printable, print_result. destruct (Matcher.matched r); [|by eexists].
  intros (F & SP & e & -> & HSP & He); [done|]. cbn [mbind option_bind]. rewrite HSP. cbn [mbind option_bind]. rewrite He. by eexists.
Qed.

Lemma no_match_printable : printable Matcher.no_match.
Proof. done. Qed.

(** C38. What the locator prints: when it exits with 0 there is one result for each
    location given, and where the debug information is well-formed it is the result
    of matching that location alone, although several locations are matched together in
    one pass over the module that stops when all are matched.  Every result can be
    printed: the function field is only read where it was set. *)
Theorem locator_agrees fs criteria rs :
  locator_main (Some fs) criteria = Some (0, rs) ->
  exists fls, file_lines criteria = Some (Some fls) /\ length rs = length fls /\ Forall (fun r => forall print, is_Some (print_result print r)) rs /\
    forall i fl r found r1, fls !! i = Some fl -> rs !! i = Some r -> well_ranged fl fs ->
      Matcher.matchInstrsCriterion debug_line fs fl Matcher.no_match = Some (found, r1) -> r = r1.
Proof.
  unfold locator_main, file_lines. destruct (splitList criteria ","%char []) as [[criteriaList n]|]; [|done]. cbn [mbind option_bind].
  case_decide as Hlen.
  - destruct (Matcher.fromCriterionStr criteria) as [fl0|]; [|done]. intros (r0 & Hr0 & Hs)%bind_Some.
    destruct r0 as [found0 r0]. injection Hs as <-. exists [fl0]. split; [done|]. split; [done|].
    split; [apply Forall_singleton; intros print; apply printable_prints; by eapply criterion_printable; [| |exact Hr0]|].
    intros [|i] fl r found r1 Hfl Hr _ H1; [|done]. injection Hfl as <-. injection Hr as <-. congruence.
  - destruct (Matcher.fromCriteriaStr criteria []) as [fls []]; [|done]. cbn [negb]. intros (rs0 & Hrs & [= ->])%bind_Some.
    exists fls. split; [done|].
    assert (length rs = length fls) as Hl by (by eapply Prepare.matchInstrsCriteria_length). unfold Matcher.matchInstrsCriteria in Hrs.
    split; [done|].
    assert (forall i fl, fls !! i = Some fl -> exists r', criterion_all fs fl Matcher.no_match = Some r' /\ rs !! i = Some r') as Hone.
    { intros i fl Hfl. apply (criteria_functions_lookup _ _ _ _ i fl Matcher.no_match Hrs Hfl).
      apply lookup_replicate. split; [done|]. by eapply lookup_lt_Some. }
    split.
    { apply Forall_lookup. intros i r Hr print. destruct (lookup_lt_is_Some_2 fls i) as [fl Hfl]; [rewrite <- Hl; by eapply lookup_lt_Some|].
      destruct (Hone i fl Hfl) as (r' & Hr' & Hi). rewrite Hr in Hi. injection Hi as <-. apply printable_prints.
      eapply criterion_all_printable; [exact no_match_printable|exact Hr']. }
    intros i fl r found r1 Hfl Hr Hw H1. destruct (Hone i fl Hfl) as (r' & Hr' & Hi). rewrite Hr in Hi. injection Hi as <-. by eapply criterion_agree.
Qed.

End Tool.

Lemma locator_agrees_witness :
  exists rs r, locator_main (fun i => Some i.1) (Some Prepare.ex_module) (lit "a.c:5,a.c:6") = Some (0, rs) /\
    rs !! 1%nat = Some r /\ Matcher.instrs r = [(6, "store i32 %x, i32* %p"%string)] /\
    Matcher.matchInstrsCriterion (fun i => Some i.1) Prepare.ex_module (Matcher.MkFileLine (lit "a.c") 6) Matcher.no_match = Some (true, r).
Proof.
  destruct (locator_main (fun i : Z * string => Some i.1) (Some Prepare.ex_module) (lit "a.c:5,a.c:6")) as [[code rs]|] eqn:E; [|vm_compute in E; discriminate].
  assert (code = 0) as -> by (vm_compute in E; congruence).
  destruct (locator_agrees (fun i : Z * string => Some i.1) Prepare.ex_module (lit "a.c:5,a.c:6") rs E) as (fls & Hfls & _ & _ & H).
  assert (fls !! 1%nat = Some (Matcher.MkFileLine (lit "a.c") 6)) as Hfl by (vm_compute in Hfls; injection Hfls as <-; reflexivity).
  destruct (rs !! 1%nat) as [r|] eqn:Hr; [|vm_compute in E; injection E as <-; discriminate].
  exists rs, r. split; [reflexivity|]. split; [exact Hr|].
  specialize (H 1%nat _ r true (Matcher.MkResult true [(6, "store i32 %x, i32* %p"%string)] (head Prepare.ex_module)) Hfl Hr).
  rewrite H; [split; [reflexivity|vm_compute; reflexivity]| |vm_compute; reflexivity]. split.
  - intros F SP [-> |HF]%elem_of_cons; [|by apply elem_of_nil in HF]. intros (_ & [= <-] & _) _. exists 6. split; [reflexivity|]. cbn. lia.
  - intros [|F1 [|F2 l1]] F SP l2 HF; [injection HF as <- <-|discriminate..].
    intros _ _ Hat. vm_compute in Hat. discriminate.
Defined.

End LocatorTool.

(** ** The analyzer *)
Module AnalyzerTool.

Section Tool.
Context {Instr : Type} (debug_line : Instr -> option Z) (print : Instr -> chars).

(** How [main] ends: with an exit code, or with an exception of a parser. *)
Inductive ended := Exit (code : Z) | Throws.

(** [main] on the contents of its files, with the trace it ends with. *)
Definition analyzer_main (parsed : option (list (Matcher.Function_ Instr))) (guid_file trace_file : option chars)
  : ended * AddrTrace.PmemAddrTrace (Instr := Instr) :=
  match parsed with
  | None => (Exit 1, AddrTrace.new_trace)
  | Some fs =>
    match GuidMap.deserialize guid_file [] false with
    | (GuidMap.Throws, _) => (Throws, AddrTrace.new_trace)
    | (GuidMap.Returns false, _) => (Exit 1, AddrTrace.new_trace)
    | (GuidMap.Returns true, varMap) =>
      match AddrTrace.deserialize trace_file (Some varMap) AddrTrace.new_trace with
      | (GuidMap.Throws, t) => (Throws, t)
      | (GuidMap.Returns false, t) => (Exit 1, t)
      | (GuidMap.Returns true, t) =>
        if decide (AddrTrace.pool_addrs t = []) then (Exit 1, t)
        else
          let '(ok, t1) := AddrTrace.calculatePoolOffsets t in
          if ok then (Exit 0, (AddrTrace.addressesToInstructions (M := Matcher.module_matcher debug_line print fs) t1).2)
          else (Exit 1, t1)
      end
    end
  end.

(** The analyzer checks what the reactor needs: on the files of a reactor that has
    parsed its module and its guid file, it exits with 0 exactly when the reactor can
    load the trace, with the same trace, dies of an exception when the reactor
    does, and exits with 1 when the reactor refuses the trace. *)
Theorem analyzer_checks_trace (s : Prepare.ReactorState (Instr := Instr)) read_file f guid_file vm :
  Options.address_file (Prepare.options s) = Some f -> Prepare.addr_trace s = AddrTrace.new_trace ->
  GuidMap.deserialize guid_file [] false = (GuidMap.Returns true, vm) -> Prepare.var_map s = vm ->
  let '(r, s') := Prepare.load_trace debug_line print read_file s in
  analyzer_main (Some (Prepare.sys_module s)) guid_file (read_file f) =
    (match r with Prepare.Returns true => Exit 0 | Prepare.Throws => Throws | _ => Exit 1 end, Prepare.addr_trace s').
Proof.
  intros Hf Ht Hg Hvm. unfold Prepare.load_trace, analyzer_main. rewrite Hf, Hg, Hvm, Ht.
  destruct (AddrTrace.deserialize _ _ _) as [[[]|] t]; [|done..]. case_decide; [done|].
  destruct (AddrTrace.calculatePoolOffsets t) as [[] t1]; [|done].
  assert ((AddrTrace.addressesToInstructions (M := Matcher.module_matcher debug_line print (Prepare.sys_module s)) t1).1 = true) as Hok.
  { unfold AddrTrace.addressesToInstructions. cbn [AddrTrace.processed Matcher.module_matcher negb].
    by destruct (AddrTrace.resolve_items _ _ _) as [[? ?] ?]. }
  destruct (AddrTrace.addressesToInstructions _) as [ok t2]. cbn in Hok. by rewrite Hok.
Qed.

End Tool.

Definition ex_state : Prepare.ReactorState (Instr := Z * string) :=
  let o := Options.zero_options in
  Prepare.MkState false false
    (Options.ReactorOptions (Some "trace"%string) (Options.checkpoint_file o) (Options.pmem_file o) (Options.pmem_layout o) (Options.pmem_library o)
      (Options.hook_guid_file o) (Options.reexecute_cmd o) (Options.arckpt o) (Options.batch_threshold o) (Options.version_num o)
      (Options.fault_instr o) (Options.fault_loc o) (Options.bc_file o) (Options.dg_opts o))
    Prepare.ex_module (GuidMap.deserialize (Prepare.ex_read "guids") [] false).2 AddrTrace.new_trace false.

Lemma analyzer_checks_trace_witness :
  exists t, analyzer_main (fun i => Some i.1) (fun i => lit i.2) (Some Prepare.ex_module) (Prepare.ex_read "guids") (Prepare.ex_read "trace") = (Exit 0, t) /\
    AddrTrace.pool_offset <$> AddrTrace.items t = [0; 8].
Proof.
  pose proof (analyzer_checks_trace (fun i : Z * string => Some i.1) (fun i => lit i.2) ex_state Prepare.ex_read "trace" (Prepare.ex_read "guids")
    (Prepare.var_map ex_state) eq_refl eq_refl) as H.
  specialize (H ltac:(vm_compute; reflexivity) eq_refl).
  destruct (Prepare.load_trace _ _ _ _) as [r s] eqn:E. exists (Prepare.addr_trace s).
  assert (r = Prepare.Returns true) as -> by (vm_compute in E; congruence).
  split; [exact H|]. vm_compute in E. injection E as <-. vm_compute. reflexivity.
Defined.

End AnalyzerTool.
