(* ===== verification/InstrumentorTool.v ===== *)
(** * The instrumentor (analyzer/tools/instrumentor/main.cpp)

    The command line tool that inserts the hooks of the address tracker: behind the
    persistent variables and regions of every function, and then behind what points
    to a persistent variable.  The functions it calls are in Instrument; this file
    has [main] and what the tool does as a whole. *)
From stdpp Require Import base list gmap strings.
From Stdlib Require Import Ascii.
From S2P Require Import Prelude Strings GuidMap DefUse Extractor Instrument Tools.
Import Strings Instrument.

Module InstrumentorTool.

Section Tool.
Context {Value : Type} `{Countable Value} (lv : llvm_view (Value := Value)) (uv : DefUse.use_view Value).
Context (kind : Value -> Extractor.inst_kind (Value := Value)) (getName : Value -> chars).
Abbreviation function := (Extractor.function (Value := Value)).

(** The files a run writes: the program with its hooks, and the guid map, whose text is
    missing when the file cannot be opened. *)
Record outcome := MkOutcome {
  outputFilename : chars;
  written_program : list (Value * hook (Value := Value));
  HookGuidFile : chars;
  guid_map : option chars
}.

(** A file name that is not given is made from the name of the input file. *)
Definition file_name (given base : chars) (suffix : string) : chars :=
  if bool_decide (given = []) then base ++ lit suffix else given.

(** The name the instrumentation pass chooses: the source file up to its last dot. *)
Definition pass_guid_file (HookGuidFile source_file : chars) : chars :=
  if bool_decide (HookGuidFile = []) then
    match rfind "." source_file with
    | None => source_file ++ lit "-hook-guids.map"
    | Some extindex => take extindex source_file ++ lit "-hook-guids.map"
    end
  else HookGuidFile.

(** [main]: the exit code and what it writes. *)
Definition main (parsed : option (list function)) (has_main : bool) (getOrInsertFunction : chars -> bool) (fuel : nat)
    (RegularLoadStore : bool) (by_address : list function -> list function)
    (getPointsTo : function -> option (Value -> option (list (option Value))))
    (inputFilename output guid_file : chars) (garbage_line : Z) (guid_file_opens : bool) : option (Z * option outcome) :=
  match parsed with
  | None => Some (1, None)
  | Some M =>
    '(ok, ins) ← initHookFuncs has_main getOrInsertFunction (new_instrumenter false);
    if negb (ok : bool) then Some (1, None)
    else
      r ← tool_main lv uv kind getName fuel RegularLoadStore by_address getPointsTo ins M;
      base ← getFileBaseName inputFilename false "/"%char;
      text ← writeGuidHookPointMap lv garbage_line guid_file_opens r.2;
      Some (0, Some (MkOutcome (file_name output base "-instrumented.bc") (inserted r.2) (file_name guid_file base "-hook-guids.map") text))
  end.

(** ** What is instrumented *)
Context (all : gset Value) (fuel : nat).
Context (Hclosed : forall v w, v ∈ all -> DefUse.step uv v w -> w ∈ all) (Hfuel : (size all <= fuel)%nat).

(** The variables of a function that are kept: when something in it is persistent, the
    persistent variables and the regions. *)
Definition kept (F : function) (v : Value) : Prop :=
  Extractor.isDeclaration F = false /\ Extractor.insts F ≫= Extractor.roots kind getName <> [] /\
  (Extractor.persistent uv (Extractor.insts F ≫= Extractor.roots kind getName) v \/
   (v ∈ Extractor.insts F /\ is_Some (Extractor.region_size kind v))).

Lemma kept_all F v : in_all kind getName all F -> kept F v -> v ∈ all.
Proof.
  intros (_ & Hi & Hr) (_ & _ & [Hp|[Hv _]]); [|by apply Hi]. by eapply Extractor.persistent_all.
Qed.

Lemma init_hooks has_main gof (s : PmemAddrInstrumenter (Value := Value)) b s' L :
  initHookFuncs has_main gof s = Some (b, s') -> hooks_inserted lv L s -> hooks_inserted lv L s'.
Proof.
  unfold initHookFuncs. destruct (initialized s); [by intros [= _ <-]|]. destruct (negb has_main); [by intros [= _ <-]|].
  destruct (negb _); [done|]. intros [= _ <-] [H1 H2 H3 H4 H5 H6]. by constructor.
Qed.

Lemma init_runs gof :
  forallb gof hook_names = true -> exists ins, initHookFuncs (Value := Value) true gof (new_instrumenter false) = Some (true, ins).
Proof. intros Hg. unfold initHookFuncs. cbn [initialized new_instrumenter negb]. rewrite Hg. by eexists. Qed.

(** The first iteration on a function is the pass on it, and keeps its variables. *)
Lemma tool_function_ok L vars s F :
  hooks_inserted lv L s -> Forall (defined_target lv) (elements all) -> in_all kind getName all F -> Extractor.isDeclaration F = false ->
  (forall i, i ∈ L -> i ∈ all) -> guid_at (size all) < 2 ^ 32 ->
  exists b vars' s' L', tool_runOnFunction lv uv kind getName fuel false (vars, s) F = Some (b, (vars', s')) /\ hooks_inserted lv L' s' /\
    (forall i, i ∈ L' <-> i ∈ L \/ (taken_up uv kind getName F i /\ is_Some (hook_addr lv i))) /\
    (forall v, v ∈ vars' <-> v ∈ vars \/ kept F v).
Proof.
  intros Hi Hdef HF Hdecl HL Hlt. pose proof HF as (Hnd & _ & Hra).
  destruct (pass_function_ok lv uv kind getName all fuel Hclosed Hfuel L s F) as (b & s' & L' & Hp & Hi' & Hin); [done..|].
  destruct (Extractor.runOnFunction_ok uv kind getName all fuel Hclosed Hfuel [] F Extractor.new_locator) as (l & Hl & Hloc).
  { intros i r. unfold Extractor.body. rewrite Hdecl. apply Hra. }
  { apply Extractor.new_located. }
  unfold Extractor.body in Hloc. rewrite Hdecl in Hloc. cbn [app] in Hloc.
  unfold pass_runOnFunction in Hp. unfold tool_runOnFunction. rewrite Hl in Hp |- *. cbn [mbind option_bind] in Hp |- *.
  case_decide as Hv; simpl_bind.
  - injection Hp as <- <-. exists false, vars, s, L'. split; [done|]. split; [done|]. split; [done|]. intros v. split; [by left|].
    intros [?|(_ & Hne & _)]; [done|]. apply (persistent_empty uv) in Hne as (w & Hw). apply (Extractor.lc_vars _ _ _ _ _ Hloc) in Hw.
    rewrite Hv in Hw. by apply elem_of_nil in Hw.
  - cbn [fst snd]. rewrite Hp. cbn [mbind option_bind fst snd]. eexists true, _, s', L'. split; [reflexivity|]. split; [done|]. split; [done|].
    intros v. rewrite !elem_of_union, elem_of_list_to_set, (Extractor.lc_vars _ _ _ _ _ Hloc), (Extractor.lc_regions _ _ _ _ _ Hloc).
    rewrite elem_of_dom, Extractor.regions_of_lookup by (try done; intros; apply lookup_empty).
    assert (Extractor.insts F ≫= Extractor.roots kind getName <> []) as Hne.
    { destruct (Extractor.varList l) as [|w vl] eqn:E; [done|]. apply (persistent_empty uv). exists w. apply (Extractor.lc_vars _ _ _ _ _ Hloc). rewrite E. by left. }
    unfold kept. case_decide; [rewrite fmap_is_Some|rewrite lookup_empty, is_Some_alt]; tauto.
Qed.

Lemma first_iteration_ok L vars s M :
  hooks_inserted lv L s -> Forall (defined_target lv) (elements all) -> Forall (in_all kind getName all) M -> guid_at (size all) < 2 ^ 32 ->
  (forall i, i ∈ L -> i ∈ all) -> Forall (fun F => Extractor.isDeclaration F = false) M ->
  exists vars' s' L', mfold (fun st F => r ← tool_runOnFunction lv uv kind getName fuel false st F; Some r.2) (vars, s) M = Some (vars', s') /\
    hooks_inserted lv L' s' /\
    (forall i, i ∈ L' <-> i ∈ L \/ ((exists F, F ∈ M /\ taken_up uv kind getName F i) /\ is_Some (hook_addr lv i))) /\
    (forall v, v ∈ vars' <-> v ∈ vars \/ exists F, F ∈ M /\ kept F v).
Proof.
  intros Hi Hdef HM Hlt HL Hdecl. revert L vars s Hi HL. induction HM as [|F M HF HM IH]; intros L vars s Hi HL; cbn [mfold].
  { exists vars, s, L. split; [done|]. split; [done|]. split; intros x; split; try (by left).
    - by intros [?|[(F & ?%elem_of_nil & _) _]].
    - by intros [?|(F & ?%elem_of_nil & _)]. }
  apply Forall_cons in Hdecl as [HdF Hdecl].
  destruct (tool_function_ok L vars s F Hi Hdef HF HdF HL Hlt) as (b & vars1 & s1 & L1 & Hs1 & Hi1 & HL1 & Hv1).
  rewrite Hs1. cbn [mbind option_bind snd].
  destruct (IH Hdecl L1 vars1 s1 Hi1) as (vars2 & s2 & L2 & Hs2 & Hi2 & HL2 & Hv2).
  { intros i [?|[(_ & _ & _ & Ht) _]]%HL1; [by apply HL|]. destruct HF as (_ & Hia & Hra).
    destruct Ht as [Hp|[? _]]; [|by apply Hia]. by eapply Extractor.persistent_all. }
  exists vars2, s2, L2. split; [exact Hs2|]. split; [done|]. split; intros x.
  - rewrite HL2, HL1. setoid_rewrite elem_of_cons. naive_solver.
  - rewrite Hv2, Hv1. setoid_rewrite elem_of_cons. naive_solver.
Qed.

(** The second iteration, as in the extractor. *)
Definition pointers_of (getPointsTo : function -> option (Value -> option (list (option Value)))) (F : function)
  : list (Value * list (option Value)) :=
  match getPointsTo F with
  | None => []
  | Some pts => (fun i => (i, default [] (pts i))) <$> Extractor.insts F
  end.

Lemma second_iteration_ok getPointsTo Functions vars :
  foldl (fun vars F => match getPointsTo F with
                       | None => vars
                       | Some pts => instrumentPmemPointers pts (Extractor.insts F) vars
                       end) vars Functions =
    foldl ExtractorTool.visit vars (Functions ≫= pointers_of getPointsTo).
Proof.
  revert vars. induction Functions as [|F Functions IH]; intros vars; [done|]. cbn [foldl mbind list_bind].
  rewrite foldl_app, IH. f_equal. unfold pointers_of. destruct (getPointsTo F) as [pts|]; [|done].
  pose proof (ExtractorTool.extract_ok pts (Extractor.insts F) (ExtractorTool.MkGlobals vars 0 0)) as [E _].
  rewrite ExtractorTool.extractor_agrees in E. exact E.
Qed.

Lemma derived_in vars l n v (P : Value -> Prop) :
  (forall v, v ∈ vars -> P v) -> (forall e, e ∈ l -> P e.1) -> ExtractorTool.derived vars l n v -> P v.
Proof.
  intros Hv Hl Hd. destruct Hd as [n v ?|m n v ps p Hm _ _ _]; [by apply Hv|].
  apply (Hl (v, ps)). by eapply list_elem_of_lookup_2.
Qed.

(** The last loop. *)
Lemma instrument_vars_ok L s vars :
  hooks_inserted lv L s -> Forall (defined_target lv) (elements all) -> guid_at (size all) < 2 ^ 32 ->
  (forall i, i ∈ L -> i ∈ all) -> (forall v, v ∈ vars -> v ∈ all) ->
  exists b s' L', instrument_vars lv (DefUse.is_instruction uv) vars s = Some (b, s') /\ hooks_inserted lv L' s' /\
    (forall i, i ∈ L' -> i ∈ all) /\ guid_at (length L') < 2 ^ 32 /\
    forall i, i ∈ L' <-> i ∈ L \/ (is_Some (hook_addr lv i) /\ DefUse.is_instruction uv i = true /\ excluded (function_name lv i) = false /\ i ∈ vars).
Proof.
  intros Hi Hdef Hlt HL Hv. unfold instrument_vars. set (instrs := filter _ (elements vars)).
  assert (forall i, i ∈ instrs <-> DefUse.is_instruction uv i = true /\ excluded (function_name lv i) = false /\ i ∈ vars) as Hinstrs.
  { intros i. unfold instrs. rewrite list_elem_of_filter, elem_of_elements. tauto. }
  assert (length (hooked lv L instrs) <= size all)%nat as Hsize.
  { apply (hooked_size lv all); [apply (hi_nodup _ _ _ Hi)|done|]. intros i (_ & _ & ?)%Hinstrs. by apply Hv. }
  destruct (instrument_steps_ok lv L false s instrs Hi) as (b & s' & Hs & Hi' & _).
  { apply Forall_forall. intros i (_ & _ & ?)%Hinstrs. rewrite Forall_forall in Hdef. by apply Hdef, elem_of_elements, Hv. }
  { unfold guid_at in *. lia. }
  exists b, s', (hooked lv L instrs). split; [exact Hs|]. split; [exact Hi'|]. split.
  { intros i [?|[(_ & _ & ?)%Hinstrs _]]%hooked_elem; auto. }
  split; [unfold guid_at in *; lia|]. intros i. rewrite hooked_elem, Hinstrs. tauto.
Qed.

(** The three iterations. *)
Lemma tool_main_ok M by_address getPointsTo ins :
  hooks_inserted lv [] ins -> Forall (in_all kind getName all) M -> Forall (defined_target lv) (elements all) -> guid_at (size all) < 2 ^ 32 ->
  (forall l, by_address l ≡ₚ l) ->
  exists vars0 vars1 s L, tool_main lv uv kind getName fuel false by_address getPointsTo ins M = Some (vars1, s) /\
    hooks_inserted lv L s /\ (forall i, i ∈ L -> i ∈ all) /\ guid_at (length L) < 2 ^ 32 /\
    (forall v, v ∈ vars0 <-> exists F, F ∈ M /\ kept F v) /\
    let seq := by_address (filter (fun F => Extractor.isDeclaration F = false) M) ≫= pointers_of getPointsTo in
    forall i, i ∈ L <-> is_Some (hook_addr lv i) /\ DefUse.is_instruction uv i = true /\
      (i ∈ vars0 \/ (excluded (function_name lv i) = false /\ ExtractorTool.derived vars0 seq (length seq) i)).
Proof.
  intros Hins HM Hdef Hlt Hperm. set (Fs := filter (fun F => Extractor.isDeclaration F = false) M). rewrite Forall_forall in HM.
  assert (Forall (fun F => Extractor.isDeclaration F = false) Fs) as HFs by (apply Forall_forall; by intros F [? _]%list_elem_of_filter).
  assert (forall F, F ∈ Fs -> in_all kind getName all F) as HFa by (intros F [_ HF]%list_elem_of_filter; by apply HM).
  destruct (first_iteration_ok [] ∅ ins Fs Hins Hdef (proj2 (Forall_forall _ _) HFa) Hlt) as (vars0 & s1 & L1 & H1 & Hi1 & HL1 & Hv0); [by intros i ?%elem_of_nil|done|].
  unfold tool_main. fold Fs. rewrite H1. cbn [mbind option_bind fst snd]. rewrite second_iteration_ok.
  set (seq := by_address Fs ≫= pointers_of getPointsTo).
  assert (forall v, v ∈ vars0 <-> exists F, F ∈ M /\ kept F v) as Hvars0.
  { intros v. rewrite Hv0. split; [intros [?%elem_of_empty|(F & [_ ?]%list_elem_of_filter & ?)]; [done|by exists F]|].
    intros (F & HF & Hk). right. exists F. split; [|done]. apply list_elem_of_filter. split; [by destruct Hk|done]. }
  assert (forall v, v ∈ vars0 -> v ∈ all) as Hall0 by (intros v (F & HF & Hk)%Hvars0; by eapply kept_all, Hk; apply HM).
  assert (forall i, i ∈ L1 <-> is_Some (hook_addr lv i) /\ DefUse.is_instruction uv i = true /\ i ∈ vars0) as HL1'.
  { intros i. rewrite HL1, elem_of_nil, Hvars0. unfold taken_up, kept. split.
    - intros [?|[(F & [_ HF]%list_elem_of_filter & ? & ? & ? & ?) ?]]; [done|]. split; [done|]. split; [done|]. by exists F.
    - intros (? & ? & F & HF & ? & ? & ?). right. split; [|done]. exists F. split; [by apply list_elem_of_filter|done]. }
  destruct (instrument_vars_ok L1 s1 (foldl ExtractorTool.visit vars0 seq) Hi1 Hdef Hlt) as (b & s2 & L & Hs2 & Hi2 & HLa & Hn & HL).
  { intros i (_ & _ & Hi)%HL1'. by apply Hall0. }
  { intros v Hv%ExtractorTool.visit_derived. revert Hv. apply (derived_in vars0 seq (length seq) v (fun w => w ∈ all)); [exact Hall0|].
    intros e (F & He & HF)%list_elem_of_bind. rewrite Hperm in HF. unfold pointers_of in He. destruct (getPointsTo F); [|by apply elem_of_nil in He].
    apply list_elem_of_fmap in He as (i & -> & Hi). by apply (HFa F HF). }
  rewrite Hs2. cbn [mbind option_bind snd]. exists vars0, (foldl ExtractorTool.visit vars0 seq), s2, L.
  split; [done|]. split; [done|]. split; [done|]. split; [done|]. split; [done|]. intros i.
  rewrite HL, HL1', ExtractorTool.visit_derived. tauto.
Qed.

(** C22. The instrumentor as a whole.  It exits with 0, and the hooks of the program it
    writes are exactly those behind the instructions with an address that are
    persistent variables, users of them or regions, in a function where something is
    persistent, or that follow from these through the points-to sets in one pass,
    unless their function is one of the two left out by name; each has its own guid,
    and the guid file can be read back into a map that describes every hooked
    instruction under its guid. *)
Theorem instrumentor_tracks M gof by_address getPointsTo input output guid_file ln base :
  Forall (in_all kind getName all) M -> Forall (defined_target lv) (elements all) -> guid_at (size all) < 2 ^ 32 ->
  forallb gof hook_names = true -> (forall l, by_address l ≡ₚ l) -> getFileBaseName input false "/"%char = Some base ->
  Forall (describable lv) (elements all) ->
  exists o L vars0 text vm, main (Some M) true gof fuel false by_address getPointsTo input output guid_file ln true = Some (0, Some o) /\
    written_program o = imap (fun k i => (i, TrackAddr (default i (hook_addr lv i)) (guid_at k))) L /\ NoDup L /\
    (forall v, v ∈ vars0 <-> exists F, F ∈ M /\ kept F v) /\
    (let seq := by_address (filter (fun F => Extractor.isDeclaration F = false) M) ≫= pointers_of getPointsTo in
     forall i, i ∈ L <-> is_Some (hook_addr lv i) /\ DefUse.is_instruction uv i = true /\
       (i ∈ vars0 \/ (excluded (function_name lv i) = false /\ ExtractorTool.derived vars0 seq (length seq) i))) /\
    guid_map o = Some text /\ GuidMap.deserialize (Some text) [] false = (GuidMap.Returns true, vm) /\
    forall k i, L !! k = Some i -> GuidMap.find (guid_at k) vm = describe lv i (guid_at k).
Proof.
  intros HM Hdef Hlt Hgof Hperm Hbase Hdesc. unfold main. destruct (init_runs gof Hgof) as [ins Hinit]. rewrite Hinit.
  pose proof (init_hooks _ _ _ _ _ [] Hinit (new_hooks lv)) as Hins. cbn [mbind option_bind negb].
  destruct (tool_main_ok M by_address getPointsTo ins Hins HM Hdef Hlt Hperm) as (vars0 & vars1 & s & L & Ht & Hi & HLa & Hn & Hv0 & HL).
  rewrite Ht. cbn [mbind option_bind snd]. rewrite Hbase. cbn [mbind option_bind].
  destruct (written_map lv L s ln Hi) as (text & vm & Htext & Hvm & Hfind); [|done|].
  { apply Forall_forall. intros i Hi'. rewrite Forall_forall in Hdesc. by apply Hdesc, elem_of_elements, HLa. }
  rewrite Htext. cbn [mbind option_bind]. eexists _, L, vars0, text, vm. split; [reflexivity|].
  split; [apply (hi_inserted _ _ _ Hi)|]. split; [apply (hi_nodup _ _ _ Hi)|]. split; [exact Hv0|].
  split; [exact HL|]. split; [done|]. split; [exact Hvm|exact Hfind].
Qed.

End Tool.

(** The pass looks for the dot in the whole path, so that a dot in the name of a
    directory cuts off what follows; the tool looks at the base name only. *)
Example pass_guid_file_directory :
  pass_guid_file [] (lit "/opt/v1.2/prog") = lit "/opt/v1-hook-guids.map" /\
  getFileBaseName (lit "/opt/v1.2/prog") false "/"%char = Some (lit "prog").
Proof. split; vm_compute; reflexivity. Qed.

(** The first function creates a pool only; in the second, 1 maps a file, 0 is a user of
    what it returns and 2, a cache flush, points to it. *)
Definition ex_functions : list (Extractor.function (Value := nat)) :=
  [Extractor.MkFunction false [4%nat]; Extractor.MkFunction false [1; 0; 2]%nat].
Definition ex_points (F : Extractor.function (Value := nat)) : option (nat -> option (list (option nat))) :=
  Some (fun v => if decide (v = 2%nat) then Some [Some 1%nat] else None).

Lemma instrumentor_tracks_witness :
  exists o, main ex_view ex_uses ex_kind (fun _ => []) (Some ex_functions) true (fun _ => true) 10 false (fun l => l) ex_points
      (lit "/src/prog.bc") [] (lit "guids") 0 true = Some (0, Some o) /\
    outputFilename o = lit "prog-instrumented.bc" /\ (written_program o).*1 = [1; 0; 2]%nat /\
    exists vm, GuidMap.deserialize (guid_map o) [] false = (GuidMap.Returns true, vm) /\ GuidMap.find 202 vm = describe ex_view 2%nat 202.
Proof.
  assert (elements (list_to_set [0; 1; 2; 4]%nat : gset nat) ≡ₚ [0; 1; 2; 4]%nat) as Hel
    by (apply elements_list_to_set, (bool_decide_unpack _); vm_compute; reflexivity).
  destruct (instrumentor_tracks ex_view ex_uses ex_kind (fun _ => []) (list_to_set [0; 1; 2; 4]%nat) 10)
    with (M := ex_functions) (gof := fun _ : chars => true) (by_address := fun l : list (Extractor.function (Value := nat)) => l)
         (getPointsTo := ex_points) (input := lit "/src/prog.bc") (output := @nil ascii) (guid_file := lit "guids") (ln := 0) (base := lit "prog")
    as (o & L & vars0 & text & vm & Hm & Hw & _ & _ & _ & Htext & Hvm & Hfind).
  - intros v w Hv Hvw. unfold DefUse.step, DefUse.uses_of, ex_uses in Hvw. cbn [DefUse.users] in Hvw. case_decide; cbn in Hvw; set_solver.
  - rewrite size_list_to_set by (apply (bool_decide_unpack _); vm_compute; reflexivity). cbn. lia.
  - assert (Forall (fun F => NoDup (Extractor.insts F) /\ Forall (.∈ [0; 1; 2; 4]%nat) (Extractor.insts F) /\
      Forall (fun i => Forall (.∈ [0; 1; 2; 4]%nat) (Extractor.roots ex_kind (fun _ => []) i)) (Extractor.insts F)) ex_functions) as HF
      by (apply (bool_decide_unpack _); vm_compute; reflexivity).
    eapply Forall_impl; [exact HF|]. intros F (Hnd & Hi & Hr). rewrite !Forall_forall in Hi, Hr. split; [done|]. split.
    + intros i Hin. apply elem_of_list_to_set. by apply Hi.
    + intros i r Hin Hir. specialize (Hr i Hin). rewrite Forall_forall in Hr. apply elem_of_list_to_set. by apply Hr.
  - rewrite Hel. repeat constructor; intros pool; vm_compute; discriminate.
  - rewrite size_list_to_set by (apply (bool_decide_unpack _); vm_compute; reflexivity). reflexivity.
  - vm_compute. reflexivity.
  - intros l. reflexivity.
  - vm_compute. reflexivity.
  - rewrite Hel. repeat constructor; eexists; (split; [reflexivity|apply (bool_decide_unpack _); vm_compute; reflexivity]).
  - exists o. split; [exact Hm|].
    assert (outputFilename o = lit "prog-instrumented.bc" /\ (written_program o).*1 = [1; 0; 2]%nat) as [H1 H2]
      by (vm_compute in Hm; injection Hm as <-; split; vm_compute; reflexivity).
    split; [exact H1|]. split; [exact H2|]. exists vm. rewrite Htext. split; [exact Hvm|].
    apply (Hfind 2%nat). rewrite Hw in H2. destruct L as [|? [|? [|x [|]]]]; try discriminate. injection H2 as _ _ ->. reflexivity.
Defined.

End InstrumentorTool.
