(* ===== verification/Causes.v ===== *)
(** * What the reaction considers

    The end of the chain: instrumented program, trace, slices, checkpoint and reaction
    together (files Pipeline, SliceFault, Layout).  The sequence numbers the reaction
    takes are those of checkpointed updates at addresses that the traced run accessed
    with an instruction the fault instruction depends on. *)
From stdpp Require Import base list gmap strings sorting.
From S2P Require Import Prelude Memory Checkpoint Chains SeqLog Rollback LogCreation ReExecute Options BinaryReversion AddrTrace React Layout.
From S2P Require Import Slice SliceGraph ComputeSlices SliceOrder DgWalk Slicer SliceFault Service.
Import Slice SliceGraph.

Module Causes.
Import ReExecute.

(** ** The reference and what it has seen *)
Section Seen.
Context {E : Type} `{!Environment E} {Instr : Type} `{!EqDecision Instr}.
Abbreviation item := (AddrTrace.PmemAddrTraceItem (Instr := Instr)).
Context (garbage : single_data) (c_log : checkpoint_log) (num_data pool_address : Z)
        (options : Options.reactor_options) (fp : Z) (mm : LogCreation.multimap) (tr : list (option Instr * item)) (fuel : nat).
Abbreviation ref_item := (React.ref_item mm tr garbage c_log num_data pool_address options fp fuel).
Abbreviation ref_items := (React.ref_items mm tr garbage c_log num_data pool_address options fp fuel).
Implicit Types r : React.reference (E := E).

Lemma fresh_seen (seen : gset Z) l : seen ∪ list_to_set (React.fresh seen l) = seen ∪ list_to_set l.
Proof.
  revert seen. induction l as [|q l IH]; intros seen; cbn [React.fresh]; [done|]. case_decide as Hq.
  - rewrite IH. cbn. set_solver.
  - cbn. specialize (IH ({[q]} ∪ seen)). set_solver.
Qed.

Lemma ref_item_seen r i v r' :
  ref_item r i = Ret (v, r') -> React.rf_seen r' = React.rf_seen r ∪ list_to_set (React.candidates mm tr i).
Proof.
  unfold React.ref_item. rewrite fresh_seen. case_decide; [by intros [= _ <-]|].
  intros ([b s1] & _ & H1)%BinaryReversion.bind_Ret. repeat case_decide; try done; by injection H1 as _ <-.
Qed.

(** A prefix of the instructions was taken, all of them when the search goes on. *)
Lemma ref_items_seen r l v r' :
  ref_items r l = Ret (v, r') ->
  exists l1 l2, l = l1 ++ l2 /\ React.rf_seen r' = React.rf_seen r ∪ list_to_set (l1 ≫= React.candidates mm tr) /\
    (v = React.Continue -> l2 = []).
Proof.
  revert r. induction l as [|i l IH]; intros r; cbn [React.ref_items].
  { intros [= <- <-]. exists [], []. split; [done|]. split; [set_solver|done]. }
  intros ([v1 r1] & H1 & H2)%BinaryReversion.bind_Ret. apply ref_item_seen in H1. destruct v1.
  - injection H2 as <- <-. exists [i], l. split; [done|]. split; [|done]. rewrite H1. cbn. by rewrite app_nil_r.
  - destruct (IH r1 H2) as (l1 & l2 & -> & Hs & Hv). exists (i :: l1), l2. split; [done|]. split; [|done].
    rewrite Hs, H1. cbn. rewrite list_to_set_app_L. set_solver.
Qed.

(** The search stops only with a success. *)
Lemma ref_items_finished r l r' :
  ref_items r l = Ret (React.Finished, r') -> BinaryReversion.binary_success (BinaryReversion.st_globals (React.rf_search r')) = 1.
Proof.
  revert r. induction l as [|i l IH]; intros r; cbn [React.ref_items]; [done|].
  intros ([[] r1] & H1 & H2)%BinaryReversion.bind_Ret; [|by eapply IH]. injection H2 as <-.
  unfold React.ref_item in H1. case_decide; [done|]. apply BinaryReversion.bind_Ret in H1 as ([b s1] & _ & H1).
  repeat case_decide; try done; by injection H1 as <-.
Qed.

(** The search has fuel for every batch: it leaves its counter at zero. *)
Lemma ref_items_fuel r l :
  (3 <= fuel)%nat -> BinaryReversion.binary_reversion_count (BinaryReversion.st_globals (React.rf_search r)) = 0 ->
  ref_items r l <> NoFuel.
Proof.
  intros Hf. revert r. induction l as [|i l IH]; intros r Hr; cbn [React.ref_items]; [done|].
  apply BinaryReversion.bind_not_nofuel.
  - unfold React.ref_item. case_decide; [done|]. apply BinaryReversion.bind_not_nofuel.
    + rewrite <- (Permutation_length (React.sort_up_perm _)). apply BinaryReversion.search_bounded; cbn; [|rewrite Hr; lia..].
      intros Hnil. apply (f_equal length) in Hnil. rewrite (Permutation_length (React.sort_up_perm _)) in Hnil. cbn in Hnil. lia.
    + intros [b s1] _. repeat case_decide; done.
  - intros [v r1] H1. destruct v; [done|]. apply IH. unfold React.ref_item in H1. case_decide; [by injection H1 as <-|].
    apply BinaryReversion.bind_Ret in H1 as ([b s1] & Hb & H1).
    assert (BinaryReversion.binary_reversion_count (BinaryReversion.st_globals s1) = 0) as H0.
    { rewrite <- (Permutation_length (React.sort_up_perm _)) in Hb.
      apply BinaryReversion.search_bounded in Hb as [? _]; [done| |cbn; rewrite Hr; lia..].
      intros Hnil. apply (f_equal length) in Hnil. rewrite (Permutation_length (React.sort_up_perm _)) in Hnil. cbn in Hnil. lia. }
    repeat case_decide; try done; by injection H1 as <-.
Qed.

End Seen.

(** ** Candidates *)

(** The trace items hold the executed hooks: the instruction and the address. *)
Definition recorded {Instr} (run : list (Instr * Z)) (its : list (AddrTrace.PmemAddrTraceItem (Instr := Instr))) : Prop :=
  (fun it => (AddrTrace.instr it, AddrTrace.addr it)) <$> its = (fun x => (Some x.1, x.2)) <$> run.

(** The items that have an instruction are the accesses [acc]. *)
Definition accessed {Instr} (acc : Instr -> Z -> Prop) (its : list (AddrTrace.PmemAddrTraceItem (Instr := Instr))) : Prop :=
  forall i a, (exists it, it ∈ its /\ AddrTrace.instr it = Some i /\ AddrTrace.addr it = a) <-> acc i a.

(** [trace_instrs]: the items filed under their instructions. *)
Definition filed {Instr} (its : list (AddrTrace.PmemAddrTraceItem (Instr := Instr))) :
  list (option Instr * AddrTrace.PmemAddrTraceItem (Instr := Instr)) := (fun it => (AddrTrace.instr it, it)) <$> its.

Lemma recorded_accessed {Instr} (run : list (Instr * Z)) its : recorded run its -> accessed (fun i a => (i, a) ∈ run) its.
Proof.
  intros Heq i a. split.
  - intros (it & Hit & Hi & Ha). apply (list_elem_of_fmap_2 (fun it => (AddrTrace.instr it, AddrTrace.addr it))) in Hit.
    rewrite Heq, Hi, Ha in Hit. apply list_elem_of_fmap in Hit as ([j b] & [= -> ->] & Hx). done.
  - intros Hx. apply (list_elem_of_fmap_2 (fun x => (Some x.1, x.2))) in Hx. rewrite <- Heq in Hx.
    apply list_elem_of_fmap in Hx as (it & [= Hi Ha] & Hit). by exists it.
Qed.

Lemma candidates_accessed {Instr} `{!EqDecision Instr} s (acc : Instr -> Z -> Prop) its i q :
  SeqLog.wf s -> accessed acc its ->
  q ∈ React.candidates (Layout.by_address s) (filed its) i <->
    exists a d, acc i a /\ SeqLog.model s !! q = Some d /\ sd_address d = a.
Proof.
  intros Hwf Hacc. unfold React.candidates, React.traced, filed. rewrite list_elem_of_bind. split.
  - intros (it & Hq & Hit). unfold React.candidates_of in Hq. case_decide as Hi; [|by apply elem_of_nil in Hq].
    rewrite React.sort_up_perm in Hq. unfold LogCreation.equal_range in Hq.
    apply list_elem_of_fmap in Hq as ([a' q'] & -> & [Ha Hn]%list_elem_of_filter). cbn in Ha. subst a'.
    apply list_elem_of_fmap in Hn as (n & [= Ha ->] & Hn).
    apply list_elem_of_fmap in Hit as ([o it'] & -> & [_ Hit]%list_elem_of_filter). cbn in Ha, Hi.
    apply list_elem_of_fmap in Hit as (it2 & [= _ ->] & Hit).
    exists (AddrTrace.addr it2), (sn_ordered_data n). split; [apply Hacc; by exists it2|]. split; [|done].
    unfold SeqLog.model. apply to_map_Some; [apply Hwf|]. by exists n.
  - intros (a & d & Hx & Hd & Ha). apply Hacc in Hx as (it & Hit & Hi & Hia). exists it. split.
    + unfold React.candidates_of. rewrite decide_True by done. rewrite React.sort_up_perm. unfold LogCreation.equal_range.
      apply SeqLog.model_Some in Hd as (n & Hn & Hk & Hd); [|done].
      apply list_elem_of_fmap. exists (a, q). split; [done|]. apply list_elem_of_filter. split; [by rewrite Hia|].
      apply list_elem_of_fmap. exists n. split; [|done]. by rewrite Hd, Hk, Ha.
    + apply list_elem_of_fmap. exists (AddrTrace.instr it, it). split; [done|]. apply list_elem_of_filter. split; [done|].
      by apply (list_elem_of_fmap_2 (fun it => (AddrTrace.instr it, it))).
Qed.

(** ** The whole *)
Section Whole.
Context {Instr Fn Node Block Graph E : Type}.
Context `{Countable Instr} `{Countable Fn} `{Countable Node} `{Countable Block} `{Countable Graph} `{!Environment E}.
Context (dg : DgWalk.dependence_graph Instr Node Block Graph).
Context (getFunction : Instr -> Fn) (insts : Fn -> list Instr).
Context (gv : Slicer.graph_view (Instr := Instr) (Node := Node) (Block := Block) (Graph := Graph)).
Context (walk : Z -> Node -> list Node) (std_sort : (nat -> nat -> bool) -> list nat -> list nat).
Context (Hinsts : forall i, i ∈ insts (getFunction i)) (Hshort : SliceOrder.short insts) (Hsort : sorts std_sort).
Context (dir : SliceDirection) (flags : Z) (start : Node) (fault_inst : Instr) (all : gset Node).
Context (Hstart : DgWalk.getValue dg start = Some fault_inst).
Context (Hall : forall n, DgWalk.visited dg dir (DgWalk.chosen dir flags) start n -> n ∈ all).
Context (Hblocks : forall n, DgWalk.visited dg dir (DgWalk.chosen dir flags) start n -> DgWalk.has_blocks dg (DgWalk.chosen dir flags) n).
Context (Hsize : 100000 * Z.of_nat (size all + 2) < 2 ^ 63).

(** The update with number [q] is at an address that an instruction accessed of which
    the fault instruction is a consequence. *)
Definition caused (run : list (Instr * Z)) (s_log : seq_log) (q : Z) : Prop :=
  exists i a d, rtc (DgWalk.depends dg dir flags start) fault_inst i /\ (i, a) ∈ run /\
    SeqLog.model s_log !! q = Some d /\ sd_address d = a.

(** The same for any accesses, those of a run among them. *)
Definition caused_by (acc : Instr -> Z -> Prop) (s_log : seq_log) (q : Z) : Prop :=
  exists i a d, rtc (DgWalk.depends dg dir flags start) fault_inst i /\ acc i a /\
    SeqLog.model s_log !! q = Some d /\ sd_address d = a.

Context (garbage empty_data : single_data) (c_log : checkpoint_log) (num_data pool_address : Z)
        (options : Options.reactor_options) (fp : Z) (m : memory) (e : E) (x : BinaryReversion.globals) (pop : Z).

Lemma reaction_causes_ok fuel slice_ctrl sl d fm G pmem_vars c acc its s_log r_log fuel' :
  Slicer.direction sl = dir ->
  flags = (if slice_ctrl : bool then Z.lor DgWalk.DEFAULT_DEPENDENCY_FLAGS DgWalk.CONTROL else DgWalk.DEFAULT_DEPENDENCY_FLAGS) ->
  Slicer.funcDgMap sl = Some fm -> fm !! getFunction fault_inst = Some G -> Slicer.findNode gv G fault_inst = Some start ->
  (forall n, Slicer.lastwalk d !! n <> Some (u32 (Slicer.walk_run_counter d + 1))) -> (size all + 1 <= fuel)%nat ->
  SeqLog.wf s_log -> SeqLog.wf r_log -> SeqLog.model r_log = ∅ -> Layout.tables_ok s_log r_log ->
  (3 <= fuel')%nat -> BinaryReversion.binary_reversion_count x = 0 -> accessed acc its ->
  exists ss c', Slicer.slice_fault_instr dg getFunction insts gv walk std_sort fuel true slice_ctrl sl d fault_inst pmem_vars c =
      Some (Some (true, ss, c')) /\
    let out := Layout.reaction garbage empty_data c_log num_data pool_address options fp its fault_inst (filed its)
                 (Service.Standalone.instructions_of ss) fuel' m e x pop s_log r_log in
    out <> NoFuel /\
    forall v dr, out = Ret (v, dr) -> let taken := dom (SeqLog.model (React.r_log (React.dr_coll dr))) in
      (forall q, q ∈ taken -> caused_by acc s_log q) /\ (v = React.Continue -> forall q, caused_by acc s_log q -> q ∈ taken).
Proof.
  intros Hdir Hflags Hfm HG Hnode Hlw Hfuel Hs Hr Hempty Htables Hf' Hx Hacc.
  destruct (SliceFault.slice_fault_instr_ok dg getFunction insts gv walk std_sort Hinsts Hshort Hsort dir flags start fault_inst all
    Hstart Hall Hblocks Hsize fuel slice_ctrl sl d fm G pmem_vars c) as (ss & c' & Hsl & Hcov & _); [done..|].
  exists ss, c'. split; [exact Hsl|]. intros out.
  pose proof (Layout.reaction_reference garbage empty_data c_log num_data pool_address options fp its fault_inst (filed its)
    (Service.Standalone.instructions_of ss) fuel' m e x pop s_log r_log Hs Hr Htables) as Href.
  fold out in Href. rewrite Hempty, dom_empty_L in Href. split.
  { intros Hnf. rewrite Hnf in Href. symmetry in Href. revert Href. by apply ref_items_fuel. }
  assert (forall i, i ∈ concat (Service.Standalone.instructions_of ss) <-> rtc (DgWalk.depends dg dir flags start) fault_inst i) as Hi.
  { intros i. rewrite (SliceFault.depends_visited dg dir flags start fault_inst Hstart), <- Hcov.
    unfold Service.Standalone.instructions_of. rewrite elem_of_concat. split.
    - intros (l & [p Hl] & Hin). apply list_lookup_fmap_Some in Hl as (k & -> & Hk). exists k. split; [by eapply list_elem_of_lookup_2|done].
    - intros (k & Hk & Hin). eexists. split; [|exact Hin]. apply list_elem_of_lookup. by apply (list_elem_of_fmap_2 (fun k => (Slice.dep_vals k).*1)). }
  intros v dr Hout taken. rewrite Hout in Href. symmetry in Href. apply ref_items_seen in Href as (l1 & l2 & Hl & Hseen & Hv).
  change (React.rf_seen (React.abs dr)) with taken in Hseen.
  assert (forall q, q ∈ taken <-> exists i, i ∈ l1 /\ exists a d', acc i a /\ SeqLog.model s_log !! q = Some d' /\ sd_address d' = a) as Hq.
  { intros q. rewrite Hseen. cbn [React.rf_seen]. rewrite elem_of_union, elem_of_list_to_set, list_elem_of_bind. setoid_rewrite (candidates_accessed _ _ _ _ _ Hs Hacc).
    split; [intros [?%elem_of_empty|(i & ? & ?)]; [done|by exists i]|intros (i & ? & ?); right; by exists i]. }
  split.
  - intros q (i & Hi1 & a & d' & ?)%Hq. exists i, a, d'. split; [|done]. apply Hi. rewrite Hl. apply elem_of_app. by left.
  - intros Hc q (i & a & d' & Hdep & ?). apply Hq. exists i. split; [|by exists a, d'].
    apply Hi in Hdep. rewrite Hl, (Hv Hc), app_nil_r in Hdep. exact Hdep.
Qed.

(** C2. The reaction considers the causes of the fault.  Slicing the fault instruction
    succeeds, and the reaction on the slices comes to an end.  The sequence numbers it
    has taken are numbers of checkpointed updates at addresses that the run accessed
    with instructions the fault instruction depends on; when no search succeeded, it
    has taken all of these numbers. *)
Theorem reaction_considers_causes fuel slice_ctrl sl d fm G pmem_vars c run its s_log r_log fuel' :
  Slicer.direction sl = dir ->
  flags = (if slice_ctrl : bool then Z.lor DgWalk.DEFAULT_DEPENDENCY_FLAGS DgWalk.CONTROL else DgWalk.DEFAULT_DEPENDENCY_FLAGS) ->
  Slicer.funcDgMap sl = Some fm -> fm !! getFunction fault_inst = Some G -> Slicer.findNode gv G fault_inst = Some start ->
  (forall n, Slicer.lastwalk d !! n <> Some (u32 (Slicer.walk_run_counter d + 1))) -> (size all + 1 <= fuel)%nat ->
  SeqLog.wf s_log -> SeqLog.wf r_log -> SeqLog.model r_log = ∅ -> Layout.tables_ok s_log r_log ->
  (3 <= fuel')%nat -> BinaryReversion.binary_reversion_count x = 0 -> recorded run its ->
  exists ss c', Slicer.slice_fault_instr dg getFunction insts gv walk std_sort fuel true slice_ctrl sl d fault_inst pmem_vars c =
      Some (Some (true, ss, c')) /\
    let out := Layout.reaction garbage empty_data c_log num_data pool_address options fp its fault_inst (filed its)
                 (Service.Standalone.instructions_of ss) fuel' m e x pop s_log r_log in
    out <> NoFuel /\
    forall v dr, out = Ret (v, dr) -> let taken := dom (SeqLog.model (React.r_log (React.dr_coll dr))) in
      (forall q, q ∈ taken -> caused run s_log q) /\ (v = React.Continue -> forall q, caused run s_log q -> q ∈ taken).
Proof.
  intros Hdir Hflags Hfm HG Hnode Hlw Hfuel Hs Hr Hempty Htables Hf' Hx Hrun%recorded_accessed.
  by eapply (reaction_causes_ok fuel slice_ctrl sl d fm G pmem_vars c (fun i a => (i, a) ∈ run)).
Qed.

End Whole.

(** ** Example

    The dependence graph of [DgWalk], a run in which instruction 3 accesses the address
    of the two entries of [Rollback] and 9, which the fault does not depend on, another
    one; the program fails in every run. *)
Definition ex_run : list (Z * Z) := [(3, 40); (9, 77)].
Definition ex_item (x : Z * Z) : AddrTrace.PmemAddrTraceItem (Instr := Z) := AddrTrace.MkItem [] x.2 0 0 false false None (Some x.1).
Definition ex_reaction (ss : list (Slice Z)) : outcome (React.verdict * React.driver (E := list Z)) :=
  Layout.reaction Rollback.ex_garbage Rollback.ex_garbage ex_clog 1 40 BinaryReversion.ex_options 1 (ex_item <$> ex_run) 0
    (filed (ex_item <$> ex_run)) (Service.Standalone.instructions_of ss) 3 Rollback.ex_pm (replicate 4 256)
    (BinaryReversion.Globals (-1) 0 0 0) 40 Layout.ex_table2 (SeqLog.empty_log 3 93).

Lemma reaction_considers_causes_witness :
  exists ss c' dr, Slicer.slice_fault_instr DgWalk.ex_dg (fun i => i) (fun f => [f]) SliceFault.ex_view (fun _ n => [n])
      SliceOrder.insertion_sort 6 true false SliceFault.ex_slicer SliceFault.ex_state 0 {[ 3 ]} (MkCounters 0 0 0) = Some (Some (true, ss, c')) /\
    ex_reaction ss = Ret (React.Continue, dr) /\
    (forall q, caused DgWalk.ex_dg Backward DgWalk.DEFAULT_DEPENDENCY_FLAGS 0 0 ex_run Layout.ex_table2 q <->
               q ∈ dom (SeqLog.model (React.r_log (React.dr_coll dr)))) /\
    dom (SeqLog.model (React.r_log (React.dr_coll dr))) = {[ 4; 6 ]}.
Proof.
  assert (SeqLog.wf Layout.ex_table2) as Hwf.
  { destruct (Layout.inserted_equiv 7 100 7 100 Layout.ex_entries Layout.ex_entries) as (s1 & s2 & H1 & _ & (Hs & _)); [done..| | |].
    - apply (bool_decide_unpack _). vm_compute. exact I.
    - repeat constructor; done.
    - vm_compute in H1. injection H1 as <-. exact Hs. }
  destruct (reaction_considers_causes DgWalk.ex_dg (fun i => i) (fun f => [f]) SliceFault.ex_view (fun _ n => [n]) SliceOrder.insertion_sort)
    with (dir := Backward) (flags := DgWalk.DEFAULT_DEPENDENCY_FLAGS) (start := 0) (fault_inst := 0) (all := DgWalk.ex_nodes)
         (garbage := Rollback.ex_garbage) (empty_data := Rollback.ex_garbage) (c_log := ex_clog) (num_data := 1) (pool_address := 40)
         (options := BinaryReversion.ex_options) (fp := 1) (m := Rollback.ex_pm) (e := replicate 4 256)
         (x := BinaryReversion.Globals (-1) 0 0 0) (pop := 40)
         (fuel := 6%nat) (slice_ctrl := false) (sl := SliceFault.ex_slicer) (d := SliceFault.ex_state) (fm := {[ 0 := 0 ]} : gmap Z Z) (G := 0)
         (pmem_vars := {[ 3 ]} : gset Z) (c := MkCounters 0 0 0) (run := ex_run) (its := ex_item <$> ex_run)
         (s_log := Layout.ex_table2) (r_log := SeqLog.empty_log 3 93) (fuel' := 3%nat)
    as (ss & c' & Hsl & _ & Hout).
  - intros i. by left.
  - intros f. cbn. lia.
  - apply SliceOrder.insertion_sort_sorts.
  - reflexivity.
  - exact DgWalk.ex_visited.
  - intros n _. apply DgWalk.ex_blocks.
  - vm_compute. reflexivity.
  - reflexivity.
  - reflexivity.
  - reflexivity.
  - reflexivity.
  - reflexivity.
  - intros n. cbn. by rewrite lookup_empty.
  - vm_compute. lia.
  - exact Hwf.
  - by apply SeqLog.empty_log_wf.
  - reflexivity.
  - split; [vm_compute; discriminate|done].
  - lia.
  - reflexivity.
  - reflexivity.
  - change (forall v dr, ex_reaction ss = Ret (v, dr) -> let taken := dom (SeqLog.model (React.r_log (React.dr_coll dr))) in
      (forall q, q ∈ taken -> caused DgWalk.ex_dg Backward DgWalk.DEFAULT_DEPENDENCY_FLAGS 0 0 ex_run Layout.ex_table2 q) /\
      (v = React.Continue -> forall q, caused DgWalk.ex_dg Backward DgWalk.DEFAULT_DEPENDENCY_FLAGS 0 0 ex_run Layout.ex_table2 q -> q ∈ taken)) in Hout.
    exists ss, c'.
    assert (React.result (fun '(v, d) => bool_decide (dom (SeqLog.model (React.r_log (React.dr_coll d))) = {[ 4; 6 ]}) &&
        match v with React.Finished => false | React.Continue => true end) false (ex_reaction ss) = true) as Hc.
    { pose proof Hsl as H1. vm_compute in H1. injection H1 as <- _. vm_compute. reflexivity. }
    destruct (ex_reaction ss) as [[v dr]| |] eqn:Hr; [|discriminate|discriminate]. exists dr. cbn [React.result] in Hc.
    apply andb_true_iff in Hc as [Hc Hv]. apply bool_decide_eq_true in Hc. destruct v; [discriminate|].
    split; [exact Hsl|]. split; [reflexivity|]. split; [|exact Hc].
    destruct (Hout _ _ eq_refl) as [H1 H2]. intros q. split; [by apply H2|by apply H1].
Defined.

End Causes.
