(* ===== verification/Entries.v ===== *)
(** * The entries behind the tables

    What the creation functions (src/reactor/lib/checkpoint.c, order_by_sequence_num
    and order_by_tx_id; core.cpp, seq_log_creation and tx_log_creation) put into the
    tables and what they leave in memory, said without the tables: the same for any
    number of slots.  And what of the preparation of a reaction is always defined. *)
From stdpp Require Import base list gmap.
From S2P Require Import Prelude Memory Checkpoint Chains SeqLog TxLog OrderLog LogCreation.

Module Entries.

(** One version of the checkpoint: its entry is filled and filed. *)
Definition entry_step (st : memory * single_data * list single_data) (v : node * Z) : option (memory * single_data * list single_data) :=
  let '(m, od, ds) := st in
  '(m', d) ← OrderLog.fill_entry v.1 v.2 m od;
  Some (m', d, ds ++ [d]).
Definition entries (g : single_data) (m : memory) (c_log : checkpoint_log) : option (memory * single_data * list single_data) :=
  mfold entry_step (m, g, []) (OrderLog.versions c_log).

(** The entries by sequence number, a later one in place of an earlier one. *)
Definition by_number (ds : list single_data) : gmap Z single_data :=
  foldl (fun M d => <[sd_sequence_number d := d]> M) ∅ ds.

(** Every version has the eight bytes that the debugging output of [tx_log_creation] reads. *)
Definition printable (c_log : checkpoint_log) : Prop :=
  forall n j, (n, j) ∈ OrderLog.versions c_log -> exists z, zget (cd_size (nd_c_data n)) j = Some z /\ 8 <= z.

(** A checkpoint stays readable when blocks are added. *)
Lemma clog_ok_extends m m' c_log : mem_ok m -> OrderLog.extends m m' -> OrderLog.clog_ok m c_log -> OrderLog.clog_ok m' c_log.
Proof.
  intros Hm Hex [Hs Hl Hn]. split; [done|done|]. intros n Hin. destruct (Hn n Hin) as [Hv Hb Hq Ht]. split; [done| |done|done].
  intros k Hk. destruct (Hb k Hk) as (bs & p & Hp & Hz & Hh). exists bs, p. split; [done|]. split; [done|]. by eapply OrderLog.extends_holds.
Qed.

Section Creation.
Context (g : single_data) (m : memory) (c_log : checkpoint_log).
Context (Hm : mem_ok m) (Hg : OrderLog.arrays_ok g) (Hc : OrderLog.clog_ok m c_log).

Lemma filled n j m1 od :
  (n, j) ∈ OrderLog.versions c_log -> OrderLog.extends m m1 -> OrderLog.arrays_ok od ->
  exists m2 d, OrderLog.fill_entry n j m1 od = Some (m2, d) /\ OrderLog.extends m m2 /\ OrderLog.arrays_ok d /\
    0 <= sd_sequence_number d < 2 ^ 31 /\ 0 <= sd_tx_id d < 2 ^ 31.
Proof.
  intros [Hn Hj]%OrderLog.in_versions Hex Ha. pose proof (OrderLog.co_nodes _ _ Hc n Hn) as Hok.
  destruct (OrderLog.fill_entry_ok m n j m1 od) as (m2 & d & Hf & He & Ha2 & Hent & _); [done..|].
  exists m2, d. split; [done|]. split; [by eapply OrderLog.extends_trans|]. split; [done|].
  destruct (OrderLog.no_seq _ _ Hok j Hj) as (q & Hq & Hqr), (OrderLog.no_tx _ _ Hok j Hj) as (t & Ht & Htr).
  pose proof (OrderLog.eo_seq _ _ _ _ _ Hent). pose proof (OrderLog.eo_tx _ _ _ _ _ Hent).
  split; congruence.
Qed.

Lemma seq_entries size slots :
  0 < size < 2 ^ 31 -> 92 < slots ->
  exists st ds, OrderLog.order_by_sequence_num g m (SeqLog.empty_log size slots) 0 c_log = Some st /\
    entries g m c_log = Some (OrderLog.os_mem st, OrderLog.os_ordered st, ds) /\ SeqLog.model (OrderLog.os_log st) = by_number ds.
Proof.
  intros Hsize Hslots. unfold OrderLog.order_by_sequence_num, OrderLog.seq_node_loop.
  rewrite (OrderLog.walk_versions OrderLog.seq_body) by apply Hc. unfold entries.
  destruct (mfold_total (fun st v => OrderLog.seq_body v.1 v.2 st)
    (fun vs st => OrderLog.extends m (OrderLog.os_mem st) /\ OrderLog.arrays_ok (OrderLog.os_ordered st) /\
       SeqLog.wf (OrderLog.os_log st) /\ 92 < sl_slots (OrderLog.os_log st) /\
       exists ds, mfold entry_step (m, g, []) vs = Some (OrderLog.os_mem st, OrderLog.os_ordered st, ds) /\
         SeqLog.model (OrderLog.os_log st) = by_number ds)
    (OrderLog.versions c_log) (OrderLog.SeqState m (SeqLog.empty_log size slots) 0 g)) as (st & Hst & _ & _ & _ & _ & ds & Hds & HM).
  - split; [by apply OrderLog.extends_refl|]. split; [done|]. split; [by apply SeqLog.empty_log_wf|]. split; [done|].
    exists []. split; [done|]. apply SeqLog.empty_log_model.
  - intros l1 [n j] l2 [m1 s1 t1 od1] Hl (Hex & Ha & Hwf & Hsl & ds & Hds & HM).
    cbn [OrderLog.os_mem OrderLog.os_ordered OrderLog.os_log fst snd] in *.
    destruct (filled n j m1 od1) as (m2 & d & Hf & Hex2 & Ha2 & Hq & _); [rewrite Hl; apply elem_of_app; right; left|done|done|].
    unfold OrderLog.seq_body. cbn [OrderLog.os_mem OrderLog.os_ordered OrderLog.os_log OrderLog.os_total]. rewrite Hf. simpl_bind.
    destruct (SeqLog.insert_ok s1 (sd_sequence_number d) d Hwf Hq Hsl) as (s2 & -> & Hwf2 & HM2 & _ & Hsl2). simpl_bind.
    eexists. split; [reflexivity|]. cbn [OrderLog.os_mem OrderLog.os_ordered OrderLog.os_log].
    split; [done|]. split; [done|]. split; [done|]. split; [by rewrite Hsl2|]. exists (ds ++ [d]). split.
    + rewrite mfold_app, Hds. simpl_bind. cbn [mfold entry_step fst snd]. by rewrite Hf.
    + unfold by_number. rewrite foldl_app. cbn [foldl]. by rewrite HM2, HM.
  - exists st, ds. done.
Qed.

Context (Hlong : printable c_log).

Lemma tx_entries size :
  0 < size < 2 ^ 31 ->
  exists st ds, OrderLog.order_by_tx_id g m (TxLog.empty_tx size) c_log = Some st /\
    entries g m c_log = Some (OrderLog.ot_mem st, OrderLog.ot_ordered st, ds) /\ TxLog.wf (OrderLog.ot_log st).
Proof.
  intros Hsize. unfold OrderLog.order_by_tx_id, OrderLog.tx_node_loop.
  rewrite (OrderLog.walk_versions OrderLog.tx_body) by apply Hc. unfold entries.
  destruct (mfold_total (fun st v => OrderLog.tx_body v.1 v.2 st)
    (fun vs st => OrderLog.extends m (OrderLog.ot_mem st) /\ OrderLog.arrays_ok (OrderLog.ot_ordered st) /\ TxLog.wf (OrderLog.ot_log st) /\
       exists ds, mfold entry_step (m, g, []) vs = Some (OrderLog.ot_mem st, OrderLog.ot_ordered st, ds))
    (OrderLog.versions c_log) (OrderLog.TxState m (TxLog.empty_tx size) g)) as (st & Hst & _ & _ & Hwf & ds & Hds).
  - split; [by apply OrderLog.extends_refl|]. split; [done|]. split; [by apply TxLog.empty_tx_wf|]. by exists [].
  - intros l1 [n j] l2 [m1 t1 od1] Hl (Hex & Ha & Hwf & ds & Hds). cbn [OrderLog.ot_mem OrderLog.ot_ordered OrderLog.ot_log fst snd] in *.
    destruct (filled n j m1 od1) as (m2 & d & Hf & Hex2 & Ha2 & _ & Hq); [rewrite Hl; apply elem_of_app; right; left|done|done|].
    unfold OrderLog.tx_body. cbn [OrderLog.ot_mem OrderLog.ot_ordered OrderLog.ot_log]. rewrite Hf. simpl_bind.
    destruct (TxLog.tx_insert_ok t1 (sd_tx_id d) d Hwf Hq) as (t2 & -> & Hwf2 & _). simpl_bind.
    eexists. split; [reflexivity|]. cbn [OrderLog.ot_mem OrderLog.ot_ordered OrderLog.ot_log].
    split; [done|]. split; [done|]. split; [done|]. exists (ds ++ [d]).
    rewrite mfold_app, Hds. simpl_bind. cbn [mfold entry_step fst snd]. by rewrite Hf.
  - by exists st, ds.
Qed.

(** Every entry of the transaction log can be printed. *)
Lemma tx_printable size st n :
  0 < size < 2 ^ 31 -> OrderLog.order_by_tx_id g m (TxLog.empty_tx size) c_log = Some st ->
  n ∈ concat (tl_list (OrderLog.ot_log st)) -> is_Some (load_bytes (OrderLog.ot_mem st) (sd_data (tn_ordered_data n)) 8).
Proof.
  intros Hsize Hst Hn. destruct (OrderLog.order_by_tx_id_correct g m size c_log Hsize Hm Hg Hc) as (st' & Hst' & _ & Hall).
  rewrite Hst in Hst'. injection Hst' as <-. specialize (Hall (tn_tx_id n)).
  assert (tn_ordered_data n ∈ TxLog.model (OrderLog.ot_log st) (tn_tx_id n)) as Hd.
  { apply list_elem_of_fmap. exists n. split; [done|]. by apply list_elem_of_filter. }
  apply list_elem_of_lookup in Hd as [i Hi]. destruct (Forall2_lookup_r _ _ _ _ _ Hall Hi) as ([k j] & Hv%list_elem_of_lookup_2 & Hent).
  apply elem_of_reverse, list_elem_of_filter in Hv as [_ Hv]. destruct (Hlong k j Hv) as (z & Hz & Hz8).
  destruct (OrderLog.eo_data _ _ _ _ _ Hent) as (bs & (p & _ & Hbs & _) & _ & Hh). cbn [fst snd] in Hbs.
  rewrite Hz in Hbs. injection Hbs as ->. apply load_bytes_total. intros x Hx. apply (OrderLog.holds_mapped _ _ _ Hh).
  unfold in_area in *. lia.
Qed.

(** The transaction log can always be built, with the memory the entries leave. *)
Lemma tx_log_created :
  exists m' od ds t, entries g m c_log = Some (m', od, ds) /\ LogCreation.tx_log_creation g m c_log = Some (m', t).
Proof.
  assert (0 < LogCreation.LOG_SIZE < 2 ^ 31) as Hsize by (unfold LogCreation.LOG_SIZE; lia).
  destruct (tx_entries LogCreation.LOG_SIZE Hsize) as (st & ds & Hst & Hds & Hwf).
  exists (OrderLog.ot_mem st), (OrderLog.ot_ordered st), ds, (OrderLog.ot_log st). split; [done|].
  unfold LogCreation.tx_log_creation. rewrite Hst. simpl_bind.
  destruct (TxLog.chain_lookup (OrderLog.ot_log st) 1 Hwf) as (c & Hch & Hl & _); [lia|].
  rewrite TxLog.txhashCode_nonneg by (destruct Hwf as [Hp]; destruct Hp; lia). simpl_bind. rewrite Hch. simpl_bind.
  destruct (mfold_total (fun (_ : unit) t_temp => _ ← load_bytes (OrderLog.ot_mem st) (sd_data (tn_ordered_data t_temp)) 8; Some tt)
    (fun _ _ => True) c tt) as (u & -> & _); [done| |done].
  intros l1 x l2 [] -> _. destruct (tx_printable LogCreation.LOG_SIZE st x Hsize Hst) as [bs ->]; [|by exists tt].
  apply elem_of_concat. exists (l1 ++ x :: l2). split; [by eexists|]. apply elem_of_app. right. left.
Qed.

(** The sequence log is the map of the entries, at the size of the code or any other. *)
Lemma seq_log_created :
  exists m' od ds cr, entries g m c_log = Some (m', od, ds) /\ LogCreation.seq_log_creation g m c_log = Some cr /\
    LogCreation.cr_mem cr = m' /\ SeqLog.model (LogCreation.cr_s_log cr) = by_number ds.
Proof.
  destruct (seq_entries LogCreation.LOG_SIZE LogCreation.LOG_SIZE) as (st & ds & Hst & Hds & HM); [unfold LogCreation.LOG_SIZE; lia..|].
  do 4 eexists. split; [exact Hds|]. unfold LogCreation.seq_log_creation. rewrite Hst. by simpl_bind.
Qed.

End Creation.
End Entries.
