(* ===== verification/EndToEnd.v ===== *)
(** * From the instrumented program to the reaction

    All parts put together, for a target that was instrumented, run and monitored, a
    checkpoint that can be read, and a fault instruction that can be sliced: the
    tables the reaction builds (reactor/lib/core.cpp, Reactor::react), and what the
    reaction considers in terms of the run and of the checkpoint. *)
From stdpp Require Import base list gmap strings sorting.
From S2P Require Import Prelude Memory Checkpoint Chains SeqLog OrderLog Rollback LogCreation ReExecute Options BinaryReversion Strings GuidMap Tracker AddrTrace TraceType Monitor Tracing Concurrency React Layout Entries Matcher.
From S2P Require Import Slice SliceGraph ComputeSlices SliceOrder DgWalk Slicer SliceFault Instrument Pipeline Service Causes.
Import Strings Slice SliceGraph.

Module EndToEnd.
Import ReExecute.
#[local] Existing Instances Layout.seq_log_equiv Layout.driver_equiv.

(** ** The tables of a checkpoint *)

(** The version of a node that has sequence number [q], and its address. *)
Definition checkpointed (c_log : checkpoint_log) (q a : Z) : Prop :=
  exists n j, (n, j) ∈ OrderLog.versions c_log /\ OrderLog.seq_of (n, j) = Some q /\ cd_address (nd_c_data n) = a.

(** A log whose entries are the versions of the checkpoint. *)
Record holds_checkpoint (c_log : checkpoint_log) (s : seq_log) : Prop := HoldsCheckpoint {
  hc_wf : SeqLog.wf s;
  hc_entry : forall q a, (exists d, SeqLog.model s !! q = Some d /\ sd_address d = a) <-> checkpointed c_log q a;
  hc_size : Z.of_nat (size (SeqLog.model s)) <= Z.of_nat (length (OrderLog.versions c_log))
}.

Lemma log_of_holds m0 m c_log s :
  OrderLog.log_of m0 (OrderLog.versions c_log) m s -> NoDup (OrderLog.seq_of <$> OrderLog.versions c_log) -> holds_checkpoint c_log s.
Proof.
  intros Hlog Hnd. split; [apply Hlog|..].
  - intros q a. split.
    + intros (d & Hd & <-). destruct (OrderLog.lo_entry _ _ _ _ Hlog q d Hd) as ([n j] & Hv & Hq & _ & Hent & _).
      exists n, j. split; [done|]. split; [done|]. symmetry. apply (OrderLog.eo_address _ _ _ _ _ Hent).
    + intros (n & j & Hv & Hq & <-). pose proof (OrderLog.lo_dom _ _ _ _ Hlog _ _ Hv Hq) as [d Hd]%elem_of_dom. exists d. split; [done|].
      destruct (OrderLog.lo_entry _ _ _ _ Hlog q d Hd) as (w & Hw & Hwq & _ & Hent & _).
      apply list_elem_of_lookup in Hv as [i Hi], Hw as [i' Hi'].
      assert (i = i') as <-.
      { eapply (NoDup_lookup _ _ _ (Some q) Hnd); rewrite list_lookup_fmap, ?Hi, ?Hi'; cbn; by rewrite ?Hq, ?Hwq. }
      rewrite Hi in Hi'. injection Hi' as <-. apply (OrderLog.eo_address _ _ _ _ _ Hent).
  - rewrite <- size_dom. apply inj_le. trans (size (list_to_set (omap OrderLog.seq_of (OrderLog.versions c_log)) : gset Z)).
    + apply subseteq_size. intros q [d Hd]%elem_of_dom. destruct (OrderLog.lo_entry _ _ _ _ Hlog q d Hd) as (v & Hv & Hq & _).
      apply elem_of_list_to_set, list_elem_of_omap. by exists v.
    + etrans; [apply size_list_to_set_le|]. apply length_omap_le.
Qed.

(** Assigning persistent addresses keeps the entries. *)
Lemma assign_keeps_address oas d : sd_address (LogCreation.assign oas d) = sd_address d.
Proof.
  unfold LogCreation.assign. revert d. induction oas as [|oa oas IH]; intros d; cbn [fold_left]; [done|].
  rewrite IH. unfold LogCreation.assign1. by case_decide.
Qed.

Lemma holds_assigned c_log s s' oas :
  holds_checkpoint c_log s -> SeqLog.wf s' -> SeqLog.model s' = LogCreation.assign oas <$> SeqLog.model s -> holds_checkpoint c_log s'.
Proof.
  intros [Hwf He Hs] Hwf' HM. split; [done|..].
  - intros q a. rewrite <- He, HM. split.
    + rewrite lookup_fmap. intros (d & (d0 & Hd0 & ->)%fmap_Some & Ha). exists d0. by rewrite assign_keeps_address in Ha.
    + intros (d & Hd & Ha). exists (LogCreation.assign oas d). rewrite lookup_fmap, Hd, assign_keeps_address. done.
  - by rewrite HM, map_size_fmap.
Qed.

Lemma offset_list_lengths {Instr} (its : list (AddrTrace.PmemAddrTraceItem (Instr := Instr))) l pop offsets addresses :
  React.offset_list its l pop = Some (offsets, addresses) -> length offsets = length l /\ length addresses = length l.
Proof.
  unfold React.offset_list. intros (items & Hm & [= <- <-])%bind_Some. rewrite !length_map.
  apply mapM_Some in Hm. by rewrite (Forall2_length _ _ _ Hm).
Qed.

Lemma run_offsets_length {Value} `{Countable Value} (lv : Instrument.llvm_view (Value := Value)) pool (run : list (Value * Z)) :
  length (Pipeline.run_offsets lv pool run) = length run.
Proof. revert pool. induction run as [|[i a] run IH]; intros pool; cbn; [done|]. by case_match; cbn; rewrite IH. Qed.

(** The tables as [seq_log_creation] makes them: the one of the versions, and the empty
    one of the numbers already taken, for which the dead read of [insert] is harmless
    when there are more than five versions. *)
Lemma tables_created g m c_log :
  mem_ok m -> OrderLog.arrays_ok g -> OrderLog.clog_ok m c_log -> NoDup (OrderLog.seq_of <$> OrderLog.versions c_log) ->
  5 < Z.of_nat (length (OrderLog.versions c_log)) <= LogCreation.LOG_SIZE ->
  exists cr, LogCreation.seq_log_creation g m c_log = Some cr /\ holds_checkpoint c_log (LogCreation.cr_s_log cr) /\
    sl_size (LogCreation.cr_s_log cr) = LogCreation.LOG_SIZE /\ OrderLog.extends m (LogCreation.cr_mem cr) /\
    SeqLog.wf (LogCreation.cr_r_log cr) /\ SeqLog.model (LogCreation.cr_r_log cr) = ∅ /\ 92 < sl_slots (LogCreation.cr_r_log cr).
Proof.
  intros Hm Hg Hc Hnd Hlen. unfold LogCreation.LOG_SIZE in Hlen.
  destruct (OrderLog.order_by_sequence_num_ok g m LogCreation.LOG_SIZE LogCreation.LOG_SIZE 0 c_log)
    as (st & Hst & Hex & Hlog & Ht & Hsz & _); [unfold LogCreation.LOG_SIZE; lia|unfold LogCreation.LOG_SIZE; lia|lia|done..|].
  rewrite Z.add_0_l, u64_small in Ht by lia.
  unfold LogCreation.seq_log_creation. rewrite Hst. simpl_bind. eexists. split; [reflexivity|].
  cbn [LogCreation.cr_s_log LogCreation.cr_r_log LogCreation.cr_mem]. split; [by eapply log_of_holds|]. split; [done|]. split; [done|].
  rewrite s32_small by lia. fold (SeqLog.empty_log (OrderLog.os_total st) (LogCreation.r_log_slots (OrderLog.os_total st))).
  split; [apply SeqLog.empty_log_wf; lia|]. split; [apply SeqLog.empty_log_model|].
  unfold SeqLog.empty_log, LogCreation.r_log_slots. cbn [sl_slots]. lia.
Qed.

(** ** The reaction on the tables of a checkpoint *)
Section Tables.
Context {E : Type} `{!Environment E} {Instr : Type} `{!EqDecision Instr}.
Context (garbage empty_data : single_data) (options : Options.reactor_options) (fp : Z) (fuel : nat).
Context (t : AddrTrace.PmemAddrTrace (Instr := Instr)) (tr : list (option Instr * AddrTrace.PmemAddrTraceItem (Instr := Instr)))
        (p : AddrTrace.PmemAddrPool) (fi : Instr) (slices : list (list Instr)) (c_log : checkpoint_log) (pop : Z) (w : world E)
        (x : BinaryReversion.globals).
Abbreviation num_data := (Z.of_nat (length (AddrTrace.addresses p))).
Abbreviation this_reaction := (React.react_with garbage empty_data options fp fuel t tr p fi slices c_log pop w x).

(** The indices of a typed trace are those of items. *)
Lemma offset_list_defined : TraceType.typed t -> p ∈ AddrTrace.pool_addrs t ->
  is_Some (React.offset_list (AddrTrace.items t) (AddrTrace.addresses p) pop) /\ is_Some (AddrTrace.items t !! AddrTrace.pool_addr p).
Proof.
  intros [_ Hpools Haddr] Hp. split.
  - unfold React.offset_list. destruct (mapM_is_Some_2 (fun i => AddrTrace.items t !! i) (AddrTrace.addresses p)) as [its ->]; [|by eexists].
    apply Forall_forall. intros i Hi. destruct (Haddr p i Hp Hi) as (it & _ & Hit & _). by eexists.
  - apply lookup_lt_is_Some. apply (list_elem_of_fmap_2 AddrTrace.pool_addr) in Hp. rewrite Hpools in Hp.
    apply list_elem_of_filter in Hp as [_ Hp%elem_of_seq]. lia.
Qed.

(** Preparing the tables is defined, and the reaction runs on tables that hold the
    versions of the checkpoint and none taken. *)
Lemma react_with_tables it offsets addresses :
  Options.arckpt options = false -> mem_ok (w_mem w) -> OrderLog.arrays_ok garbage -> OrderLog.clog_ok (w_mem w) c_log ->
  NoDup (OrderLog.seq_of <$> OrderLog.versions c_log) -> Entries.printable c_log ->
  5 < Z.of_nat (length (OrderLog.versions c_log)) <= LogCreation.LOG_SIZE -> num_data < 2 ^ 31 ->
  React.offset_list (AddrTrace.items t) (AddrTrace.addresses p) pop = Some (offsets, addresses) ->
  AddrTrace.items t !! AddrTrace.pool_addr p = Some it ->
  exists m1 od1 ds m od2 ds2 s r, Entries.entries garbage (w_mem w) c_log = Some (m1, od1, ds) /\
    Entries.entries garbage m1 c_log = Some (m, od2, ds2) /\
    SeqLog.model s = LogCreation.assign (zip offsets addresses) <$> Entries.by_number ds /\
    holds_checkpoint c_log s /\ SeqLog.wf r /\ SeqLog.model r = ∅ /\ Layout.tables_ok s r /\
    this_reaction = ('(_, d) ← Layout.reaction garbage empty_data c_log num_data (AddrTrace.addr it) options fp (AddrTrace.items t) fi tr slices fuel
                              m (w_env w) x pop s r; Ret d).
Proof.
  intros Harc Hm Hg Hc Hnd Hlong Hlen Hnum Ho Hit.
  destruct (tables_created garbage (w_mem w) c_log Hm Hg Hc Hnd Hlen) as (cr & Hcr & Hs & Hsz & Hex & Hr & Hempty & Hslots).
  destruct (Entries.seq_log_created garbage (w_mem w) c_log) as (m1 & od1 & ds & cr' & Hds & Hcr' & Hm1 & HM); [done..|].
  rewrite Hcr in Hcr'. injection Hcr' as <-. rewrite <- Hm1 in Hds.
  destruct (Entries.tx_log_created garbage (LogCreation.cr_mem cr) c_log) as (m & od2 & ds2 & tl & Hds2 & Htx);
    [apply Hex|done|by eapply Entries.clog_ok_extends|done|].
  destruct (offset_list_lengths _ _ _ _ _ Ho) as [Hl1 Hl2].
  destruct (LogCreation.sort_creation_ok (LogCreation.cr_s_log cr) offsets addresses num_data)
    as (mm & s & Hmm & Hsort & Hwf & Hmodel & Hsize); [apply Hs|by rewrite Hl1|congruence|done|].
  exists (LogCreation.cr_mem cr), od1, ds, m, od2, ds2, s, (LogCreation.cr_r_log cr).
  pose proof (holds_assigned _ _ _ _ Hs Hwf Hmodel) as Hs'. rewrite HM in Hmodel. do 6 (split; [done|]). split; [|by eapply Layout.react_with_reaction].
  split; [|done]. rewrite Hsize, Hsz. etrans; [apply (hc_size _ _ Hs')|apply Hlen].
Qed.

(** The reaction runs with the tables of the code as with tables of any sizes that hold
    the entries of the checkpoint. *)
Lemma react_with_entries it offsets addresses m od ds m' od' ds' s r :
  Options.arckpt options = false -> mem_ok (w_mem w) -> OrderLog.arrays_ok garbage -> OrderLog.clog_ok (w_mem w) c_log ->
  NoDup (OrderLog.seq_of <$> OrderLog.versions c_log) -> Entries.printable c_log ->
  5 < Z.of_nat (length (OrderLog.versions c_log)) <= LogCreation.LOG_SIZE -> num_data < 2 ^ 31 ->
  React.offset_list (AddrTrace.items t) (AddrTrace.addresses p) pop = Some (offsets, addresses) ->
  AddrTrace.items t !! AddrTrace.pool_addr p = Some it ->
  Entries.entries garbage (w_mem w) c_log = Some (m, od, ds) -> Entries.entries garbage m c_log = Some (m', od', ds') ->
  SeqLog.wf s -> SeqLog.model s = LogCreation.assign (zip offsets addresses) <$> Entries.by_number ds ->
  SeqLog.wf r -> SeqLog.model r = ∅ -> Layout.tables_ok s r ->
  Layout.outcome_rel (≡) this_reaction
    ('(_, d) ← Layout.reaction garbage empty_data c_log num_data (AddrTrace.addr it) options fp (AddrTrace.items t) fi tr slices fuel
                 m' (w_env w) x pop s r; Ret d).
Proof.
  intros Harc Hm Hg Hc Hnd Hlong Hlen Hnum Ho Hit Hds Hds' Hwf HM Hwfr HMr Htables.
  destruct (react_with_tables it offsets addresses Harc Hm Hg Hc Hnd Hlong Hlen Hnum Ho Hit)
    as (m1 & od1 & ds1 & m2 & od2 & ds2 & s1 & r1 & H1 & H2 & HM1 & Hs1 & Hwfr1 & HMr1 & Htables1 & ->).
  rewrite Hds in H1. injection H1 as <- <- <-. rewrite Hds' in H2. injection H2 as <- <- <-.
  eapply Layout.outcome_bind_rel; [apply Layout.reaction_layout_ok|].
  - split; [apply Hs1|]. by rewrite HM1, HM.
  - split; [done|]. by rewrite HMr1, HMr.
  - done.
  - done.
  - intros [v1 d1] [v2 d2] [_ Hd]. by constructor.
Qed.

End Tables.

(** ** The system *)
Section System.
Context {Value Fn Node Block Graph E : Type}.
Context `{Countable Value} `{Countable Fn} `{Countable Node} `{Countable Block} `{Countable Graph} `{!Environment E}.
Context (lv : Instrument.llvm_view (Value := Value)) (dg : DgWalk.dependence_graph Value Node Block Graph).
(** The module the reactor reads, with the lines and texts of its instructions. *)
Context (debug_line : Value -> option Z) (mtext : Value -> chars) (fs : list (Matcher.Function_ Value)).
Abbreviation answer := (Instrument.answer lv debug_line mtext fs).
Context (getFunction : Value -> Fn) (insts : Fn -> list Value).
Context (gv : Slicer.graph_view (Instr := Value) (Node := Node) (Block := Block) (Graph := Graph)).
Context (walk : Z -> Node -> list Node) (std_sort : (nat -> nat -> bool) -> list nat -> list nat).
Context (Hinsts : forall i, i ∈ insts (getFunction i)) (Hshort : SliceOrder.short insts) (Hsort : sorts std_sort).
Context (dir : SliceDirection) (flags : Z) (start : Node) (fault_inst : Value) (all : gset Node).
Context (Hstart : DgWalk.getValue dg start = Some fault_inst).
Context (Hall : forall n, DgWalk.visited dg dir (DgWalk.chosen dir flags) start n -> n ∈ all).
Context (Hblocks : forall n, DgWalk.visited dg dir (DgWalk.chosen dir flags) start n -> DgWalk.has_blocks dg (DgWalk.chosen dir flags) n).
Context (Hsize : 100000 * Z.of_nat (size all + 2) < 2 ^ 63).

(** The run accessed [a] behind an instruction for which the matcher answers [i]. *)
Definition accesses (run : list (Value * Z)) (i : Value) (a : Z) : Prop := exists i0, (i0, a) ∈ run /\ answer i0 = Some i.

(** [q] is the number of a checkpointed update at an address that the run accessed
    with an instruction, as the matcher sees it, that the fault instruction depends on. *)
Definition cause (run : list (Value * Z)) (c_log : checkpoint_log) (q : Z) : Prop :=
  exists i a, rtc (DgWalk.depends dg dir flags start) fault_inst i /\ accesses run i a /\ checkpointed c_log q a.

Lemma caused_cause run c_log s q :
  holds_checkpoint c_log s -> Causes.caused_by dg dir flags start fault_inst (accesses run) s q <-> cause run c_log q.
Proof.
  intros [_ He _]. unfold Causes.caused_by, cause. setoid_rewrite <- He. naive_solver.
Qed.

(** What processing leaves of a run, in the form of [Pipeline]. *)
Lemma processed_accesses (run : list (Value * Z)) (its : list (AddrTrace.PmemAddrTraceItem (Instr := Value))) os :
  length os = length run ->
  (fun it => (AddrTrace.instr it, AddrTrace.addr it, AddrTrace.pool_offset it)) <$> its =
    zip_with (fun x o => (answer x.1, x.2, default 0 o)) run os -> Causes.accessed (accesses run) its.
Proof.
  intros Hlen Heq. assert ((fun it => (AddrTrace.instr it, AddrTrace.addr it)) <$> its = (fun x => (answer x.1, x.2)) <$> run) as H'.
  { apply list_eq. intros k. apply (f_equal (.!! k)) in Heq. rewrite list_lookup_fmap, lookup_zip_with in Heq. rewrite !list_lookup_fmap.
    destruct (run !! k) as [x0|] eqn:Hx; [|by destruct (its !! k)].
    destruct (lookup_lt_is_Some_2 os k) as [o Ho]; [rewrite Hlen; by eapply lookup_lt_Some|]. rewrite Ho in Heq.
    destruct (its !! k); [|done]. cbn in *. congruence. }
  intros i a. split.
  - intros (it & Hit & Hi & Ha). apply (list_elem_of_fmap_2 (fun it => (AddrTrace.instr it, AddrTrace.addr it))) in Hit.
    rewrite H', Hi, Ha in Hit. apply list_elem_of_fmap in Hit as ([i0 b] & [= Hi0 ->] & Hx). by exists i0.
  - intros (i0 & Hx & Hi0). apply (list_elem_of_fmap_2 (fun x => (answer x.1, x.2))) in Hx. rewrite <- H' in Hx.
    apply list_elem_of_fmap in Hx as (it & [= Hi Ha] & Hit). exists it. split; [done|]. cbn in *. by rewrite <- Hi, Hi0.
Qed.

(** What a finished reaction on the checkpoint has taken. *)
Definition considers (run : list (Value * Z)) (c_log : checkpoint_log) (out : outcome (React.driver (E := E))) : Prop :=
  out <> NoFuel /\
  forall dr, out = Ret dr -> let taken := dom (SeqLog.model (React.r_log (React.dr_coll dr))) in
    (forall q, q ∈ taken -> cause run c_log q) /\
    (BinaryReversion.binary_success (BinaryReversion.st_globals (React.dr_search dr)) <> 1 -> forall q, cause run c_log q -> q ∈ taken).

Context (garbage empty_data : single_data) (options : Options.reactor_options) (fp : Z) (fuel' : nat).
Context (c_log : checkpoint_log) (pop : Z) (w : world E) (x : BinaryReversion.globals).
Context (Harc : Options.arckpt options = false) (Hfuel' : (3 <= fuel')%nat) (Hx : BinaryReversion.binary_reversion_count x = 0).
Context (Hmem : mem_ok (w_mem w)) (Hgarbage : OrderLog.arrays_ok garbage) (Hclog : OrderLog.clog_ok (w_mem w) c_log).
Context (Hnums : NoDup (OrderLog.seq_of <$> OrderLog.versions c_log)).
Context (Hlong : Entries.printable c_log).
Context (Hversions : 5 < Z.of_nat (length (OrderLog.versions c_log)) <= LogCreation.LOG_SIZE).

(** The driver on a processed trace and the instructions of the slices. *)
Definition react_on (ss : list (Slice Value)) (t : AddrTrace.PmemAddrTrace (Instr := Value)) (p : AddrTrace.PmemAddrPool) :
  outcome (React.driver (E := E)) :=
  React.react_with garbage empty_data options fp fuel' t (Causes.filed (AddrTrace.items t)) p fault_inst
    (Service.Standalone.instructions_of ss) c_log pop w x.

Lemma react_considers fuel slice_ctrl sl d fm G pmem_vars c run t p :
  Slicer.direction sl = dir ->
  flags = (if slice_ctrl : bool then Z.lor DgWalk.DEFAULT_DEPENDENCY_FLAGS DgWalk.CONTROL else DgWalk.DEFAULT_DEPENDENCY_FLAGS) ->
  Slicer.funcDgMap sl = Some fm -> fm !! getFunction fault_inst = Some G -> Slicer.findNode gv G fault_inst = Some start ->
  (forall n, Slicer.lastwalk d !! n <> Some (u32 (Slicer.walk_run_counter d + 1))) -> (size all + 1 <= fuel)%nat ->
  Causes.accessed (accesses run) (AddrTrace.items t) -> Z.of_nat (length (AddrTrace.addresses p)) < 2 ^ 31 ->
  TraceType.typed t -> p ∈ AddrTrace.pool_addrs t ->
  exists ss c', Slicer.slice_fault_instr dg getFunction insts gv walk std_sort fuel true slice_ctrl sl d fault_inst pmem_vars c =
      Some (Some (true, ss, c')) /\ considers run c_log (react_on ss t p).
Proof.
  intros Hdir Hflags Hfm HG Hnode Hlw Hfuel Hrun Hnum Hty Hp.
  destruct (SliceFault.slice_fault_instr_ok dg getFunction insts gv walk std_sort Hinsts Hshort Hsort dir flags start fault_inst all
    Hstart Hall Hblocks Hsize fuel slice_ctrl sl d fm G pmem_vars c) as (ss & c' & Hsl & _); [done..|].
  exists ss, c'. split; [exact Hsl|]. unfold react_on.
  destruct (offset_list_defined t p pop Hty Hp) as [[[offsets addresses] Ho] [it Hit]].
  destruct (react_with_tables garbage empty_data options fp fuel' t (Causes.filed (AddrTrace.items t)) p fault_inst
    (Service.Standalone.instructions_of ss) c_log pop w x it offsets addresses)
    as (_ & _ & _ & m & _ & _ & s & r & _ & _ & _ & Hs & Hr & Hempty & Htables & ->); [done..|].
  pose proof (hc_wf _ _ Hs) as Hwf.
  destruct (Causes.reaction_causes_ok dg getFunction insts gv walk std_sort Hinsts Hshort Hsort dir flags start fault_inst all Hstart Hall
    Hblocks Hsize garbage empty_data c_log (Z.of_nat (length (AddrTrace.addresses p))) (AddrTrace.addr it) options fp m (w_env w) x pop
    fuel slice_ctrl sl d fm G pmem_vars c (accesses run) (AddrTrace.items t) s r fuel') as (ss' & c'' & Hsl' & Hnf & Hret); [done..|].
  rewrite Hsl in Hsl'. injection Hsl' as <- <-. cbv zeta in Hret. split; [apply BinaryReversion.bind_not_nofuel; [done|by intros [] _]|].
  intros dr ([v dr'] & Hout & [= ->])%BinaryReversion.bind_Ret taken. destruct (Hret v dr Hout) as [Htaken Hrest].
  split; [intros q Hq; apply (caused_cause _ _ s q Hs); auto|]. intros Hsucc q Hq. apply Hrest; [|by apply (caused_cause _ _ s q Hs)].
  destruct v; [|done]. destruct Hsucc.
  apply (f_equal React.abs_result) in Hout. rewrite Layout.reaction_reference in Hout by done.
  by apply Causes.ref_items_finished in Hout.
Qed.

(** C1. The system from the instrumented program to the reverted updates.  Instructions,
    none of them a call of sfence and each with debug information where it gets a hook,
    are instrumented and the guid map is written; the program runs with the tracker, whose
    initialisation succeeds, and executes hooks on addresses that are not null; it is
    polled by the monitor, any number of times, with the file at rest between taking
    its size and reading it; and it ends, even with one of the handled signals.  The
    reactor processes the trace with its matcher, slices the fault instruction, which
    has a node in the dependence graph of its function (no function has 100000
    instructions), builds its tables from a checkpoint that can be read, whose versions, more than
    five and not more than the table can hold, have different sequence numbers and are
    long enough to be printed, and reacts in the mode that reverts by slices (not
    arckpt).  The reaction comes to an end, and when nothing undefined happened on the
    way, the sequence numbers it has taken are those of checkpointed updates at
    addresses that the program accessed with an instruction the fault instruction
    depends on; when no reversion made the program succeed, it has taken every one of
    these.  The instruction of an access is the one the matcher answers: a look-alike
    of the executed instruction on the described line, some one when the debug
    information in the module leads to the executed instruction, and this instruction
    itself when it has no other look-alike. *)
Theorem system_considers_causes instrs ln run e segs fuel slice_ctrl sl d fm G pmem_vars c :
  Instrument.guid_at (length instrs) < 2 ^ 32 ->
  Forall (Instrument.defined_target lv) instrs -> Forall (Instrument.describable lv) (Instrument.hooked lv [] instrs) ->
  Forall (fun x => x.1 ∈ Instrument.hooked lv [] instrs /\ 0 < x.2 < 2 ^ 64) run ->
  Tracker.mutex_ok e = true -> Tracker.fopen_ok e = true ->
  Slicer.direction sl = dir ->
  flags = (if slice_ctrl : bool then Z.lor DgWalk.DEFAULT_DEPENDENCY_FLAGS DgWalk.CONTROL else DgWalk.DEFAULT_DEPENDENCY_FLAGS) ->
  Slicer.funcDgMap sl = Some fm -> fm !! getFunction fault_inst = Some G -> Slicer.findNode gv G fault_inst = Some start ->
  (forall n, Slicer.lastwalk d !! n <> Some (u32 (Slicer.walk_run_counter d + 1))) -> (size all + 1 <= fuel)%nat ->
  exists b s text vm ss c',
    Instrument.instrument_list lv (Instrument.new_instrumenter false) instrs = Some (b, s) /\
    Instrument.writeGuidHookPointMap lv ln true s = Some (Some text) /\
    GuidMap.deserialize (Some text) [] false = (GuidMap.Returns true, vm) /\
    Slicer.slice_fault_instr dg getFunction insts gv walk std_sort fuel true slice_ctrl sl d fault_inst pmem_vars c =
      Some (Some (true, ss, c')) /\
    (forall i, Instrument.identified lv debug_line mtext fs i) /\
    (Tracker.accesses (Tracker.start e) (concat segs) = Instrument.accesses s run ->
     Pipeline.ended (Tracker.run (Tracker.start e) (concat segs)) ->
     exists st, Monitor.polls vm (Monitor.initial AddrTrace.new_trace) (Tracing.rounds (Tracker.start e) segs) = Some st /\
       let '(ok, t) := Concurrency.TraceReady.process_trace (M := Matcher.module_matcher debug_line mtext fs) (Monitor.addr_trace st) in
       ok = true -> forall p, last (AddrTrace.pool_addrs t) = Some p -> Z.of_nat (length (AddrTrace.addresses p)) < 2 ^ 31 ->
         considers run c_log (react_on ss t p)).
Proof.
  intros. destruct (Pipeline.live_trace_ok lv debug_line mtext fs instrs ln run e segs) as (b & s & text & vm & Hs & Htext & Hvm & Htrace); [done..|].
  destruct (SliceFault.slice_fault_instr_ok dg getFunction insts gv walk std_sort Hinsts Hshort Hsort dir flags start fault_inst all
    Hstart Hall Hblocks Hsize fuel slice_ctrl sl d fm G pmem_vars c) as (ss & c' & Hsl & _); [done..|].
  exists b, s, text, vm, ss, c'. do 4 (split; [done|]). split; [apply Instrument.identified_ok|]. intros Hacc Hend. destruct (Htrace Hacc Hend) as (st & Hst & Hproc).
  exists st. split; [done|]. destruct (Concurrency.TraceReady.process_trace _) as [ok t]. destruct Hproc as (Hty & _ & Hitems).
  intros Hok p Hp%last_Some_elem_of Hnum. specialize (Hitems Hok).
  destruct (react_considers fuel slice_ctrl sl d fm G pmem_vars c run t p) as (ss' & c'' & Hsl' & Hcons); [done..| |done|done|done|].
  { eapply processed_accesses, Hitems. apply run_offsets_length. }
  by rewrite Hsl in Hsl'; injection Hsl' as <- <-.
Qed.

End System.

(** ** Example

    Of the instructions of [DgWalk] 3 loads from the pool that 8 has mapped, and 9
    loads too, which the fault does not depend on.  The process dies of SIGSEGV.  The
    checkpoint has two versions for each of three addresses; 3 accessed the second. *)
Definition ex_opcode (i : Z) : Instrument.opcode (Value := Z) :=
  if decide (i = 8) then Instrument.CallInst (Some (lit "pmem_map_file")) [30; 50]
  else if decide (i = 3 \/ i = 9) then Instrument.LoadInst 70 else Instrument.OtherInst.
Definition ex_view : Instrument.llvm_view (Value := Z) :=
  Instrument.MkView ex_opcode (fun i => Some (10 + i)) (fun _ => Some (Instrument.MkSubprogram (lit "/src") (lit "a.c") 9))
    (fun _ => lit "main")
    (fun i => lit (if decide (i = 8) then "%9 = call i8* @pmem_map_file(i8* %p), !dbg !4" else "%1 = load i8, i8* %2, !dbg !7")).

(** The module the reactor reads: 5 is on the line of 3 and looks different. *)
Definition ex_lines (i : Z) : option Z := Some (10 + if decide (i = 5) then 3 else i).
Definition ex_texts (i : Z) : chars :=
  lit (if decide (i = 8) then "  %2 = call i8* @pmem_map_file(i8* %p), !dbg !3"
       else if decide (i = 5) then "  %5 = load i64, i64* %4, !dbg !7" else "  %5 = load i8, i8* %4, !dbg !7").
Definition ex_main : Matcher.Function_ Z :=
  Matcher.MkFunction (lit "main") false (Some (Matcher.MkSubprogram (lit "/src") (lit "a.c") 9 (lit "main") [])) [[0; 8; 1]; [3; 5; 9]].

Definition ex_run : list (Z * Z) := [(8, 4096); (3, 4104); (9, 4200)].
Definition ex_segs : list (list Tracker.event) :=
  [[Tracker.Access 4096 200; Tracker.Background]; [Tracker.Access 4104 201; Tracker.Access 4200 202; Tracker.Signal 11]].

(** The pool of 16 bytes is mapped at 4096; the versions are at 100 and 108. *)
Definition ex_pool : memory :=
  Mem (list_to_map (((fun i => (100 + Z.of_nat i, Byte.x01)) <$> seq 0 8) ++ ((fun i => (108 + Z.of_nat i, Byte.x02)) <$> seq 0 8))) 8192
      (list_to_map ((fun i => (Z.of_nat i, Byte.x03)) <$> seq 0 16)) 16 (Some 4096).
Definition ex_node (a q : Z) : node :=
  Node (a - 4096) (CheckpointData a (a - 4096) [100; 108; 0] [8; 8; 0] 1 0 [q; q + 1; 0] 0 0 0 [1; 1; 0]).
Definition ex_checkpoint : checkpoint_log := CheckpointLog 2 3 [[ex_node 4100 1; ex_node 4104 3]; [ex_node 4200 5]].
Definition ex_world : world (list Z) := World ex_pool Rollback.ex_log (replicate 9 256).

Lemma ex_node_ok a q : 0 <= q < 100 -> OrderLog.node_ok ex_pool (ex_node a q).
Proof.
  intros Hq. assert (forall k, 0 <= k <= 1 -> k = 0 \/ k = 1) as Hk by lia.
  split; [cbn; unfold MAX_VERSIONS; lia|..]; intros k Hk'; cbn in Hk'; destruct (Hk k Hk') as [->| ->].
  - exists (replicate 8 Byte.x01), 100. by vm_compute.
  - exists (replicate 8 Byte.x02), 108. by vm_compute.
  - exists q. split; [done|lia].
  - exists (q + 1). split; [done|lia].
  - exists 1. split; [done|lia].
  - exists 1. split; [done|lia].
Qed.

Lemma ex_checkpoint_ok : OrderLog.clog_ok ex_pool ex_checkpoint.
Proof.
  split; [cbn; lia|reflexivity|]. intros n Hn. cbn in Hn.
  repeat (apply elem_of_cons in Hn as [->|Hn]; [apply ex_node_ok; lia|]). by apply elem_of_nil in Hn.
Qed.

Lemma ex_printable : Entries.printable ex_checkpoint.
Proof.
  intros n j Hv. vm_compute in Hv.
  repeat (apply elem_of_cons in Hv as [[= -> ->]|Hv]; [exists 8; split; [reflexivity|lia]|]). by apply elem_of_nil in Hv.
Qed.

Lemma ex_pool_ok : mem_ok ex_pool.
Proof. apply mem_okb_ok. vm_compute. reflexivity. Qed.

Definition ex_cause : Z -> Prop := cause ex_view DgWalk.ex_dg ex_lines ex_texts [ex_main] Backward DgWalk.DEFAULT_DEPENDENCY_FLAGS 0 0 ex_run ex_checkpoint.

Lemma ex_cause_4 : ex_cause 4.
Proof.
  exists 3, 4104. split; [|split].
  - apply (SliceFault.depends_visited DgWalk.ex_dg Backward DgWalk.DEFAULT_DEPENDENCY_FLAGS 0 0 eq_refl). right. exists 3. split; [|reflexivity].
    apply (rtc_l _ _ 1); [|apply rtc_once]; (split; [by eexists|]; split; [by eexists|]; eexists; vm_compute; repeat first [left|right]).
  - exists 3. split; [right; left|vm_compute; reflexivity].
  - exists (ex_node 4104 3), 1. split; [|done]. apply OrderLog.in_versions. split; [right; left|cbn; lia].
Qed.

(** The entries of the checkpoint in a table of seven slots, and what it computes. *)
Definition ex_first := Entries.entries OrderLog.ex_garbage ex_pool ex_checkpoint.
Definition ex_second := '(m, _, _) ← ex_first; Entries.entries OrderLog.ex_garbage m ex_checkpoint.
Definition ex_pairs : list (Z * single_data) :=
  match ex_first with
  | Some (_, _, ds) => (fun d => (sd_sequence_number d, LogCreation.assign (zip [8; 104] [4104; 4200]) d)) <$> ds
  | None => []
  end.
Definition ex_table : seq_log := default (SeqLog.empty_log 7 100) (SeqLog.run_ops (SeqLog.empty_log 7 100) (Layout.inserts ex_pairs)).

Lemma ex_table_wf : SeqLog.wf ex_table.
Proof.
  destruct (SeqLog.run_ops_ok (SeqLog.empty_log 7 100) (Layout.inserts ex_pairs)) as (s & Hs & Hwf & _); [by apply SeqLog.empty_log_wf|done| |].
  - apply (bool_decide_unpack _). vm_compute. exact I.
  - unfold ex_table. by rewrite Hs.
Qed.

Lemma ex_table_model m od ds :
  ex_first = Some (m, od, ds) -> SeqLog.model ex_table = LogCreation.assign (zip [8; 104] [4104; 4200]) <$> Entries.by_number ds.
Proof. intros H. vm_compute in H. injection H as _ _ <-. vm_compute. reflexivity. Qed.

(** The reaction on that table. *)
Definition ex_small (m : memory) (it : AddrTrace.PmemAddrTraceItem (Instr := Z)) (ss : list (Slice Z))
    (t : AddrTrace.PmemAddrTrace (Instr := Z)) (p : AddrTrace.PmemAddrPool) : outcome (React.driver (E := list Z)) :=
  '(_, d) ← Layout.reaction OrderLog.ex_garbage OrderLog.ex_garbage ex_checkpoint (Z.of_nat (length (AddrTrace.addresses p)))
              (AddrTrace.addr it) BinaryReversion.ex_options 1 (AddrTrace.items t) 0 (Causes.filed (AddrTrace.items t))
              (Service.Standalone.instructions_of ss) 3 m (w_env ex_world) (BinaryReversion.Globals (-1) 0 0 0) 4096 ex_table (SeqLog.empty_log 3 93);
  Ret d.
Definition ex_out (ss : list (Slice Z)) (t : AddrTrace.PmemAddrTrace (Instr := Z)) (p : AddrTrace.PmemAddrPool) :=
  react_on 0 OrderLog.ex_garbage OrderLog.ex_garbage BinaryReversion.ex_options 1 3 ex_checkpoint 4096 ex_world
    (BinaryReversion.Globals (-1) 0 0 0) ss t p.

Lemma ex_out_small ss t p m od ds it :
  React.offset_list (AddrTrace.items t) (AddrTrace.addresses p) 4096 = Some ([8; 104], [4104; 4200]) ->
  AddrTrace.items t !! AddrTrace.pool_addr p = Some it -> ex_second = Some (m, od, ds) ->
  Layout.outcome_rel (≡) (ex_out ss t p) (ex_small m it ss t p).
Proof.
  intros Ho Hit H2. unfold ex_second in H2. destruct ex_first as [[[m1 od1] ds1]|] eqn:Hds; [|discriminate]. cbn [mbind option_bind] in H2.
  pose proof (offset_list_lengths _ _ _ _ _ Ho) as [Hlen _]. cbn in Hlen. unfold ex_out, react_on, ex_small.
  eapply (react_with_entries OrderLog.ex_garbage OrderLog.ex_garbage BinaryReversion.ex_options 1 3 t _ p 0 _ ex_checkpoint 4096 ex_world _
    it [8; 104] [4104; 4200] m1 od1 ds1 m od ds).
  - reflexivity.
  - exact ex_pool_ok.
  - exact OrderLog.ex_garbage_ok.
  - exact ex_checkpoint_ok.
  - apply (bool_decide_unpack _). vm_compute. exact I.
  - exact ex_printable.
  - vm_compute. split; [reflexivity|discriminate].
  - rewrite <- Hlen. vm_compute. reflexivity.
  - exact Ho.
  - exact Hit.
  - exact Hds.
  - exact H2.
  - exact ex_table_wf.
  - exact (ex_table_model _ _ _ Hds).
  - apply SeqLog.empty_log_wf. lia.
  - reflexivity.
  - split; [vm_compute; discriminate|vm_compute; reflexivity].
Qed.

Definition ex_taken (dr : React.driver (E := list Z)) : gset Z := dom (SeqLog.model (React.r_log (React.dr_coll dr))).

Definition ex_result (ss : list (Slice Z)) (t : AddrTrace.PmemAddrTrace (Instr := Z)) (p : AddrTrace.PmemAddrPool) : bool :=
  match ex_second, AddrTrace.items t !! AddrTrace.pool_addr p with
  | Some (m, _, _), Some it =>
    React.result (fun d => bool_decide (ex_taken d = {[ 3; 4 ]}) &&
      bool_decide (BinaryReversion.binary_success (BinaryReversion.st_globals (React.dr_search d)) <> 1)) false (ex_small m it ss t p)
  | _, _ => false
  end.

Lemma ex_returns ss t p :
  React.offset_list (AddrTrace.items t) (AddrTrace.addresses p) 4096 = Some ([8; 104], [4104; 4200]) -> ex_result ss t p = true ->
  exists dr, ex_out ss t p = Ret dr /\ ex_taken dr = {[ 3; 4 ]} /\
    BinaryReversion.binary_success (BinaryReversion.st_globals (React.dr_search dr)) <> 1.
Proof.
  unfold ex_result. destruct ex_second as [[[m od] ds]|] eqn:H2; [|intros _ [=]].
  destruct (AddrTrace.items t !! AddrTrace.pool_addr p) as [it|] eqn:Hit; [|intros _ [=]]. intros Ho Hr.
  pose proof (ex_out_small ss t p m od ds it Ho Hit H2) as Hrel. clear H2.
  destruct (ex_small m it ss t p) as [d| |]; [|discriminate Hr..].
  inversion Hrel as [dr ? Hd Hout Heq| |]; subst. exists dr. split; [reflexivity|].
  cbn [React.result] in Hr. apply andb_true_iff in Hr as [H1 H3]. apply bool_decide_eq_true in H1, H3.
  destruct Hd as ((_ & Hx & _) & Hseen & _). cbn in Hx, Hseen. split; [exact (eq_trans Hseen H1)|by rewrite Hx].
Qed.

(** The reaction ends; it has taken the numbers of the two versions of the address that
    instruction 3 accessed, and no others. *)
Lemma system_considers_causes_witness :
  exists ss t p dr,
    (fun it => (AddrTrace.instr it, AddrTrace.addr it)) <$> AddrTrace.items t = [(Some 8, 4096); (Some 3, 4104); (Some 9, 4200)] /\
    ex_out ss t p = Ret dr /\ (forall q, ex_cause q <-> q ∈ ex_taken dr) /\ ex_taken dr = {[ 3; 4 ]}.
Proof.
  destruct (system_considers_causes ex_view DgWalk.ex_dg ex_lines ex_texts [ex_main] (fun i => i) (fun f => [f]) SliceFault.ex_view (fun _ n => [n]) SliceOrder.insertion_sort)
    with (dir := Backward) (flags := DgWalk.DEFAULT_DEPENDENCY_FLAGS) (start := 0) (fault_inst := 0) (all := DgWalk.ex_nodes)
         (garbage := OrderLog.ex_garbage) (empty_data := OrderLog.ex_garbage) (options := BinaryReversion.ex_options) (fp := 1) (fuel' := 3%nat)
         (c_log := ex_checkpoint) (pop := 4096) (w := ex_world) (x := BinaryReversion.Globals (-1) 0 0 0)
         (instrs := [0; 8; 3; 9]) (ln := 0) (run := ex_run) (e := Tracker.ex_system) (segs := ex_segs)
         (fuel := 6%nat) (slice_ctrl := false) (sl := SliceFault.ex_slicer) (d := SliceFault.ex_state) (fm := {[ 0 := 0 ]} : gmap Z Z) (G := 0)
         (pmem_vars := {[ 3 ]} : gset Z) (c := MkCounters 0 0 0)
    as (b & s & text & vm & ss & c' & Hs & Htext & Hvm & Hsl & _ & H).
  - intros i. by left.
  - intros f. cbn. lia.
  - apply SliceOrder.insertion_sort_sorts.
  - reflexivity.
  - exact DgWalk.ex_visited.
  - intros n _. apply DgWalk.ex_blocks.
  - vm_compute. reflexivity.
  - reflexivity.
  - lia.
  - reflexivity.
  - exact ex_pool_ok.
  - exact OrderLog.ex_garbage_ok.
  - exact ex_checkpoint_ok.
  - apply (bool_decide_unpack _). vm_compute. exact I.
  - exact ex_printable.
  - vm_compute. split; [reflexivity|discriminate].
  - reflexivity.
  - repeat constructor; intros pool; vm_compute; discriminate.
  - change (Instrument.hooked ex_view [] [0; 8; 3; 9]) with [8; 3; 9].
    repeat constructor; eexists; (split; [reflexivity|apply (bool_decide_unpack _); vm_compute; reflexivity]).
  - change (Instrument.hooked ex_view [] [0; 8; 3; 9]) with [8; 3; 9]. apply (bool_decide_unpack _). vm_compute. reflexivity.
  - reflexivity.
  - reflexivity.
  - reflexivity.
  - reflexivity.
  - reflexivity.
  - reflexivity.
  - reflexivity.
  - intros n. cbn. by rewrite lookup_empty.
  - vm_compute. lia.
  - vm_compute in Hs. injection Hs as _ <-. vm_compute in Htext. injection Htext as <-. vm_compute in Hvm. injection Hvm as <-.
    destruct H as (st & Hst & Hproc); [vm_compute; reflexivity|vm_compute; exact I|].
    vm_compute in Hst. injection Hst as <-. vm_compute in Hsl. injection Hsl as <- _.
    destruct (Concurrency.TraceReady.process_trace _) as [ok t] eqn:Ht. vm_compute in Ht. injection Ht as <- <-.
    specialize (Hproc eq_refl _ eq_refl eq_refl).
    match type of Hproc with context [react_on _ _ _ _ _ _ _ _ _ _ ?ss ?t ?p] =>
      exists ss, t, p; destruct (ex_returns ss t p) as (dr & Hdr & Htaken & Hsucc); [vm_compute; reflexivity..|] end.
    exists dr. split; [vm_compute; reflexivity|]. split; [exact Hdr|]. split; [|exact Htaken].
    destruct Hproc as [_ Hret]. destruct (Hret dr Hdr) as [H1 H2]. intros q. split; [apply (H2 Hsucc)|apply H1].
Defined.

End EndToEnd.
